(** * File integrity checker (proekt/t16.py)

    A shallow embedding of the program: its three core functions,
    [calculate_hash], [create_checksum_file] and [verify_integrity], and
    the shell around them, [show_menu], [check_single_file], [main] and the
    body of the script, together with the part of the Python runtime they
    rely on: POSIX path manipulation ([os.path]), a small file system,
    [print], [input], exceptions, [hashlib] and [json].

    Conventions.
    - A Python [str] is a [string]; its characters are the bytes of its
      UTF-8 encoding, a lone surrogate being encoded like any other code
      point of its range (the error handler [surrogatepass]). A [str] can
      be written to a text file, whose codec is strict, when it holds no
      surrogate, that is when its bytes are valid UTF-8 ([valid_utf8]);
      what is written is then these bytes. The name of a file that is not
      valid UTF-8 reaches the program as a [str] with lone surrogates.
    - A Python [bytes] value and the content of a file is a [list byte].
    - Python objects read from a JSON document are values of type [json].
    - A Python float is carried as its decimal text: the program never
      computes with the floats it handles (time stamps).
    - Every [print] is an element of type [message]; the output of a run is
      the list of the messages it printed, in order. Standard output takes
      every text: its error handler is not the strict one (as under the C
      locale, where Python sets it to [surrogateescape]).
    - Standard input is the list of the lines it still holds, decoded and
      without their line ends; [input] raises [EOFError] when none is left.
      An interruption from the keyboard is not part of the model. *)

From Stdlib Require Import ZArith NArith List String Ascii Bool Lia Arith.
From Stdlib Require Import Strings.Byte DecimalString.
From Stdlib Require DecimalFacts DecimalPos DecimalZ.
Import ListNotations.

Set Warnings "-register-all".
Local Open Scope string_scope.
Local Open Scope list_scope.

Infix "+++" := String.append (right associativity, at level 60).

(* ===================================================================== *)
(** * Strings *)
(* ===================================================================== *)

Definition sep : ascii := "/"%char.

(** [s.startswith('/')] *)
Definition startswith_sep (s : string) : bool :=
  match s with
  | String c _ => Ascii.eqb c sep
  | EmptyString => false
  end.

(** [s.endswith('/')] *)
Fixpoint endswith_sep (s : string) : bool :=
  match s with
  | EmptyString => false
  | String c EmptyString => Ascii.eqb c sep
  | String _ s' => endswith_sep s'
  end.

(** [s.split('/')]: the list is never empty. *)
Fixpoint split (s : string) : list string :=
  match s with
  | EmptyString => [EmptyString]
  | String c s' =>
      if Ascii.eqb c sep then EmptyString :: split s'
      else match split s' with
           | x :: xs => String c x :: xs
           | [] => [String c EmptyString]
           end
  end.

(** ['/'.join(l)] *)
Fixpoint join_sep (l : list string) : string :=
  match l with
  | [] => EmptyString
  | [x] => x
  | x :: xs => x +++ String sep (join_sep xs)
  end.

(** [c in s] for a character. *)
Fixpoint has_sep (s : string) : bool :=
  match s with
  | EmptyString => false
  | String c s' => Ascii.eqb c sep || has_sep s'
  end.

(** The names a directory can hold: not empty, no separator, and neither
    of the two special entries. *)
Definition valid_name (s : string) : bool :=
  negb (s =? "")%string && negb (has_sep s) &&
  negb (s =? ".")%string && negb (s =? "..")%string.

(** ** The codec of text files

    The strict UTF-8 decoder, as an automaton over the bytes. Between two
    characters it is in [U_start]. Inside a character it waits for a
    continuation byte, [80] to [BF], after which [more] others follow
    ([U_tail more]); after the lead bytes [E0], [ED], [F0] and [F4] the
    byte that follows is restricted further, so that encodings that are
    too long, surrogates and code points above U+10FFFF are refused. *)
Inductive utf8_state : Type :=
| U_start
| U_tail (more : nat)
| U_after_E0
| U_after_ED
| U_after_F0
| U_after_F4
| U_invalid.

Definition between (lo hi : N) (n : N) : bool := ((lo <=? n) && (n <=? hi))%N.

Definition utf8_step (st : utf8_state) (c : ascii) : utf8_state :=
  let n := N_of_ascii c in
  match st with
  | U_start =>
      if (n <? 128)%N then U_start
      else if (n <? 194)%N then U_invalid
      else if (n <? 224)%N then U_tail 0
      else if (n =? 224)%N then U_after_E0
      else if (n =? 237)%N then U_after_ED
      else if (n <? 240)%N then U_tail 1
      else if (n =? 240)%N then U_after_F0
      else if (n <? 244)%N then U_tail 2
      else if (n =? 244)%N then U_after_F4
      else U_invalid
  | U_tail more =>
      if between 128 191 n then
        match more with
        | O => U_start
        | S more' => U_tail more'
        end
      else U_invalid
  | U_after_E0 => if between 160 191 n then U_tail 0 else U_invalid
  | U_after_ED => if between 128 159 n then U_tail 0 else U_invalid
  | U_after_F0 => if between 144 191 n then U_tail 1 else U_invalid
  | U_after_F4 => if between 128 143 n then U_tail 1 else U_invalid
  | U_invalid => U_invalid
  end.

Fixpoint utf8_run (st : utf8_state) (s : string) : utf8_state :=
  match s with
  | EmptyString => st
  | String c s' => utf8_run (utf8_step st c) s'
  end.

(** [s] holds no surrogate: [s.encode('utf-8')] succeeds; as the content
    of a file, [s] can be decoded. *)
Definition valid_utf8 (s : string) : bool :=
  match utf8_run U_start s with
  | U_start => true
  | _ => false
  end.

(** The text a file opened for reading in text mode gives for the decoded
    content [s]: every end of line, [\r\n] or [\r], becomes [\n]. *)
Fixpoint universal_newlines (s : string) : string :=
  match s with
  | EmptyString => EmptyString
  | String c s' =>
      if Ascii.eqb c "013" then
        match s' with
        | String c' s'' =>
            if Ascii.eqb c' "010" then String "010" (universal_newlines s'')
            else String "010" (universal_newlines s')
        | EmptyString => String "010" EmptyString
        end
      else String c (universal_newlines s')
  end.

(** [''.join(chunks)] *)
Fixpoint concat_chunks (chunks : list string) : string :=
  match chunks with
  | [] => EmptyString
  | c :: chunks' => c +++ concat_chunks chunks'
  end.

(** Every chunk can be written to a text file. *)
Definition encodable (chunks : list string) : bool := forallb valid_utf8 chunks.

(** The chunks written before the first one that the codec refuses. *)
Fixpoint encodable_prefix (chunks : list string) : list string :=
  match chunks with
  | [] => []
  | c :: chunks' => if valid_utf8 c then c :: encodable_prefix chunks' else []
  end.

(* ===================================================================== *)
(** * [posixpath]: the functions of [os.path] that only look at strings *)
(* ===================================================================== *)

Module posixpath.

(** [os.path.join(a, b)] *)
Definition join (a b : string) : string :=
  if startswith_sep b then b
  else if (a =? "")%string || endswith_sep a then a +++ b
  else a +++ String sep b.

(** [os.path.join] applied to all the elements of a non-empty [l]. *)
Definition join_all (l : list string) : string :=
  match l with
  | [] => EmptyString
  | a :: p => fold_left join p a
  end.

(** The loop of [normpath] over the components: [new_comps] is kept in
    reverse order (its head is the last component appended). *)
Fixpoint norm_comps (initial_slashes : bool) (comps : list string)
  (new_comps : list string) : list string :=
  match comps with
  | [] => rev new_comps
  | comp :: rest =>
      if (comp =? "")%string || (comp =? ".")%string then
        norm_comps initial_slashes rest new_comps
      else if negb (comp =? "..")%string
              || (negb initial_slashes && match new_comps with [] => true | _ => false end)
              || match new_comps with last :: _ => (last =? "..")%string | [] => false end
      then norm_comps initial_slashes rest (comp :: new_comps)
      else match new_comps with
           | _ :: popped => norm_comps initial_slashes rest popped
           | [] => norm_comps initial_slashes rest new_comps
           end
  end.

(** The number of leading slashes [normpath] keeps: two when the path
    starts with exactly two, one when it starts with one or with three or
    more, none otherwise. *)
Definition initial_slashes (path : string) : nat :=
  match path with
  | String c1 (String c2 (String c3 _)) =>
      if Ascii.eqb c1 sep then
        if Ascii.eqb c2 sep && negb (Ascii.eqb c3 sep) then 2 else 1
      else 0
  | String c1 (String c2 EmptyString) =>
      if Ascii.eqb c1 sep then if Ascii.eqb c2 sep then 2 else 1 else 0
  | String c1 EmptyString => if Ascii.eqb c1 sep then 1 else 0
  | EmptyString => 0
  end.

Fixpoint slashes (n : nat) : string :=
  match n with
  | 0 => EmptyString
  | S n' => String sep (slashes n')
  end.

(** [os.path.normpath(path)] *)
Definition normpath (path : string) : string :=
  if (path =? "")%string then "."
  else
    let i := initial_slashes path in
    let comps := norm_comps (negb (Nat.eqb i 0)) (split path) [] in
    let path' := slashes i +++ join_sep comps in
    if (path' =? "")%string then "." else path'.

(** [os.path.abspath(path)], with the working directory [cwd] (the
    result of [os.getcwd()]). *)
Definition abspath (cwd : string) (path : string) : string :=
  normpath (if startswith_sep path then path else join cwd path).

(** [os.path.commonprefix([l1, l2])] on lists of components, as a length. *)
Fixpoint commonprefix_len (l1 l2 : list string) : nat :=
  match l1, l2 with
  | x :: l1', y :: l2' => if (x =? y)%string then S (commonprefix_len l1' l2') else 0
  | _, _ => 0
  end.

(** [[x for x in s.split('/') if x]] *)
Definition nonempty_comps (s : string) : list string :=
  filter (fun x => negb (x =? "")%string) (split s).

(** [os.path.relpath(path, start)]; [None] is the [ValueError] raised for
    an empty [path]. *)
Definition relpath (cwd : string) (path start : string) : option string :=
  if (path =? "")%string then None
  else
    let start_list := nonempty_comps (abspath cwd start) in
    let path_list := nonempty_comps (abspath cwd path) in
    let i := commonprefix_len start_list path_list in
    let rel_list := repeat ".." (List.length start_list - i) ++ skipn i path_list in
    match rel_list with
    | [] => Some "."
    | _ => Some (join_all rel_list)
    end.

End posixpath.

(* ===================================================================== *)
(** * Python values *)
(* ===================================================================== *)

(** The objects [json.load] builds, which are also the objects
    [json.dump] accepts. [JObj] carries the pairs of a JSON object in the
    order of the document; [dict_of_pairs] turns them into a [dict]. *)
Inductive json : Type :=
| JNull
| JBool (b : bool)
| JInt (n : Z)
| JFloat (repr : string)
| JStr (s : string)
| JArr (items : list json)
| JObj (pairs : list (string * json)).

(** A Python [dict] with string keys: an association list without
    duplicate keys, in insertion order. *)
Definition dict : Type := list (string * json).

Fixpoint dict_get (d : dict) (k : string) : option json :=
  match d with
  | [] => None
  | (k', v) :: d' => if (k' =? k)%string then Some v else dict_get d' k
  end.

(** [d[k] = v]: an existing key keeps its place, a new one goes last. *)
Fixpoint dict_set (d : dict) (k : string) (v : json) : dict :=
  match d with
  | [] => [(k, v)]
  | (k', v') :: d' =>
      if (k' =? k)%string then (k, v) :: d' else (k', v') :: dict_set d' k v
  end.

Definition dict_of_pairs (l : list (string * json)) : dict :=
  fold_left (fun d kv => dict_set d (fst kv) (snd kv)) l [].

Definition dict_keys (d : dict) : list string := map fst d.

(** Exceptions, all of them subclasses of [Exception]. *)
Inductive exn : Type :=
| FileNotFoundError | NotADirectoryError | IsADirectoryError
| PermissionError | OSError
| ValueError | JSONDecodeError | UnicodeEncodeError | UnicodeDecodeError
| KeyError | TypeError | AttributeError.

(** The classes named in the [except] clauses of the program. *)
Inductive exn_class : Type :=
| C_FileNotFoundError | C_IOError | C_JSONDecodeError | C_Exception.

(** [isinstance(e, c)]: [IOError] is [OSError], the parent of the four
    file errors; [JSONDecodeError] and the two errors of the codec derive
    from [ValueError]. *)
Definition isinstance (e : exn) (c : exn_class) : bool :=
  match c, e with
  | C_Exception, _ => true
  | C_FileNotFoundError, FileNotFoundError => true
  | C_IOError, (FileNotFoundError | NotADirectoryError | IsADirectoryError
               | PermissionError | OSError) => true
  | C_JSONDecodeError, JSONDecodeError => true
  | _, _ => false
  end.

(** [v[k]] for a string [k]. *)
Definition py_getitem (v : json) (k : string) : json + exn :=
  match v with
  | JObj l => match dict_get (dict_of_pairs l) k with
              | Some x => inl x
              | None => inr KeyError
              end
  | _ => inr TypeError
  end.

(** [len(v)] *)
Definition py_len (v : json) : nat + exn :=
  match v with
  | JObj l => inl (List.length (dict_of_pairs l))
  | JArr l => inl (List.length l)
  | JStr s => inl (String.length s)
  | _ => inr TypeError
  end.

(** [v.items()] *)
Definition py_items (v : json) : dict + exn :=
  match v with
  | JObj l => inl (dict_of_pairs l)
  | _ => inr AttributeError
  end.

(** [s == v] for a string [s]. *)
Definition py_str_eq (s : string) (v : json) : bool :=
  match v with
  | JStr s' => (s =? s')%string
  | _ => false
  end.

(* ===================================================================== *)
(** * The file system *)
(* ===================================================================== *)

(** A regular file: its content, its modification time, whether this
    process may open it, and the offset of a byte that cannot be read (a
    device error), if any. *)
Record inode : Type := {
  i_data : list byte;
  i_mtime : string;
  i_perm : bool;
  i_fault : option nat
}.

(** [Broken] is a symbolic link whose target does not exist, in a
    directory that does not exist either: the link can be neither read nor
    written through. Other symbolic links are not modelled. *)
Inductive node : Type :=
| File (f : inode)
| Broken
| Dir (entries : list (string * node)).

Fixpoint find_entry (es : list (string * node)) (name : string) : option node :=
  match es with
  | [] => None
  | (k, n) :: es' => if (k =? name)%string then Some n else find_entry es' name
  end.

Fixpoint set_entry (es : list (string * node)) (name : string) (n : node)
  : list (string * node) :=
  match es with
  | [] => [(name, n)]
  | (k, n') :: es' =>
      if (k =? name)%string then (k, n) :: es' else (k, n') :: set_entry es' name n
  end.

(** The node at the absolute path whose components are [p]. *)
Fixpoint lookup (n : node) (p : list string) : option node :=
  match p with
  | [] => Some n
  | c :: p' =>
      match n with
      | Dir es => match find_entry es c with
                  | Some child => lookup child p'
                  | None => None
                  end
      | _ => None
      end
  end.

(** Put [new] at [p], creating the last component when it is missing. *)
Fixpoint update (n : node) (p : list string) (new : node) : node :=
  match p with
  | [] => new
  | c :: p' =>
      match n with
      | Dir es =>
          match find_entry es c with
          | Some child => Dir (set_entry es c (update child p' new))
          | None => match p' with
                    | [] => Dir (set_entry es c new)
                    | _ => n
                    end
          end
      | _ => n
      end
  end.

(** Path resolution, one component at a time from the directory [cur]:
    every step needs [cur] to be a directory. *)
Fixpoint namei (root : node) (cur : list string) (comps : list string)
  : list string + exn :=
  match comps with
  | [] => inl cur
  | c :: rest =>
      match lookup root cur with
      | Some (Dir _) =>
          if (c =? "")%string || (c =? ".")%string then namei root cur rest
          else if (c =? "..")%string then namei root (removelast cur) rest
          else namei root (cur ++ [c]) rest
      | Some (File _) => inr NotADirectoryError
      | _ => inr FileNotFoundError
      end
  end.

(** The state of the world: the root directory, the working directory of
    the process (absolute, as components), the text [datetime.now()
    .isoformat()] gives and the time stamp a file written now gets. *)
Record world : Type := {
  w_root : node;
  w_cwd : list string;
  w_now : string;
  w_mtime : string
}.

(** [os.getcwd()] *)
Definition getcwd (w : world) : string := String sep (join_sep (w_cwd w)).

(** The components of the absolute path that [path] names. *)
Definition resolve (w : world) (path : string) : list string + exn :=
  if (path =? "")%string then inr FileNotFoundError
  else namei (w_root w) (if startswith_sep path then [] else w_cwd w) (split path).

Definition stat (w : world) (path : string) : node + exn :=
  match resolve w path with
  | inl p => match lookup (w_root w) p with
             | Some Broken | None => inr FileNotFoundError
             | Some n => inl n
             end
  | inr e => inr e
  end.

(** The triples [os.walk] yields below the directory [n] named [top]:
    top-down, each directory before its subdirectories. *)
Fixpoint walk (top : string) (n : node) {struct n}
  : list (string * list string * list string) :=
  match n with
  | Dir es =>
      (top,
       map fst (filter (fun e => match snd e with Dir _ => true | _ => false end) es),
       map fst (filter (fun e => match snd e with Dir _ => false | _ => true end) es))
      :: (fix walk_sub (l : list (string * node)) :=
            match l with
            | [] => []
            | (name, child) :: l' =>
                match child with
                | Dir _ => walk (posixpath.join top name) child ++ walk_sub l'
                | _ => walk_sub l'
                end
            end) es
  | _ => []
  end.

(* ===================================================================== *)
(** * Printed output *)
(* ===================================================================== *)

(** One constructor for each [print] of the three functions, with the
    values the text is formatted from. *)
Inductive message : Type :=
(* calculate_hash *)
| MsgHashNotFound (file_path : string)
| MsgHashReadError (file_path : string) (e : exn)
(* create_checksum_file *)
| MsgNoDirectory (directory_path : string)
| MsgScanning (directory_path : string)
| MsgRule
| MsgSkipChecksums (file_name : string)
| MsgProcessed (rel_path : string)
| MsgProcessError (file_path : string) (e : exn)
| MsgDone (file_count : nat)
| MsgSavedTo (output_file : string)
| MsgUnexpected (e : exn)
(* verify_integrity *)
| MsgVerifying (directory_path : json)
| MsgAlgorithm (algorithm : json)
| MsgConfirmed (rel_path : string)
| MsgViolated (rel_path : string)
| MsgExpected (original_hash : json)
| MsgActual (current_hash : string)
| MsgVerifyError (rel_path : string) (e : exn)
| MsgMissing (rel_path : string)
| MsgResults
| MsgTotal (n : nat)
| MsgPassed (n : nat)
| MsgFailed (n : nat)
| MsgMissingCount (n : nat)
| MsgAllIntact
| MsgProblems
| MsgChecksumsNotFound (checksum_file : string)
| MsgBadJSON (checksum_file : string)
| MsgVerifyUnexpected (e : exn).

(* ===================================================================== *)
(** * The monad of the program: state, exceptions and output *)
(* ===================================================================== *)

Record run (A : Type) : Type := Run {
  result : A + exn;
  final : world;
  output : list message
}.
Arguments Run {A} _ _ _.
Arguments result {A} _.
Arguments final {A} _.
Arguments output {A} _.

Definition M (A : Type) : Type := world -> run A.

Definition ret {A} (a : A) : M A := fun w => Run (inl a) w [].

Definition raise {A} (e : exn) : M A := fun w => Run (inr e) w [].

Definition bind {A B} (c : M A) (k : A -> M B) : M B :=
  fun w =>
    let r := c w in
    match result r with
    | inl a => let r' := k a (final r) in
               Run (result r') (final r') (output r ++ output r')
    | inr e => Run (inr e) (final r) (output r)
    end.

Notation "x <- c ;; k" := (bind c (fun x => k))
  (at level 100, c at next level, right associativity).
Notation "c ;;; k" := (bind c (fun _ => k))
  (at level 100, right associativity).

Definition print (m : message) : M unit := fun w => Run (inl tt) w [m].

(** A pure operation that may raise. *)
Definition lift {A} (r : A + exn) : M A :=
  match r with
  | inl a => ret a
  | inr e => raise e
  end.

(** A read of the world. *)
Definition ask {A} (f : world -> A + exn) : M A := fun w => lift (f w) w.

(** [try: c  except ...: handler]: [handlers e] is the body of the first
    clause that matches [e], if one does. *)
Definition try_except {A} (c : M A) (handlers : exn -> option (M A)) : M A :=
  fun w =>
    let r := c w in
    match result r with
    | inl _ => r
    | inr e =>
        match handlers e with
        | Some h => let r' := h (final r) in
                    Run (result r') (final r') (output r ++ output r')
        | None => r
        end
    end.

(** [for x in l: s = body(x, s)] *)
Fixpoint for_each {A S} (l : list A) (body : A -> S -> M S) (s : S) : M S :=
  match l with
  | [] => ret s
  | x :: l' => s' <- body x s ;; for_each l' body s'
  end.

(* ===================================================================== *)
(** * [os] and [open] *)
(* ===================================================================== *)

(** [os.path.exists(path)]: never raises. *)
Definition os_path_exists (path : string) : M bool :=
  ask (fun w => match stat w path with
                | inl _ => inl true
                | inr _ => inl false
                end).

(** [os.path.getsize(path)] *)
Definition os_path_getsize (path : string) : M Z :=
  ask (fun w => match stat w path with
                | inl (File f) => inl (Z.of_nat (List.length (i_data f)))
                | inl _ => inl 4096%Z
                | inr e => inr e
                end).

(** [os.path.getmtime(path)]; directories carry no time stamp of their
    own in this model. *)
Definition os_path_getmtime (path : string) : M string :=
  ask (fun w => match stat w path with
                | inl (File f) => inl (i_mtime f)
                | inl _ => inl "0.0"
                | inr e => inr e
                end).

(** [os.path.relpath(path, start)] *)
Definition os_path_relpath (path start : string) : M string :=
  ask (fun w => match posixpath.relpath (getcwd w) path start with
                | Some r => inl r
                | None => inr ValueError
                end).

(** [os.path.join(a, b)] where [a] is any Python object: anything but a
    string is a [TypeError]. *)
Definition os_path_join (a : json) (b : string) : M string :=
  match a with
  | JStr a' => ret (posixpath.join a' b)
  | _ => raise TypeError
  end.

(** [list(os.walk(top))]: errors of the scan are ignored. *)
Definition os_walk (top : string) : M (list (string * list string * list string)) :=
  ask (fun w => match stat w top with
                | inl n => inl (walk top n)
                | inr _ => inl []
                end).

(** A file object open for reading: the content, the position, and the
    unreadable offset of the file. *)
Record handle : Type := {
  h_data : list byte;
  h_pos : nat;
  h_fault : option nat
}.

(** [open(path, 'rb')] *)
Definition open_rb (path : string) : M handle :=
  ask (fun w => match stat w path with
                | inl (File f) =>
                    if i_perm f
                    then inl {| h_data := i_data f; h_pos := 0; h_fault := i_fault f |}
                    else inr PermissionError
                | inl _ => inr IsADirectoryError
                | inr e => inr e
                end).

(** [file.read(n)]: the next [n] bytes, or what is left of the file; the
    read fails when it reaches the unreadable offset. The object after the
    call is returned with the chunk. *)
Definition file_read (file : handle) (n : nat) : M (list byte * handle) :=
  let rest := skipn (h_pos file) (h_data file) in
  let chunk := firstn n rest in
  match h_fault file with
  | Some k =>
      if ((h_pos file <=? k) && (k <? h_pos file + List.length chunk))%nat
      then raise OSError
      else ret (chunk, {| h_data := h_data file;
                          h_pos := h_pos file + List.length chunk;
                          h_fault := h_fault file |})
  | None => ret (chunk, {| h_data := h_data file;
                           h_pos := h_pos file + List.length chunk;
                           h_fault := h_fault file |})
  end.

(** [with open(path, 'w', encoding='utf-8') as f:] followed by one
    [f.write(chunk)] for each of the [chunks]. Opening the file creates it
    or empties it; the directory it goes in must exist. A chunk the codec
    refuses raises [UnicodeEncodeError]; the file, which the [with] block
    closes, then holds the chunks written before it. *)
Definition write_file (path : string) (chunks : list string) : M unit :=
  fun w =>
    match resolve w path with
    | inr e => Run (inr e) w []
    | inl p =>
        let data := list_byte_of_string (concat_chunks (encodable_prefix chunks)) in
        let new := File {| i_data := data; i_mtime := w_mtime w;
                           i_perm := true; i_fault := None |} in
        let w' := {| w_root := update (w_root w) p new; w_cwd := w_cwd w;
                     w_now := w_now w; w_mtime := w_mtime w |} in
        let closed :=
          Run (if encodable chunks then inl tt else inr UnicodeEncodeError) w' [] in
        match lookup (w_root w) p with
        | Some (Dir _) => Run (inr IsADirectoryError) w []
        | Some Broken => Run (inr FileNotFoundError) w []
        | Some (File f) => if i_perm f then closed else Run (inr PermissionError) w []
        | None => closed
        end
    end.

(** [datetime.now().isoformat()] *)
Definition datetime_now_isoformat : M string := ask (fun w => inl (w_now w)).

(** [open(path, 'r', encoding='utf-8')] followed by [f.read()]: the whole
    content is read, then decoded, which raises [UnicodeDecodeError] when
    it is not valid UTF-8, and its ends of line are translated. *)
Definition read_text (path : string) : M string :=
  file <- open_rb path ;;
  r <- file_read file (List.length (h_data file)) ;;
  let decoded := string_of_list_byte (fst r) in
  if valid_utf8 decoded then ret (universal_newlines decoded)
  else raise UnicodeDecodeError.

(* ===================================================================== *)
(** * [hashlib] and [json] *)
(* ===================================================================== *)

Inductive algo : Type := MD5 | SHA1 | SHA256.

(** The digest functions: [digest a data] is the digest of the whole of
    [data], as bytes. *)
Class Hashlib : Type := {
  digest : algo -> list byte -> list byte
}.

(** A hash object holds the algorithm and the data it has been fed:
    [hashlib] specifies that repeated calls of [update] are equivalent to
    a single call with the concatenation of the arguments. *)
Record hash_state : Type := {
  hs_algo : algo;
  hs_data : list byte
}.

Definition hashlib_new (a : algo) : hash_state :=
  {| hs_algo := a; hs_data := [] |}.

Definition hash_update (h : hash_state) (chunk : list byte) : hash_state :=
  {| hs_algo := hs_algo h; hs_data := hs_data h ++ chunk |}.

Definition hex_digit (n : N) : ascii :=
  match String.get (N.to_nat n) "0123456789abcdef" with
  | Some c => c
  | None => "0"%char
  end.

Fixpoint hex (l : list byte) : string :=
  match l with
  | [] => EmptyString
  | b :: l' =>
      String (hex_digit (N.div (Byte.to_N b) 16))
        (String (hex_digit (N.modulo (Byte.to_N b) 16)) (hex l'))
  end.

Definition hexdigest `{Hashlib} (h : hash_state) : string :=
  hex (digest (hs_algo h) (hs_data h)).

(** [json_iterencode v] is the list of the chunks of text that
    [json.dump(v, f, indent=2, ensure_ascii=False)] writes to [f], one
    [f.write] each, and [json_loads] is [json.loads]; [None] is
    [JSONDecodeError]. *)
Class JsonLib : Type := {
  json_iterencode : json -> list string;
  json_loads : string -> option json
}.

(** [json.dumps(v, indent=2, ensure_ascii=False)]: the chunks joined. *)
Definition json_dumps `{JsonLib} (v : json) : string :=
  concat_chunks (json_iterencode v).

(* ===================================================================== *)
(** * The program *)
(* ===================================================================== *)

Section Program.

Context `{Hashlib} `{JsonLib}.

(** The [while chunk:] loop of [calculate_hash]. [fuel] bounds the number
    of iterations; [read_blocks_fuel] shows that the length of the file is
    enough, so the last case is never reached. *)
Fixpoint read_blocks (fuel : nat) (block_size : nat) (file : handle)
  (hash_obj : hash_state) (chunk : list byte) : M hash_state :=
  match chunk with
  | [] => ret hash_obj
  | _ :: _ =>
      match fuel with
      | S fuel' =>
          let hash_obj := hash_update hash_obj chunk in
          r <- file_read file block_size ;;
          read_blocks fuel' block_size (snd r) hash_obj (fst r)
      | 0 => ret hash_obj
      end
  end.

(** The first [file.read] and the loop: what the [with] block does to
    [hash_obj]. *)
Definition update_from_file (block_size : nat) (file : handle)
  (hash_obj : hash_state) : M hash_state :=
  r <- file_read file block_size ;;
  read_blocks (List.length (h_data file)) block_size (snd r) hash_obj (fst r).

Definition calculate_hash (file_path : string) (algorithm : json) : M string :=
  hash_obj <- match algorithm with
              | JStr a =>
                  if (a =? "md5")%string then ret (hashlib_new MD5)
                  else if (a =? "sha1")%string then ret (hashlib_new SHA1)
                  else if (a =? "sha256")%string then ret (hashlib_new SHA256)
                  else raise ValueError
              | _ => raise ValueError
              end ;;
  try_except
    (file <- open_rb file_path ;;
     let block_size := N.to_nat 65536 in
     hash_obj <- update_from_file block_size file hash_obj ;;
     ret (hexdigest hash_obj))
    (fun e =>
       if isinstance e C_FileNotFoundError then
         Some (print (MsgHashNotFound file_path) ;;; raise e)
       else if isinstance e C_IOError then
         Some (print (MsgHashReadError file_path e) ;;; raise e)
       else None).

(** The body of the inner loop of [create_checksum_file]; the state is
    [checksums['files']] with [file_count]. *)
Definition process_file (directory_path output_file algorithm : string)
  (root file_name : string) (st : dict * nat) : M (dict * nat) :=
  let file_path := posixpath.join root file_name in
  if (file_name =? output_file)%string then
    print (MsgSkipChecksums file_name) ;;;
    ret st
  else
    try_except
      (file_hash <- calculate_hash file_path (JStr algorithm) ;;
       rel_path <- os_path_relpath file_path directory_path ;;
       size <- os_path_getsize file_path ;;
       modified <- os_path_getmtime file_path ;;
       let files := dict_set (fst st) rel_path
                      (JObj [("hash", JStr file_hash);
                             ("size", JInt size);
                             ("modified", JFloat modified)]) in
       print (MsgProcessed rel_path) ;;;
       ret (files, S (snd st)))
      (fun e =>
         if isinstance e C_Exception then
           Some (print (MsgProcessError file_path e) ;;; ret st)
         else None).

(** The dictionary [checksums] at the time it is written. *)
Definition checksums_of (created_at algorithm directory_path : string)
  (files : dict) : json :=
  JObj [("metadata", JObj [("created_at", JStr created_at);
                           ("algorithm", JStr algorithm);
                           ("directory", JStr directory_path)]);
        ("files", JObj files)].

Definition create_checksum_file (directory_path output_file algorithm : string)
  : M bool :=
  created_at <- datetime_now_isoformat ;;
  try_except
    (dir_exists <- os_path_exists directory_path ;;
     if negb dir_exists then
       print (MsgNoDirectory directory_path) ;;;
       ret false
     else
       print (MsgScanning directory_path) ;;;
       print MsgRule ;;;
       triples <- os_walk directory_path ;;
       st <- for_each triples
               (fun t st =>
                  for_each (snd t)
                    (process_file directory_path output_file algorithm (fst (fst t)))
                    st)
               ([], 0) ;;
       write_file output_file
         (json_iterencode (checksums_of created_at algorithm directory_path (fst st))) ;;;
       print MsgRule ;;;
       print (MsgDone (snd st)) ;;;
       print (MsgSavedTo output_file) ;;;
       ret true)
    (fun e =>
       if isinstance e C_Exception then
         Some (print (MsgUnexpected e) ;;; ret false)
       else None).

(** [verification_results] *)
Record results : Type := {
  passed : nat;
  failed : nat;
  missing : nat;
  total : nat
}.

Definition incr_passed (r : results) : results :=
  {| passed := S (passed r); failed := failed r; missing := missing r; total := total r |}.
Definition incr_failed (r : results) : results :=
  {| passed := passed r; failed := S (failed r); missing := missing r; total := total r |}.
Definition incr_missing (r : results) : results :=
  {| passed := passed r; failed := failed r; missing := S (missing r); total := total r |}.

(** The body of the loop of [verify_integrity]. *)
Definition verify_entry (directory_path algorithm : json)
  (entry : string * json) (vr : results) : M results :=
  let rel_path := fst entry in
  let file_info := snd entry in
  file_path <- os_path_join directory_path rel_path ;;
  file_exists <- os_path_exists file_path ;;
  if file_exists then
    try_except
      (current_hash <- calculate_hash file_path algorithm ;;
       original_hash <- lift (py_getitem file_info "hash") ;;
       if py_str_eq current_hash original_hash then
         print (MsgConfirmed rel_path) ;;;
         ret (incr_passed vr)
       else
         print (MsgViolated rel_path) ;;;
         print (MsgExpected original_hash) ;;;
         print (MsgActual current_hash) ;;;
         ret (incr_failed vr))
      (fun e =>
         if isinstance e C_Exception then
           Some (print (MsgVerifyError rel_path e) ;;; ret (incr_failed vr))
         else None)
  else
    print (MsgMissing rel_path) ;;;
    ret (incr_missing vr).

(** The summary and the verdict that end a run of [verify_integrity]. *)
Definition summary (vr : results) : M bool :=
  print MsgRule ;;;
  print MsgResults ;;;
  print (MsgTotal (total vr)) ;;;
  print (MsgPassed (passed vr)) ;;;
  print (MsgFailed (failed vr)) ;;;
  print (MsgMissingCount (missing vr)) ;;;
  if (failed vr =? 0)%nat && (missing vr =? 0)%nat then
    print MsgAllIntact ;;;
    ret true
  else
    print MsgProblems ;;;
    ret false.

Definition verify_integrity (checksum_file : string) (directory_path : option string)
  : M bool :=
  try_except
    (text <- read_text checksum_file ;;
     checksums <- match json_loads text with
                  | Some v => ret v
                  | None => raise JSONDecodeError
                  end ;;
     metadata <- lift (py_getitem checksums "metadata") ;;
     algorithm <- lift (py_getitem metadata "algorithm") ;;
     metadata <- lift (py_getitem checksums "metadata") ;;
     original_dir <- lift (py_getitem metadata "directory") ;;
     let directory_path := match directory_path with
                           | None => original_dir
                           | Some d => JStr d
                           end in
     print (MsgVerifying directory_path) ;;;
     print (MsgAlgorithm algorithm) ;;;
     print MsgRule ;;;
     files <- lift (py_getitem checksums "files") ;;
     n <- lift (py_len files) ;;
     let verification_results :=
       {| passed := 0; failed := 0; missing := 0; total := n |} in
     files <- lift (py_getitem checksums "files") ;;
     items <- lift (py_items files) ;;
     vr <- for_each items (verify_entry directory_path algorithm)
             verification_results ;;
     summary vr)
    (fun e =>
       if isinstance e C_FileNotFoundError then
         Some (print (MsgChecksumsNotFound checksum_file) ;;; ret false)
       else if isinstance e C_JSONDecodeError then
         Some (print (MsgBadJSON checksum_file) ;;; ret false)
       else if isinstance e C_Exception then
         Some (print (MsgVerifyUnexpected e) ;;; ret false)
       else None).

End Program.

(* ===================================================================== *)

(** * Strings of the shell: [strip], [lower] and [upper] *)

(* ===================================================================== *)

(** The characters [str.isspace] accepts, by the bytes of their UTF-8
    encoding: the ASCII blanks and separators, U+0085 and U+00A0 on two
    bytes, and U+1680, U+2000 to U+200A, U+2028, U+2029, U+202F, U+205F
    and U+3000 on three. *)
Definition is_space1 (c : ascii) : bool :=
  let n := N_of_ascii c in
  ((9 <=? n) && (n <=? 13) || (28 <=? n) && (n <=? 32))%N.

Definition is_space2 (c1 c2 : ascii) : bool :=
  let n1 := N_of_ascii c1 in
  let n2 := N_of_ascii c2 in
  ((n1 =? 194) && ((n2 =? 133) || (n2 =? 160)))%N.

Definition is_space3 (c1 c2 c3 : ascii) : bool :=
  let n1 := N_of_ascii c1 in
  let n2 := N_of_ascii c2 in
  let n3 := N_of_ascii c3 in
  ((n1 =? 225) && (n2 =? 154) && (n3 =? 128)
   || (n1 =? 226) && (n2 =? 128)
      && ((128 <=? n3) && (n3 <=? 138) || (n3 =? 168) || (n3 =? 169) || (n3 =? 175))
   || (n1 =? 226) && (n2 =? 129) && (n3 =? 159)
   || (n1 =? 227) && (n2 =? 128) && (n3 =? 128))%N.

(** [s.lstrip()] *)
Fixpoint lstrip (s : string) : string :=
  match s with
  | String c1 r1 =>
      if is_space1 c1 then lstrip r1
      else
        match r1 with
        | String c2 r2 =>
            if is_space2 c1 c2 then lstrip r2
            else
              match r2 with
              | String c3 r3 => if is_space3 c1 c2 c3 then lstrip r3 else s
              | EmptyString => s
              end
        | EmptyString => s
        end
  | EmptyString => s
  end.

(** [s.rstrip()]: what is left of [s] is dropped as soon as it is made of
    white space only. *)
Fixpoint rstrip (s : string) : string :=
  match s with
  | String c r => if (lstrip s =? "")%string then "" else String c (rstrip r)
  | EmptyString => s
  end.

(** [s.strip()] *)
Definition strip (s : string) : string := rstrip (lstrip s).

(** [s.lower()] and [s.upper()] on the letters of ASCII. The program
    applies [upper] to one of its three algorithm tags and compares the
    result of [lower] with the letter y, which is the lower case of no
    character outside ASCII: other characters are kept as they are. *)
Definition lower_char (c : ascii) : ascii :=
  let n := N_of_ascii c in
  if ((65 <=? n) && (n <=? 90))%N then ascii_of_N (n + 32) else c.

Definition upper_char (c : ascii) : ascii :=
  let n := N_of_ascii c in
  if ((97 <=? n) && (n <=? 122))%N then ascii_of_N (n - 32) else c.

Fixpoint map_string (f : ascii -> ascii) (s : string) : string :=
  match s with
  | String c r => String (f c) (map_string f r)
  | EmptyString => EmptyString
  end.

Definition lower : string -> string := map_string lower_char.

Definition upper : string -> string := map_string upper_char.

(* ===================================================================== *)

(** * The console: [input] and the output of the shell *)

(* ===================================================================== *)

(** The prompts of the calls of [input], one for each text. *)
Inductive prompt : Type :=
| AskChoice | AskFilePath | AskAlgorithm | AskCompare | AskKnownHash
| AskDirectory | AskOutput | AskChecksumFile | AskTargetDirectory | AskEnter.

(** The exceptions of the shell: those of the core, [EOFError] from
    [input] and [SystemExit] from [sys.exit]. *)
Inductive shell_exn : Type :=
| Exn (e : exn)
| EOFError
| SystemExit (code : Z).

(** What the shell writes: the lines of the three core functions, the
    prompts, and one constructor for each other text that is printed. The
    line of fifty dashes that closes the menu is [Said MsgRule]. *)
Inductive shell_message : Type :=
| Said (m : message)
| Asked (p : prompt)
| ShBlankDoubleRule
| ShDoubleRule
| ShTitle
| ShMenuCreate | ShMenuVerify | ShMenuSingle | ShMenuExit
| ShFileNotFound (file_path : string)
| ShAlgorithmsHeader
| ShOptionMD5 | ShOptionSHA1 | ShOptionSHA256
| ShOptionMD5Long | ShOptionSHA1Long
| ShFile (file_path : string)
| ShSize (file_size : Z)
| ShAlgorithm (name : string)
| ShHash (file_hash : string)
| ShHashesMatch
| ShHashesDiffer
| ShError (e : shell_exn)
| ShWelcome
| ShGoodbye
| ShInvalidChoice
| ShCritical (e : shell_exn).

(** [isinstance(e, Exception)]: [SystemExit] derives from [BaseException]
    only. *)
Definition is_exception (e : shell_exn) : bool :=
  match e with
  | SystemExit _ => false
  | _ => true
  end.

(** The state of the shell: the world, and the lines that standard input
    still holds, without their line ends. *)
Record console : Type := {
  c_world : world;
  c_stdin : list string
}.

Record shell_run (A : Type) : Type := ShellRun {
  s_result : A + shell_exn;
  s_final : console;
  s_output : list shell_message
}.

Arguments ShellRun {A} _ _ _.

Arguments s_result {A} _.

Arguments s_final {A} _.

Arguments s_output {A} _.

Definition Sh (A : Type) : Type := console -> shell_run A.

Definition sret {A} (a : A) : Sh A := fun s => ShellRun (inl a) s [].

Definition sraise {A} (e : shell_exn) : Sh A := fun s => ShellRun (inr e) s [].

Definition sbind {A B} (c : Sh A) (k : A -> Sh B) : Sh B :=
  fun s =>
    let r := c s in
    match s_result r with
    | inl a => let r' := k a (s_final r) in
               ShellRun (s_result r') (s_final r') (s_output r ++ s_output r')
    | inr e => ShellRun (inr e) (s_final r) (s_output r)
    end.

Notation "x <~ c ;; k" := (sbind c (fun x => k))
  (at level 100, c at next level, right associativity).

Notation "c ;~ k" := (sbind c (fun _ => k))
  (at level 100, right associativity).

Definition say (m : shell_message) : Sh unit := fun s => ShellRun (inl tt) s [m].

(** A call of one of the core functions. *)
Definition core {A} (c : M A) : Sh A :=
  fun s =>
    let r := c (c_world s) in
    ShellRun (match result r with
              | inl a => inl a
              | inr e => inr (Exn e)
              end)
             {| c_world := final r; c_stdin := c_stdin s |}
             (map Said (output r)).

(** [input(prompt)]: the prompt is written, then a line is read; at the
    end of the input the call raises [EOFError]. *)
Definition input (p : prompt) : Sh string :=
  fun s =>
    match c_stdin s with
    | line :: rest =>
        ShellRun (inl line) {| c_world := c_world s; c_stdin := rest |} [Asked p]
    | [] => ShellRun (inr EOFError) s [Asked p]
    end.

Definition stry {A} (c : Sh A) (handlers : shell_exn -> option (Sh A)) : Sh A :=
  fun s =>
    let r := c s in
    match s_result r with
    | inl _ => r
    | inr e =>
        match handlers e with
        | Some h => let r' := h (s_final r) in
                    ShellRun (s_result r') (s_final r') (s_output r ++ s_output r')
        | None => r
        end
    end.

(* ===================================================================== *)

(** * The shell *)

(* ===================================================================== *)

Section Shell.

Context `{Hashlib} `{JsonLib}.

Definition show_menu : Sh string :=
  say ShBlankDoubleRule ;~
  say ShTitle ;~
  say ShDoubleRule ;~
  say ShMenuCreate ;~
  say ShMenuVerify ;~
  say ShMenuSingle ;~
  say ShMenuExit ;~
  say (Said MsgRule) ;~
  line <~ input AskChoice ;;
  sret (strip line).

(** The algorithm of a choice: anything but [1] and [2] is SHA-256. *)
Definition algorithm_of (algo_choice : string) : string :=
  if (algo_choice =? "1")%string then "md5"
  else if (algo_choice =? "2")%string then "sha1"
  else "sha256".

Definition check_single_file : Sh unit :=
  line <~ input AskFilePath ;;
  let file_path := strip line in
  found <~ core (os_path_exists file_path) ;;
  if negb found then
    say (ShFileNotFound file_path)
  else
    say ShAlgorithmsHeader ;~
    say ShOptionMD5 ;~
    say ShOptionSHA1 ;~
    say ShOptionSHA256 ;~
    line <~ input AskAlgorithm ;;
    let algorithm := algorithm_of (strip line) in
    stry
      (file_hash <~ core (calculate_hash file_path (JStr algorithm)) ;;
       file_size <~ core (os_path_getsize file_path) ;;
       say ShBlankDoubleRule ;~
       say (ShFile file_path) ;~
       say (ShSize file_size) ;~
       say (ShAlgorithm (upper algorithm)) ;~
       say (ShHash file_hash) ;~
       say ShDoubleRule ;~
       line <~ input AskCompare ;;
       let compare := lower (strip line) in
       if (compare =? "y")%string then
         line <~ input AskKnownHash ;;
         let known_hash := strip line in
         if (file_hash =? known_hash)%string then say ShHashesMatch
         else say ShHashesDiffer
       else sret tt)
      (fun e => if is_exception e then Some (say (ShError e)) else None).

(** Choice 1 of the menu. *)
Definition create_command : Sh unit :=
  line <~ input AskDirectory ;;
  let directory := strip line in
  line <~ input AskOutput ;;
  let name := strip line in
  let name := if (name =? "")%string then "checksums.json" else name in
  say ShAlgorithmsHeader ;~
  say ShOptionMD5Long ;~
  say ShOptionSHA1Long ;~
  say ShOptionSHA256 ;~
  line <~ input AskAlgorithm ;;
  let algorithm := algorithm_of (strip line) in
  core (create_checksum_file directory name algorithm) ;~
  sret tt.

(** Choice 2 of the menu. *)
Definition verify_command : Sh unit :=
  line <~ input AskChecksumFile ;;
  let checksum_file := strip line in
  line <~ input AskTargetDirectory ;;
  let directory := strip line in
  (if (directory =? "")%string then core (verify_integrity checksum_file None)
   else core (verify_integrity checksum_file (Some directory))) ;~
  sret tt.

(** One turn of the loop of [main], up to the [input] that ends it: the
    value is [false] when the turn leaves the loop. *)
Definition turn : Sh bool :=
  choice <~ show_menu ;;
  if (choice =? "1")%string then create_command ;~ sret true
  else if (choice =? "2")%string then verify_command ;~ sret true
  else if (choice =? "3")%string then check_single_file ;~ sret true
  else if (choice =? "4")%string then say ShGoodbye ;~ sret false
  else say ShInvalidChoice ;~ sret true.

(** The loop [while True:] of [main]. Every turn that goes on reads two
    lines at least, so the loop takes no more turns than the input has
    lines: [main_loop_fuel] shows that the last case is never reached. *)
Fixpoint main_loop (fuel : nat) : Sh unit :=
  match fuel with
  | S fuel' =>
      go_on <~ turn ;;
      if go_on then input AskEnter ;~ main_loop fuel' else sret tt
  | 0 => sret tt
  end.

Definition main : Sh unit :=
  say ShWelcome ;~
  fun s => main_loop (S (List.length (c_stdin s))) s.

(** The body of [if __name__ == "__main__":]. An interruption from the
    keyboard is not part of the model. *)
Definition script : Sh unit :=
  stry main
    (fun e => if is_exception e
              then Some (say (ShCritical e) ;~ sraise (SystemExit 1))
              else None).

End Shell.

(* ===================================================================== *)
(** * The digests of [hashlib] *)
(* ===================================================================== *)

Module hashlib.

Local Open Scope N_scope.

(** Words are 32 bits, held in [N]. *)
Definition w32 (x : N) : N := N.land x 0xffffffff.
Definition add32 (x y : N) : N := w32 (x + y).
Definition not32 (x : N) : N := N.lxor x 0xffffffff.
Definition rotl32 (x : N) (k : N) : N :=
  w32 (N.lor (N.shiftl x k) (N.shiftr x (32 - k))).
Definition rotr32 (x : N) (k : N) : N := rotl32 x (32 - k).

Definition byte_of_N (n : N) : byte :=
  match Byte.of_N (N.land n 0xff) with
  | Some b => b
  | None => x00
  end.

(** The [k] low bytes of [x], least significant first. *)
Fixpoint le_bytes (k : nat) (x : N) : list byte :=
  match k with
  | O => []
  | S k' => byte_of_N x :: le_bytes k' (N.shiftr x 8)
  end.

Definition be_bytes (k : nat) (x : N) : list byte := rev (le_bytes k x).

Definition of_le (l : list byte) : N :=
  fold_right (fun b acc => Byte.to_N b + 256 * acc) 0 l.

Definition of_be (l : list byte) : N := of_le (rev l).

(** [l] cut in pieces of [n] elements. *)
Fixpoint pieces {A} (fuel n : nat) (l : list A) : list (list A) :=
  match fuel, l with
  | S fuel', _ :: _ => firstn n l :: pieces fuel' n (skipn n l)
  | _, _ => []
  end.

Definition words (of_bytes : list byte -> N) (block : list byte) : list N :=
  map of_bytes (pieces 16 4 block).

(** Merkle-Damgard padding to a multiple of 64 bytes: a one bit, zeros,
    and the length in bits on eight bytes. *)
Definition pad (length_bytes : nat -> N -> list byte) (data : list byte)
  : list byte :=
  let n := List.length data in
  let zeros := Nat.modulo (119 - Nat.modulo n 64) 64 in
  data ++ x80 :: repeat x00 zeros ++ length_bytes 8%nat (8 * N.of_nat n).

Definition blocks (padded : list byte) : list (list byte) :=
  pieces (List.length padded) 64 padded.

Definition nth32 (l : list N) (i : nat) : N := nth i l 0.

(** ** SHA-256 (FIPS 180-4) *)

(** The integer part of the [k]-th root of [x], found bit by bit below
    bit [bits]. *)
Fixpoint iroot (k : N) (bits : nat) (x r : N) : N :=
  match bits with
  | O => r
  | S b =>
      let c := r + 2 ^ N.of_nat b in
      iroot k b x (if c ^ k <=? x then c else r)
  end.

(** The first 32 bits of the fractional part of the [k]-th root of [p]. *)
Definition frac_root (k : N) (p : N) : N :=
  w32 (iroot k 36 (p * 2 ^ (32 * k)) 0).

Definition is_prime (n : nat) : bool :=
  (1 <? n)%nat && forallb (fun d => negb (Nat.modulo n d =? 0)%nat) (seq 2 (n - 2)).

Definition first_primes (count : nat) : list N :=
  map N.of_nat (firstn count (filter is_prime (seq 2 310))).

(** The round constants come from the cube roots of the first 64 primes
    and the initial state from the square roots of the first 8. *)
Definition sha256_k : list N :=
  Eval vm_compute in map (frac_root 3) (first_primes 64).

Definition sha256_h0 : list N :=
  Eval vm_compute in map (frac_root 2) (first_primes 8).

Definition sha256_s0 (x : N) := N.lxor (N.lxor (rotr32 x 7) (rotr32 x 18)) (N.shiftr x 3).
Definition sha256_s1 (x : N) := N.lxor (N.lxor (rotr32 x 17) (rotr32 x 19)) (N.shiftr x 10).
Definition sha256_S0 (x : N) := N.lxor (N.lxor (rotr32 x 2) (rotr32 x 13)) (rotr32 x 22).
Definition sha256_S1 (x : N) := N.lxor (N.lxor (rotr32 x 6) (rotr32 x 11)) (rotr32 x 25).
Definition ch (x y z : N) := N.lxor (N.land x y) (N.land (not32 x) z).
Definition maj (x y z : N) := N.lxor (N.lxor (N.land x y) (N.land x z)) (N.land y z).

(** The message schedule, most recent word first. *)
Fixpoint sha256_schedule (n : nat) (rw : list N) : list N :=
  match n with
  | O => rw
  | S n' =>
      let w := add32 (add32 (sha256_s1 (nth32 rw 1)) (nth32 rw 6))
                     (add32 (sha256_s0 (nth32 rw 14)) (nth32 rw 15)) in
      sha256_schedule n' (w :: rw)
  end.

Definition sha256_round (st : list N) (kw : N * N) : list N :=
  match st with
  | [a; b; c; d; e; f; g; h] =>
      let t1 := add32 (add32 (add32 h (sha256_S1 e)) (add32 (ch e f g) (fst kw))) (snd kw) in
      let t2 := add32 (sha256_S0 a) (maj a b c) in
      [add32 t1 t2; a; b; c; add32 d t1; e; f; g]
  | _ => st
  end.

Definition add_words (x y : list N) : list N :=
  map (fun p => add32 (fst p) (snd p)) (combine x y).

Definition sha256_block (st : list N) (block : list byte) : list N :=
  let w := rev (sha256_schedule 48 (rev (words of_be block))) in
  add_words st (fold_left sha256_round (combine sha256_k w) st).

Definition sha256 (data : list byte) : list byte :=
  flat_map (be_bytes 4) (fold_left sha256_block (blocks (pad be_bytes data)) sha256_h0).

(** ** SHA-1 (FIPS 180-4) *)

Definition sha1_h0 : list N :=
  [0x67452301; 0xefcdab89; 0x98badcfe; 0x10325476; 0xc3d2e1f0].

Fixpoint sha1_schedule (n : nat) (rw : list N) : list N :=
  match n with
  | O => rw
  | S n' =>
      let w := rotl32 (N.lxor (N.lxor (nth32 rw 2) (nth32 rw 7))
                              (N.lxor (nth32 rw 13) (nth32 rw 15))) 1 in
      sha1_schedule n' (w :: rw)
  end.

Definition sha1_f (t : nat) (b c d : N) : N :=
  if (t <? 20)%nat then ch b c d
  else if (t <? 40)%nat then N.lxor (N.lxor b c) d
  else if (t <? 60)%nat then maj b c d
  else N.lxor (N.lxor b c) d.

Definition sha1_k (t : nat) : N :=
  if (t <? 20)%nat then 0x5a827999
  else if (t <? 40)%nat then 0x6ed9eba1
  else if (t <? 60)%nat then 0x8f1bbcdc
  else 0xca62c1d6.

Definition sha1_round (st : list N) (tw : nat * N) : list N :=
  match st with
  | [a; b; c; d; e] =>
      let t := fst tw in
      let tmp := add32 (add32 (add32 (rotl32 a 5) (sha1_f t b c d))
                              (add32 e (sha1_k t))) (snd tw) in
      [tmp; a; rotl32 b 30; c; d]
  | _ => st
  end.

Definition sha1_block (st : list N) (block : list byte) : list N :=
  let w := rev (sha1_schedule 64 (rev (words of_be block))) in
  add_words st (fold_left sha1_round (combine (seq 0 80) w) st).

Definition sha1 (data : list byte) : list byte :=
  flat_map (be_bytes 4) (fold_left sha1_block (blocks (pad be_bytes data)) sha1_h0).

(** ** MD5 (RFC 1321) *)

Definition md5_t : list N :=
  [0xd76aa478; 0xe8c7b756; 0x242070db; 0xc1bdceee; 0xf57c0faf; 0x4787c62a;
   0xa8304613; 0xfd469501; 0x698098d8; 0x8b44f7af; 0xffff5bb1; 0x895cd7be;
   0x6b901122; 0xfd987193; 0xa679438e; 0x49b40821; 0xf61e2562; 0xc040b340;
   0x265e5a51; 0xe9b6c7aa; 0xd62f105d; 0x02441453; 0xd8a1e681; 0xe7d3fbc8;
   0x21e1cde6; 0xc33707d6; 0xf4d50d87; 0x455a14ed; 0xa9e3e905; 0xfcefa3f8;
   0x676f02d9; 0x8d2a4c8a; 0xfffa3942; 0x8771f681; 0x6d9d6122; 0xfde5380c;
   0xa4beea44; 0x4bdecfa9; 0xf6bb4b60; 0xbebfbc70; 0x289b7ec6; 0xeaa127fa;
   0xd4ef3085; 0x04881d05; 0xd9d4d039; 0xe6db99e5; 0x1fa27cf8; 0xc4ac5665;
   0xf4292244; 0x432aff97; 0xab9423a7; 0xfc93a039; 0x655b59c3; 0x8f0ccc92;
   0xffeff47d; 0x85845dd1; 0x6fa87e4f; 0xfe2ce6e0; 0xa3014314; 0x4e0811a1;
   0xf7537e82; 0xbd3af235; 0x2ad7d2bb; 0xeb86d391].

Definition md5_s : list N :=
  [7; 12; 17; 22; 7; 12; 17; 22; 7; 12; 17; 22; 7; 12; 17; 22; 5; 9; 14; 20; 5; 9; 14; 20; 5; 9; 14; 20; 5; 9; 14; 20; 4; 11; 16; 23; 4; 11; 16; 23; 4; 11; 16; 23; 4; 11; 16; 23; 6; 10; 15; 21; 6; 10; 15; 21; 6; 10; 15; 21; 6; 10; 15; 21].

Definition md5_h0 : list N :=
  [0x67452301; 0xefcdab89; 0x98badcfe; 0x10325476].

Definition md5_round (w : list N) (st : list N) (i : nat) : list N :=
  match st with
  | [a; b; c; d] =>
      let f :=
        if (i <? 16)%nat then N.lor (N.land b c) (N.land (not32 b) d)
        else if (i <? 32)%nat then N.lor (N.land d b) (N.land (not32 d) c)
        else if (i <? 48)%nat then N.lxor (N.lxor b c) d
        else N.lxor c (N.lor b (not32 d)) in
      let g :=
        if (i <? 16)%nat then i
        else if (i <? 32)%nat then Nat.modulo (5 * i + 1) 16
        else if (i <? 48)%nat then Nat.modulo (3 * i + 5) 16
        else Nat.modulo (7 * i) 16 in
      let x := add32 (add32 a f) (add32 (nth32 md5_t i) (nth32 w g)) in
      [d; add32 b (rotl32 x (nth32 md5_s i)); b; c]
  | _ => st
  end.

Definition md5_block (st : list N) (block : list byte) : list N :=
  add_words st (fold_left (md5_round (words of_le block)) (seq 0 64) st).

Definition md5 (data : list byte) : list byte :=
  flat_map (le_bytes 4) (fold_left md5_block (blocks (pad le_bytes data)) md5_h0).

End hashlib.

(** The three constructors the program calls. *)
Definition py_hashlib : Hashlib :=
  {| digest := fun a => match a with
                        | MD5 => hashlib.md5
                        | SHA1 => hashlib.sha1
                        | SHA256 => hashlib.sha256
                        end |}.

(* ===================================================================== *)
(** * The encoder and the decoder of [json] *)
(* ===================================================================== *)

Module pyjson.

(** ** The encoder *)

Definition dquote : ascii := "034"%char.
Definition backslash : ascii := "092"%char.
Definition newline : ascii := "010"%char.

(** The text the encoder writes for one character of a string, with
    [ensure_ascii=False]: only the quote, the backslash and the control
    characters are escaped. *)
Definition escape_char (c : ascii) : string :=
  let n := N_of_ascii c in
  if (n =? 34)%N then String backslash (String dquote "")
  else if (n =? 92)%N then String backslash (String backslash "")
  else if (n =? 10)%N then String backslash "n"
  else if (n =? 13)%N then String backslash "r"
  else if (n =? 9)%N then String backslash "t"
  else if (n =? 8)%N then String backslash "b"
  else if (n =? 12)%N then String backslash "f"
  else if (n <? 32)%N then
    String backslash ("u00" +++ String (hex_digit (n / 16)) (String (hex_digit (n mod 16)) ""))
  else String c "".

Fixpoint escape (s : string) : string :=
  match s with
  | EmptyString => EmptyString
  | String c s' => escape_char c +++ escape s'
  end.

Definition quote (s : string) : string :=
  String dquote (escape s +++ String dquote "").

Definition string_of_Z (z : Z) : string := NilZero.string_of_int (Z.to_int z).

Fixpoint spaces (n : nat) : string :=
  match n with
  | O => EmptyString
  | S n' => String " " (spaces n')
  end.

(** A new line followed by the indentation of [level]. *)
Definition newline_indent (level : nat) : string :=
  String newline (spaces (2 * level)).

(** The text of a value that is neither an array nor an object. The text
    of a float is the one it is carried as: [float.__repr__] gives it for a
    finite float, and [NaN], [Infinity] and [-Infinity] are the others. *)
Definition scalar (v : json) : string :=
  match v with
  | JNull => "null"
  | JBool true => "true"
  | JBool false => "false"
  | JInt n => string_of_Z n
  | JFloat repr => repr
  | JStr s => quote s
  | JArr _ | JObj _ => EmptyString
  end.

(** The loop of [_iterencode_list] over the elements, [encode] being the
    generator for the arrays and objects among them: the text [buf] that
    opens the array or separates two elements is yielded with the element
    that follows when it is a scalar, and alone before an array or an
    object. *)
Definition elements (encode : json -> list string) (separator : string)
  : string -> list json -> list string :=
  fix loop (buf : string) (l : list json) : list string :=
    match l with
    | [] => []
    | x :: l' =>
        match x with
        | JArr _ | JObj _ => buf :: encode x
        | _ => [buf +++ scalar x]
        end ++ loop separator l'
    end.

(** The loop of [_iterencode_dict] over the items: the separator, the key,
    the colon and the value are yielded one after the other. *)
Definition members (encode : json -> list string) (item_separator : string)
  : bool -> list (string * json) -> list string :=
  fix loop (first : bool) (l : list (string * json)) : list string :=
    match l with
    | [] => []
    | (key, x) :: l' =>
        (if first then [] else [item_separator])
        ++ [quote key; ": "] ++ encode x ++ loop false l'
    end.

(** The chunks [json.dump(v, f, indent=2, ensure_ascii=False)] writes, as
    the generators of [json.encoder] yield them, at nesting [level]. *)
Fixpoint iterencode (level : nat) (v : json) : list string :=
  match v with
  | JArr [] => ["[]"]
  | JArr l =>
      elements (iterencode (S level)) ("," +++ newline_indent (S level))
        ("[" +++ newline_indent (S level)) l
      ++ [newline_indent level; "]"]
  | JObj [] => ["{}"]
  | JObj l =>
      ["{"; newline_indent (S level)]
      ++ members (iterencode (S level)) ("," +++ newline_indent (S level)) true l
      ++ [newline_indent level; "}"]
  | _ => [scalar v]
  end.

(** [json.dumps(v, indent=2, ensure_ascii=False)] at nesting [level]. *)
Definition dumps (level : nat) (v : json) : string :=
  concat_chunks (iterencode level v).

(** ** The decoder *)

Definition is_ws (c : ascii) : bool :=
  let n := N_of_ascii c in
  (n =? 32)%N || (n =? 10)%N || (n =? 13)%N || (n =? 9)%N.

Fixpoint skip_ws (s : string) : string :=
  match s with
  | String c s' => if is_ws c then skip_ws s' else s
  | EmptyString => s
  end.

Definition is_digit (c : ascii) : bool :=
  let n := N_of_ascii c in (48 <=? n)%N && (n <=? 57)%N.

Definition hex_value (c : ascii) : option N :=
  let n := N_of_ascii c in
  if (48 <=? n)%N && (n <=? 57)%N then Some (n - 48)%N
  else if (97 <=? n)%N && (n <=? 102)%N then Some (n - 87)%N
  else if (65 <=? n)%N && (n <=? 70)%N then Some (n - 55)%N
  else None.

(** The UTF-8 encoding of a code point; a surrogate is encoded like the
    other code points of the basic plane. *)
Definition utf8 (cp : N) : string :=
  if (cp <? 128)%N then String (ascii_of_N cp) ""
  else if (cp <? 2048)%N then
    String (ascii_of_N (192 + cp / 64)) (String (ascii_of_N (128 + cp mod 64)) "")
  else if (cp <? 65536)%N then
    String (ascii_of_N (224 + cp / 4096))
      (String (ascii_of_N (128 + (cp / 64) mod 64))
         (String (ascii_of_N (128 + cp mod 64)) ""))
  else
    String (ascii_of_N (240 + cp / 262144))
      (String (ascii_of_N (128 + (cp / 4096) mod 64))
         (String (ascii_of_N (128 + (cp / 64) mod 64))
            (String (ascii_of_N (128 + cp mod 64)) ""))).

(** The four hexadecimal digits of an escape. *)
Definition hex4 (h1 h2 h3 h4 : ascii) : option N :=
  match hex_value h1, hex_value h2, hex_value h3, hex_value h4 with
  | Some a, Some b, Some c, Some d => Some (((a * 16 + b) * 16 + c) * 16 + d)%N
  | _, _, _, _ => None
  end.

Definition high_surrogate (cp : N) : bool := ((55296 <=? cp) && (cp <=? 56319))%N.
Definition low_surrogate (cp : N) : bool := ((56320 <=? cp) && (cp <=? 57343))%N.

(** The characters of a string literal after its opening quote: the
    decoded string and the text after the closing quote. The escape of a
    high surrogate followed by the escape of a low one is the code point
    they make together. *)
Fixpoint parse_chars (s : string) : option (string * string) :=
  match s with
  | EmptyString => None
  | String c s' =>
      if Ascii.eqb c dquote then Some (EmptyString, s')
      else if Ascii.eqb c backslash then
        match s' with
        | String e s'' =>
            let simple (d : ascii) :=
              match parse_chars s'' with
              | Some (str, r) => Some (String d str, r)
              | None => None
              end in
            if Ascii.eqb e dquote then simple dquote
            else if Ascii.eqb e backslash then simple backslash
            else if Ascii.eqb e "/" then simple "/"%char
            else if Ascii.eqb e "n" then simple newline
            else if Ascii.eqb e "r" then simple "013"%char
            else if Ascii.eqb e "t" then simple "009"%char
            else if Ascii.eqb e "b" then simple "008"%char
            else if Ascii.eqb e "f" then simple "012"%char
            else if Ascii.eqb e "u" then
              match s'' with
              | String h1 (String h2 (String h3 (String h4 s3))) =>
                  match hex4 h1 h2 h3 h4 with
                  | Some uni =>
                      let single :=
                        match parse_chars s3 with
                        | Some (str, r) => Some (utf8 uni +++ str, r)
                        | None => None
                        end in
                      if high_surrogate uni then
                        match s3 with
                        | String b (String u (String g1 (String g2 (String g3
                            (String g4 s4))))) =>
                            if Ascii.eqb b backslash && Ascii.eqb u "u" then
                              match hex4 g1 g2 g3 g4 with
                              | Some uni2 =>
                                  if low_surrogate uni2 then
                                    match parse_chars s4 with
                                    | Some (str, r) =>
                                        Some (utf8 (65536 + (uni - 55296) * 1024
                                                    + (uni2 - 56320)) +++ str, r)
                                    | None => None
                                    end
                                  else single
                              | None => None
                              end
                            else single
                        | _ => single
                        end
                      else single
                  | None => None
                  end
              | _ => None
              end
            else None
        | EmptyString => None
        end
      else if (N_of_ascii c <? 32)%N then None
      else match parse_chars s' with
           | Some (str, r) => Some (String c str, r)
           | None => None
           end
  end.

(** The longest prefix of [s] made of characters that satisfy [p]. *)
Fixpoint span (p : ascii -> bool) (s : string) : string * string :=
  match s with
  | String c s' =>
      if p c then let r := span p s' in (String c (fst r), snd r) else (EmptyString, s)
  | EmptyString => (EmptyString, EmptyString)
  end.

Definition startswith_zero (s : string) : bool :=
  match s with
  | String "0"%char _ => true
  | _ => false
  end.

(** A number: an integer part, then an optional fraction and an optional
    exponent, which make it a float. *)
Definition parse_number (s : string) : option (json * string) :=
  let (sign, s1) := match s with
                    | String "-"%char r => ("-", r)
                    | _ => ("", s)
                    end in
  let (int_part, s2) := span is_digit s1 in
  if (int_part =? "")%string then None
  else if (1 <? String.length int_part)%nat && startswith_zero int_part then None
  else
    let (frac, s3) :=
      match s2 with
      | String "."%char r => let (d, r') := span is_digit r in ("." +++ d, r')
      | _ => ("", s2)
      end in
    if (frac =? ".")%string then None
    else
      let (expo, s4) :=
        match s3 with
        | String e r =>
            if Ascii.eqb e "e" || Ascii.eqb e "E" then
              let (sg, r1) := match r with
                              | String "+"%char r' => ("+", r')
                              | String "-"%char r' => ("-", r')
                              | _ => ("", r)
                              end in
              let (d, r2) := span is_digit r1 in
              if (d =? "")%string then ("", s3) else (String e (sg +++ d), r2)
            else ("", s3)
        | EmptyString => ("", s3)
        end in
      if (frac =? "")%string && (expo =? "")%string then
        match NilZero.int_of_string (sign +++ int_part) with
        | Some i => Some (JInt (Z.of_int i), s4)
        | None => None
        end
      else Some (JFloat (sign +++ int_part +++ frac +++ expo), s4).

(** [Some r] when [s] is [lit] followed by [r]. *)
Fixpoint strip_prefix (lit s : string) : option string :=
  match lit, s with
  | EmptyString, _ => Some s
  | String a lit', String b s' => if Ascii.eqb a b then strip_prefix lit' s' else None
  | _, _ => None
  end.

(** The recursive descent: [parse_value] reads one value, [parse_elements]
    the elements of an array after its bracket and [parse_members] the
    members of an object after its brace. What is not a number may still be
    one of the three constants [NaN], [Infinity] and [-Infinity]. Every call reads at least one
    character, so twice the length of the text is enough [fuel]. *)
Fixpoint parse_value (fuel : nat) (s : string) : option (json * string) :=
  match fuel with
  | O => None
  | S fuel' =>
      match skip_ws s with
      | EmptyString => None
      | String c r =>
          if Ascii.eqb c dquote then
            match parse_chars r with
            | Some (str, r') => Some (JStr str, r')
            | None => None
            end
          else if Ascii.eqb c "{" then
            match skip_ws r with
            | String "}"%char r' => Some (JObj [], r')
            | _ => parse_members fuel' r []
            end
          else if Ascii.eqb c "[" then
            match skip_ws r with
            | String "]"%char r' => Some (JArr [], r')
            | _ => parse_elements fuel' r []
            end
          else if Ascii.eqb c "t" then
            option_map (pair (JBool true)) (strip_prefix "rue" r)
          else if Ascii.eqb c "f" then
            option_map (pair (JBool false)) (strip_prefix "alse" r)
          else if Ascii.eqb c "n" then
            option_map (pair JNull) (strip_prefix "ull" r)
          else
            match parse_number (String c r) with
            | Some number => Some number
            | None =>
                if Ascii.eqb c "N" then
                  option_map (pair (JFloat "NaN")) (strip_prefix "aN" r)
                else if Ascii.eqb c "I" then
                  option_map (pair (JFloat "Infinity")) (strip_prefix "nfinity" r)
                else if Ascii.eqb c "-" then
                  option_map (pair (JFloat "-Infinity")) (strip_prefix "Infinity" r)
                else None
            end
      end
  end
with parse_elements (fuel : nat) (s : string) (acc : list json)
  : option (json * string) :=
  match fuel with
  | O => None
  | S fuel' =>
      match parse_value fuel' s with
      | Some (v, r) =>
          match skip_ws r with
          | String ","%char r' => parse_elements fuel' r' (v :: acc)
          | String "]"%char r' => Some (JArr (rev (v :: acc)), r')
          | _ => None
          end
      | None => None
      end
  end
with parse_members (fuel : nat) (s : string) (acc : list (string * json))
  : option (json * string) :=
  match fuel with
  | O => None
  | S fuel' =>
      match skip_ws s with
      | String c r =>
          if Ascii.eqb c dquote then
            match parse_chars r with
            | Some (key, r1) =>
                match skip_ws r1 with
                | String ":"%char r2 =>
                    match parse_value fuel' r2 with
                    | Some (v, r3) =>
                        match skip_ws r3 with
                        | String ","%char r4 => parse_members fuel' r4 ((key, v) :: acc)
                        | String "}"%char r4 => Some (JObj (rev ((key, v) :: acc)), r4)
                        | _ => None
                        end
                    | None => None
                    end
                | _ => None
                end
            | None => None
            end
          else None
      | EmptyString => None
      end
  end.

(** [json.loads(s)]: one value, and nothing but white space after it.
    The limits the interpreter sets to the depth of the nesting and to the
    number of digits of an integer are not modelled. *)
Definition loads (s : string) : option json :=
  match parse_value (2 * String.length s + 2) s with
  | Some (v, r) => if (skip_ws r =? "")%string then Some v else None
  | None => None
  end.

End pyjson.

Definition py_json : JsonLib :=
  {| json_iterencode := pyjson.iterencode 0; json_loads := pyjson.loads |}.

(* ===================================================================== *)
(** * The vocabulary of the properties *)
(* ===================================================================== *)

(** A computation is a reader when it never changes the world. *)
Definition reader {A} (c : M A) : Prop := forall w, final (c w) = w.

(** [prepend o r] is the run [r] after [o] has been printed. *)
Definition prepend {A} (o : list message) (r : run A) : run A :=
  Run (result r) (final r) (o ++ output r).

(** The tag of each algorithm. *)
Definition algorithm_tag (a : algo) : string :=
  match a with
  | MD5 => "md5"
  | SHA1 => "sha1"
  | SHA256 => "sha256"
  end.

(** A file this process can read to its end. *)
Definition readable (f : inode) : bool :=
  i_perm f &&
  match i_fault f with
  | None => true
  | Some k => (List.length (i_data f) <=? k)%nat
  end.

(** The file object [open] returns for [f]. *)
Definition opened (f : inode) : handle :=
  {| h_data := i_data f; h_pos := 0; h_fault := i_fault f |}.

Definition lowercase_hex (c : ascii) : bool :=
  let n := N_of_ascii c in
  ((48 <=? n) && (n <=? 57) || (97 <=? n) && (n <=? 102))%N.

(** A computation is silent when it neither prints nor changes the world. *)
Definition silent {A} (c : M A) : Prop :=
  forall w, c w = Run (result (c w)) w [].

(** The messages that report on one entry of the manifest, and those of
    the summary. *)
Definition entry_message (m : message) : bool :=
  match m with
  | MsgConfirmed _ | MsgViolated _ | MsgExpected _ | MsgActual _
  | MsgVerifyError _ _ | MsgMissing _
  | MsgHashNotFound _ | MsgHashReadError _ _ => true
  | _ => false
  end.

Definition summary_message (m : message) : bool :=
  match m with
  | MsgResults | MsgTotal _ | MsgPassed _ | MsgFailed _ | MsgMissingCount _
  | MsgAllIntact | MsgProblems => true
  | _ => false
  end.

(** The outcome of one entry, and the counter it adds to. *)
Inductive outcome : Type := Matched | Mismatched | Missing.

Definition count (o : outcome) (vr : results) : results :=
  match o with
  | Matched => incr_passed vr
  | Mismatched => incr_failed vr
  | Missing => incr_missing vr
  end.

(** The single message by which a run that stops before its summary
    reports the exception [e]. *)
Definition failure_message (checksum_file : string) (e : exn) : message :=
  if isinstance e C_FileNotFoundError then MsgChecksumsNotFound checksum_file
  else if isinstance e C_JSONDecodeError then MsgBadJSON checksum_file
  else MsgVerifyUnexpected e.

(** What [verify_integrity] reads in [checksums] before it prints the
    heading: the directory to check and the algorithm. *)
Definition manifest_header (checksums : json) (directory_path : option string)
  : (json * json) + exn :=
  match py_getitem checksums "metadata" with
  | inr e => inr e
  | inl metadata =>
      match py_getitem metadata "algorithm" with
      | inr e => inr e
      | inl algorithm =>
          match py_getitem metadata "directory" with
          | inr e => inr e
          | inl original_dir =>
              inl (match directory_path with
                   | None => original_dir
                   | Some d => JStr d
                   end, algorithm)
          end
      end
  end.

(** What it reads after the heading: the entries it will go through. *)
Definition manifest_entries (checksums : json) : dict + exn :=
  match py_getitem checksums "files" with
  | inr e => inr e
  | inl files =>
      match py_len files with
      | inr e => inr e
      | inl _ => py_items files
      end
  end.

Definition heading (directory_path algorithm : json) : list message :=
  [MsgVerifying directory_path; MsgAlgorithm algorithm; MsgRule].

Definition start (n : nat) : results :=
  {| passed := 0; failed := 0; missing := 0; total := n |}.

(** The verdict of a report. *)
Definition intact (vr : results) : bool :=
  (failed vr =? 0)%nat && (missing vr =? 0)%nat.

Definition summary_lines (vr : results) : list message :=
  [MsgRule; MsgResults; MsgTotal (total vr); MsgPassed (passed vr);
   MsgFailed (failed vr); MsgMissingCount (missing vr);
   if intact vr then MsgAllIntact else MsgProblems].






(** Text made of ASCII characters only. *)
Fixpoint is_ascii (s : string) : bool :=
  match s with
  | EmptyString => true
  | String c s' => (N_of_ascii c <? 128)%N && is_ascii s'
  end.

(** Every string of a value, and the text of every float, is valid UTF-8. *)
Fixpoint json_valid (v : json) : bool :=
  match v with
  | JFloat repr => valid_utf8 repr
  | JStr s => valid_utf8 s
  | JArr l => forallb json_valid l
  | JObj l => forallb (fun kv => valid_utf8 (fst kv) && json_valid (snd kv)) l
  | _ => true
  end.

(** The state of the decoder after an ASCII character. *)
Definition after_ascii (st : utf8_state) : utf8_state :=
  match st with
  | U_start => U_start
  | _ => U_invalid
  end.

(** The record of a file in the manifest. *)
Definition file_record (file_hash : string) (size : Z) (modified : string) : json :=
  JObj [("hash", JStr file_hash); ("size", JInt size); ("modified", JFloat modified)].

(** Whether [open(path, 'w')] succeeds. *)
Definition writable (w : world) (path : string) : bool :=
  match resolve w path with
  | inl p => match lookup (w_root w) p with
             | Some (Dir _) | Some Broken => false
             | Some (File f) => i_perm f
             | None => true
             end
  | inr _ => false
  end.

(** The world after [data] has been written at the components [p]. *)
Definition written (w : world) (p : list string) (data : list byte) : world :=
  {| w_root := update (w_root w) p
                 (File {| i_data := data; i_mtime := w_mtime w;
                          i_perm := true; i_fault := None |});
     w_cwd := w_cwd w; w_now := w_now w; w_mtime := w_mtime w |}.

(** The relative paths announced as processed, in order. *)
Fixpoint processed_paths (o : list message) : list string :=
  match o with
  | [] => []
  | MsgProcessed rel_path :: o' => rel_path :: processed_paths o'
  | _ :: o' => processed_paths o'
  end.



(** The absolute form of a path before normalisation. *)
Definition absolute (cwd path : string) : string :=
  if startswith_sep path then path else posixpath.join cwd path.

Definition abs_comps (cwd path : string) : list string :=
  posixpath.nonempty_comps (posixpath.abspath cwd path).

(** Every name in the tree is one a directory can hold. *)
Fixpoint wf_names (n : node) : bool :=
  match n with
  | Dir es =>
      (fix all (l : list (string * node)) : bool :=
         match l with
         | [] => true
         | (name, child) :: l' => valid_name name && wf_names child && all l'
         end) es
  | _ => true
  end.

(** The place a file is written at holds no directory. *)
Definition no_dir_at (root : node) (p : list string) : Prop :=
  match lookup root p with
  | Some (Dir _) => False
  | _ => True
  end.

(** The report [calculate_hash] prints for an error of the file. *)
Definition hash_failure_report (file_path : string) (e : exn) : message :=
  if isinstance e C_FileNotFoundError then MsgHashNotFound file_path
  else MsgHashReadError file_path e.

(** The last component of a relative path. *)
Definition basename (path : string) : string := last (split path) "".

(** The number of hexadecimal digits of each digest. *)
Definition hex_digits (a : algo) : nat :=
  match a with
  | MD5 => 32
  | SHA1 => 40
  | SHA256 => 64
  end.

Definition dir_names (es : list (string * node)) : list string :=
  map fst (filter (fun e => match snd e with Dir _ => true | _ => false end) es).

Definition file_names (es : list (string * node)) : list string :=
  map fst (filter (fun e => match snd e with Dir _ => false | _ => true end) es).

(** The text of a value, written by recursion on the value, and the
    values and texts the decoder is followed on. *)
Module pyjson_text.

Import pyjson.

Fixpoint concat_with (s : string) (l : list string) : string :=
  match l with
  | [] => EmptyString
  | [x] => x
  | x :: l' => x +++ s +++ concat_with s l'
  end.

(** The text of a value at nesting [level], all at once. *)
Fixpoint text (level : nat) (v : json) : string :=
  match v with
  | JArr [] => "[]"
  | JArr l =>
      "[" +++ newline_indent (S level)
      +++ concat_with ("," +++ newline_indent (S level)) (map (text (S level)) l)
      +++ newline_indent level +++ "]"
  | JObj [] => "{}"
  | JObj l =>
      "{" +++ newline_indent (S level)
      +++ concat_with ("," +++ newline_indent (S level))
            (map (fun kv => quote (fst kv) +++ ": " +++ text (S level) (snd kv)) l)
      +++ newline_indent level +++ "}"
  | _ => scalar v
  end.

(** A member of an object as the encoder writes it. *)
Definition member (level : nat) (kv : string * json) : string :=
  quote (fst kv) +++ ": " +++ text level (snd kv).

Fixpoint all_digits (s : string) : bool :=
  match s with
  | EmptyString => true
  | String c s' => is_digit c && all_digits s'
  end.

(** The text after a number: the end, or a character that cannot go on
    with it. *)
Definition stops (rest : string) : bool :=
  match rest with
  | EmptyString => true
  | String c _ =>
      negb (is_digit c || Ascii.eqb c "." || Ascii.eqb c "e" || Ascii.eqb c "E")
  end.

(** A float written with an integer part and a fraction, and neither a
    sign nor an exponent. *)
Definition plain_float (s : string) : bool :=
  let (i, r) := span is_digit s in
  negb (i =? "")%string
  && negb ((1 <? String.length i)%nat && startswith_zero i)
  && match r with
     | String c f => Ascii.eqb c "." && negb (f =? "")%string && all_digits f
     | EmptyString => false
     end.

(** The values the decoder reads back as they were written: every float
    is plain. *)
Fixpoint plain (v : json) : bool :=
  match v with
  | JFloat repr => plain_float repr
  | JArr l => forallb plain l
  | JObj l => forallb (fun kv => plain (snd kv)) l
  | _ => true
  end.

(** The calls of the decoder a value takes. *)
Fixpoint size (v : json) : nat :=
  match v with
  | JArr l => S (list_sum (map (fun x => S (size x)) l))
  | JObj l => S (list_sum (map (fun kv => S (size (snd kv))) l))
  | _ => 1
  end.

Fixpoint all_ws (s : string) : bool :=
  match s with
  | EmptyString => true
  | String c s' => is_ws c && all_ws s'
  end.

(** The first character of a number. *)
Definition number_start (s : string) : bool :=
  match s with
  | String c _ => is_digit c || Ascii.eqb c "-"
  | EmptyString => false
  end.

(** What the encoder writes starts with a character that is neither
    white space nor a closing bracket. *)
Definition opens (s : string) : bool :=
  match s with
  | String c _ => negb (is_ws c || Ascii.eqb c "]" || Ascii.eqb c "}")
  | EmptyString => false
  end.

Definition parses (v : json) : Prop :=
  forall level fuel rest,
  plain v = true -> stops rest = true -> size v <= fuel ->
  parse_value fuel (text level v +++ rest) = Some (v, rest).

(** Text without a carriage return, which a file opened in text mode
    gives back as it is. *)
Fixpoint no_cr (s : string) : bool :=
  match s with
  | EmptyString => true
  | String c s' => negb (Ascii.eqb c "013") && no_cr s'
  end.

End pyjson_text.

(** Every time stamp of the tree is a plain float. *)
Fixpoint plain_mtimes (n : node) : bool :=
  match n with
  | File f => pyjson_text.plain_float (i_mtime f)
  | Broken => true
  | Dir es =>
      (fix all (l : list (string * node)) : bool :=
         match l with
         | [] => true
         | (_, child) :: l' => plain_mtimes child && all l'
         end) es
  end.

(** A computation of the shell is tame when it never puts lines back in
    the input and raises nothing but exceptions proper; it is steady when
    it leaves the world as it was; it ends by the input only when the one
    exception it can raise is [EOFError], with nothing left to read. *)
Definition tame {A} (c : Sh A) : Prop :=
  forall s,
  List.length (c_stdin (s_final (c s))) <= List.length (c_stdin s)
  /\ forall e, s_result (c s) = inr e -> is_exception e = true.

Definition steady {A} (c : Sh A) : Prop :=
  forall s, c_world (s_final (c s)) = c_world s.

Definition eof_only {A} (c : Sh A) : Prop :=
  forall s e, s_result (c s) = inr e -> e = EOFError /\ c_stdin (s_final (c s)) = [].

(** The lines of the menu. *)
Definition menu_lines : list shell_message :=
  [ShBlankDoubleRule; ShTitle; ShDoubleRule; ShMenuCreate; ShMenuVerify;
   ShMenuSingle; ShMenuExit; Said MsgRule].

(** The algorithm of a choice, as an algorithm of [hashlib]. *)
Definition algo_of (algo_choice : string) : algo :=
  if (algo_choice =? "1")%string then MD5
  else if (algo_choice =? "2")%string then SHA1
  else SHA256.

Section Vocabulary.

Context `{HL : Hashlib} `{JL : JsonLib}.

(** The two nested loops of [create_checksum_file]. *)
Definition scan (directory_path output_file algorithm : string)
  (triples : list (string * list string * list string)) (st : dict * nat)
  : M (dict * nat) :=
  for_each triples
    (fun t st =>
       for_each (snd t)
         (process_file directory_path output_file algorithm (fst (fst t))) st)
    st.

(** A directory with nothing to record: every file in it is excluded by
    its name or cannot be hashed. *)
Definition nothing_hashable (directory_path output_file algorithm : string)
  (w : world) (n : node) : Prop :=
  forall root dirs files file_name,
    In (root, dirs, files) (walk directory_path n) ->
    In file_name files ->
    file_name = output_file
    \/ exists e, result (calculate_hash (posixpath.join root file_name)
                           (JStr algorithm) w) = inr e.

(** An entry of the manifest that verification passes in the world [w]:
    whatever the counters are, the turn of the loop confirms the file and
    adds one to [passed]. *)
Definition passes (w : world) (directory_path algorithm : string)
  (entry : string * json) : Prop :=
  forall vr,
    verify_entry (JStr directory_path) (JStr algorithm) entry vr w
    = Run (inl (incr_passed vr)) w [MsgConfirmed (fst entry)].

(** How an entry of the manifest came to be: a file reached from the
    directory by names, the last of which is not [output_file], that could
    be opened and read to its end, recorded under the names joined. *)
Definition recorded (w : world) (directory_path output_file algorithm : string)
  (entry : string * json) : Prop :=
  exists names file_name f a,
    Forall (fun x => valid_name x = true) names
    /\ valid_name file_name = true
    /\ file_name <> output_file
    /\ fold_left posixpath.join names directory_path <> ""
    /\ stat w (posixpath.join (fold_left posixpath.join names directory_path) file_name)
       = inl (File f)
    /\ i_perm f = true
    /\ result (update_from_file (N.to_nat 65536) (opened f) (hashlib_new a) w)
       = inl (hash_update (hashlib_new a) (i_data f))
    /\ algorithm = algorithm_tag a
    /\ fst entry = join_sep (names ++ [file_name])
    /\ posixpath.join directory_path (fst entry)
       = posixpath.join (fold_left posixpath.join names directory_path) file_name
    /\ snd entry = file_record (hex (digest a (i_data f)))
                     (Z.of_nat (List.length (i_data f))) (i_mtime f).

(** The outcome of one entry of the manifest in the world [w], with the
    lines that report it: what a turn of the loop of [verify_integrity]
    finds, apart from the counters. *)
Definition classify (w : world) (d : string) (algorithm : json)
  (entry : string * json) : outcome * list message :=
  let file_path := posixpath.join d (fst entry) in
  match stat w file_path with
  | inr _ => (Missing, [MsgMissing (fst entry)])
  | inl _ =>
      let r := calculate_hash file_path algorithm w in
      match result r with
      | inr e => (Mismatched, output r ++ [MsgVerifyError (fst entry) e])
      | inl h =>
          match py_getitem (snd entry) "hash" with
          | inr e => (Mismatched, [MsgVerifyError (fst entry) e])
          | inl v =>
              if py_str_eq h v then (Matched, [MsgConfirmed (fst entry)])
              else (Mismatched,
                    [MsgViolated (fst entry); MsgExpected v; MsgActual h])
          end
      end
  end.

(** The manifest [verify_integrity] reads at [checksum_file]: the
    directory to check, the algorithm and the entries. *)
Definition manifest_at (w : world) (checksum_file : string) (target : option string)
  : option (json * json * dict) :=
  match result (read_text checksum_file w) with
  | inl text =>
      match json_loads text with
      | Some checksums =>
          match manifest_header checksums target, manifest_entries checksums with
          | inl (d, algorithm), inl items => Some (d, algorithm, items)
          | _, _ => None
          end
      | None => None
      end
  | inr _ => None
  end.


(** The report of a list of entries. *)
Definition tally (w : world) (d : string) (algorithm : json) (items : dict)
  (vr : results) : results :=
  fold_left (fun vr entry => count (fst (classify w d algorithm entry)) vr) items vr.

Definition report (w : world) (d : string) (algorithm : json) (items : dict)
  : list message :=
  flat_map (fun entry => snd (classify w d algorithm entry)) items.

(** The body of the [try] of [check_single_file]. *)
Definition report_file (file_path algorithm : string) : Sh unit :=
  file_hash <~ core (calculate_hash file_path (JStr algorithm)) ;;
  file_size <~ core (os_path_getsize file_path) ;;
  say ShBlankDoubleRule ;~
  say (ShFile file_path) ;~
  say (ShSize file_size) ;~
  say (ShAlgorithm (upper algorithm)) ;~
  say (ShHash file_hash) ;~
  say ShDoubleRule ;~
  line <~ input AskCompare ;;
  let compare := lower (strip line) in
  if (compare =? "y")%string then
    line <~ input AskKnownHash ;;
    let known_hash := strip line in
    if (file_hash =? known_hash)%string then say ShHashesMatch
    else say ShHashesDiffer
  else sret tt.

(** What follows the menu in a turn. *)
Definition dispatch (choice : string) : Sh bool :=
  if (choice =? "1")%string then create_command ;~ sret true
  else if (choice =? "2")%string then verify_command ;~ sret true
  else if (choice =? "3")%string then check_single_file ;~ sret true
  else if (choice =? "4")%string then say ShGoodbye ;~ sret false
  else say ShInvalidChoice ;~ sret true.

End Vocabulary.

(* ===================================================================== *)
(** * Sample worlds *)
(* ===================================================================== *)

Definition bytes (s : string) : list byte := list_byte_of_string s.

Definition regular (content : string) : node :=
  File {| i_data := bytes content; i_mtime := "1700000000.5";
          i_perm := true; i_fault := None |}.

(** [/data] holds [a.txt] and [sub/b.txt]; the process runs in [/home/u]. *)
Definition sample_world : world :=
  {| w_root := Dir [("data", Dir [("a.txt", regular "hello");
                                  ("sub", Dir [("b.txt", regular "world")])]);
                    ("home", Dir [("u", Dir [])])];
     w_cwd := ["home"; "u"];
     w_now := "2024-01-01T10:00:00.123456";
     w_mtime := "1704103200.25" |}.

(** [sample_world] after [/data] has been built into [checksums.json], in
    the working directory. *)
Definition built_world : world :=
  final (@create_checksum_file py_hashlib py_json "/data" "checksums.json" "sha256" sample_world).

(** A manifest inside the directory it describes: [sample_world] after
    [/data] has been built into [/data/checksums.json], once and twice. *)
Definition built_inside : world :=
  final (@create_checksum_file py_hashlib py_json "/data" "/data/checksums.json" "sha256" sample_world).

Definition rebuilt_inside : world :=
  final (@create_checksum_file py_hashlib py_json "/data" "/data/checksums.json" "sha256" built_inside).

(** The same build from inside [/data], under the bare name
    [checksums.json]: the world before the second build. *)
Definition built_by_name : world :=
  final (@create_checksum_file py_hashlib py_json "." "checksums.json" "sha256"
           {| w_root := w_root sample_world; w_cwd := ["data"];
              w_now := w_now sample_world; w_mtime := w_mtime sample_world |}).

(** A world with files that cannot be hashed: [locked.bin] may not be
    opened, [worn.bin] has an unreadable byte, [gone] is a link to nothing
    and [sub] is a directory. The manifest [checksums.json] lists them all,
    with [a.txt]; [sha512.json] and [none.json] carry an algorithm tag the
    program does not know, [notes.txt] is not JSON, [latin1.json] is not
    UTF-8, [list.json] is an array, [nofiles.json] has no files mapping and
    the directory of [dir5.json] is a number. *)
Definition hello_sha256 : string :=
  "2cf24dba5fb0a30e26e83b2ac5b9e29e1b161e5c1fa7425e73043362938b9824".

Definition manifest_of (algorithm : string) (files : dict) : json :=
  JObj [("metadata", JObj [("created_at", JStr "2024-01-01T10:00:00.123456");
                           ("algorithm", JStr algorithm);
                           ("directory", JStr "/data")]);
        ("files", JObj files)].

Definition record_of (file_hash : string) : json :=
  JObj [("hash", JStr file_hash); ("size", JInt 5); ("modified", JFloat "1700000000.5")].

Definition faulty_manifest : json :=
  manifest_of "sha256"
    [("a.txt", record_of hello_sha256); ("locked.bin", record_of hello_sha256);
     ("worn.bin", record_of hello_sha256); ("gone", record_of hello_sha256);
     ("sub", record_of hello_sha256); ("deleted.txt", record_of hello_sha256)].

Definition sha512_manifest : json :=
  manifest_of "sha512" [("a.txt", record_of hello_sha256)].

Definition none_manifest : json := manifest_of "sha512" [].

(** Documents that are JSON and lack the structure: one without [files],
    and one, tagged [sha512], whose directory is a number. *)
Definition nofiles_manifest : json :=
  JObj [("metadata", JObj [("algorithm", JStr "sha256"); ("directory", JStr "/data")])].

Definition dir5_manifest : json :=
  JObj [("metadata", JObj [("created_at", JStr "2024-01-01T10:00:00.123456");
                           ("algorithm", JStr "sha512");
                           ("directory", JInt 5)]);
        ("files", JObj [("a.txt", record_of hello_sha256)])].

Definition faulty_world : world :=
  {| w_root :=
       Dir [("data",
             Dir [("a.txt", regular "hello");
                  ("locked.bin", File {| i_data := bytes "hello"; i_mtime := "1700000000.5";
                                         i_perm := false; i_fault := None |});
                  ("worn.bin", File {| i_data := bytes "hello"; i_mtime := "1700000000.5";
                                       i_perm := true; i_fault := Some 2 |});
                  ("gone", Broken);
                  ("sub", Dir [("b.txt", regular "world")])]);
            ("home",
             Dir [("u", Dir [("checksums.json", regular (pyjson.dumps 0 faulty_manifest));
                             ("sha512.json", regular (pyjson.dumps 0 sha512_manifest));
                             ("none.json", regular (pyjson.dumps 0 none_manifest));
                             ("notes.txt", regular "not a manifest");
                             ("latin1.json", regular ("{" +++ String "233" "}"));
                             ("list.json", regular "[]");
                             ("nofiles.json", regular (pyjson.dumps 0 nofiles_manifest));
                             ("dir5.json", regular (pyjson.dumps 0 dir5_manifest))])])];
     w_cwd := ["home"; "u"];
     w_now := "2024-01-02T10:00:00.000000";
     w_mtime := "1704189600.0" |}.

(** The surrogate U+DCFF, by which the byte [FF] of a file name that is
    not UTF-8 reaches the program. *)
Definition stray_byte : string := String "237" (String "179" (String "191" "")).

(** A world with names that are not UTF-8: the file [b?.txt] of [/data]
    and the empty directory [/old?], where [?] is the stray byte. *)
Definition legacy_world : world :=
  {| w_root := Dir [("data", Dir [("a.txt", regular "hello");
                                  ("b" +++ stray_byte +++ ".txt", regular "world")]);
                    ("old" +++ stray_byte, Dir []);
                    ("home", Dir [("u", Dir [])])];
     w_cwd := ["home"; "u"];
     w_now := "2024-01-03T10:00:00.000000";
     w_mtime := "1704276000.0" |}.

(** A world where [/vault] holds nothing that can be recorded: a manifest
    of the name given as output file, a file that may not be opened, a link
    to nothing and, one level down, a file with an unreadable byte. *)
Definition barren_world : world :=
  {| w_root :=
       Dir [("vault",
             Dir [("checksums.json", regular "{}");
                  ("locked.bin", File {| i_data := bytes "hello"; i_mtime := "1700000000.5";
                                         i_perm := false; i_fault := None |});
                  ("gone", Broken);
                  ("sub",
                   Dir [("worn.bin", File {| i_data := bytes "hello";
                                             i_mtime := "1700000000.5";
                                             i_perm := true; i_fault := Some 2 |})])]);
            ("home", Dir [("u", Dir [])])];
     w_cwd := ["home"; "u"];
     w_now := "2024-01-04T10:00:00.000000";
     w_mtime := "1704362400.0" |}.



(** Sessions of the shell. [missing_console] asks for a file that is not
    there; [compare_console] hashes [/data/a.txt] and compares the digest
    with its own text in capitals; [reading_session] checks a file,
    verifies the manifest of [built_world], mistypes a choice and leaves;
    [create_console] builds [/data] under the default name and
    [verify_console] verifies the manifest against its own directory. *)
Definition missing_console : console :=
  {| c_world := sample_world; c_stdin := ["  /data/none.txt "; "4"] |}.

Definition compare_console : console :=
  {| c_world := sample_world;
     c_stdin := [" /data/a.txt"; "3"; " Y ";
                 "2CF24DBA5FB0A30E26E83B2AC5B9E29E1B161E5C1FA7425E73043362938B9824"] |}.

Definition reading_session : console :=
  {| c_world := built_world;
     c_stdin := ["3"; "/data/a.txt"; "1"; "n"; ""; "2"; "checksums.json"; ""; "";
                 "5"; ""; " 4 "] |}.

Definition create_console : console :=
  {| c_world := sample_world; c_stdin := ["1"; " /data "; ""; "2"; ""; "4"] |}.

Definition verify_console : console :=
  {| c_world := built_world; c_stdin := [" 2"; "checksums.json"; "  "; ""; "4"] |}.

(* ===================================================================== *)
(** * Properties of the monad *)
(* ===================================================================== *)

Lemma run_eta {A} (r : run A) : r = Run (result r) (final r) (output r).
Proof. destruct r; reflexivity. Qed.

Lemma bind_ok {A B} (c : M A) (k : A -> M B) w a w' o :
  c w = Run (inl a) w' o ->
  bind c k w = Run (result (k a w')) (final (k a w')) (o ++ output (k a w')).
Proof. intros Hc. unfold bind. rewrite Hc. reflexivity. Qed.

Lemma bind_raise {A B} (c : M A) (k : A -> M B) w e w' o :
  c w = Run (inr e) w' o ->
  bind c k w = Run (inr e) w' o.
Proof. intros Hc. unfold bind. rewrite Hc. reflexivity. Qed.

Lemma bind_ok_silent {A B} (c : M A) (k : A -> M B) w a :
  c w = Run (inl a) w [] ->
  bind c k w = k a w.
Proof.
  intros Hc. rewrite (bind_ok _ _ _ _ _ _ Hc). simpl. symmetry. apply run_eta.
Qed.

Lemma try_ok {A} (c : M A) handlers w a w' o :
  c w = Run (inl a) w' o ->
  try_except c handlers w = Run (inl a) w' o.
Proof. intros Hc. unfold try_except. rewrite Hc. reflexivity. Qed.

Lemma try_caught {A} (c : M A) handlers w e w' o h :
  c w = Run (inr e) w' o ->
  handlers e = Some h ->
  try_except c handlers w = Run (result (h w')) (final (h w')) (o ++ output (h w')).
Proof. intros Hc Hh. unfold try_except. rewrite Hc. simpl. rewrite Hh. reflexivity. Qed.

Lemma bind_print {A} (m : message) (k : M A) (w : world) :
  (print m ;;; k) w = prepend [m] (k w).
Proof. reflexivity. Qed.

Lemma prepend_prepend {A} (o o' : list message) (r : run A) :
  prepend o (prepend o' r) = prepend (o ++ o') r.
Proof. unfold prepend. cbn [result final output]. rewrite app_assoc. reflexivity. Qed.

Lemma try_returns {A} (c : M A) handlers w a :
  result (c w) = inl a -> try_except c handlers w = c w.
Proof. intros Hc. unfold try_except. rewrite Hc. reflexivity. Qed.

Lemma reader_ret {A} (a : A) : reader (ret a).
Proof. intros w. reflexivity. Qed.

Lemma reader_raise {A} (e : exn) : reader (@raise A e).
Proof. intros w. reflexivity. Qed.

Lemma reader_print (m : message) : reader (print m).
Proof. intros w. reflexivity. Qed.

Lemma reader_lift {A} (r : A + exn) : reader (lift r).
Proof. intros w. destruct r; reflexivity. Qed.

Lemma reader_ask {A} (f : world -> A + exn) : reader (ask f).
Proof. intros w. unfold ask. apply reader_lift. Qed.

Lemma reader_bind {A B} (c : M A) (k : A -> M B) :
  reader c -> (forall a, reader (k a)) -> reader (bind c k).
Proof.
  intros Hc Hk w. unfold bind. specialize (Hc w).
  destruct (result (c w)); simpl; [rewrite Hk|]; assumption.
Qed.

Lemma reader_try {A} (c : M A) handlers :
  reader c -> (forall e h, handlers e = Some h -> reader h) ->
  reader (try_except c handlers).
Proof.
  intros Hc Hh w. unfold try_except. specialize (Hc w).
  destruct (result (c w)) as [a|e]; [assumption|].
  destruct (handlers e) as [h|] eqn:E; [|assumption].
  simpl. rewrite (Hh _ _ E). assumption.
Qed.

Lemma reader_for_each {A S} (l : list A) (body : A -> S -> M S) :
  (forall x s, reader (body x s)) -> forall s, reader (for_each l body s).
Proof.
  intros Hb. induction l as [|x l IH]; intros s; simpl.
  - apply reader_ret.
  - apply reader_bind; [apply Hb | assumption].
Qed.

Create HintDb reader.
#[local] Hint Resolve reader_ret reader_raise reader_print reader_lift reader_ask : reader.

(* ===================================================================== *)
(** * [calculate_hash] *)
(* ===================================================================== *)

Lemma firstn_skipn_length {A} (n : nat) (l : list A) :
  firstn n l ++ skipn (List.length (firstn n l)) l = l.
Proof.
  revert l. induction n as [|n IH]; intros [|x l]; simpl; try reflexivity.
  f_equal. apply IH.
Qed.

Lemma firstn_nil_inv {A} (n : nat) (l : list A) :
  0 < n -> firstn n l = [] -> l = [].
Proof. destruct n; [lia|]. destruct l; [reflexivity|discriminate]. Qed.

Section CalculateHash.

Context `{HL : Hashlib}.

(** One [file.read] of a file without a reachable fault. *)
Lemma file_read_ok (file : handle) (n : nat) (w : world) :
  match h_fault file with
  | None => True
  | Some k => List.length (h_data file) <= k
  end ->
  let chunk := firstn n (skipn (h_pos file) (h_data file)) in
  file_read file n w =
  Run (inl (chunk, {| h_data := h_data file;
                      h_pos := h_pos file + List.length chunk;
                      h_fault := h_fault file |})) w [].
Proof.
  intros Hf chunk. unfold file_read. fold chunk.
  destruct (h_fault file) as [k|]; [|reflexivity].
  assert (Hlen : h_pos file + List.length chunk <= k \/ k < h_pos file).
  { destruct (Nat.le_gt_cases (h_pos file) k) as [Hle|Hgt]; [left|right; lia].
    pose proof (firstn_skipn_length n (skipn (h_pos file) (h_data file))) as E.
    fold chunk in E. apply (f_equal (@List.length _)) in E.
    rewrite length_app, !length_skipn in E. lia. }
  destruct (Nat.leb_spec (h_pos file) k), (Nat.ltb_spec k (h_pos file + List.length chunk));
    simpl; try reflexivity; lia.
Qed.

(** The loop feeds the hash object the chunk at hand and then all that is
    left of the file, whatever the size of the blocks, and [fuel] is not
    exhausted when it is at least what is left. *)
Lemma read_blocks_fuel (block_size : nat) (Hpos : 0 < block_size) :
  forall fuel file hash_obj chunk w,
  match h_fault file with
  | None => True
  | Some k => List.length (h_data file) <= k
  end ->
  (chunk = [] -> skipn (h_pos file) (h_data file) = []) ->
  List.length (skipn (h_pos file) (h_data file))
    + match chunk with [] => 0 | _ => 1 end <= fuel ->
  read_blocks fuel block_size file hash_obj chunk w =
  Run (inl {| hs_algo := hs_algo hash_obj;
              hs_data := hs_data hash_obj ++ chunk
                         ++ skipn (h_pos file) (h_data file) |}) w [].
Proof.
  induction fuel as [|fuel IH]; intros file hash_obj chunk w Hf Hnil Hfuel.
  - destruct chunk; [|simpl in Hfuel; lia].
    simpl. rewrite (Hnil eq_refl), app_nil_r. destruct hash_obj; reflexivity.
  - destruct chunk as [|c cs].
    + simpl. rewrite (Hnil eq_refl), app_nil_r. destruct hash_obj; reflexivity.
    + cbn [read_blocks].
      rewrite (bind_ok_silent _ _ _ _ (file_read_ok file block_size w Hf)).
      cbn [fst snd].
      remember (skipn (h_pos file) (h_data file)) as rest eqn:Hrest.
      pose proof (firstn_skipn_length block_size rest) as E.
      assert (Hskip : skipn (h_pos file + List.length (firstn block_size rest)) (h_data file)
                      = skipn (List.length (firstn block_size rest)) rest).
      { rewrite Nat.add_comm, <- skipn_skipn, Hrest. reflexivity. }
      rewrite IH; cbn [h_data h_pos h_fault hash_update hs_algo hs_data];
        try rewrite Hskip.
      * rewrite <- !app_assoc. rewrite E. reflexivity.
      * exact Hf.
      * intros Hc. rewrite Hc. simpl.
        apply (firstn_nil_inv _ _ Hpos Hc).
      * apply (f_equal (@List.length _)) in E. rewrite length_app in E.
        destruct (firstn block_size rest) eqn:Ec; simpl in *; lia.
Qed.

(** The [with] block feeds the whole content, for every block size. *)
Lemma update_from_file_all (block_size : nat) (f : inode) (hash_obj : hash_state)
  (w : world) :
  0 < block_size -> readable f = true ->
  update_from_file block_size (opened f) hash_obj w =
  Run (inl (hash_update hash_obj (i_data f))) w [].
Proof.
  intros Hpos Hr. unfold readable in Hr. apply andb_true_iff in Hr as [_ Hr].
  assert (Hf : match h_fault (opened f) with
               | None => True
               | Some k => List.length (h_data (opened f)) <= k
               end).
  { simpl. destruct (i_fault f); [apply Nat.leb_le; exact Hr | exact I]. }
  unfold update_from_file.
  rewrite (bind_ok_silent _ _ _ _ (file_read_ok (opened f) block_size w Hf)).
  cbn [fst snd].
  pose proof (firstn_skipn_length block_size (i_data f)) as E.
  rewrite (read_blocks_fuel block_size Hpos);
    cbn [h_data h_pos h_fault opened skipn hs_algo hs_data Nat.add].
  - rewrite E. reflexivity.
  - exact Hf.
  - intros Hc. rewrite Hc. simpl. apply (firstn_nil_inv _ _ Hpos Hc).
  - apply (f_equal (@List.length _)) in E. rewrite length_app in E.
    destruct (firstn block_size (i_data f)); simpl in *; lia.
Qed.

Lemma open_rb_ok (w : world) (file_path : string) (f : inode) :
  stat w file_path = inl (File f) -> i_perm f = true ->
  open_rb file_path w = Run (inl (opened f)) w [].
Proof.
  intros Hs Hp. unfold open_rb, ask. rewrite Hs, Hp. reflexivity.
Qed.

Lemma hex_lowercase (l : list byte) :
  Forall (fun c => lowercase_hex c = true) (list_ascii_of_string (hex l)).
Proof.
  assert (Hd : forall n, (n < 16)%N -> lowercase_hex (hex_digit n) = true).
  { intros n Hn.
    assert (Hc : In n (map N.of_nat (seq 0 16))).
    { apply in_map_iff. exists (N.to_nat n). split; [lia|]. apply in_seq. lia. }
    simpl in Hc. repeat (destruct Hc as [<-|Hc]; [reflexivity|]). destruct Hc. }
  induction l as [|b l IH]; simpl; [constructor|].
  constructor; [|constructor; [|exact IH]]; apply Hd.
  - apply N.Div0.div_lt_upper_bound. pose proof (Byte.to_N_bounded b). lia.
  - apply N.mod_lt. discriminate.
Qed.

Lemma hex_length (l : list byte) : String.length (hex l) = 2 * List.length l.
Proof. induction l as [|b l IH]; simpl; [reflexivity|]. rewrite IH. lia. Qed.

(** C8: the hash of a readable file is the digest of its content under
    the chosen algorithm, as a string of lowercase hexadecimal digits (two
    for each byte of the digest). The call changes nothing and prints
    nothing, and the content reaches the hash object whole, whatever the
    size of the blocks it is read by. *)
Theorem calculate_hash_digest (w : world) (file_path : string) (f : inode) (a : algo) :
  stat w file_path = inl (File f) ->
  readable f = true ->
  calculate_hash file_path (JStr (algorithm_tag a)) w
    = Run (inl (hex (digest a (i_data f)))) w []
  /\ Forall (fun c => lowercase_hex c = true)
       (list_ascii_of_string (hex (digest a (i_data f))))
  /\ String.length (hex (digest a (i_data f))) = 2 * List.length (digest a (i_data f))
  /\ forall block_size hash_obj, 0 < block_size ->
       update_from_file block_size (opened f) hash_obj w
       = Run (inl (hash_update hash_obj (i_data f))) w [].
Proof.
  intros Hs Hr. split; [|split; [apply hex_lowercase|split; [apply hex_length|]]].
  - assert (Hp : i_perm f = true).
    { unfold readable in Hr. apply andb_true_iff in Hr. tauto. }
    unfold calculate_hash.
    assert (Hnew : (match JStr (algorithm_tag a) with
                    | JStr a0 =>
                        if (a0 =? "md5")%string then ret (hashlib_new MD5)
                        else if (a0 =? "sha1")%string then ret (hashlib_new SHA1)
                        else if (a0 =? "sha256")%string then ret (hashlib_new SHA256)
                        else raise ValueError
                    | _ => raise ValueError
                    end) w = Run (inl (hashlib_new a)) w []).
    { destruct a; reflexivity. }
    rewrite (bind_ok_silent _ _ _ _ Hnew).
    apply try_ok.
    rewrite (bind_ok_silent _ _ _ _ (open_rb_ok w file_path f Hs Hp)).
    assert (Hbs : 0 < N.to_nat 65536) by lia.
    rewrite (bind_ok_silent _ _ _ _
               (update_from_file_all _ f (hashlib_new a) w Hbs Hr)).
    reflexivity.
  - intros block_size hash_obj Hpos. apply update_from_file_all; assumption.
Qed.

Lemma calculate_hash_refuses (w : world) (file_path : string) (algorithm : json) :
  algorithm <> JStr "md5" ->
  algorithm <> JStr "sha1" ->
  algorithm <> JStr "sha256" ->
  calculate_hash file_path algorithm w = Run (inr ValueError) w [].
Proof.
  intros H1 H2 H3. unfold calculate_hash.
  apply bind_raise.
  destruct algorithm as [| | | |a| |]; try reflexivity.
  destruct (String.eqb_spec a "md5") as [->|_]; [congruence|].
  destruct (String.eqb_spec a "sha1") as [->|_]; [congruence|].
  destruct (String.eqb_spec a "sha256") as [->|_]; [congruence|].
  reflexivity.
Qed.

(** C9: an algorithm that is none of the three tags is refused before
    anything else happens: for every path, whether it names a file or not,
    and every world, the call raises [ValueError] and not the error of a
    missing file, prints nothing and leaves the world as it was; the outcome
    is the same in every other world, so it does not depend on the file
    system. *)
Theorem calculate_hash_unsupported (w : world) (file_path : string) (algorithm : json) :
  algorithm <> JStr "md5" ->
  algorithm <> JStr "sha1" ->
  algorithm <> JStr "sha256" ->
  calculate_hash file_path algorithm w = Run (inr ValueError) w []
  /\ result (calculate_hash file_path algorithm w) <> inr FileNotFoundError
  /\ forall w', result (calculate_hash file_path algorithm w')
                = result (calculate_hash file_path algorithm w)
                /\ output (calculate_hash file_path algorithm w') = [].
Proof.
  intros H1 H2 H3.
  rewrite (calculate_hash_refuses w file_path algorithm H1 H2 H3).
  split; [reflexivity|]. split; [discriminate|].
  intros w'. rewrite (calculate_hash_refuses w' file_path algorithm H1 H2 H3).
  split; reflexivity.
Qed.

End CalculateHash.

(* ===================================================================== *)
(** * Silent computations *)
(* ===================================================================== *)

Lemma silent_ret {A} (a : A) : silent (ret a).
Proof. intros w. reflexivity. Qed.

Lemma silent_raise {A} (e : exn) : silent (@raise A e).
Proof. intros w. reflexivity. Qed.

Lemma silent_lift {A} (r : A + exn) : silent (lift r).
Proof. intros w. destruct r; reflexivity. Qed.

Lemma silent_ask {A} (f : world -> A + exn) : silent (ask f).
Proof. intros w. unfold ask. apply silent_lift. Qed.

Lemma silent_bind {A B} (c : M A) (k : A -> M B) :
  silent c -> (forall a, silent (k a)) -> silent (bind c k).
Proof.
  intros Hc Hk w. unfold bind. rewrite (Hc w). cbn [result final output].
  destruct (result (c w)) as [a|e]; [|reflexivity].
  rewrite (Hk a w). reflexivity.
Qed.

Lemma silent_reader {A} (c : M A) : silent c -> reader c.
Proof. intros Hc w. rewrite (Hc w). reflexivity. Qed.

Lemma silent_file_read (file : handle) (n : nat) : silent (file_read file n).
Proof.
  intros w. unfold file_read. destruct (h_fault file); [|reflexivity].
  destruct (_ && _); reflexivity.
Qed.

Lemma silent_open_rb (path : string) : silent (open_rb path).
Proof. apply silent_ask. Qed.

Lemma silent_read_text (path : string) : silent (read_text path).
Proof.
  unfold read_text. apply silent_bind; [apply silent_open_rb|]. intros file.
  apply silent_bind; [apply silent_file_read|]. intros r. cbv zeta.
  destruct (valid_utf8 _); [apply silent_ret | apply silent_raise].
Qed.

Lemma silent_os_path_exists (path : string) : silent (os_path_exists path).
Proof. apply silent_ask. Qed.

Lemma silent_os_path_join (a : json) (b : string) : silent (os_path_join a b).
Proof. destruct a; first [apply silent_ret | apply silent_raise]. Qed.

Section HashRuns.

Context `{HL : Hashlib}.

Lemma silent_read_blocks (block_size : nat) :
  forall fuel file hash_obj chunk,
  silent (read_blocks fuel block_size file hash_obj chunk).
Proof.
  induction fuel as [|fuel IH]; intros file hash_obj chunk;
    destruct chunk; cbn [read_blocks]; try apply silent_ret.
  apply silent_bind; [apply silent_file_read|]. intros r. apply IH.
Qed.

Lemma silent_update_from_file (block_size : nat) (file : handle) (hash_obj : hash_state) :
  silent (update_from_file block_size file hash_obj).
Proof.
  unfold update_from_file. apply silent_bind; [apply silent_file_read|].
  intros r. apply silent_read_blocks.
Qed.

(** Every run of [calculate_hash]: the world is left as it was, and the
    only thing printed is the report of an error of the file, which is
    then raised again. *)
Lemma calculate_hash_run (file_path : string) (algorithm : json) (w : world) :
  (exists digest_text, calculate_hash file_path algorithm w = Run (inl digest_text) w [])
  \/ (exists e o, calculate_hash file_path algorithm w = Run (inr e) w o
                  /\ Forall (fun m => entry_message m = true) o
                  /\ Forall (fun m => summary_message m = false) o).
Proof.
  destruct (calculate_hash file_path algorithm w) as [r w' o] eqn:E.
  unfold calculate_hash in E.
  set (pick := match algorithm with JStr _ => _ | _ => _ end) in E.
  assert (Hpick : silent pick).
  { subst pick. destruct algorithm; try apply silent_raise.
    repeat (destruct (_ =? _)%string; [apply silent_ret|]). apply silent_raise. }
  unfold bind at 1 in E. rewrite (Hpick w) in E. cbn [result final output] in E.
  destruct (result (pick w)) as [hash_obj|e].
  2:{ injection E as <- <- <-. right. exists e, []. repeat split; constructor. }
  cbn [app] in E.
  match type of E with context [try_except ?c ?h] => set (body := c) in E; set (hs := h) in E end.
  assert (Hbody : silent body).
  { subst body. apply silent_bind; [apply silent_open_rb|]. intros file.
    apply silent_bind; [apply silent_update_from_file|]. intros h. apply silent_ret. }
  unfold try_except in E. rewrite (Hbody w) in E. cbn [result final output] in E.
  destruct (result (body w)) as [d|e].
  - injection E as <- <- <-. left. exists d. reflexivity.
  - right. subst hs. cbv beta in E.
    destruct (isinstance e C_FileNotFoundError).
    + injection E as <- <- <-.
      exists e, [MsgHashNotFound file_path]. repeat split; repeat constructor.
    + destruct (isinstance e C_IOError); injection E as <- <- <-.
      * exists e, [MsgHashReadError file_path e]. repeat split; repeat constructor.
      * exists e, []. repeat split; constructor.
Qed.

Lemma reader_calculate_hash (file_path : string) (algorithm : json) :
  reader (calculate_hash file_path algorithm).
Proof.
  intros w. destruct (calculate_hash_run file_path algorithm w)
    as [[d E]|(e & o & E & _)]; rewrite E; reflexivity.
Qed.

End HashRuns.

(* ===================================================================== *)
(** * [verify_integrity] *)
(* ===================================================================== *)


Section Verify.

Context `{HL : Hashlib} `{JL : JsonLib}.

(** One turn of the loop, when the directory is a string: the entry gets
    one outcome, its counter is incremented, and what is printed is about
    this entry only. The turn never raises and changes nothing. *)
Lemma verify_entry_run (d : string) (algorithm : json) (entry : string * json)
  (vr : results) (w : world) :
  exists o out,
    verify_entry (JStr d) algorithm entry vr w = Run (inl (count o vr)) w out
    /\ Forall (fun m => entry_message m = true) out
    /\ Forall (fun m => summary_message m = false) out
    /\ out <> [].
Proof.
  unfold verify_entry. cbn [os_path_join].
  rewrite (bind_ok_silent _ _ w (posixpath.join d (fst entry)) eq_refl).
  set (file_path := posixpath.join d (fst entry)).
  assert (Hex : exists b, os_path_exists file_path w = Run (inl b) w []).
  { unfold os_path_exists, ask. destruct (stat w file_path); eexists; reflexivity. }
  destruct Hex as [b Hex]. rewrite (bind_ok_silent _ _ _ _ Hex).
  destruct b.
  2:{ exists Missing. eexists. split; [reflexivity|].
      repeat split; try (repeat constructor); discriminate. }
  match goal with |- context [try_except ?c ?h] => set (body := c); set (hs := h) end.
  assert (Hcatch : forall e o, body w = Run (inr e) w o ->
            try_except body hs w
            = Run (inl (count Mismatched vr)) w (o ++ [MsgVerifyError (fst entry) e])).
  { intros e o Hb. rewrite (try_caught _ _ _ _ _ _ _ Hb eq_refl). reflexivity. }
  destruct (calculate_hash_run file_path algorithm w)
    as [[h E]|(e & o & E & Ho1 & Ho2)].
  - destruct (py_getitem (snd entry) "hash") as [v|e] eqn:Ev.
    + assert (Hb : body w = (if py_str_eq h v
                             then print (MsgConfirmed (fst entry)) ;;; ret (incr_passed vr)
                             else print (MsgViolated (fst entry)) ;;;
                                  print (MsgExpected v) ;;;
                                  print (MsgActual h) ;;; ret (incr_failed vr)) w).
      { subst body. rewrite (bind_ok_silent _ _ _ _ E). try rewrite Ev.
        rewrite (bind_ok_silent _ _ w v eq_refl). reflexivity. }
      destruct (py_str_eq h v).
      * exists Matched. eexists. split; [apply try_ok; rewrite Hb; reflexivity|].
        repeat split; try (repeat constructor); discriminate.
      * exists Mismatched. eexists. split; [apply try_ok; rewrite Hb; reflexivity|].
        repeat split; try (repeat constructor); discriminate.
    + assert (Hb : body w = Run (inr e) w []).
      { subst body. rewrite (bind_ok_silent _ _ _ _ E). try rewrite Ev. reflexivity. }
      exists Mismatched. eexists. split; [apply (Hcatch _ _ Hb)|].
      repeat split; try (repeat constructor); discriminate.
  - assert (Hb : body w = Run (inr e) w o).
    { subst body. apply bind_raise. exact E. }
    exists Mismatched. eexists. split; [apply (Hcatch _ _ Hb)|].
    repeat split.
    + apply Forall_app. split; [exact Ho1|repeat constructor].
    + apply Forall_app. split; [exact Ho2|repeat constructor].
    + intros Hnil. apply app_eq_nil in Hnil. destruct Hnil; discriminate.
Qed.

(** The loop over the entries, when the directory is a string: it never
    raises, and each entry adds one to exactly one counter. *)
Lemma verify_loop_run (d : string) (algorithm : json) :
  forall (items : dict) (vr : results) (w : world),
  exists vr' out,
    for_each items (verify_entry (JStr d) algorithm) vr w = Run (inl vr') w out
    /\ passed vr' + failed vr' + missing vr'
       = passed vr + failed vr + missing vr + List.length items
    /\ total vr' = total vr
    /\ Forall (fun m => entry_message m = true) out
    /\ Forall (fun m => summary_message m = false) out.
Proof.
  induction items as [|entry items IH]; intros vr w.
  - exists vr, []. cbn [for_each List.length]. repeat split; try constructor. lia.
  - cbn [for_each].
    destruct (verify_entry_run d algorithm entry vr w) as (o & out & E & Ho1 & Ho2 & _).
    destruct (IH (count o vr) w) as (vr' & out' & E' & Hsum & Htot & Ho1' & Ho2').
    exists vr', (out ++ out').
    rewrite (bind_ok _ _ _ _ _ _ E), E'. cbn [result final output].
    repeat split.
    + rewrite Hsum. cbn [List.length]. destruct o; simpl; lia.
    + rewrite Htot. destruct o; reflexivity.
    + apply Forall_app. split; assumption.
    + apply Forall_app. split; assumption.
Qed.

(** When the directory is not a string, the first turn of the loop raises
    [TypeError] before anything is printed. *)
Lemma verify_loop_not_str (directory_path algorithm : json) (items : dict)
  (vr : results) (w : world) :
  (forall d, directory_path <> JStr d) ->
  for_each items (verify_entry directory_path algorithm) vr w
  = match items with
    | [] => Run (inl vr) w []
    | _ :: _ => Run (inr TypeError) w []
    end.
Proof.
  intros Hd. destruct items as [|entry items]; [reflexivity|].
  cbn [for_each]. apply bind_raise. unfold verify_entry. apply bind_raise.
  destruct directory_path; try reflexivity. exfalso. apply (Hd s). reflexivity.
Qed.

(** [len(checksums['files'])] is the number of the entries gone through. *)
Lemma manifest_entries_len (checksums : json) (items : dict) :
  manifest_entries checksums = inl items ->
  exists files, py_getitem checksums "files" = inl files
                /\ py_len files = inl (List.length items)
                /\ py_items files = inl items.
Proof.
  unfold manifest_entries. destruct (py_getitem checksums "files") as [files|e]; [|discriminate].
  intros E. exists files. split; [reflexivity|].
  destruct files; simpl in *; try discriminate.
  injection E as <-. split; reflexivity.
Qed.

Lemma reader_verify_entry (directory_path algorithm : json) (entry : string * json)
  (vr : results) :
  reader (verify_entry directory_path algorithm entry vr).
Proof.
  unfold verify_entry.
  apply reader_bind; [apply silent_reader, silent_os_path_join|]. intros file_path.
  apply reader_bind; [apply silent_reader, silent_os_path_exists|]. intros [|].
  - apply reader_try.
    + apply reader_bind; [apply reader_calculate_hash|]. intros h.
      apply reader_bind; [apply reader_lift|]. intros v.
      destruct (py_str_eq h v);
        repeat (apply reader_bind; [apply reader_print|]; intros _); apply reader_ret.
    + intros e h. destruct (isinstance e C_Exception); [|discriminate].
      intros [= <-]. apply reader_bind; [apply reader_print|]. intros _. apply reader_ret.
  - apply reader_bind; [apply reader_print|]. intros _. apply reader_ret.
Qed.

Lemma reader_summary (vr : results) : reader (summary vr).
Proof.
  unfold summary.
  repeat (apply reader_bind; [apply reader_print|]; intros _).
  destruct (_ && _); (apply reader_bind; [apply reader_print|]; intros _); apply reader_ret.
Qed.

Lemma summary_returns (vr : results) (w : world) :
  exists b, result (summary vr w) = inl b.
Proof.
  unfold summary. cbn. destruct (_ && _); eexists; reflexivity.
Qed.

Lemma py_getitem_error (v : json) (k : string) (e : exn) (checksum_file : string) :
  py_getitem v k = inr e -> failure_message checksum_file e = MsgVerifyUnexpected e.
Proof.
  destruct v; simpl; try (intros [= <-]; reflexivity).
  destruct (dict_get _ _); intros [= <-]. reflexivity.
Qed.

Lemma py_len_error (v : json) (e : exn) (checksum_file : string) :
  py_len v = inr e -> failure_message checksum_file e = MsgVerifyUnexpected e.
Proof. destruct v; simpl; intros [= <-]; reflexivity. Qed.

Lemma py_items_error (v : json) (e : exn) (checksum_file : string) :
  py_items v = inr e -> failure_message checksum_file e = MsgVerifyUnexpected e.
Proof. destruct v; simpl; intros [= <-]; reflexivity. Qed.

(** Every run of [verify_integrity], step by step. *)
Lemma verify_integrity_run (checksum_file : string) (directory_path : option string)
  (w : world) :
  verify_integrity checksum_file directory_path w =
  match result (read_text checksum_file w) with
  | inr e => Run (inl false) w [failure_message checksum_file e]
  | inl text =>
      match json_loads text with
      | None => Run (inl false) w [MsgBadJSON checksum_file]
      | Some checksums =>
          match manifest_header checksums directory_path with
          | inr e => Run (inl false) w [MsgVerifyUnexpected e]
          | inl (dir, algorithm) =>
              match manifest_entries checksums with
              | inr e => Run (inl false) w (heading dir algorithm ++ [MsgVerifyUnexpected e])
              | inl items =>
                  let loop := for_each items (verify_entry dir algorithm)
                                (start (List.length items)) w in
                  match result loop with
                  | inr e => Run (inl false) w
                               (heading dir algorithm ++ output loop
                                ++ [failure_message checksum_file e])
                  | inl vr => Run (result (summary vr w)) w
                                (heading dir algorithm ++ output loop
                                 ++ output (summary vr w))
                  end
              end
          end
      end
  end.
Proof.
  unfold verify_integrity.
  match goal with
  | |- try_except ?c ?h w = _ => remember c as body eqn:Hbody; set (hs := h)
  end.
  assert (Hcatch : forall e o, body w = Run (inr e) w o ->
            try_except body hs w = Run (inl false) w (o ++ [failure_message checksum_file e])).
  { intros e o Hb. unfold try_except. rewrite Hb. cbn [result final output].
    subst hs. unfold failure_message. cbv beta.
    destruct (isinstance e C_FileNotFoundError); [reflexivity|].
    destruct (isinstance e C_JSONDecodeError); [reflexivity|]. reflexivity. }
  pose proof (silent_read_text checksum_file w) as Hrt.
  destruct (result (read_text checksum_file w)) as [text|e].
  2:{ apply (Hcatch e []). rewrite Hbody. apply bind_raise. exact Hrt. }
  assert (Hb1 : body w =
    (checksums <- match json_loads text with
                  | Some v => ret v
                  | None => raise JSONDecodeError
                  end ;;
     metadata <- lift (py_getitem checksums "metadata") ;;
     algorithm <- lift (py_getitem metadata "algorithm") ;;
     metadata <- lift (py_getitem checksums "metadata") ;;
     original_dir <- lift (py_getitem metadata "directory") ;;
     let directory_path := match directory_path with
                           | None => original_dir
                           | Some d => JStr d
                           end in
     print (MsgVerifying directory_path) ;;;
     print (MsgAlgorithm algorithm) ;;;
     print MsgRule ;;;
     files <- lift (py_getitem checksums "files") ;;
     n <- lift (py_len files) ;;
     let verification_results :=
       {| passed := 0; failed := 0; missing := 0; total := n |} in
     files <- lift (py_getitem checksums "files") ;;
     items <- lift (py_items files) ;;
     vr <- for_each items (verify_entry directory_path algorithm)
             verification_results ;;
     summary vr) w).
  { rewrite Hbody. rewrite (bind_ok_silent _ _ _ _ Hrt). reflexivity. }
  clear Hbody Hrt.
  destruct (json_loads text) as [checksums|].
  2:{ apply (Hcatch JSONDecodeError []). rewrite Hb1. reflexivity. }
  rewrite (bind_ok_silent _ _ w checksums eq_refl) in Hb1.
  unfold manifest_header.
  destruct (py_getitem checksums "metadata") as [metadata|e] eqn:E1.
  2:{ rewrite (Hcatch e []); [|rewrite Hb1; reflexivity].
      cbn [app]. rewrite (py_getitem_error _ _ _ _ E1). reflexivity. }
  rewrite (bind_ok_silent _ _ w metadata eq_refl) in Hb1.
  destruct (py_getitem metadata "algorithm") as [algorithm|e] eqn:E2.
  2:{ rewrite (Hcatch e []); [|rewrite Hb1; reflexivity].
      cbn [app]. rewrite (py_getitem_error _ _ _ _ E2). reflexivity. }
  rewrite (bind_ok_silent _ _ w algorithm eq_refl) in Hb1.
  rewrite (bind_ok_silent _ _ w metadata eq_refl) in Hb1.
  destruct (py_getitem metadata "directory") as [original_dir|e] eqn:E3.
  2:{ rewrite (Hcatch e []); [|rewrite Hb1; reflexivity].
      cbn [app]. rewrite (py_getitem_error _ _ _ _ E3). reflexivity. }
  rewrite (bind_ok_silent _ _ w original_dir eq_refl) in Hb1.
  set (dir := match directory_path with None => original_dir | Some d => JStr d end) in *.
  rewrite !bind_print, !prepend_prepend in Hb1. cbn [app] in Hb1.
  fold (heading dir algorithm) in Hb1.
  unfold manifest_entries.
  destruct (py_getitem checksums "files") as [files|e] eqn:E4.
  2:{ rewrite (Hcatch e (heading dir algorithm ++ [])); [|rewrite Hb1; reflexivity].
      rewrite app_nil_r, (py_getitem_error _ _ _ _ E4). reflexivity. }
  rewrite (bind_ok_silent _ _ w files eq_refl) in Hb1.
  destruct (py_len files) as [n|e] eqn:E5.
  2:{ rewrite (Hcatch e (heading dir algorithm ++ [])); [|rewrite Hb1; reflexivity].
      rewrite app_nil_r, (py_len_error _ _ _ E5). reflexivity. }
  rewrite (bind_ok_silent _ _ w n eq_refl) in Hb1.
  rewrite (bind_ok_silent _ _ w files eq_refl) in Hb1.
  destruct (py_items files) as [items|e] eqn:E6.
  2:{ rewrite (Hcatch e (heading dir algorithm ++ [])); [|rewrite Hb1; reflexivity].
      rewrite app_nil_r, (py_items_error _ _ _ E6). reflexivity. }
  rewrite (bind_ok_silent _ _ w items eq_refl) in Hb1.
  assert (Hn : n = List.length items).
  { destruct files; simpl in E5, E6; try discriminate. congruence. }
  subst n. fold (start (List.length items)) in Hb1.
  cbv zeta.
  pose proof (reader_for_each items (verify_entry dir algorithm)
                (reader_verify_entry dir algorithm) (start (List.length items)) w) as Hfin.
  destruct (for_each items (verify_entry dir algorithm) (start (List.length items)) w)
    as [rl wl ol] eqn:El.
  cbn [final] in Hfin. subst wl. cbn [result output].
  destruct rl as [vr|e].
  - rewrite (bind_ok _ _ _ _ _ _ El) in Hb1. unfold prepend in Hb1.
    cbn [result final output] in Hb1. rewrite (reader_summary vr w) in Hb1.
    destruct (summary_returns vr w) as [b Hres].
    rewrite try_returns with (a := b); [exact Hb1|]. rewrite Hb1. exact Hres.
  - rewrite (bind_raise _ _ _ _ _ _ El) in Hb1. unfold prepend in Hb1.
    cbn [result final output] in Hb1.
    rewrite (Hcatch _ _ Hb1). rewrite <- app_assoc. reflexivity.
Qed.

Lemma summary_run (vr : results) (w : world) :
  summary vr w = Run (inl (intact vr)) w (summary_lines vr).
Proof.
  unfold summary, summary_lines, intact. rewrite !bind_print.
  destruct (_ && _); reflexivity.
Qed.

(** The loop prints nothing of the summary, whatever the directory is. *)
Lemma verify_loop_output (directory_path algorithm : json) (items : dict)
  (vr : results) (w : world) :
  Forall (fun m => summary_message m = false)
    (output (for_each items (verify_entry directory_path algorithm) vr w)).
Proof.
  assert (Hd : (exists d, directory_path = JStr d) \/ forall d, directory_path <> JStr d).
  { destruct directory_path; try (right; discriminate). left. eexists. reflexivity. }
  destruct Hd as [[d ->]|Hd].
  - destruct (verify_loop_run d algorithm items vr w) as (vr' & out & E & _ & _ & _ & Ho).
    rewrite E. exact Ho.
  - rewrite (verify_loop_not_str _ _ _ _ _ Hd). destruct items; constructor.
Qed.

(** A run ends in one of two ways. Either it reads the manifest, goes
    through all its entries and prints the summary of the counters, which
    add up to the number of entries; or it stops on an error with [False],
    having printed nothing about any entry and no summary. *)
Lemma verify_integrity_cases (checksum_file : string) (directory_path : option string)
  (w : world) :
  let r := verify_integrity checksum_file directory_path w in
  (exists text checksums dir algorithm items vr out,
      result (read_text checksum_file w) = inl text
      /\ json_loads text = Some checksums
      /\ manifest_header checksums directory_path = inl (dir, algorithm)
      /\ manifest_entries checksums = inl items
      /\ for_each items (verify_entry dir algorithm) (start (List.length items)) w
         = Run (inl vr) w out
      /\ r = Run (inl (intact vr)) w (heading dir algorithm ++ out ++ summary_lines vr)
      /\ total vr = List.length items
      /\ passed vr + failed vr + missing vr = total vr)
  \/ (r = Run (inl false) w (output r)
      /\ Forall (fun m => entry_message m = false) (output r)
      /\ Forall (fun m => summary_message m = false) (output r)).
Proof.
  intros r. subst r. rewrite verify_integrity_run.
  destruct (result (read_text checksum_file w)) as [text|e] eqn:E1.
  2:{ right. repeat split; repeat constructor; unfold failure_message;
      destruct e; reflexivity. }
  destruct (json_loads text) as [checksums|] eqn:E2.
  2:{ right. repeat split; repeat constructor. }
  destruct (manifest_header checksums directory_path) as [[dir algorithm]|e] eqn:E3.
  2:{ right. repeat split; repeat constructor. }
  destruct (manifest_entries checksums) as [items|e] eqn:E4.
  2:{ right. repeat split; repeat constructor. }
  cbv zeta.
  assert (Hd : (exists d, dir = JStr d) \/ forall d, dir <> JStr d).
  { destruct dir; try (right; discriminate). left. eexists. reflexivity. }
  destruct Hd as [[d ->]|Hd].
  - destruct (verify_loop_run d algorithm items (start (List.length items)) w)
      as (vr & out & E & Hsum & Htot & _ & _).
    left. exists text, checksums, (JStr d), algorithm, items, vr, out.
    rewrite E. cbn [result output]. rewrite summary_run. cbn [result output].
    unfold start in Hsum, Htot. cbn [passed failed missing total] in Hsum, Htot.
    repeat split; try reflexivity; try assumption; lia.
  - rewrite (verify_loop_not_str _ _ _ _ _ Hd). destruct items as [|entry items].
    + left. exists text, checksums, dir, algorithm, [], (start 0), [].
      cbn [result output]. rewrite summary_run. repeat split; assumption.
    + right. cbn [result output]. repeat split; repeat constructor.
Qed.

(** C2: when a run prints its summary, it returns [True] if and only if
    the counters [failed] and [missing] it reports are both zero, and it
    then announces that all files are intact; otherwise it returns [False]
    and announces problems. *)
Theorem verdict_intact_iff (checksum_file : string) (directory_path : option string)
  (w : world) (f m : nat) :
  let r := verify_integrity checksum_file directory_path w in
  In (MsgFailed f) (output r) ->
  In (MsgMissingCount m) (output r) ->
  (result r = inl true <-> f = 0 /\ m = 0)
  /\ (result r = inl true -> In MsgAllIntact (output r))
  /\ (result r <> inl true -> result r = inl false /\ In MsgProblems (output r)).
Proof.
  intros r Hf Hm.
  destruct (verify_integrity_cases checksum_file directory_path w)
    as [(text & checksums & dir & algorithm & items & vr & out & _ & _ & _ & _
         & El & Er & _ & _)|(_ & _ & Hno)].
  2:{ exfalso. fold r in Hno. rewrite Forall_forall in Hno.
      specialize (Hno _ Hf). discriminate. }
  fold r in Er. rewrite Er in *. cbn [result output] in *.
  pose proof (verify_loop_output dir algorithm items (start (List.length items)) w) as Ho.
  rewrite El in Ho. cbn [output] in Ho. rewrite Forall_forall in Ho.
  assert (Hin : forall x, summary_message x = true ->
                  In x (heading dir algorithm ++ out ++ summary_lines vr) ->
                  In x (summary_lines vr)).
  { intros x Hx Hi. apply in_app_or in Hi. destruct Hi as [Hi|Hi].
    - simpl in Hi. repeat (destruct Hi as [<-|Hi]; [discriminate|]). destruct Hi.
    - apply in_app_or in Hi. destruct Hi as [Hi|Hi]; [|exact Hi].
      rewrite (Ho _ Hi) in Hx. discriminate. }
  apply Hin in Hf; [|reflexivity]. apply Hin in Hm; [|reflexivity].
  assert (Ef : f = failed vr).
  { unfold summary_lines in Hf. simpl in Hf.
    repeat (destruct Hf as [Hf|Hf]; [try discriminate; try congruence|]).
    - destruct (intact vr); discriminate.
    - destruct Hf. }
  assert (Em : m = missing vr).
  { unfold summary_lines in Hm. simpl in Hm.
    repeat (destruct Hm as [Hm|Hm]; [try discriminate; try congruence|]).
    - destruct (intact vr); discriminate.
    - destruct Hm. }
  subst f m.
  assert (Hv : intact vr = true <-> failed vr = 0 /\ missing vr = 0).
  { unfold intact. rewrite andb_true_iff, !Nat.eqb_eq. tauto. }
  assert (Hlast : In (if intact vr then MsgAllIntact else MsgProblems)
                    (heading dir algorithm ++ out ++ summary_lines vr)).
  { apply in_or_app. right. apply in_or_app. right. unfold summary_lines.
    simpl. tauto. }
  split; [|split].
  - rewrite <- Hv. split; [intros [= E]; exact E | intros ->; reflexivity].
  - intros [= E]. rewrite E in Hlast. exact Hlast.
  - intros Hne. destruct (intact vr); [exfalso; apply Hne; reflexivity|].
    split; [reflexivity|exact Hlast].
Qed.




(** No counter goes down in the loop. *)
Lemma verify_loop_grows (d : string) (algorithm : json) :
  forall (items : dict) (vr : results) (w : world) (vr' : results) (out : list message),
  for_each items (verify_entry (JStr d) algorithm) vr w = Run (inl vr') w out ->
  passed vr <= passed vr' /\ failed vr <= failed vr' /\ missing vr <= missing vr'.
Proof.
  induction items as [|entry items IH]; intros vr w vr' out E.
  - injection E as <- _. lia.
  - cbn [for_each] in E.
    destruct (verify_entry_run d algorithm entry vr w) as (o & out1 & E1 & _).
    rewrite (bind_ok _ _ _ _ _ _ E1) in E.
    destruct (verify_loop_run d algorithm items (count o vr) w) as (vr2 & out2 & E2 & _).
    rewrite E2 in E. cbn [result final output] in E. injection E as <- _.
    destruct (IH _ _ _ _ E2) as (Hp & Hf & Hm). destruct o; simpl in *; lia.
Qed.

(** C4: when the file of an entry exists and hashing it raises, whatever
    the exception, the turn of the loop reports the error and adds one to
    [failed], leaving [passed], [missing] and [total] as they were; the
    loop goes on with the entries that follow and finishes them, with the
    failure still counted; and no run of [verify_integrity] ends with an
    exception. *)
Theorem hash_failure_is_counted (d : string) (algorithm : json)
  (entry : string * json) (rest : dict) (vr : results) (w : world) (e : exn) :
  let file_path := posixpath.join d (fst entry) in
  let counted := {| passed := passed vr; failed := S (failed vr);
                    missing := missing vr; total := total vr |} in
  let report := output (calculate_hash file_path algorithm w)
                ++ [MsgVerifyError (fst entry) e] in
  result (os_path_exists file_path w) = inl true ->
  result (calculate_hash file_path algorithm w) = inr e ->
  verify_entry (JStr d) algorithm entry vr w = Run (inl counted) w report
  /\ for_each (entry :: rest) (verify_entry (JStr d) algorithm) vr w
     = prepend report (for_each rest (verify_entry (JStr d) algorithm) counted w)
  /\ (exists vr' out,
        for_each (entry :: rest) (verify_entry (JStr d) algorithm) vr w
        = Run (inl vr') w (report ++ out)
        /\ S (failed vr) <= failed vr'
        /\ passed vr <= passed vr' /\ missing vr <= missing vr'
        /\ passed vr' + failed vr' + missing vr'
           = passed vr + failed vr + missing vr + S (List.length rest)
        /\ total vr' = total vr)
  /\ forall checksum_file directory_path,
       exists b, result (verify_integrity checksum_file directory_path w) = inl b.
Proof.
  intros file_path counted report Hex Hhash.
  assert (E : verify_entry (JStr d) algorithm entry vr w = Run (inl counted) w report).
  { unfold verify_entry. cbn [os_path_join].
    rewrite (bind_ok_silent _ _ w (posixpath.join d (fst entry)) eq_refl).
    fold file_path.
    assert (Hex' : os_path_exists file_path w = Run (inl true) w []).
    { rewrite (silent_os_path_exists file_path w), Hex. reflexivity. }
    rewrite (bind_ok_silent _ _ _ _ Hex').
    subst report.
    destruct (calculate_hash_run file_path algorithm w)
      as [[h Eh]|(e' & o & Eh & _)]; rewrite Eh in Hhash; cbn [result] in Hhash;
      [discriminate|].
    injection Hhash as ->. rewrite Eh. cbn [output].
    match goal with |- try_except ?c _ _ = _ =>
      assert (Hb : c w = Run (inr e) w o) by (apply bind_raise; exact Eh)
    end.
    rewrite (try_caught _ _ _ _ _ _ _ Hb eq_refl). reflexivity. }
  split; [exact E|]. split; [|split].
  - cbn [for_each]. rewrite (bind_ok _ _ _ _ _ _ E). reflexivity.
  - destruct (verify_loop_run d algorithm rest counted w)
      as (vr' & out & El & Hsum & Htot & _).
    destruct (verify_loop_grows d algorithm rest counted w vr' out El) as (Hp & Hf & Hm).
    exists vr', out. cbn [for_each]. rewrite (bind_ok _ _ _ _ _ _ E), El.
    cbn [result final output]. subst counted.
    cbn [passed failed missing total] in *. repeat split; try assumption; lia.
  - intros checksum_file directory_path.
    destruct (verify_integrity_cases checksum_file directory_path w)
      as [(text & checksums & dir & alg & items & vr' & out & _ & _ & _ & _
           & _ & Er & _)|(Er & _)]; rewrite Er; eexists; reflexivity.
Qed.









End Verify.

(* ===================================================================== *)
(** * The codec of text files and the chunks of the encoder *)
(* ===================================================================== *)

Lemma utf8_run_app (a b : string) :
  forall st, utf8_run st (a +++ b) = utf8_run (utf8_run st a) b.
Proof. induction a as [|c a IH]; intros st; [reflexivity|]. cbn. apply IH. Qed.

Lemma utf8_run_invalid (s : string) : utf8_run U_invalid s = U_invalid.
Proof. induction s as [|c s IH]; [reflexivity|exact IH]. Qed.

Lemma valid_utf8_app (a b : string) :
  valid_utf8 a = true -> valid_utf8 (a +++ b) = valid_utf8 b.
Proof.
  unfold valid_utf8. rewrite utf8_run_app.
  destruct (utf8_run U_start a); try discriminate. reflexivity.
Qed.

(** Chunks that can all be encoded make a text that can be. *)
Lemma valid_utf8_concat_chunks (chunks : list string) :
  encodable chunks = true -> valid_utf8 (concat_chunks chunks) = true.
Proof.
  induction chunks as [|c chunks IH]; [reflexivity|].
  cbn [encodable forallb concat_chunks]. intros Hc. apply andb_true_iff in Hc.
  destruct Hc as [Hc Hcs]. rewrite (valid_utf8_app _ _ Hc). apply IH, Hcs.
Qed.

Lemma utf8_step_ascii (st : utf8_state) (c : ascii) :
  (N_of_ascii c <? 128)%N = true -> utf8_step st c = after_ascii st.
Proof.
  intros Hc. apply N.ltb_lt in Hc. unfold utf8_step, between. cbv zeta.
  destruct st; cbn [after_ascii];
    repeat match goal with
           | |- context [(?a <=? ?b)%N] => destruct (N.leb_spec a b)
           | |- context [(?a <? ?b)%N] => destruct (N.ltb_spec a b)
           end; cbn [andb]; try reflexivity; lia.
Qed.

Lemma utf8_run_ascii (s : string) :
  is_ascii s = true ->
  forall st, utf8_run st s = match s with EmptyString => st | _ => after_ascii st end.
Proof.
  induction s as [|c s IH]; [reflexivity|]. cbn [is_ascii utf8_run].
  intros H st. apply andb_true_iff in H. destruct H as [Hc Hs].
  rewrite (utf8_step_ascii st c Hc), (IH Hs). destruct s, st; reflexivity.
Qed.

Lemma valid_utf8_ascii (s : string) : is_ascii s = true -> valid_utf8 s = true.
Proof.
  intros H. unfold valid_utf8. rewrite (utf8_run_ascii s H). destruct s; reflexivity.
Qed.

Lemma is_ascii_app (a b : string) : is_ascii (a +++ b) = is_ascii a && is_ascii b.
Proof.
  induction a as [|c a IH]; [reflexivity|]. cbn. rewrite IH. apply andb_assoc.
Qed.

Lemma is_ascii_spaces (n : nat) : is_ascii (pyjson.spaces n) = true.
Proof. induction n as [|n IH]; [reflexivity|exact IH]. Qed.

Lemma is_ascii_newline_indent (level : nat) : is_ascii (pyjson.newline_indent level) = true.
Proof. apply is_ascii_spaces. Qed.

Lemma is_ascii_uint (d : Decimal.uint) : is_ascii (NilEmpty.string_of_uint d) = true.
Proof. induction d; cbn; try reflexivity; assumption. Qed.

Lemma is_ascii_string_of_Z (z : Z) : is_ascii (pyjson.string_of_Z z) = true.
Proof.
  assert (Hu : forall d, is_ascii (NilZero.string_of_uint d) = true).
  { intros d. unfold NilZero.string_of_uint.
    destruct d; try reflexivity; apply is_ascii_uint. }
  unfold pyjson.string_of_Z, NilZero.string_of_int.
  destruct (Z.to_int z) as [d|d]; [apply Hu|]. cbn [is_ascii]. rewrite Hu. reflexivity.
Qed.

(** The encoder escapes ASCII characters only, by ASCII text: the decoder
    is in the same state after the text of a character as after it. *)
Lemma utf8_run_escape_char (c : ascii) (st : utf8_state) :
  utf8_run st (pyjson.escape_char c) = utf8_step st c.
Proof.
  destruct c as [[] [] [] [] [] [] [] []]; destruct st as [|[|more]| | | | |]; reflexivity.
Qed.

Lemma utf8_run_escape (s : string) :
  forall st, utf8_run st (pyjson.escape s) = utf8_run st s.
Proof.
  induction s as [|c s IH]; intros st; [reflexivity|].
  cbn [pyjson.escape utf8_run]. rewrite utf8_run_app, utf8_run_escape_char. apply IH.
Qed.

Lemma valid_utf8_quote (s : string) : valid_utf8 (pyjson.quote s) = valid_utf8 s.
Proof.
  unfold valid_utf8, pyjson.quote. cbn [utf8_run].
  change (utf8_step U_start pyjson.dquote) with U_start.
  rewrite utf8_run_app, utf8_run_escape. cbn [utf8_run].
  destruct (utf8_run U_start s); reflexivity.
Qed.

Lemma json_ind' (P : json -> Prop) :
  P JNull -> (forall b, P (JBool b)) -> (forall n, P (JInt n)) ->
  (forall repr, P (JFloat repr)) -> (forall s, P (JStr s)) ->
  (forall l, Forall P l -> P (JArr l)) ->
  (forall l, Forall (fun kv => P (snd kv)) l -> P (JObj l)) ->
  forall v, P v.
Proof.
  intros Hn Hb Hi Hf Hs Ha Ho. fix IH 1.
  intros [|b|n|repr|s|l|l];
    [exact Hn|apply Hb|apply Hi|apply Hf|apply Hs| |].
  - apply Ha. induction l as [|x l IHl]; constructor; [apply IH|exact IHl].
  - apply Ho. induction l as [|[k x] l IHl]; constructor; [apply IH|exact IHl].
Qed.

Lemma encodable_app (a b : list string) :
  encodable (a ++ b) = encodable a && encodable b.
Proof. apply forallb_app. Qed.

Lemma elements_cons (encode : json -> list string) (separator buf : string)
  (x : json) (l : list json) :
  pyjson.elements encode separator buf (x :: l)
  = match x with
    | JArr _ | JObj _ => buf :: encode x
    | _ => [buf +++ pyjson.scalar x]
    end ++ pyjson.elements encode separator separator l.
Proof. reflexivity. Qed.

Lemma members_cons (encode : json -> list string) (item_separator : string)
  (first : bool) (key : string) (x : json) (l : list (string * json)) :
  pyjson.members encode item_separator first ((key, x) :: l)
  = (if first then [] else [item_separator])
    ++ [pyjson.quote key; ": "] ++ encode x
    ++ pyjson.members encode item_separator false l.
Proof. reflexivity. Qed.

Lemma encodable_elements (encode : json -> list string) (separator : string)
  (l : list json) :
  is_ascii separator = true ->
  Forall (fun x => encodable (encode x) = json_valid x) l ->
  forall buf, is_ascii buf = true ->
  encodable (pyjson.elements encode separator buf l) = forallb json_valid l.
Proof.
  intros Hsep Hl. induction Hl as [|x l Hx _ IH]; intros buf Hbuf; [reflexivity|].
  rewrite elements_cons, encodable_app, (IH separator Hsep). cbn [forallb].
  f_equal.
  pose proof (valid_utf8_ascii buf Hbuf) as Hv.
  destruct x as [|b|n|repr|s|a|o]; cbn [encodable forallb pyjson.scalar];
    try rewrite (valid_utf8_app _ _ Hv); try rewrite Hv; cbn [andb json_valid];
    try rewrite andb_true_r.
  - reflexivity.
  - destruct b; reflexivity.
  - apply valid_utf8_ascii, is_ascii_string_of_Z.
  - reflexivity.
  - apply valid_utf8_quote.
  - exact Hx.
  - exact Hx.
Qed.

Lemma encodable_members (encode : json -> list string) (item_separator : string)
  (l : list (string * json)) :
  is_ascii item_separator = true ->
  Forall (fun kv => encodable (encode (snd kv)) = json_valid (snd kv)) l ->
  forall first,
  encodable (pyjson.members encode item_separator first l)
  = forallb (fun kv => valid_utf8 (fst kv) && json_valid (snd kv)) l.
Proof.
  intros Hsep Hl. induction Hl as [|[key x] l Hx _ IH]; intros first; [reflexivity|].
  rewrite members_cons, !encodable_app, (IH false). cbn [forallb fst snd] in *.
  rewrite Hx. cbn [encodable forallb]. rewrite valid_utf8_quote.
  change (valid_utf8 ": ") with true. cbn [andb]. rewrite andb_true_r.
  destruct first; cbn [encodable forallb andb]; [|rewrite (valid_utf8_ascii _ Hsep)];
    cbn [andb]; rewrite ?andb_assoc; reflexivity.
Qed.

(** The chunks of the text of a value can all be encoded exactly when
    every string of the value can. *)
Lemma encodable_iterencode (v : json) :
  forall level, encodable (pyjson.iterencode level v) = json_valid v.
Proof.
  induction v as [|b|n|repr|s|l IH|l IH] using json_ind'; intros level.
  - reflexivity.
  - destruct b; reflexivity.
  - cbn [pyjson.iterencode pyjson.scalar encodable forallb json_valid].
    rewrite (valid_utf8_ascii _ (is_ascii_string_of_Z n)). reflexivity.
  - cbn. apply andb_true_r.
  - cbn [pyjson.iterencode pyjson.scalar encodable forallb json_valid].
    rewrite valid_utf8_quote. apply andb_true_r.
  - destruct l as [|x l]; [reflexivity|].
    change (pyjson.iterencode level (JArr (x :: l)))
      with (pyjson.elements (pyjson.iterencode (S level))
              ("," +++ pyjson.newline_indent (S level))
              ("[" +++ pyjson.newline_indent (S level)) (x :: l)
            ++ [pyjson.newline_indent level; "]"]).
    rewrite encodable_app.
    rewrite (encodable_elements (pyjson.iterencode (S level))
               ("," +++ pyjson.newline_indent (S level)) (x :: l)).
    + cbn [encodable forallb].
      rewrite (valid_utf8_ascii _ (is_ascii_newline_indent level)).
      cbn [json_valid andb]. apply andb_true_r.
    + exact (is_ascii_newline_indent (S level)).
    + eapply Forall_impl; [|exact IH]. intros y Hy. apply Hy.
    + exact (is_ascii_newline_indent (S level)).
  - destruct l as [|kv l]; [reflexivity|].
    change (pyjson.iterencode level (JObj (kv :: l)))
      with (["{"; pyjson.newline_indent (S level)]
            ++ pyjson.members (pyjson.iterencode (S level))
                 ("," +++ pyjson.newline_indent (S level)) true (kv :: l)
            ++ [pyjson.newline_indent level; "}"]).
    rewrite !encodable_app.
    rewrite (encodable_members (pyjson.iterencode (S level))
               ("," +++ pyjson.newline_indent (S level)) (kv :: l)).
    + cbn [encodable forallb].
      rewrite (valid_utf8_ascii _ (is_ascii_newline_indent level)).
      rewrite (valid_utf8_ascii _ (is_ascii_newline_indent (S level))).
      cbn [json_valid andb]. change (valid_utf8 "{") with true.
      change (valid_utf8 "}") with true. cbn [andb]. rewrite !andb_true_r. reflexivity.
    + exact (is_ascii_newline_indent (S level)).
    + eapply Forall_impl; [|exact IH]. intros y Hy. apply Hy.
Qed.

(* ===================================================================== *)
(** * [create_checksum_file] *)
(* ===================================================================== *)

Lemma encodable_prefix_all (chunks : list string) :
  encodable chunks = true -> encodable_prefix chunks = chunks.
Proof.
  induction chunks as [|c chunks IH]; [reflexivity|]. cbn [encodable forallb encodable_prefix].
  destruct (valid_utf8 c); [|discriminate]. intros Hc. rewrite (IH Hc). reflexivity.
Qed.

(** The chunks written are the first of the chunks given. *)
Lemma encodable_prefix_split (chunks : list string) :
  exists rest, chunks = encodable_prefix chunks ++ rest
               /\ (encodable chunks = false ->
                   exists c rest', rest = c :: rest' /\ valid_utf8 c = false).
Proof.
  induction chunks as [|c chunks IH].
  - exists []. split; [reflexivity|discriminate].
  - cbn [encodable forallb encodable_prefix]. destruct (valid_utf8 c) eqn:Ec.
    + destruct IH as (rest & E & Hrest). exists rest. split.
      * cbn [app]. rewrite <- E. reflexivity.
      * exact Hrest.
    + exists (c :: chunks). split; [reflexivity|]. intros _. exists c, chunks.
      split; [reflexivity|exact Ec].
Qed.

Lemma write_file_run (path : string) (chunks : list string) (w : world) :
  (exists p, resolve w path = inl p /\ writable w path = true
             /\ write_file path chunks w
                = Run (if encodable chunks then inl tt else inr UnicodeEncodeError)
                    (written w p
                       (list_byte_of_string (concat_chunks (encodable_prefix chunks))))
                    [])
  \/ (exists e, writable w path = false /\ write_file path chunks w = Run (inr e) w []).
Proof.
  unfold write_file, writable, written.
  destruct (resolve w path) as [p|e]; [|right; exists e; split; reflexivity].
  destruct (lookup (w_root w) p) as [[f| |es]|].
  - destruct (i_perm f).
    + left. exists p. repeat split.
    + right. eexists. split; reflexivity.
  - right. eexists. split; reflexivity.
  - right. eexists. split; reflexivity.
  - left. exists p. repeat split.
Qed.

Section HashSuccess.

Context `{HL : Hashlib}.

Lemma file_read_cases (file : handle) (n : nat) (w : world) :
  let chunk := firstn n (skipn (h_pos file) (h_data file)) in
  file_read file n w = Run (inr OSError) w []
  \/ file_read file n w =
     Run (inl (chunk, {| h_data := h_data file;
                         h_pos := h_pos file + List.length chunk;
                         h_fault := h_fault file |})) w [].
Proof.
  intros chunk. unfold file_read. fold chunk.
  destruct (h_fault file); [|right; reflexivity].
  destruct (_ && _); [left|right]; reflexivity.
Qed.

(** Whatever the faults of the file, the loop either raises or feeds the
    hash object all that was left. *)
Lemma read_blocks_cases (block_size : nat) (Hpos : 0 < block_size) :
  forall fuel file hash_obj chunk w,
  (chunk = [] -> skipn (h_pos file) (h_data file) = []) ->
  List.length (skipn (h_pos file) (h_data file))
    + match chunk with [] => 0 | _ => 1 end <= fuel ->
  read_blocks fuel block_size file hash_obj chunk w = Run (inr OSError) w []
  \/ read_blocks fuel block_size file hash_obj chunk w =
     Run (inl {| hs_algo := hs_algo hash_obj;
                 hs_data := hs_data hash_obj ++ chunk
                            ++ skipn (h_pos file) (h_data file) |}) w [].
Proof.
  induction fuel as [|fuel IH]; intros file hash_obj chunk w Hnil Hfuel.
  - destruct chunk; [|simpl in Hfuel; lia]. right.
    simpl. rewrite (Hnil eq_refl), app_nil_r. destruct hash_obj; reflexivity.
  - destruct chunk as [|c cs].
    + right. simpl. rewrite (Hnil eq_refl), app_nil_r. destruct hash_obj; reflexivity.
    + cbn [read_blocks].
      destruct (file_read_cases file block_size w) as [Er|Er].
      { left. apply bind_raise. exact Er. }
      rewrite (bind_ok_silent _ _ _ _ Er). cbn [fst snd].
      remember (skipn (h_pos file) (h_data file)) as rest eqn:Hrest.
      pose proof (firstn_skipn_length block_size rest) as E.
      assert (Hskip : skipn (h_pos file + List.length (firstn block_size rest)) (h_data file)
                      = skipn (List.length (firstn block_size rest)) rest).
      { rewrite Nat.add_comm, <- skipn_skipn, Hrest. reflexivity. }
      match goal with |- context [read_blocks fuel block_size ?f ?h ?c] =>
        destruct (IH f h c w) as [Ei|Ei]
      end.
      * cbn [h_data h_pos h_fault]. rewrite Hskip.
        intros Hc. rewrite Hc. simpl. apply (firstn_nil_inv _ _ Hpos Hc).
      * cbn [h_data h_pos h_fault]. rewrite Hskip.
        apply (f_equal (@List.length _)) in E. rewrite length_app in E.
        destruct (firstn block_size rest) eqn:Ec; simpl in *; lia.
      * left. exact Ei.
      * right. rewrite Ei. cbn [h_data h_pos h_fault hash_update hs_algo hs_data].
        rewrite Hskip. rewrite <- !app_assoc. rewrite E. reflexivity.
Qed.

Lemma update_from_file_cases (block_size : nat) (f : inode) (hash_obj : hash_state)
  (w : world) :
  0 < block_size ->
  update_from_file block_size (opened f) hash_obj w = Run (inr OSError) w []
  \/ update_from_file block_size (opened f) hash_obj w
     = Run (inl (hash_update hash_obj (i_data f))) w [].
Proof.
  intros Hpos. unfold update_from_file.
  destruct (file_read_cases (opened f) block_size w) as [Er|Er].
  { left. apply bind_raise. exact Er. }
  rewrite (bind_ok_silent _ _ _ _ Er). cbn [fst snd].
  pose proof (firstn_skipn_length block_size (i_data f)) as E.
  match goal with |- context [read_blocks ?n block_size ?f ?h ?c] =>
    destruct (read_blocks_cases block_size Hpos n f h c w) as [Ei|Ei]
  end.
  - cbn [h_data h_pos h_fault opened skipn Nat.add].
    intros Hc. rewrite Hc. simpl. apply (firstn_nil_inv _ _ Hpos Hc).
  - cbn [h_data h_pos h_fault opened skipn Nat.add].
    apply (f_equal (@List.length _)) in E. rewrite length_app in E.
    destruct (firstn block_size (i_data f)); simpl in *; lia.
  - left. exact Ei.
  - right. rewrite Ei. cbn [h_data h_pos h_fault opened skipn Nat.add hs_algo hs_data].
    rewrite E. reflexivity.
Qed.

(** When [calculate_hash] returns, the path names a regular file that
    could be opened, the algorithm is one of the three, and the value is
    the digest of the content of the file. *)
Lemma calculate_hash_returns (file_path : string) (algorithm : json) (w : world)
  (h : string) :
  result (calculate_hash file_path algorithm w) = inl h ->
  exists f a,
    stat w file_path = inl (File f)
    /\ i_perm f = true
    /\ algorithm = JStr (algorithm_tag a)
    /\ h = hex (digest a (i_data f))
    /\ calculate_hash file_path algorithm w = Run (inl h) w []
    /\ update_from_file (N.to_nat 65536) (opened f) (hashlib_new a) w
       = Run (inl (hash_update (hashlib_new a) (i_data f))) w [].
Proof.
  intros Hres.
  assert (Hrun : calculate_hash file_path algorithm w = Run (inl h) w []).
  { destruct (calculate_hash_run file_path algorithm w) as [[h' E]|(e & o & E & _)];
      rewrite E in Hres; cbn [result] in Hres; [|discriminate].
    injection Hres as ->. exact E. }
  clear Hres. pose proof Hrun as Hkeep. unfold calculate_hash in Hrun.
  assert (Ha : exists a, algorithm = JStr (algorithm_tag a)).
  { destruct algorithm as [| | | |s| |];
      try (rewrite (bind_raise _ _ w ValueError w [] eq_refl) in Hrun; discriminate).
    destruct (String.eqb_spec s "md5") as [->|_]; [exists MD5; reflexivity|].
    destruct (String.eqb_spec s "sha1") as [->|_]; [exists SHA1; reflexivity|].
    destruct (String.eqb_spec s "sha256") as [->|_]; [exists SHA256; reflexivity|].
    rewrite (bind_raise _ _ w ValueError w [] eq_refl) in Hrun. discriminate. }
  destruct Ha as [a ->].
  assert (Hnew : (match JStr (algorithm_tag a) with
                  | JStr a0 =>
                      if (a0 =? "md5")%string then ret (hashlib_new MD5)
                      else if (a0 =? "sha1")%string then ret (hashlib_new SHA1)
                      else if (a0 =? "sha256")%string then ret (hashlib_new SHA256)
                      else raise ValueError
                  | _ => raise ValueError
                  end) w = Run (inl (hashlib_new a)) w []).
  { destruct a; reflexivity. }
  rewrite (bind_ok_silent _ _ _ _ Hnew) in Hrun.
  unfold try_except in Hrun.
  match type of Hrun with context [result (?c w)] => remember c as body eqn:Hbody end.
  pose proof (silent_open_rb file_path w) as Hopen.
  destruct (result (open_rb file_path w)) as [file|e] eqn:Eo.
  2:{ exfalso. assert (Hb : body w = Run (inr e) w []).
      { rewrite Hbody. apply bind_raise. exact Hopen. }
      rewrite Hb in Hrun. cbn [result final output] in Hrun.
      destruct (isinstance e C_FileNotFoundError); [discriminate|].
      destruct (isinstance e C_IOError); discriminate. }
  assert (Hf : exists f, stat w file_path = inl (File f) /\ i_perm f = true
                         /\ file = opened f).
  { unfold open_rb, ask in Eo. destruct (stat w file_path) as [[f| |es]|e];
      try discriminate.
    destruct (i_perm f) eqn:Ep; [|discriminate].
    exists f. split; [reflexivity|]. split; [exact Ep|].
    simpl in Eo. injection Eo as <-. reflexivity. }
  destruct Hf as (f & Hs & Hp & ->). exists f, a.
  assert (Hbs : 0 < N.to_nat 65536) by lia.
  destruct (update_from_file_cases (N.to_nat 65536) f (hashlib_new a) w Hbs) as [Eu|Eu].
  - exfalso. assert (Hb : body w = Run (inr OSError) w []).
    { rewrite Hbody. rewrite (bind_ok_silent _ _ _ _ Hopen). apply bind_raise. exact Eu. }
    rewrite Hb in Hrun. discriminate.
  - assert (Hb : body w = Run (inl (hex (digest a (i_data f)))) w []).
    { rewrite Hbody. rewrite (bind_ok_silent _ _ _ _ Hopen).
      rewrite (bind_ok_silent _ _ _ _ Eu). reflexivity. }
    rewrite Hb in Hrun. cbn [result] in Hrun. injection Hrun as <-.
    repeat split; try assumption.
Qed.

Lemma read_blocks_world (block_size : nat) :
  forall fuel file hash_obj chunk w w',
  result (read_blocks fuel block_size file hash_obj chunk w)
  = result (read_blocks fuel block_size file hash_obj chunk w').
Proof.
  induction fuel as [|fuel IH]; intros file hash_obj chunk w w';
    destruct chunk as [|c cs]; try reflexivity.
  cbn [read_blocks].
  destruct (file_read_cases file block_size w) as [E|E];
    destruct (file_read_cases file block_size w') as [E'|E'];
    try (rewrite (bind_raise _ _ _ _ _ _ E)); try (rewrite (bind_raise _ _ _ _ _ _ E'));
    try (rewrite (bind_ok_silent _ _ _ _ E)); try (rewrite (bind_ok_silent _ _ _ _ E'));
    try reflexivity; try apply IH.
  - exfalso. unfold file_read in E, E'. destruct (h_fault file); [|discriminate].
    destruct (_ && _); discriminate.
  - exfalso. unfold file_read in E, E'. destruct (h_fault file); [|discriminate].
    destruct (_ && _); discriminate.
Qed.

(** Reading an open file does not depend on the world. *)
Lemma update_from_file_world (block_size : nat) (file : handle) (hash_obj : hash_state)
  (w w' : world) :
  result (update_from_file block_size file hash_obj w)
  = result (update_from_file block_size file hash_obj w').
Proof.
  unfold update_from_file.
  destruct (file_read_cases file block_size w) as [E|E];
    destruct (file_read_cases file block_size w') as [E'|E'];
    try (rewrite (bind_raise _ _ _ _ _ _ E)); try (rewrite (bind_raise _ _ _ _ _ _ E'));
    try (rewrite (bind_ok_silent _ _ _ _ E)); try (rewrite (bind_ok_silent _ _ _ _ E'));
    try reflexivity; try apply read_blocks_world.
  - exfalso. unfold file_read in E, E'. destruct (h_fault file); [|discriminate].
    destruct (_ && _); discriminate.
  - exfalso. unfold file_read in E, E'. destruct (h_fault file); [|discriminate].
    destruct (_ && _); discriminate.
Qed.

(** The hash of a file that can be opened and read to its end. *)
Lemma calculate_hash_file (w : world) (file_path : string) (f : inode) (a : algo)
  (hash_obj : hash_state) :
  stat w file_path = inl (File f) -> i_perm f = true ->
  result (update_from_file (N.to_nat 65536) (opened f) (hashlib_new a) w) = inl hash_obj ->
  calculate_hash file_path (JStr (algorithm_tag a)) w
  = Run (inl (hexdigest hash_obj)) w [].
Proof.
  intros Hs Hp Hu. unfold calculate_hash.
  assert (Hnew : (match JStr (algorithm_tag a) with
                  | JStr a0 =>
                      if (a0 =? "md5")%string then ret (hashlib_new MD5)
                      else if (a0 =? "sha1")%string then ret (hashlib_new SHA1)
                      else if (a0 =? "sha256")%string then ret (hashlib_new SHA256)
                      else raise ValueError
                  | _ => raise ValueError
                  end) w = Run (inl (hashlib_new a)) w []).
  { destruct a; reflexivity. }
  rewrite (bind_ok_silent _ _ _ _ Hnew). apply try_ok.
  rewrite (bind_ok_silent _ _ _ _ (open_rb_ok w file_path f Hs Hp)).
  assert (Hu' : update_from_file (N.to_nat 65536) (opened f) (hashlib_new a) w
                = Run (inl hash_obj) w []).
  { rewrite (silent_update_from_file _ _ _ w), Hu. reflexivity. }
  rewrite (bind_ok_silent _ _ _ _ Hu'). reflexivity.
Qed.

End HashSuccess.

Section Create.

Context `{HL : Hashlib} `{JL : JsonLib}.

(** One turn of the inner loop: the file is skipped because of its name,
    or left out because hashing it raised, or recorded under its relative
    path, with one more file counted. Nothing else can happen. *)
Lemma process_file_run (directory_path output_file algorithm root file_name : string)
  (st : dict * nat) (w : world) :
  let file_path := posixpath.join root file_name in
  (file_name = output_file
   /\ process_file directory_path output_file algorithm root file_name st w
      = Run (inl st) w [MsgSkipChecksums file_name])
  \/ (file_name <> output_file
      /\ exists e o,
           calculate_hash file_path (JStr algorithm) w = Run (inr e) w o
           /\ process_file directory_path output_file algorithm root file_name st w
              = Run (inl st) w (o ++ [MsgProcessError file_path e]))
  \/ (file_name <> output_file
      /\ exists f a rel_path,
           stat w file_path = inl (File f)
           /\ algorithm = algorithm_tag a
           /\ calculate_hash file_path (JStr algorithm) w
              = Run (inl (hex (digest a (i_data f)))) w []
           /\ posixpath.relpath (getcwd w) file_path directory_path = Some rel_path
           /\ process_file directory_path output_file algorithm root file_name st w
              = Run (inl (dict_set (fst st) rel_path
                            (file_record (hex (digest a (i_data f)))
                               (Z.of_nat (List.length (i_data f))) (i_mtime f)),
                          S (snd st)))
                  w [MsgProcessed rel_path])
  \/ (file_name <> output_file
      /\ posixpath.relpath (getcwd w) file_path directory_path = None
      /\ process_file directory_path output_file algorithm root file_name st w
         = Run (inl st) w [MsgProcessError file_path ValueError]).
Proof.
  intros file_path. unfold process_file. fold file_path.
  destruct (String.eqb_spec file_name output_file) as [Hn|Hn].
  { left. split; [exact Hn|]. reflexivity. }
  right.
  match goal with |- context [try_except ?c ?h] =>
    remember c as body eqn:Hbody; remember h as hs eqn:Hhs
  end.
  assert (Hcatch : forall e o, body w = Run (inr e) w o ->
            try_except body hs w = Run (inl st) w (o ++ [MsgProcessError file_path e])).
  { intros e o Hb. rewrite Hhs.
    rewrite (try_caught _ _ _ _ _ _ _ Hb eq_refl). reflexivity. }
  destruct (calculate_hash_run file_path (JStr algorithm) w)
    as [[h E]|(e & o & E & _)].
  2:{ left. split; [exact Hn|]. exists e, o. split; [exact E|].
      apply Hcatch. rewrite Hbody. apply bind_raise. exact E. }
  right.
  destruct (calculate_hash_returns file_path (JStr algorithm) w h)
    as (f & a & Hs & Hp & Ha & Hh & _ & Hu); [rewrite E; reflexivity|].
  injection Ha as Ha. subst h.
  destruct (posixpath.relpath (getcwd w) file_path directory_path) as [rel_path|] eqn:Er.
  - left. split; [exact Hn|]. exists f, a, rel_path.
    repeat split; try assumption.
    apply try_ok. rewrite Hbody.
    rewrite (bind_ok_silent _ _ _ _ E).
    assert (E1 : os_path_relpath file_path directory_path w = Run (inl rel_path) w []).
    { unfold os_path_relpath, ask. rewrite Er. reflexivity. }
    assert (E2 : os_path_getsize file_path w
                 = Run (inl (Z.of_nat (List.length (i_data f)))) w []).
    { unfold os_path_getsize, ask. rewrite Hs. reflexivity. }
    assert (E3 : os_path_getmtime file_path w = Run (inl (i_mtime f)) w []).
    { unfold os_path_getmtime, ask. rewrite Hs. reflexivity. }
    rewrite (bind_ok_silent _ _ _ _ E1), (bind_ok_silent _ _ _ _ E2),
      (bind_ok_silent _ _ _ _ E3).
    reflexivity.
  - right. split; [exact Hn|]. split; [reflexivity|].
    rewrite (Hcatch ValueError []); [reflexivity|].
    rewrite Hbody. rewrite (bind_ok_silent _ _ _ _ E).
    apply bind_raise. unfold os_path_relpath, ask. rewrite Er. reflexivity.
Qed.

Lemma process_file_total (directory_path output_file algorithm root file_name : string)
  (st : dict * nat) (w : world) :
  exists st' o,
    process_file directory_path output_file algorithm root file_name st w
    = Run (inl st') w o.
Proof.
  destruct (process_file_run directory_path output_file algorithm root file_name st w)
    as [(_ & E)|[(_ & e & o & _ & E)|[(_ & f & a & r & _ & _ & _ & _ & E)|(_ & _ & E)]]];
    rewrite E; eexists; eexists; reflexivity.
Qed.

(** The inner loop never raises and changes nothing. *)
Lemma scan_files_total (directory_path output_file algorithm root : string) :
  forall files st w,
  exists st' o,
    for_each files (process_file directory_path output_file algorithm root) st w
    = Run (inl st') w o.
Proof.
  induction files as [|x files IH]; intros st w.
  - exists st, []. reflexivity.
  - destruct (process_file_total directory_path output_file algorithm root x st w)
      as (st1 & o1 & E1).
    destruct (IH st1 w) as (st2 & o2 & E2).
    exists st2, (o1 ++ o2). cbn [for_each].
    rewrite (bind_ok _ _ _ _ _ _ E1), E2. reflexivity.
Qed.

(** The scan never raises and changes nothing. *)
Lemma scan_total (directory_path output_file algorithm : string) :
  forall triples st w,
  exists st' o,
    scan directory_path output_file algorithm triples st w = Run (inl st') w o.
Proof.
  unfold scan. induction triples as [|t triples IH]; intros st w.
  - exists st, []. reflexivity.
  - destruct (scan_files_total directory_path output_file algorithm
                (fst (fst t)) (snd t) st w) as (st1 & o1 & E1).
    destruct (IH st1 w) as (st2 & o2 & E2).
    exists st2, (o1 ++ o2). cbn [for_each].
    rewrite (bind_ok _ _ _ _ _ _ E1), E2. reflexivity.
Qed.

(** Every run of [create_checksum_file], step by step: without the
    directory it stops; otherwise the scan is followed by the writing of
    the manifest, which succeeds, stops at a chunk that cannot be encoded,
    or does not start because the file cannot be opened. *)
Lemma create_checksum_file_run (directory_path output_file algorithm : string)
  (w : world) :
  match stat w directory_path with
  | inr _ =>
      create_checksum_file directory_path output_file algorithm w
      = Run (inl false) w [MsgNoDirectory directory_path]
  | inl n =>
      exists st o,
        scan directory_path output_file algorithm (walk directory_path n) ([], 0) w
        = Run (inl st) w o
        /\ let manifest := checksums_of (w_now w) algorithm directory_path (fst st) in
           let chunks := json_iterencode manifest in
           ((exists p,
               resolve w output_file = inl p
               /\ writable w output_file = true
               /\ encodable chunks = true
               /\ create_checksum_file directory_path output_file algorithm w
                  = Run (inl true)
                      (written w p (list_byte_of_string (json_dumps manifest)))
                      ([MsgScanning directory_path; MsgRule] ++ o
                       ++ [MsgRule; MsgDone (snd st); MsgSavedTo output_file]))
            \/ (exists p,
                  resolve w output_file = inl p
                  /\ writable w output_file = true
                  /\ encodable chunks = false
                  /\ create_checksum_file directory_path output_file algorithm w
                     = Run (inl false)
                         (written w p
                            (list_byte_of_string
                               (concat_chunks (encodable_prefix chunks))))
                         ([MsgScanning directory_path; MsgRule] ++ o
                          ++ [MsgUnexpected UnicodeEncodeError]))
            \/ (exists e,
                  writable w output_file = false
                  /\ create_checksum_file directory_path output_file algorithm w
                     = Run (inl false) w
                         ([MsgScanning directory_path; MsgRule] ++ o
                          ++ [MsgUnexpected e])))
  end.
Proof.
  unfold create_checksum_file.
  rewrite (bind_ok_silent _ _ w (w_now w) eq_refl).
  match goal with |- context [try_except ?c ?h] =>
    remember c as body eqn:Hbody; remember h as hs eqn:Hhs
  end.
  assert (Hcatch : forall e w' o, body w = Run (inr e) w' o ->
            try_except body hs w = Run (inl false) w' (o ++ [MsgUnexpected e])).
  { intros e w' o Hb. rewrite Hhs.
    rewrite (try_caught _ _ _ _ _ _ _ Hb eq_refl). reflexivity. }
  destruct (stat w directory_path) as [n|e] eqn:Es.
  2:{ apply try_ok. rewrite Hbody.
      assert (Hex : os_path_exists directory_path w = Run (inl false) w []).
      { unfold os_path_exists, ask. rewrite Es. reflexivity. }
      rewrite (bind_ok_silent _ _ _ _ Hex). reflexivity. }
  destruct (scan_total directory_path output_file algorithm (walk directory_path n)
              ([], 0) w) as (st & o & Esc).
  exists st, o. split; [exact Esc|]. cbv zeta.
  set (chunks := json_iterencode (checksums_of (w_now w) algorithm directory_path (fst st))).
  assert (Hb : body w = prepend ([MsgScanning directory_path; MsgRule] ++ o)
                          ((write_file output_file chunks ;;;
                            print MsgRule ;;;
                            print (MsgDone (snd st)) ;;;
                            print (MsgSavedTo output_file) ;;;
                            ret true) w)).
  { rewrite Hbody.
    assert (Hex : os_path_exists directory_path w = Run (inl true) w []).
    { unfold os_path_exists, ask. rewrite Es. reflexivity. }
    rewrite (bind_ok_silent _ _ _ _ Hex). cbn [negb].
    rewrite !bind_print, prepend_prepend.
    assert (Hw : os_walk directory_path w = Run (inl (walk directory_path n)) w []).
    { unfold os_walk, ask. rewrite Es. reflexivity. }
    rewrite (bind_ok_silent _ _ _ _ Hw).
    fold (scan directory_path output_file algorithm (walk directory_path n) ([], 0)).
    rewrite (bind_ok _ _ _ _ _ _ Esc). unfold prepend. cbn [result final output].
    rewrite app_assoc. reflexivity. }
  destruct (write_file_run output_file chunks w) as [(p & Hr & Hw & Ew)|(e & Hw & Ew)].
  - destruct (encodable chunks) eqn:Henc.
    + left. exists p. repeat split; try assumption.
      apply try_ok. rewrite Hb. rewrite (bind_ok _ _ _ _ _ _ Ew).
      rewrite !bind_print. unfold prepend, ret. cbn [result final output app].
      unfold json_dumps. fold chunks. rewrite (encodable_prefix_all _ Henc).
      reflexivity.
    + right. left. exists p. repeat split; try assumption.
      rewrite (Hcatch UnicodeEncodeError
                 (written w p (list_byte_of_string (concat_chunks (encodable_prefix chunks))))
                 ([MsgScanning directory_path; MsgRule] ++ o)).
      * rewrite <- app_assoc. reflexivity.
      * rewrite Hb. rewrite (bind_raise _ _ _ _ _ _ Ew). unfold prepend.
        cbn [result final output]. rewrite app_nil_r. reflexivity.
  - right. right. exists e. split; [exact Hw|].
    rewrite (Hcatch e w ([MsgScanning directory_path; MsgRule] ++ o)).
    + rewrite <- app_assoc. reflexivity.
    + rewrite Hb. rewrite (bind_raise _ _ _ _ _ _ Ew). unfold prepend.
      cbn [result final output]. rewrite app_nil_r. reflexivity.
Qed.

End Create.

Lemma processed_paths_app (o o' : list message) :
  processed_paths (o ++ o') = processed_paths o ++ processed_paths o'.
Proof.
  induction o as [|m o IH]; [reflexivity|].
  destruct m; simpl; rewrite IH; reflexivity.
Qed.

Lemma processed_paths_entry (o : list message) :
  Forall (fun m => entry_message m = true) o -> processed_paths o = [].
Proof.
  induction 1 as [|m o Hm _ IH]; [reflexivity|].
  destruct m; try discriminate; exact IH.
Qed.

Lemma dict_keys_set (d : dict) (k : string) (v : json) (x : string) :
  In x (dict_keys (dict_set d k v)) <-> In x (dict_keys d) \/ x = k.
Proof.
  unfold dict_keys. induction d as [|[k' v'] d IH]; simpl.
  - split.
    + intros [E|E]; [right; symmetry; exact E | destruct E].
    + intros [E|E]; [destruct E | left; symmetry; exact E].
  - destruct (String.eqb_spec k' k) as [E|Hne]; simpl.
    + subst k'. split; [tauto | intros [E|E]; [exact E | left; symmetry; exact E]].
    + rewrite IH. tauto.
Qed.

Section CreateCounts.

Context `{HL : Hashlib} `{JL : JsonLib}.

(** What the scan returns, against what it prints: [file_count] grows by
    the number of files announced as processed, and the keys of the
    mapping are those it had, with the relative paths announced. *)
Lemma scan_counts (directory_path output_file algorithm : string) :
  forall triples st w st' o,
  scan directory_path output_file algorithm triples st w = Run (inl st') w o ->
  snd st' = snd st + List.length (processed_paths o)
  /\ forall x, In x (dict_keys (fst st'))
               <-> In x (dict_keys (fst st)) \/ In x (processed_paths o).
Proof.
  assert (Hone : forall root file_name st w st' o,
            process_file directory_path output_file algorithm root file_name st w
            = Run (inl st') w o ->
            snd st' = snd st + List.length (processed_paths o)
            /\ forall x, In x (dict_keys (fst st'))
                         <-> In x (dict_keys (fst st)) \/ In x (processed_paths o)).
  { intros root file_name st w st' o E.
    destruct (process_file_run directory_path output_file algorithm root file_name st w)
      as [(_ & E')|[(_ & e & o' & Eh & E')|[(_ & f & a & r & _ & _ & _ & _ & E')|(_ & _ & E')]]];
      rewrite E' in E; injection E as <- <-.
    - simpl. split; [lia|tauto].
    - destruct (calculate_hash_run (posixpath.join root file_name) (JStr algorithm) w)
        as [[h Eh']|(e' & o'' & Eh' & Ho & _)]; rewrite Eh' in Eh; [discriminate|].
      injection Eh as <- <-.
      rewrite processed_paths_app, (processed_paths_entry _ Ho). simpl.
      split; [lia|tauto].
    - cbn [fst snd processed_paths List.length]. split; [lia|].
      intros x. rewrite dict_keys_set. simpl. intuition.
    - simpl. split; [lia|tauto]. }
  assert (Hin : forall root files st w st' o,
            for_each files (process_file directory_path output_file algorithm root) st w
            = Run (inl st') w o ->
            snd st' = snd st + List.length (processed_paths o)
            /\ forall x, In x (dict_keys (fst st'))
                         <-> In x (dict_keys (fst st)) \/ In x (processed_paths o)).
  { intros root. induction files as [|file_name files IH]; intros st w st' o E.
    - injection E as <- <-. simpl. split; [lia|tauto].
    - cbn [for_each] in E.
      destruct (process_file_total directory_path output_file algorithm root file_name st w)
        as (st1 & o1 & E1).
      rewrite (bind_ok _ _ _ _ _ _ E1) in E.
      match type of E with context [for_each files ?b st1 w] =>
        destruct (for_each files b st1 w) as [r2 w2 o2] eqn:E2
      end.
      cbn [result final output] in E. injection E as -> -> <-.
      destruct (Hone _ _ _ _ _ _ E1) as [Hc1 Hk1].
      destruct (IH _ _ _ _ E2) as [Hc2 Hk2].
      rewrite processed_paths_app, length_app. split; [lia|].
      intros x. rewrite Hk2, Hk1, in_app_iff. tauto. }
  unfold scan. induction triples as [|t triples IH]; intros st w st' o E.
  - injection E as <- <-. simpl. split; [lia|tauto].
  - cbn [for_each] in E.
    destruct (scan_files_total directory_path output_file algorithm
                (fst (fst t)) (snd t) st w) as (st1 & o1 & E1).
    rewrite (bind_ok _ _ _ _ _ _ E1) in E.
    match type of E with context [for_each triples ?b st1 w] =>
      destruct (for_each triples b st1 w) as [r2 w2 o2] eqn:E2
    end.
    cbn [result final output] in E. injection E as -> -> <-.
    destruct (Hin _ _ _ _ _ _ E1) as [Hc1 Hk1].
    destruct (IH _ _ _ _ E2) as [Hc2 Hk2].
    rewrite processed_paths_app, length_app. split; [lia|].
    intros x. rewrite Hk2, Hk1, in_app_iff. tauto.
Qed.

(** What a build of an existing directory does, by cases of the writing:
    the file can be opened and every chunk of the text encoded; the file
    can be opened and some chunk cannot be encoded; the file cannot be
    opened. *)
Lemma create_checksum_file_writes (directory_path output_file algorithm : string)
  (w : world) (n : node) :
  stat w directory_path = inl n ->
  exists files file_count o,
    scan directory_path output_file algorithm (walk directory_path n) ([], 0) w
    = Run (inl (files, file_count)) w o
    /\ file_count = List.length (processed_paths o)
    /\ (forall x, In x (dict_keys files) <-> In x (processed_paths o))
    /\ let r := create_checksum_file directory_path output_file algorithm w in
       let manifest := checksums_of (w_now w) algorithm directory_path files in
       let chunks := json_iterencode manifest in
       (writable w output_file = true -> encodable chunks = true ->
        exists p, resolve w output_file = inl p
                  /\ r = Run (inl true)
                         (written w p (list_byte_of_string (json_dumps manifest)))
                         ([MsgScanning directory_path; MsgRule] ++ o
                          ++ [MsgRule; MsgDone file_count; MsgSavedTo output_file]))
       /\ (writable w output_file = true -> encodable chunks = false ->
           exists p, resolve w output_file = inl p
                     /\ r = Run (inl false)
                            (written w p
                               (list_byte_of_string
                                  (concat_chunks (encodable_prefix chunks))))
                            ([MsgScanning directory_path; MsgRule] ++ o
                             ++ [MsgUnexpected UnicodeEncodeError]))
       /\ (writable w output_file = false ->
           exists e, r = Run (inl false) w
                           ([MsgScanning directory_path; MsgRule] ++ o
                            ++ [MsgUnexpected e])).
Proof.
  intros Hs.
  pose proof (create_checksum_file_run directory_path output_file algorithm w) as Hrun.
  rewrite Hs in Hrun. destruct Hrun as ([files file_count] & o & Esc & Hrun).
  exists files, file_count, o. split; [exact Esc|].
  destruct (scan_counts _ _ _ _ _ _ _ _ Esc) as [Hc Hk]. cbn [fst snd] in Hc, Hk.
  split; [exact Hc|]. split.
  { intros x. rewrite Hk. simpl. tauto. }
  cbv zeta in *. cbn [fst snd] in Hrun. split; [|split].
  - intros Hw He.
    destruct Hrun as [(p & Hr & _ & _ & E)|[(p & _ & _ & He' & _)|(e & Hw' & _)]];
      [|congruence|congruence].
    exists p. split; assumption.
  - intros Hw He.
    destruct Hrun as [(p & _ & _ & He' & _)|[(p & Hr & _ & _ & E)|(e & Hw' & _)]];
      [congruence| |congruence].
    exists p. split; assumption.
  - intros Hw.
    destruct Hrun as [(p & _ & Hw' & _)|[(p & _ & Hw' & _)|(e & _ & E)]];
      [congruence|congruence|].
    exists e. exact E.
Qed.

Lemma scan_nothing (directory_path output_file algorithm : string) (w : world) :
  forall triples st,
  (forall root dirs files file_name,
     In (root, dirs, files) triples -> In file_name files ->
     file_name = output_file
     \/ exists e, result (calculate_hash (posixpath.join root file_name)
                            (JStr algorithm) w) = inr e) ->
  exists o, scan directory_path output_file algorithm triples st w = Run (inl st) w o.
Proof.
  assert (Hin : forall root files st,
            (forall file_name, In file_name files ->
               file_name = output_file
               \/ exists e, result (calculate_hash (posixpath.join root file_name)
                                      (JStr algorithm) w) = inr e) ->
            exists o, for_each files
                        (process_file directory_path output_file algorithm root) st w
                      = Run (inl st) w o).
  { intros root. induction files as [|file_name files IH]; intros st Hall.
    - exists []. reflexivity.
    - assert (E1 : exists o1, process_file directory_path output_file algorithm root
                                file_name st w = Run (inl st) w o1).
      { destruct (process_file_run directory_path output_file algorithm root file_name st w)
          as [(_ & E')|[(_ & e & o' & _ & E')|[(Hne & f & a & r & _ & _ & Eh & _)|(_ & _ & E')]]];
          try (eexists; exact E').
        exfalso. destruct (Hall file_name (or_introl eq_refl)) as [Hn|[e He]].
        - contradiction.
        - rewrite Eh in He. discriminate. }
      destruct E1 as [o1 E1].
      destruct (IH st (fun x Hx => Hall x (or_intror Hx))) as [o2 E2].
      exists (o1 ++ o2). cbn [for_each]. rewrite (bind_ok _ _ _ _ _ _ E1), E2. reflexivity. }
  induction triples as [|t triples IH]; intros st Hall.
  - exists []. reflexivity.
  - destruct t as [[root dirs] files].
    destruct (Hin root files st (fun x Hx => Hall root dirs files x (or_introl eq_refl) Hx))
      as [o1 E1].
    destruct (IH st (fun r d f x Ht Hx => Hall r d f x (or_intror Ht) Hx)) as [o2 E2].
    exists (o1 ++ o2). unfold scan in *. cbn [for_each fst snd].
    rewrite (bind_ok _ _ _ _ _ _ E1), E2. reflexivity.
Qed.

End CreateCounts.


(* ===================================================================== *)
(** * Paths made of names *)
(* ===================================================================== *)

Lemma append_assoc (a b c : string) : (a +++ b) +++ c = a +++ (b +++ c).
Proof. induction a as [|x a IH]; simpl; [reflexivity|]. rewrite IH. reflexivity. Qed.

Lemma append_nil_r (a : string) : a +++ "" = a.
Proof. induction a as [|x a IH]; simpl; [reflexivity|]. rewrite IH. reflexivity. Qed.

Lemma split_not_nil (s : string) : split s <> [].
Proof.
  destruct s as [|c s]; simpl; [discriminate|].
  destruct (Ascii.eqb c sep); [discriminate|]. destruct (split s); discriminate.
Qed.

Lemma split_nosep (x : string) : has_sep x = false -> split x = [x].
Proof.
  induction x as [|c x IH]; simpl; [reflexivity|].
  destruct (Ascii.eqb c sep); [discriminate|]. simpl.
  intros Hx. rewrite (IH Hx). reflexivity.
Qed.

Lemma split_app_sep (a b : string) :
  split (a +++ String sep b) = split a ++ split b.
Proof.
  induction a as [|c a IH]; simpl.
  - reflexivity.
  - destruct (Ascii.eqb c sep); [rewrite IH; reflexivity|].
    rewrite IH. destruct (split a) eqn:E; [destruct (split_not_nil _ E)|reflexivity].
Qed.

(** A string that ends with the separator is another string followed by
    it. *)
Lemma endswith_sep_inv (a : string) :
  endswith_sep a = true -> exists a0, a = a0 +++ String sep "".
Proof.
  induction a as [|c a IH]; [discriminate|].
  destruct a as [|c' a].
  - simpl. intros Hc. apply Ascii.eqb_eq in Hc. subst c. exists "". reflexivity.
  - intros Ha. destruct (IH Ha) as [a0 E]. exists (String c a0). simpl. rewrite <- E.
    reflexivity.
Qed.

Lemma endswith_sep_app (a b : string) :
  b <> "" -> endswith_sep (a +++ b) = endswith_sep b.
Proof.
  intros Hb. induction a as [|c a IH]; [reflexivity|].
  simpl. destruct (a +++ b) eqn:E; [|exact IH].
  destruct a; [simpl in E; contradiction|discriminate].
Qed.

Lemma startswith_sep_app (a b : string) :
  a <> "" -> startswith_sep (a +++ b) = startswith_sep a.
Proof. destruct a; [contradiction|reflexivity]. Qed.

Lemma endswith_nosep (x : string) : has_sep x = false -> endswith_sep x = false.
Proof.
  induction x as [|c x IH]; [reflexivity|].
  simpl. destruct (Ascii.eqb c sep); [discriminate|]. simpl.
  intros Hx. destruct x; [reflexivity|]. apply IH. exact Hx.
Qed.

Lemma startswith_nosep (x : string) : has_sep x = false -> startswith_sep x = false.
Proof.
  destruct x as [|c x]; [reflexivity|]. simpl.
  destruct (Ascii.eqb c sep); [discriminate|reflexivity].
Qed.

(** What a valid name is. *)
Lemma valid_name_inv (x : string) :
  valid_name x = true ->
  x <> "" /\ has_sep x = false /\ x <> "." /\ x <> "..".
Proof.
  unfold valid_name. rewrite !andb_true_iff, !negb_true_iff.
  intros [[[H1 H2] H3] H4]. repeat split; try assumption; intros ->; discriminate.
Qed.

Lemma join_relative (a b : string) :
  a <> "" -> startswith_sep b = false ->
  posixpath.join a b = if endswith_sep a then a +++ b else a +++ String sep b.
Proof.
  intros Ha Hb. unfold posixpath.join. rewrite Hb.
  destruct (String.eqb_spec a ""); [contradiction|]. reflexivity.
Qed.

(** [join r x] for a name [x]: the separator is added unless [r] ends
    with it. *)
Lemma join_name (r x : string) :
  r <> "" -> valid_name x = true ->
  posixpath.join r x = if endswith_sep r then r +++ x else r +++ String sep x.
Proof.
  intros Hr Hx. destruct (valid_name_inv x Hx) as (_ & Hs & _).
  unfold posixpath.join. rewrite (startswith_nosep x Hs).
  destruct (String.eqb_spec r ""); [contradiction|]. simpl.
  reflexivity.
Qed.

Lemma join_name_not_empty (r x : string) :
  r <> "" -> valid_name x = true -> posixpath.join r x <> "".
Proof.
  intros Hr Hx. rewrite (join_name r x Hr Hx).
  destruct r; [contradiction|]. destruct (endswith_sep _); discriminate.
Qed.

Lemma join_name_startswith (r x : string) :
  r <> "" -> valid_name x = true ->
  startswith_sep (posixpath.join r x) = startswith_sep r.
Proof.
  intros Hr Hx. rewrite (join_name r x Hr Hx).
  destruct (endswith_sep r); apply startswith_sep_app; exact Hr.
Qed.

(** The components of [join r x]: those of [r], a final empty one
    dropped, and then [x]. *)
Lemma split_join_name (r x : string) :
  r <> "" -> valid_name x = true ->
  (endswith_sep r = false /\ split (posixpath.join r x) = split r ++ [x])
  \/ (exists l, split r = l ++ [""] /\ split (posixpath.join r x) = l ++ [x]).
Proof.
  intros Hr Hx. destruct (valid_name_inv x Hx) as (_ & Hs & _).
  rewrite (join_name r x Hr Hx). destruct (endswith_sep r) eqn:Er.
  - right. destruct (endswith_sep_inv r Er) as [a0 ->].
    exists (split a0). rewrite split_app_sep. split; [reflexivity|].
    rewrite append_assoc. simpl. rewrite split_app_sep, (split_nosep x Hs). reflexivity.
  - left. split; [reflexivity|]. rewrite split_app_sep, (split_nosep x Hs). reflexivity.
Qed.

(** A relative path made of names, joined to [d], is [d] extended name
    by name. *)
Lemma join_join_sep (names : list string) :
  names <> [] -> Forall (fun x => valid_name x = true) names ->
  forall d, d <> "" ->
  posixpath.join d (join_sep names) = fold_left posixpath.join names d.
Proof.
  induction names as [|x names IH]; [contradiction|]. intros _ Hv d Hd.
  inversion Hv as [|? ? Hx Hv']; subst.
  destruct names as [|y names]; [reflexivity|].
  change (fold_left posixpath.join (x :: y :: names) d)
    with (fold_left posixpath.join (y :: names) (posixpath.join d x)).
  rewrite <- (IH ltac:(discriminate) Hv' _ (join_name_not_empty d x Hd Hx)).
  change (join_sep (x :: y :: names)) with (x +++ String sep (join_sep (y :: names))).
  set (s := join_sep (y :: names)).
  assert (Hs : startswith_sep s = false).
  { subst s. inversion Hv' as [|? ? Hy _]; subst.
    destruct (valid_name_inv y Hy) as (Hne & Hsep & _).
    destruct names; simpl; [apply startswith_nosep; exact Hsep|].
    rewrite startswith_sep_app by exact Hne. apply startswith_nosep. exact Hsep. }
  destruct (valid_name_inv x Hx) as (Hxne & Hxs & _).
  assert (Hj : posixpath.join d x <> "") by (apply join_name_not_empty; assumption).
  rewrite (join_relative d (x +++ String sep s) Hd).
  2:{ rewrite (startswith_sep_app x _ Hxne). apply startswith_nosep. exact Hxs. }
  rewrite (join_relative (posixpath.join d x) s Hj Hs).
  rewrite (join_name d x Hd Hx).
  destruct (endswith_sep d) eqn:Ed.
  - rewrite (endswith_sep_app d x Hxne), (endswith_nosep x Hxs).
    rewrite append_assoc. reflexivity.
  - rewrite (endswith_sep_app d (String sep x) ltac:(discriminate)).
    assert (Hex : endswith_sep (String sep x) = false).
    { destruct x; [contradiction|]. simpl. apply (endswith_nosep (String a x) Hxs). }
    rewrite Hex. rewrite append_assoc. reflexivity.
Qed.

Lemma split_no_sep (s : string) : Forall (fun z => has_sep z = false) (split s).
Proof.
  induction s as [|c s IH]; simpl; [repeat constructor|].
  destruct (Ascii.eqb c sep) eqn:Ec; [constructor; [reflexivity|exact IH]|].
  destruct (split s) as [|z l]; [repeat constructor; simpl; rewrite Ec; reflexivity|].
  inversion IH; subst. constructor; [|assumption]. simpl. rewrite Ec. assumption.
Qed.

Lemma split_join_sep (l : list string) :
  l <> [] -> Forall (fun z => has_sep z = false) l -> split (join_sep l) = l.
Proof.
  induction l as [|x l IH]; [contradiction|]. intros _ Hl.
  inversion Hl as [|? ? Hx Hl']; subst.
  destruct l as [|y l]; [apply split_nosep; exact Hx|].
  change (join_sep (x :: y :: l)) with (x +++ String sep (join_sep (y :: l))).
  rewrite split_app_sep, (split_nosep x Hx), (IH ltac:(discriminate) Hl'). reflexivity.
Qed.

Lemma norm_comps_app (i : bool) (l1 l2 : list string) :
  forall acc,
  posixpath.norm_comps i (l1 ++ l2) acc
  = posixpath.norm_comps i l2 (rev (posixpath.norm_comps i l1 acc)).
Proof.
  induction l1 as [|c l1 IH]; intros acc.
  - simpl. rewrite rev_involutive. reflexivity.
  - cbn [app posixpath.norm_comps].
    destruct (_ || _); [apply IH|].
    destruct (_ || _); [apply IH|].
    destruct acc; apply IH.
Qed.

Lemma norm_comps_snoc_empty (i : bool) (l : list string) :
  posixpath.norm_comps i (l ++ [""]) [] = posixpath.norm_comps i l [].
Proof. rewrite norm_comps_app. simpl. apply rev_involutive. Qed.

Lemma norm_comps_snoc_name (i : bool) (l : list string) (x : string) :
  valid_name x = true ->
  posixpath.norm_comps i (l ++ [x]) [] = posixpath.norm_comps i l [] ++ [x].
Proof.
  intros Hx. destruct (valid_name_inv x Hx) as (H1 & _ & H2 & H3).
  rewrite norm_comps_app. cbn [posixpath.norm_comps].
  destruct (String.eqb_spec x ""); [contradiction|].
  destruct (String.eqb_spec x "."); [contradiction|].
  destruct (String.eqb_spec x ".."); [contradiction|].
  cbn [orb negb]. cbn [rev]. rewrite rev_involutive. reflexivity.
Qed.

(** What [normpath] keeps are components of the path, none of them
    empty. *)
Lemma norm_comps_in (i : bool) (l : list string) :
  forall acc z,
  In z (posixpath.norm_comps i l acc) -> In z acc \/ (In z l /\ z <> "").
Proof.
  induction l as [|c l IH]; intros acc z Hz.
  - simpl in Hz. left. apply in_rev. exact Hz.
  - cbn [posixpath.norm_comps] in Hz.
    destruct (String.eqb_spec c "") as [->|Hc]; cbn [orb] in Hz.
    { destruct (IH _ _ Hz) as [H|[H H']]; [left; exact H|right; split; [right; exact H|exact H']]. }
    destruct ((c =? ".")%string).
    { destruct (IH _ _ Hz) as [H|[H H']]; [left; exact H|right; split; [right; exact H|exact H']]. }
    destruct (_ || _).
    { destruct (IH _ _ Hz) as [[H|H]|[H H']].
      - right. subst z. split; [left; reflexivity|exact Hc].
      - left. exact H.
      - right. split; [right; exact H|exact H']. }
    destruct acc as [|a acc].
    + destruct (IH _ _ Hz) as [H|[H H']]; [left; exact H|right; split; [right; exact H|exact H']].
    + destruct (IH _ _ Hz) as [H|[H H']]; [left; right; exact H|right; split; [right; exact H|exact H']].
Qed.

Lemma nonempty_comps_names (l : list string) :
  Forall (fun z => z <> "" /\ has_sep z = false) l ->
  posixpath.nonempty_comps (join_sep l) = l.
Proof.
  intros Hl. unfold posixpath.nonempty_comps.
  destruct l as [|x l]; [reflexivity|].
  rewrite split_join_sep; [|discriminate|eapply Forall_impl; [|exact Hl]; simpl; tauto].
  induction Hl as [|z l' [Hz _] _ IH]; [reflexivity|].
  simpl. destruct (String.eqb_spec z ""); [contradiction|]. simpl. f_equal. exact IH.
Qed.

Lemma nonempty_comps_slash (s : string) :
  posixpath.nonempty_comps (String sep s) = posixpath.nonempty_comps s.
Proof. reflexivity. Qed.

Lemma initial_slashes_abs (t : string) :
  startswith_sep t = true ->
  posixpath.initial_slashes t = 1 \/ posixpath.initial_slashes t = 2.
Proof.
  destruct t as [|c1 [|c2 [|c3 t]]]; simpl; try discriminate; intros ->;
    try (left; reflexivity);
    destruct (Ascii.eqb c2 sep); simpl; try destruct (Ascii.eqb c3 sep); simpl; tauto.
Qed.

(** The components of the normal form of an absolute path. *)
Lemma nonempty_comps_normpath (t : string) :
  startswith_sep t = true ->
  posixpath.nonempty_comps (posixpath.normpath t)
  = posixpath.norm_comps true (split t) [].
Proof.
  intros Ht. unfold posixpath.normpath.
  destruct (String.eqb_spec t "") as [->|_]; [discriminate|].
  set (comps := posixpath.norm_comps _ _ _).
  assert (Hc : Forall (fun z => z <> "" /\ has_sep z = false)
                 (posixpath.norm_comps true (split t) [])).
  { apply Forall_forall. intros z Hz.
    destruct (norm_comps_in _ _ _ _ Hz) as [[]|[Hin Hne]]. split; [exact Hne|].
    pose proof (split_no_sep t) as Hs. rewrite Forall_forall in Hs. apply Hs. exact Hin. }
  subst comps.
  destruct (initial_slashes_abs t Ht) as [E|E]; rewrite E;
    cbn [Nat.eqb negb posixpath.slashes append String.eqb];
    rewrite ?nonempty_comps_slash; apply nonempty_comps_names; exact Hc.
Qed.

Lemma absolute_startswith (cwd path : string) :
  startswith_sep cwd = true -> startswith_sep (absolute cwd path) = true.
Proof.
  intros Hc. unfold absolute. destruct (startswith_sep path) eqn:Hp; [exact Hp|].
  unfold posixpath.join. rewrite Hp. destruct cwd as [|c cwd]; [discriminate|].
  destruct (_ || _); exact Hc.
Qed.

Lemma absolute_join (cwd s x : string) :
  startswith_sep cwd = true -> s <> "" -> valid_name x = true ->
  absolute cwd (posixpath.join s x) = posixpath.join (absolute cwd s) x.
Proof.
  intros Hc Hs Hx. unfold absolute.
  rewrite (join_name_startswith s x Hs Hx).
  destruct (startswith_sep s) eqn:Es; [reflexivity|].
  assert (Hcn : cwd <> "") by (intros ->; discriminate).
  assert (Hj : posixpath.join cwd s <> "").
  { rewrite (join_relative cwd s Hcn Es). destruct cwd; [contradiction|].
    destruct (endswith_sep _); discriminate. }
  destruct (valid_name_inv x Hx) as (Hxne & Hxs & _).
  rewrite (join_relative cwd (posixpath.join s x) Hcn).
  2:{ rewrite (join_name_startswith s x Hs Hx). exact Es. }
  rewrite (join_name (posixpath.join cwd s) x Hj Hx), (join_name s x Hs Hx).
  rewrite (join_relative cwd s Hcn Es).
  destruct (endswith_sep cwd) eqn:Ec.
  - rewrite (endswith_sep_app cwd s Hs).
    destruct (endswith_sep s); rewrite append_assoc; reflexivity.
  - rewrite (endswith_sep_app cwd (String sep s)) by discriminate.
    assert (Hes : endswith_sep (String sep s) = endswith_sep s).
    { destruct s; [contradiction|reflexivity]. }
    rewrite Hes. destruct (endswith_sep s); rewrite append_assoc; reflexivity.
Qed.

Lemma abs_comps_join (cwd s x : string) :
  startswith_sep cwd = true -> s <> "" -> valid_name x = true ->
  abs_comps cwd (posixpath.join s x) = abs_comps cwd s ++ [x].
Proof.
  intros Hc Hs Hx. unfold abs_comps, posixpath.abspath.
  fold (absolute cwd (posixpath.join s x)). fold (absolute cwd s).
  rewrite !nonempty_comps_normpath by (apply absolute_startswith; exact Hc).
  rewrite (absolute_join cwd s x Hc Hs Hx).
  assert (Ha : absolute cwd s <> "").
  { intros E. pose proof (absolute_startswith cwd s Hc) as H. rewrite E in H. discriminate. }
  destruct (split_join_name (absolute cwd s) x Ha Hx) as [[_ E]|(l & E1 & E2)].
  - rewrite E. apply norm_comps_snoc_name. exact Hx.
  - rewrite E1, E2, norm_comps_snoc_empty. apply norm_comps_snoc_name. exact Hx.
Qed.

Lemma abs_comps_extend (cwd : string) (names : list string) :
  startswith_sep cwd = true ->
  Forall (fun x => valid_name x = true) names ->
  forall s, s <> "" ->
  abs_comps cwd (fold_left posixpath.join names s) = abs_comps cwd s ++ names
  /\ fold_left posixpath.join names s <> "".
Proof.
  intros Hc. induction 1 as [|x names Hx _ IH]; intros s Hs.
  - simpl. rewrite app_nil_r. split; [reflexivity|exact Hs].
  - cbn [fold_left].
    destruct (IH _ (join_name_not_empty s x Hs Hx)) as [E Hne].
    rewrite E, (abs_comps_join cwd s x Hc Hs Hx), <- app_assoc. split; [reflexivity|exact Hne].
Qed.

Lemma commonprefix_len_app (l x : list string) :
  posixpath.commonprefix_len l (l ++ x) = List.length l.
Proof.
  induction l as [|a l IH]; [destruct x; reflexivity|].
  simpl. rewrite String.eqb_refl, IH. reflexivity.
Qed.

Lemma join_all_names (names : list string) :
  Forall (fun x => valid_name x = true) names ->
  posixpath.join_all names = join_sep names.
Proof.
  intros Hv. destruct names as [|x names]; [reflexivity|].
  inversion Hv as [|? ? Hx Hv']; subst. destruct (valid_name_inv x Hx) as (Hxne & _).
  destruct names as [|y names]; [reflexivity|].
  unfold posixpath.join_all.
  rewrite <- (join_join_sep (y :: names) ltac:(discriminate) Hv' x Hxne).
  rewrite join_relative; [|exact Hxne|].
  - rewrite (endswith_nosep x); [reflexivity|]. apply (valid_name_inv x Hx).
  - inversion Hv' as [|? ? Hy _]; subst.
    destruct (valid_name_inv y Hy) as (Hne & Hsep & _).
    destruct names; simpl; [apply startswith_nosep; exact Hsep|].
    rewrite startswith_sep_app by exact Hne. apply startswith_nosep. exact Hsep.
Qed.

(** The relative path of a file found below [d] by names: the names
    joined; and joining it to [d] again gives the path of the file. *)
Lemma relpath_below (cwd d : string) (names : list string) :
  startswith_sep cwd = true -> d <> "" -> names <> [] ->
  Forall (fun x => valid_name x = true) names ->
  posixpath.relpath cwd (fold_left posixpath.join names d) d = Some (join_sep names)
  /\ posixpath.join d (join_sep names) = fold_left posixpath.join names d.
Proof.
  intros Hc Hd Hn Hv. split; [|apply join_join_sep; assumption].
  destruct (abs_comps_extend cwd names Hc Hv d Hd) as [E Hne].
  unfold posixpath.relpath.
  destruct (String.eqb_spec (fold_left posixpath.join names d) ""); [contradiction|].
  fold (abs_comps cwd d). fold (abs_comps cwd (fold_left posixpath.join names d)).
  rewrite E, commonprefix_len_app, Nat.sub_diag. cbn [repeat app].
  rewrite skipn_app, skipn_all, Nat.sub_diag. cbn [skipn app].
  destruct names as [|x names]; [contradiction|].
  rewrite (join_all_names _ Hv). reflexivity.
Qed.

Example join_examples :
  posixpath.join "/data" "a.txt" = "/data/a.txt" /\
  posixpath.join "/data/" "a.txt" = "/data/a.txt" /\
  posixpath.join "/data" "/etc/passwd" = "/etc/passwd" /\
  posixpath.join "" "a.txt" = "a.txt".
Proof. repeat split; reflexivity. Qed.

Example relpath_examples :
  posixpath.relpath "/home/u" "/data/sub/a.txt" "/data" = Some "sub/a.txt" /\
  posixpath.relpath "/home/u" "data/./sub//a.txt" "data/" = Some "sub/a.txt" /\
  posixpath.relpath "/home/u" "../x/a.txt" "." = Some "../x/a.txt" /\
  posixpath.relpath "/" "/data" "/data" = Some "." /\
  posixpath.normpath "//a/b/../c/" = "//a/c" /\
  posixpath.normpath "///a/../../c/." = "/c".
Proof. repeat split; reflexivity. Qed.

(* ===================================================================== *)
(** * The file system: names, resolution and writing *)
(* ===================================================================== *)

Lemma node_ind' (P : node -> Prop) :
  (forall f, P (File f)) -> P Broken ->
  (forall es, Forall (fun e => P (snd e)) es -> P (Dir es)) ->
  forall n, P n.
Proof.
  intros Hf Hb Hd. fix IH 1. intros [f| |es]; [apply Hf|apply Hb|].
  apply Hd. induction es as [|[k c] es IHes]; constructor; [apply IH|exact IHes].
Qed.

Lemma wf_names_dir (es : list (string * node)) :
  wf_names (Dir es) = true ->
  Forall (fun e => valid_name (fst e) = true /\ wf_names (snd e) = true) es.
Proof.
  induction es as [|[k c] es IH]; [constructor|].
  cbn [wf_names]. rewrite !andb_true_iff. intros [[H1 H2] H3].
  constructor; [split; assumption|]. apply IH. exact H3.
Qed.

(** The directories [os.walk] yields are [top] extended by names, and the
    files it lists in them have names. *)
Lemma walk_roots (n : node) :
  wf_names n = true ->
  forall top root dirs files,
  In (root, dirs, files) (walk top n) ->
  exists names,
    root = fold_left posixpath.join names top
    /\ Forall (fun x => valid_name x = true) names
    /\ Forall (fun x => valid_name x = true) files.
Proof.
  induction n as [f| |es IH] using node_ind'; intros Hwf top root dirs files Hin;
    [destruct Hin|destruct Hin|].
  pose proof (wf_names_dir es Hwf) as Hes.
  cbn [walk] in Hin. destruct Hin as [E|Hin].
  - injection E as <- _ <-. exists []. split; [reflexivity|]. split; [constructor|].
    clear IH Hwf. induction Hes as [|[k c] es [Hk _] _ IHes]; [constructor|].
    cbn [filter snd]. destruct c; cbn [map fst]; try constructor; assumption.
  - clear Hwf. revert IH Hes Hin.
    induction es as [|[k c] es IHes]; intros IH Hes Hin; [destruct Hin|].
    inversion IH as [|? ? IHc IH']; subst. inversion Hes as [|? ? [Hk Hc] Hes']; subst.
    cbn [fst snd] in *.
    destruct c as [f| |es'].
    + apply (IHes IH' Hes' Hin).
    + apply (IHes IH' Hes' Hin).
    + apply in_app_or in Hin. destruct Hin as [Hin|Hin]; [|apply (IHes IH' Hes' Hin)].
      destruct (IHc Hc _ _ _ _ Hin) as (names & E & Hv & Hf).
      exists (k :: names). split; [exact E|]. split; [constructor; assumption|exact Hf].
Qed.

Lemma namei_app (root : node) (l1 l2 : list string) :
  forall cur,
  namei root cur (l1 ++ l2)
  = match namei root cur l1 with
    | inl c => namei root c l2
    | inr e => inr e
    end.
Proof.
  induction l1 as [|c l1 IH]; intros cur; [reflexivity|].
  cbn [app namei]. destruct (lookup root cur) as [[f| |es]|]; try reflexivity.
  destruct (_ || _); [apply IH|]. destruct (_ =? _)%string; apply IH.
Qed.

(** The path [join r x] of a name [x] resolves to components that end
    with [x]. *)
Lemma resolve_join_last (w : world) (r x : string) (q : list string) :
  r <> "" -> valid_name x = true ->
  resolve w (posixpath.join r x) = inl q ->
  exists c, q = c ++ [x].
Proof.
  intros Hr Hx. destruct (valid_name_inv x Hx) as (H1 & _ & H2 & H3).
  unfold resolve.
  destruct (String.eqb_spec (posixpath.join r x) "") as [E|_]; [discriminate|].
  set (base := if startswith_sep _ then _ else _).
  assert (Hlast : forall l, namei (w_root w) base (l ++ [x]) = inl q ->
                    exists c, q = c ++ [x]).
  { intros l. rewrite namei_app. destruct (namei (w_root w) base l) as [c|e]; [|discriminate].
    cbn [namei]. destruct (lookup (w_root w) c) as [[f| |es]|]; try discriminate.
    destruct (String.eqb_spec x ""); [contradiction|].
    destruct (String.eqb_spec x "."); [contradiction|].
    destruct (String.eqb_spec x ".."); [contradiction|].
    cbn [orb]. intros [= <-]. exists c. reflexivity. }
  destruct (split_join_name r x Hr Hx) as [[_ E]|(l & _ & E)]; rewrite E; apply Hlast.
Qed.

(** A bare file name resolves in the working directory. *)
Lemma resolve_name (w : world) (x : string) (q : list string) :
  valid_name x = true ->
  resolve w x = inl q -> q = w_cwd w ++ [x].
Proof.
  intros Hx. destruct (valid_name_inv x Hx) as (H1 & Hs & H2 & H3).
  unfold resolve. destruct (String.eqb_spec x ""); [contradiction|].
  rewrite (startswith_nosep x Hs), (split_nosep x Hs). cbn [namei].
  destruct (lookup (w_root w) (w_cwd w)) as [[f| |es]|]; try discriminate.
  destruct (String.eqb_spec x ""); [contradiction|].
  destruct (String.eqb_spec x "."); [contradiction|].
  destruct (String.eqb_spec x ".."); [contradiction|].
  cbn [orb]. intros [= <-]. reflexivity.
Qed.

Lemma find_set_entry (es : list (string * node)) (c c' : string) (x : node) :
  find_entry (set_entry es c x) c'
  = if (c =? c')%string then Some x else find_entry es c'.
Proof.
  induction es as [|[k n] es IH]; cbn [set_entry find_entry].
  - destruct (String.eqb_spec c c'); reflexivity.
  - destruct (String.eqb_spec k c) as [->|Hk]; cbn [find_entry].
    + destruct (String.eqb_spec c c'); reflexivity.
    + rewrite IH. destruct (String.eqb_spec k c') as [->|Hk'].
      * destruct (String.eqb_spec c c'); [congruence|reflexivity].
      * reflexivity.
Qed.

(** Writing a file at [p] leaves the other files as they were. *)
Lemma lookup_update_other (new : node) (f : inode) :
  forall p root q,
  no_dir_at root p -> q <> p ->
  lookup root q = Some (File f) ->
  lookup (update root p new) q = Some (File f).
Proof.
  unfold no_dir_at.
  induction p as [|c p IH]; intros root q Hp Hq Hl.
  - cbn [lookup] in Hp. destruct q as [|c' q]; [contradiction|].
    destruct root; try contradiction; discriminate.
  - destruct root as [g| |es]; try exact Hl.
    cbn [update]. cbn [lookup] in Hp.
    destruct q as [|c' q]; [discriminate|]. cbn [lookup] in Hl.
    destruct (find_entry es c) as [child|] eqn:Ec.
    + cbn [lookup]. rewrite find_set_entry.
      destruct (String.eqb_spec c c') as [<-|Hc]; [|exact Hl].
      rewrite Ec in Hl. apply IH; [exact Hp| |exact Hl]. congruence.
    + destruct p; [|exact Hl]. cbn [lookup]. rewrite find_set_entry.
      destruct (String.eqb_spec c c') as [<-|Hc]; [|exact Hl].
      rewrite Ec in Hl. discriminate.
Qed.

(** It leaves the directories directories. *)
Lemma lookup_update_dir (new : node) :
  forall p root q es,
  no_dir_at root p ->
  lookup root q = Some (Dir es) ->
  exists es', lookup (update root p new) q = Some (Dir es').
Proof.
  unfold no_dir_at.
  induction p as [|c p IH]; intros root q es0 Hp Hl.
  - cbn [lookup] in Hp. destruct root as [g| |es]; try contradiction;
      destruct q; discriminate.
  - destruct root as [g| |es]; try (exists es0; exact Hl).
    cbn [update]. cbn [lookup] in Hp.
    destruct (find_entry es c) as [child|] eqn:Ec.
    + destruct q as [|c' q]; [eexists; reflexivity|].
      cbn [lookup] in *. rewrite find_set_entry.
      destruct (String.eqb_spec c c') as [<-|Hc]; [|exists es0; exact Hl].
      rewrite Ec in Hl. apply (IH _ _ _ Hp Hl).
    + destruct p; [|exists es0; exact Hl].
      destruct q as [|c' q]; [eexists; reflexivity|].
      cbn [lookup] in *. rewrite find_set_entry.
      destruct (String.eqb_spec c c') as [<-|Hc]; [|exists es0; exact Hl].
      rewrite Ec in Hl. discriminate.
Qed.

(** So the paths that resolved resolve as before. *)
Lemma namei_update (new : node) (root : node) (p : list string) :
  no_dir_at root p ->
  forall comps cur q,
  namei root cur comps = inl q ->
  namei (update root p new) cur comps = inl q.
Proof.
  intros Hp. induction comps as [|c comps IH]; intros cur q Hn; [exact Hn|].
  cbn [namei] in *.
  destruct (lookup root cur) as [[f| |es]|] eqn:El; try discriminate.
  destruct (lookup_update_dir new p root cur es Hp El) as [es' ->].
  destruct (_ || _); [apply IH; exact Hn|].
  destruct (_ =? _)%string; apply IH; exact Hn.
Qed.

(** And the file is where it was written. *)
Lemma lookup_update_same (new : node) (x : string) :
  forall c root es,
  lookup root c = Some (Dir es) ->
  lookup (update root (c ++ [x]) new) (c ++ [x]) = Some new.
Proof.
  induction c as [|a c IH]; intros root es Hl.
  - cbn [lookup] in Hl. injection Hl as ->. cbn [app update].
    destruct (find_entry es x); cbn [update lookup]; rewrite find_set_entry, String.eqb_refl;
      reflexivity.
  - destruct root as [g| |es0]; try discriminate. cbn [lookup] in Hl.
    destruct (find_entry es0 a) as [child|] eqn:Ea; [|discriminate].
    cbn [app update]. rewrite Ea. cbn [lookup].
    rewrite find_set_entry, String.eqb_refl. apply (IH _ _ Hl).
Qed.

Lemma writable_no_dir (w : world) (path : string) (p : list string) :
  writable w path = true -> resolve w path = inl p -> no_dir_at (w_root w) p.
Proof.
  unfold writable, no_dir_at. intros Hw Hr. rewrite Hr in Hw.
  destruct (lookup (w_root w) p) as [[f| |es]|]; try exact I. discriminate.
Qed.

(** A file that was there before a write at another place is there after
    it, under the same path. *)
Lemma stat_written (w : world) (p : list string) (data : list byte)
  (path : string) (q : list string) (f : inode) :
  no_dir_at (w_root w) p ->
  resolve w path = inl q -> q <> p ->
  stat w path = inl (File f) ->
  stat (written w p data) path = inl (File f).
Proof.
  intros Hp Hr Hq Hs. unfold stat in *. rewrite Hr in Hs.
  assert (Hr' : resolve (written w p data) path = inl q).
  { unfold resolve in *. cbn [written w_root w_cwd].
    destruct (path =? "")%string; [discriminate|].
    apply namei_update; assumption. }
  rewrite Hr'. cbn [written w_root].
  destruct (lookup (w_root w) q) as [[g| |es]|] eqn:El; try discriminate.
  injection Hs as ->.
  rewrite (lookup_update_other _ f p (w_root w) q Hp Hq El). reflexivity.
Qed.

(** A bare file name resolves in the working directory, which is then a
    directory. *)
Lemma resolve_name_cwd (w : world) (x : string) (q : list string) :
  valid_name x = true ->
  resolve w x = inl q ->
  q = w_cwd w ++ [x] /\ exists es, lookup (w_root w) (w_cwd w) = Some (Dir es).
Proof.
  intros Hx Hr. split; [apply (resolve_name w x q Hx Hr)|].
  destruct (valid_name_inv x Hx) as (H1 & Hs & _).
  unfold resolve in Hr. destruct (String.eqb_spec x ""); [contradiction|].
  rewrite (startswith_nosep x Hs), (split_nosep x Hs) in Hr. cbn [namei] in Hr.
  destruct (lookup (w_root w) (w_cwd w)) as [[f| |es]|]; try discriminate.
  exists es. reflexivity.
Qed.

(** The text written under a bare name can be read again when it is
    valid UTF-8; its ends of line are translated. *)
Lemma read_text_written (w : world) (x : string) (p : list string) (text : string) :
  valid_name x = true ->
  resolve w x = inl p -> writable w x = true ->
  read_text x (written w p (list_byte_of_string text))
  = Run (if valid_utf8 text then inl (universal_newlines text)
         else inr UnicodeDecodeError)
      (written w p (list_byte_of_string text)) [].
Proof.
  intros Hx Hr Hw.
  destruct (resolve_name_cwd w x p Hx Hr) as [-> [es Hcwd]].
  pose proof (writable_no_dir w x _ Hw Hr) as Hp.
  set (w' := written w (w_cwd w ++ [x]) (list_byte_of_string text)).
  assert (Hs : stat w' x = inl (File {| i_data := list_byte_of_string text;
                                        i_mtime := w_mtime w;
                                        i_perm := true; i_fault := None |})).
  { unfold stat.
    assert (Hr' : resolve w' x = inl (w_cwd w ++ [x])).
    { unfold resolve in *. subst w'. cbn [written w_root w_cwd].
      destruct (x =? "")%string; [discriminate|]. apply namei_update; assumption. }
    rewrite Hr'. subst w'. cbn [written w_root].
    rewrite (lookup_update_same _ x (w_cwd w) (w_root w) es Hcwd). reflexivity. }
  unfold read_text.
  rewrite (bind_ok_silent _ _ _ _ (open_rb_ok w' x _ Hs eq_refl)).
  unfold opened. cbn [i_data i_fault h_data].
  unfold file_read. cbn [h_fault h_pos h_data skipn].
  rewrite firstn_all. rewrite (bind_ok_silent _ _ w' _ eq_refl). cbn [fst].
  rewrite string_of_list_byte_of_string. destruct (valid_utf8 text); reflexivity.
Qed.

(* ===================================================================== *)
(** * Building and then verifying *)
(* ===================================================================== *)

Lemma wf_names_lookup :
  forall p root n,
  wf_names root = true -> lookup root p = Some n -> wf_names n = true.
Proof.
  induction p as [|c p IH]; intros root n Hwf Hl.
  - injection Hl as <-. exact Hwf.
  - destruct root as [f| |es]; try discriminate. cbn [lookup] in Hl.
    destruct (find_entry es c) as [child|] eqn:Ec; [|discriminate].
    apply (IH child n); [|exact Hl].
    pose proof (wf_names_dir es Hwf) as Hes. clear Hwf Hl.
    induction Hes as [|[k m] es [_ Hm] _ IHes]; [discriminate|].
    cbn [find_entry] in Ec. destruct (k =? c)%string; [|apply IHes; exact Ec].
    injection Ec as <-. exact Hm.
Qed.

Lemma stat_wf (w : world) (path : string) (n : node) :
  wf_names (w_root w) = true -> stat w path = inl n ->
  wf_names n = true /\ path <> "".
Proof.
  intros Hwf Hs. unfold stat in Hs. split.
  - destruct (resolve w path) as [q|e]; [|discriminate].
    destruct (lookup (w_root w) q) as [m|] eqn:El; [|discriminate].
    assert (m = n) by (destruct m; congruence). subst m.
    apply (wf_names_lookup q (w_root w) n Hwf El).
  - intros ->. discriminate.
Qed.

Section RoundTrip.

Context `{HL : Hashlib} `{JL : JsonLib}.

Lemma passes_file (w : world) (directory_path : string) (a : algo)
  (rel_path : string) (f : inode) (size : Z) (modified : string) :
  stat w (posixpath.join directory_path rel_path) = inl (File f) ->
  i_perm f = true ->
  result (update_from_file (N.to_nat 65536) (opened f) (hashlib_new a) w)
    = inl (hash_update (hashlib_new a) (i_data f)) ->
  passes w directory_path (algorithm_tag a)
    (rel_path, file_record (hex (digest a (i_data f))) size modified).
Proof.
  intros Hs Hp Hu vr. unfold verify_entry. cbn [os_path_join fst snd].
  rewrite (bind_ok_silent _ _ w (posixpath.join directory_path rel_path) eq_refl).
  assert (Hex : os_path_exists (posixpath.join directory_path rel_path) w
                = Run (inl true) w []).
  { unfold os_path_exists, ask. rewrite Hs. reflexivity. }
  rewrite (bind_ok_silent _ _ _ _ Hex). apply try_ok.
  rewrite (bind_ok_silent _ _ _ _ (calculate_hash_file w _ f a _ Hs Hp Hu)).
  unfold hexdigest, hash_update, hashlib_new. cbn [hs_algo hs_data app].
  assert (Hg : lift (py_getitem (file_record (hex (digest a (i_data f))) size modified)
                       "hash") w
               = Run (inl (JStr (hex (digest a (i_data f))))) w []) by reflexivity.
  rewrite (bind_ok_silent _ _ _ _ Hg). cbn [py_str_eq]. rewrite String.eqb_refl.
  reflexivity.
Qed.

Lemma passes_dict_set (w : world) (directory_path algorithm : string) (d : dict)
  (k : string) (v : json) :
  Forall (passes w directory_path algorithm) d ->
  passes w directory_path algorithm (k, v) ->
  Forall (passes w directory_path algorithm) (dict_set d k v).
Proof.
  intros Hd Hkv. induction Hd as [|[k' v'] d Hk' Hd' IH]; cbn [dict_set].
  - repeat constructor. exact Hkv.
  - destruct (k' =? k)%string; constructor; assumption.
Qed.

Lemma passes_dict_of_pairs (w : world) (directory_path algorithm : string) (l : dict) :
  Forall (passes w directory_path algorithm) l ->
  Forall (passes w directory_path algorithm) (dict_of_pairs l).
Proof.
  unfold dict_of_pairs. intros Hl.
  assert (Hgen : forall acc, Forall (passes w directory_path algorithm) acc ->
            Forall (passes w directory_path algorithm)
              (fold_left (fun d kv => dict_set d (fst kv) (snd kv)) l acc)).
  { induction Hl as [|[k v] l Hkv _ IH]; intros acc Hacc; [exact Hacc|].
    cbn [fold_left fst snd]. apply IH. apply passes_dict_set; assumption. }
  apply Hgen. constructor.
Qed.

(** The loop over entries that all pass. *)
Lemma verify_loop_passes (w : world) (directory_path algorithm : string) :
  forall items vr,
  Forall (passes w directory_path algorithm) items ->
  for_each items (verify_entry (JStr directory_path) (JStr algorithm)) vr w
  = Run (inl {| passed := passed vr + List.length items; failed := failed vr;
                missing := missing vr; total := total vr |})
      w (map (fun e => MsgConfirmed (fst e)) items).
Proof.
  induction items as [|entry items IH]; intros vr Hall.
  - cbn [for_each List.length map]. rewrite Nat.add_0_r. destruct vr; reflexivity.
  - inversion Hall as [|? ? He Hall']; subst. cbn [for_each].
    rewrite (bind_ok _ _ _ _ _ _ (He vr)), (IH _ Hall').
    cbn [result final output incr_passed passed failed missing total List.length map app].
    rewrite Nat.add_succ_r. reflexivity.
Qed.

Lemma in_dict_set (d : dict) (k : string) (v : json) (e : string * json) :
  In e (dict_set d k v) -> e = (k, v) \/ In e d.
Proof.
  induction d as [|[k' v'] d IH]; cbn [dict_set].
  - intros [<-|[]]. left. reflexivity.
  - destruct (k' =? k)%string.
    + intros [<-|H]; [left; reflexivity|right; right; exact H].
    + intros [<-|H]; [right; left; reflexivity|].
      destruct (IH H) as [->|H']; [left; reflexivity|right; right; exact H'].
Qed.

(** Every entry the scan adds is recorded. *)
Lemma scan_records (w : world) (directory_path output_file algorithm : string) :
  directory_path <> "" ->
  forall triples,
  (forall root dirs files, In (root, dirs, files) triples ->
     exists names, root = fold_left posixpath.join names directory_path
                   /\ Forall (fun x => valid_name x = true) names
                   /\ Forall (fun x => valid_name x = true) files) ->
  forall st st' o,
  scan directory_path output_file algorithm triples st w = Run (inl st') w o ->
  forall e, In e (fst st') ->
  In e (fst st) \/ recorded w directory_path output_file algorithm e.
Proof.
  intros Hd.
  assert (Hcwd : startswith_sep (getcwd w) = true) by reflexivity.
  assert (Hone : forall names file_name st st' o,
            Forall (fun x => valid_name x = true) names ->
            valid_name file_name = true ->
            process_file directory_path output_file algorithm
              (fold_left posixpath.join names directory_path) file_name st w
            = Run (inl st') w o ->
            forall e, In e (fst st') ->
            In e (fst st) \/ recorded w directory_path output_file algorithm e).
  { intros names file_name st st' o Hnames Hname E e He.
    set (root := fold_left posixpath.join names directory_path) in *.
    destruct (process_file_run directory_path output_file algorithm root file_name st w)
      as [(_ & E')|[(_ & e' & o' & _ & E')|[(Hne & f & a & rel & Hs & Ha & Eh & Erel & E')
                                           |(_ & _ & E')]]];
      rewrite E' in E; injection E as <- <-; try (left; exact He).
    cbn [fst] in He. apply in_dict_set in He. destruct He as [->|He]; [|left; exact He].
    right.
    destruct (abs_comps_extend (getcwd w) names Hcwd Hnames directory_path Hd) as [_ Hroot].
    fold root in Hroot.
    assert (Hall : Forall (fun x => valid_name x = true) (names ++ [file_name])).
    { apply Forall_app. split; [exact Hnames|repeat constructor; exact Hname]. }
    destruct (relpath_below (getcwd w) directory_path (names ++ [file_name]) Hcwd Hd
                ltac:(destruct names; discriminate) Hall) as [Erel' Ejoin].
    rewrite fold_left_app in Erel', Ejoin. cbn [fold_left] in Erel', Ejoin.
    fold root in Erel', Ejoin. rewrite Erel' in Erel. injection Erel as <-.
    destruct (calculate_hash_returns _ _ _ _ ltac:(rewrite Eh; reflexivity))
      as (f' & a' & Hs' & Hperm & Ha' & Hh & _ & Hu).
    assert (f' = f) by congruence. subst f'.
    injection Ha' as Ha'. rewrite Ha in Ha'.
    assert (a' = a) by (destruct a, a'; simpl in Ha'; congruence). subst a'.
    exists names, file_name, f, a. cbn [fst snd]. fold root.
    rewrite Hu. repeat split; assumption. }
  assert (Hin : forall names files st st' o,
            Forall (fun x => valid_name x = true) names ->
            Forall (fun x => valid_name x = true) files ->
            for_each files
              (process_file directory_path output_file algorithm
                 (fold_left posixpath.join names directory_path)) st w
            = Run (inl st') w o ->
            forall e, In e (fst st') ->
            In e (fst st) \/ recorded w directory_path output_file algorithm e).
  { intros names. induction files as [|x files IH]; intros st st' o Hnames Hfiles E e He.
    - injection E as <- _. left. exact He.
    - inversion Hfiles as [|? ? Hx Hfiles']; subst. cbn [for_each] in E.
      destruct (process_file_total directory_path output_file algorithm
                  (fold_left posixpath.join names directory_path) x st w)
        as (st1 & o1 & E1).
      rewrite (bind_ok _ _ _ _ _ _ E1) in E.
      destruct (scan_files_total directory_path output_file algorithm
                  (fold_left posixpath.join names directory_path) files st1 w)
        as (st2 & o2 & E2).
      rewrite E2 in E. cbn [result final output] in E. injection E as <- _.
      destruct (IH st1 st2 o2 Hnames Hfiles' E2 e He) as [H1|H1]; [|right; exact H1].
      apply (Hone names x st st1 o1 Hnames Hx E1 e H1). }
  unfold scan. induction triples as [|[[root dirs] files] triples IH];
    intros Htr st st' o E e He.
  - injection E as <- _. left. exact He.
  - cbn [for_each fst snd] in E.
    destruct (Htr root dirs files (or_introl eq_refl)) as (names & -> & Hnames & Hfiles).
    destruct (scan_files_total directory_path output_file algorithm
                (fold_left posixpath.join names directory_path) files st w)
      as (st1 & o1 & E1).
    rewrite (bind_ok _ _ _ _ _ _ E1) in E.
    destruct (scan_total directory_path output_file algorithm triples st1 w)
      as (st2 & o2 & E2).
    unfold scan in E2. rewrite E2 in E. cbn [result final output] in E.
    injection E as <- _.
    destruct (IH (fun r d f H => Htr r d f (or_intror H)) st1 st2 o2 E2 e He) as [H1|H1];
      [|right; exact H1].
    apply (Hin names files st st1 o1 Hnames Hfiles E1 e H1).
Qed.

(** A recorded file does not lie where a bare [output_file] is written. *)
Lemma recorded_elsewhere (w : world) (directory_path output_file algorithm : string)
  (p : list string) (entry : string * json) :
  valid_name output_file = true -> resolve w output_file = inl p ->
  recorded w directory_path output_file algorithm entry ->
  exists q f, resolve w (posixpath.join directory_path (fst entry)) = inl q
              /\ lookup (w_root w) q = Some (File f)
              /\ q <> p.
Proof.
  intros Hout Hr (names & file_name & f & a & Hnames & Hname & Hne & Hroot & Hs & _ & _
                  & _ & _ & Ejoin & _).
  rewrite Ejoin. unfold stat in Hs.
  destruct (resolve w (posixpath.join _ file_name)) as [q|e] eqn:Eq; [|discriminate].
  exists q, f. split; [reflexivity|].
  destruct (lookup (w_root w) q) as [[g| |es]|]; try discriminate.
  split; [congruence|].
  destruct (resolve_join_last w _ file_name q Hroot Hname Eq) as [c ->].
  rewrite (resolve_name w output_file p Hout Hr).
  intros Heq. apply app_inj_tail in Heq. destruct Heq as [_ Heq]. contradiction.
Qed.

(** A recorded file passes verification once the manifest has been
    written under a bare name. *)
Lemma recorded_passes (w : world) (directory_path output_file algorithm : string)
  (p : list string) (data : list byte) (entry : string * json) :
  valid_name output_file = true ->
  resolve w output_file = inl p -> writable w output_file = true ->
  recorded w directory_path output_file algorithm entry ->
  passes (written w p data) directory_path algorithm entry.
Proof.
  intros Hout Hr Hw Hrec.
  pose proof (writable_no_dir w output_file p Hw Hr) as Hfree.
  destruct (recorded_elsewhere w directory_path output_file algorithm p entry Hout Hr Hrec)
    as (q & g & Eq & _ & Hq).
  destruct Hrec as (names & file_name & f & a & Hnames & Hname & Hne & Hroot & Hs & Hperm
                    & Hu & Ha & Ek & Ejoin & Ev).
  destruct entry as [k v]. cbn [fst snd] in *. subst v. rewrite Ha.
  apply passes_file.
  - apply (stat_written w p data _ q f Hfree Eq Hq). rewrite Ejoin. exact Hs.
  - exact Hperm.
  - rewrite (update_from_file_world _ _ _ _ w). exact Hu.
Qed.

(** What the scan of an existing directory of a well-formed tree adds to
    the manifest is recorded. *)
Lemma scan_of_directory (w : world) (directory_path output_file algorithm : string)
  (n : node) (st : dict * nat) (o : list message) :
  wf_names (w_root w) = true ->
  stat w directory_path = inl n ->
  scan directory_path output_file algorithm (walk directory_path n) ([], 0) w
  = Run (inl st) w o ->
  Forall (recorded w directory_path output_file algorithm) (fst st).
Proof.
  intros Hwf Hs Esc. destruct (stat_wf w directory_path n Hwf Hs) as [Hn Hd].
  apply Forall_forall. intros e He.
  destruct (scan_records w directory_path output_file algorithm Hd
              (walk directory_path n)
              (fun r d f H => walk_roots n Hn directory_path r d f H)
              _ _ _ Esc e He) as [[]|H].
  exact H.
Qed.

(** The round trip, for an output file given by a bare name: when the
    names of the tree are well formed, the build succeeds and [json] reads
    back the manifest from the text written, the verification that follows at
    once, against the directory of the manifest or the same one given
    again, confirms every entry and returns [True]: no entry failed, none
    is missing, and [passed] is [total]. *)
Theorem round_trip_bare_name (w : world) (directory_path output_file algorithm : string)
  (target : option string) :
  wf_names (w_root w) = true ->
  valid_name output_file = true ->
  target = None \/ target = Some directory_path ->
  let built := create_checksum_file directory_path output_file algorithm w in
  result built = inl true ->
  (forall n files file_count o,
     stat w directory_path = inl n ->
     scan directory_path output_file algorithm (walk directory_path n) ([], 0) w
     = Run (inl (files, file_count)) w o ->
     json_loads
       (universal_newlines
          (json_dumps (checksums_of (w_now w) algorithm directory_path files)))
     = Some (checksums_of (w_now w) algorithm directory_path files)) ->
  exists items : dict,
    verify_integrity output_file target (final built)
    = Run (inl true) (final built)
        (heading (JStr directory_path) (JStr algorithm)
         ++ map (fun e => MsgConfirmed (fst e)) items
         ++ summary_lines {| passed := List.length items; failed := 0; missing := 0;
                             total := List.length items |}).
Proof.
  intros Hwf Hout Htarget built Hres Hjson. subst built.
  pose proof (create_checksum_file_run directory_path output_file algorithm w) as Hrun.
  destruct (stat w directory_path) as [n|e] eqn:Hs.
  2:{ rewrite Hrun in Hres. discriminate. }
  destruct Hrun as ([files file_count] & o & Esc & Hrun). cbv zeta in Hrun.
  cbn [fst snd] in Hrun.
  destruct Hrun as [(p & Hr & Hw & Henc & E)|[(p & _ & _ & _ & E)|(e & _ & E)]];
    [|rewrite E in Hres; discriminate|rewrite E in Hres; discriminate].
  rewrite E. cbn [final].
  set (manifest := checksums_of (w_now w) algorithm directory_path files) in *.
  set (w' := written w p (list_byte_of_string (json_dumps manifest))).
  pose proof (scan_of_directory w directory_path output_file algorithm n _ _ Hwf Hs Esc)
    as Hrec. cbn [fst] in Hrec.
  assert (Hpass : Forall (passes w' directory_path algorithm) (dict_of_pairs files)).
  { apply passes_dict_of_pairs. eapply Forall_impl; [|exact Hrec].
    intros entry. apply recorded_passes; assumption. }
  exists (dict_of_pairs files).
  rewrite verify_integrity_run.
  assert (Hread : read_text output_file w'
                  = Run (inl (universal_newlines (json_dumps manifest))) w' []).
  { unfold w'. rewrite (read_text_written w output_file p _ Hout Hr Hw).
    unfold json_dumps. rewrite (valid_utf8_concat_chunks _ Henc). reflexivity. }
  rewrite Hread. cbn [result].
  pose proof (Hjson n files file_count o eq_refl Esc) as Hload. fold manifest in Hload.
  rewrite Hload.
  assert (Hh : manifest_header manifest target = inl (JStr directory_path, JStr algorithm)).
  { destruct Htarget as [->| ->]; reflexivity. }
  rewrite Hh.
  assert (He : manifest_entries manifest = inl (dict_of_pairs files)) by reflexivity.
  rewrite He. cbv zeta.
  rewrite (verify_loop_passes w' directory_path algorithm _ _ Hpass).
  cbn [result output start passed failed missing total Nat.add].
  rewrite summary_run. reflexivity.
Qed.

(** Self-exclusion, for an output file given by a bare name: no entry of
    the manifest is the file the manifest is written to, whether that file
    was already there or not. Every entry is a file that the directory
    holds under a name other than [output_file]. *)
Theorem bare_name_not_listed (w : world) (directory_path output_file algorithm : string)
  (n : node) (files : dict) (file_count : nat) (o : list message) (p : list string) :
  wf_names (w_root w) = true ->
  valid_name output_file = true ->
  stat w directory_path = inl n ->
  scan directory_path output_file algorithm (walk directory_path n) ([], 0) w
  = Run (inl (files, file_count)) w o ->
  resolve w output_file = inl p ->
  forall rel_path, In rel_path (dict_keys files) ->
  exists q f, resolve w (posixpath.join directory_path rel_path) = inl q
              /\ lookup (w_root w) q = Some (File f)
              /\ q <> p.
Proof.
  intros Hwf Hout Hs Esc Hr rel_path Hin.
  pose proof (scan_of_directory w directory_path output_file algorithm n _ _ Hwf Hs Esc)
    as Hrec. cbn [fst] in Hrec. rewrite Forall_forall in Hrec.
  unfold dict_keys in Hin. apply in_map_iff in Hin. destruct Hin as ([k v] & <- & Hin).
  apply (recorded_elsewhere w directory_path output_file algorithm p (k, v) Hout Hr
           (Hrec _ Hin)).
Qed.

End RoundTrip.

(* ===================================================================== *)
(** * The manifest written *)
(* ===================================================================== *)

Lemma concat_chunks_app (a b : list string) :
  concat_chunks (a ++ b) = concat_chunks a +++ concat_chunks b.
Proof.
  induction a as [|c a IH]; [reflexivity|]. cbn [app concat_chunks].
  rewrite IH. symmetry. apply append_assoc.
Qed.

(** When a chunk cannot be encoded, what is written is the text up to
    that chunk, and some text is left out. *)
Lemma encodable_prefix_text (chunks : list string) :
  encodable chunks = false ->
  exists left_out,
    concat_chunks chunks = concat_chunks (encodable_prefix chunks) +++ left_out
    /\ left_out <> ""
    /\ valid_utf8 (concat_chunks (encodable_prefix chunks)) = true.
Proof.
  intros He. destruct (encodable_prefix_split chunks) as (rest & E & Hrest).
  destruct (Hrest He) as (c & rest' & -> & Hc).
  exists (concat_chunks (c :: rest')). split; [|split].
  - rewrite E at 1. apply concat_chunks_app.
  - cbn [concat_chunks]. destruct c; [discriminate|discriminate].
  - apply valid_utf8_concat_chunks. clear.
    induction chunks as [|c chunks IH]; [reflexivity|]. cbn [encodable_prefix].
    destruct (valid_utf8 c) eqn:Ec; [|reflexivity].
    cbn [encodable forallb]. rewrite Ec. exact IH.
Qed.

Section Manifest.

Context `{HL : Hashlib}.

#[local] Existing Instance py_json.

(** C6, as the program has it: when the directory exists, the manifest
    assembled by the scan, metadata and files mapping, is written as JSON
    to the output file, the number of files processed is printed, not
    returned, and the value returned is [True]. The number printed counts
    the files announced as processed, whose relative paths are the keys of
    the mapping, and, in a tree with well-formed names, every entry is the
    record of a file of the directory. When the output file cannot be
    opened, nothing is written and the value is [False]; when a string of
    the manifest cannot be encoded, the output file is left with the text
    that comes before it and the value is [False]. *)
Theorem manifest_written_not_returned (directory_path output_file algorithm : string)
  (w : world) (n : node) :
  stat w directory_path = inl n ->
  exists files file_count o,
    scan directory_path output_file algorithm (walk directory_path n) ([], 0) w
    = Run (inl (files, file_count)) w o
    /\ file_count = List.length (processed_paths o)
    /\ (forall x, In x (dict_keys files) <-> In x (processed_paths o))
    /\ (wf_names (w_root w) = true ->
        Forall (recorded w directory_path output_file algorithm) files)
    /\ let r := create_checksum_file directory_path output_file algorithm w in
       let manifest := checksums_of (w_now w) algorithm directory_path files in
       (writable w output_file = true -> json_valid manifest = true ->
        exists p, resolve w output_file = inl p
                  /\ r = Run (inl true)
                         (written w p (list_byte_of_string (json_dumps manifest)))
                         ([MsgScanning directory_path; MsgRule] ++ o
                          ++ [MsgRule; MsgDone file_count; MsgSavedTo output_file]))
       /\ (writable w output_file = true -> json_valid manifest = false ->
           exists p written_text left_out,
             resolve w output_file = inl p
             /\ r = Run (inl false)
                    (written w p (list_byte_of_string written_text))
                    ([MsgScanning directory_path; MsgRule] ++ o
                     ++ [MsgUnexpected UnicodeEncodeError])
             /\ written_text = concat_chunks (encodable_prefix (json_iterencode manifest))
             /\ json_dumps manifest = written_text +++ left_out
             /\ left_out <> ""
             /\ valid_utf8 written_text = true)
       /\ (writable w output_file = false ->
           exists e, r = Run (inl false) w
                           ([MsgScanning directory_path; MsgRule] ++ o
                            ++ [MsgUnexpected e])).
Proof.
  intros Hs.
  destruct (create_checksum_file_writes directory_path output_file algorithm w n Hs)
    as (files & file_count & o & Esc & Hc & Hk & Hok & Hbad & Hclosed).
  exists files, file_count, o. split; [exact Esc|]. split; [exact Hc|].
  split; [exact Hk|]. split.
  { intros Hwf.
    apply (scan_of_directory w directory_path output_file algorithm n _ _ Hwf Hs Esc). }
  cbv zeta in *. split; [|split].
  - intros Hw Hv. apply (Hok Hw).
    change (json_iterencode (checksums_of (w_now w) algorithm directory_path files))
      with (pyjson.iterencode 0 (checksums_of (w_now w) algorithm directory_path files)).
    rewrite encodable_iterencode. exact Hv.
  - intros Hw Hv.
    assert (He : encodable (json_iterencode
                              (checksums_of (w_now w) algorithm directory_path files))
                 = false).
    { change (json_iterencode (checksums_of (w_now w) algorithm directory_path files))
        with (pyjson.iterencode 0 (checksums_of (w_now w) algorithm directory_path files)).
      rewrite encodable_iterencode. exact Hv. }
    destruct (Hbad Hw He) as (p & Hr & E).
    destruct (encodable_prefix_text _ He) as (left_out & Et & Hne & Hvt).
    exists p, (concat_chunks
                 (encodable_prefix
                    (json_iterencode
                       (checksums_of (w_now w) algorithm directory_path files)))),
      left_out.
    repeat split; assumption.
  - exact Hclosed.
Qed.

(** C10, as the program has it: when the directory exists and holds
    nothing that can be recorded, the call returns [True] provided the
    output file can be opened and the time stamp, the algorithm and the
    path of the directory can be encoded: it reports zero files and writes
    the manifest with all its metadata and an empty files mapping. When
    the output file cannot be opened, the call returns [False] and writes
    nothing; when one of the three strings cannot be encoded, it returns
    [False] and leaves the output file with the text that comes before
    that string. *)
Theorem empty_directory_succeeds (directory_path output_file algorithm : string)
  (w : world) (n : node) :
  stat w directory_path = inl n ->
  nothing_hashable directory_path output_file algorithm w n ->
  let r := create_checksum_file directory_path output_file algorithm w in
  let manifest := JObj [("metadata", JObj [("created_at", JStr (w_now w));
                                           ("algorithm", JStr algorithm);
                                           ("directory", JStr directory_path)]);
                        ("files", JObj [])] in
  let encoded := valid_utf8 (w_now w) && valid_utf8 algorithm
                 && valid_utf8 directory_path in
  exists o,
    processed_paths o = []
    /\ (writable w output_file = true -> encoded = true ->
        exists p,
          resolve w output_file = inl p
          /\ r = Run (inl true)
                 (written w p (list_byte_of_string (json_dumps manifest)))
                 ([MsgScanning directory_path; MsgRule] ++ o
                  ++ [MsgRule; MsgDone 0; MsgSavedTo output_file]))
    /\ (writable w output_file = true -> encoded = false ->
        exists p,
          resolve w output_file = inl p
          /\ r = Run (inl false)
                 (written w p
                    (list_byte_of_string
                       (concat_chunks (encodable_prefix (json_iterencode manifest)))))
                 ([MsgScanning directory_path; MsgRule] ++ o
                  ++ [MsgUnexpected UnicodeEncodeError]))
    /\ (writable w output_file = false ->
        exists e, r = Run (inl false) w
                        ([MsgScanning directory_path; MsgRule] ++ o
                         ++ [MsgUnexpected e])).
Proof.
  intros Hs Hnone r manifest encoded.
  destruct (scan_nothing directory_path output_file algorithm w
              (walk directory_path n) ([], 0) Hnone) as [o Esc].
  destruct (create_checksum_file_writes directory_path output_file algorithm w n Hs)
    as (files & file_count & o' & Esc' & Hc & _ & Hok & Hbad & Hclosed).
  rewrite Esc in Esc'. injection Esc' as <- <- <-.
  cbv zeta in Hok, Hbad, Hclosed. fold r in Hok, Hbad, Hclosed.
  change (checksums_of (w_now w) algorithm directory_path []) with manifest
    in Hok, Hbad.
  assert (He : encodable (json_iterencode manifest) = encoded).
  { change (json_iterencode manifest) with (pyjson.iterencode 0 manifest).
    rewrite encodable_iterencode. subst manifest encoded.
    cbn [json_valid forallb fst snd].
    destruct (valid_utf8 (w_now w)), (valid_utf8 algorithm), (valid_utf8 directory_path);
      reflexivity. }
  exists o. split; [destruct (processed_paths o); [reflexivity|discriminate]|].
  split; [|split].
  - intros Hw Henc. apply (Hok Hw). rewrite He. exact Henc.
  - intros Hw Henc. apply (Hbad Hw). rewrite He. exact Henc.
  - exact Hclosed.
Qed.

End Manifest.

(* ===================================================================== *)
(** * The outcomes of the three functions *)
(* ===================================================================== *)

Lemma namei_error (root : node) :
  forall comps cur e,
  namei root cur comps = inr e -> e = NotADirectoryError \/ e = FileNotFoundError.
Proof.
  induction comps as [|c rest IH]; intros cur e E; [discriminate|].
  cbn [namei] in E. destruct (lookup root cur) as [[f| |es]|].
  - injection E as <-. left. reflexivity.
  - injection E as <-. right. reflexivity.
  - destruct (_ || _); [apply (IH _ _ E)|].
    destruct (_ =? _)%string; apply (IH _ _ E).
  - injection E as <-. right. reflexivity.
Qed.

Lemma stat_error (w : world) (path : string) (e : exn) :
  stat w path = inr e -> e = NotADirectoryError \/ e = FileNotFoundError.
Proof.
  unfold stat, resolve. destruct (path =? "")%string.
  { intros E. injection E as <-. right. reflexivity. }
  destruct (namei _ _ _) as [p|e'] eqn:En.
  - destruct (lookup (w_root w) p) as [[f| |es]|]; intros E; try discriminate;
      injection E as <-; right; reflexivity.
  - intros E. injection E as <-. apply (namei_error _ _ _ _ En).
Qed.

Lemma stat_not_broken (w : world) (path : string) : stat w path <> inl Broken.
Proof.
  unfold stat. destruct (resolve w path) as [p|e]; [|discriminate].
  destruct (lookup (w_root w) p) as [[f| |es]|]; discriminate.
Qed.

Lemma bind_ret {A B} (a : A) (k : A -> M B) (w : world) : bind (ret a) k w = k a w.
Proof. apply bind_ok_silent. reflexivity. Qed.

Section HashFailure.

Context `{HL : Hashlib}.

(** Once the position is at or before an unreadable byte, the loop ends
    with the error of the read that reaches it. *)
Lemma read_blocks_fault (block_size : nat) (Hpos : 0 < block_size) (k : nat) :
  forall fuel file hash_obj chunk w,
  h_fault file = Some k ->
  h_pos file <= k < List.length (h_data file) ->
  chunk <> [] ->
  List.length (h_data file) - h_pos file < fuel ->
  read_blocks fuel block_size file hash_obj chunk w = Run (inr OSError) w [].
Proof.
  induction fuel as [|fuel IH]; intros file hash_obj chunk w Hf Hk Hc Hfuel; [lia|].
  destruct chunk as [|c cs]; [contradiction|]. cbn [read_blocks].
  remember (firstn block_size (skipn (h_pos file) (h_data file))) as next eqn:Hnext.
  assert (Hlen : List.length next = Nat.min block_size (List.length (h_data file) - h_pos file)).
  { rewrite Hnext, length_firstn, length_skipn. reflexivity. }
  unfold file_read at 1. rewrite Hf, <- Hnext.
  destruct ((h_pos file <=? k)%nat && (k <? h_pos file + List.length next)%nat) eqn:Et.
  - apply bind_raise. reflexivity.
  - rewrite bind_ret. cbn [fst snd].
    apply andb_false_iff in Et. destruct Et as [Et|Et].
    { apply Nat.leb_gt in Et. lia. }
    apply Nat.ltb_ge in Et.
    apply IH; cbn [h_fault h_pos h_data]; try assumption; try reflexivity; try lia.
    destruct next; [simpl in Hlen; lia|discriminate].
Qed.

Lemma update_from_file_fault (block_size : nat) (f : inode) (hash_obj : hash_state)
  (w : world) :
  0 < block_size -> readable f = false -> i_perm f = true ->
  update_from_file block_size (opened f) hash_obj w = Run (inr OSError) w [].
Proof.
  intros Hpos Hr Hp. unfold readable in Hr. rewrite Hp in Hr. cbn [andb] in Hr.
  destruct (i_fault f) as [k|] eqn:Ef; [|discriminate].
  apply Nat.leb_gt in Hr.
  unfold update_from_file. unfold file_read at 1.
  cbn [opened h_fault h_pos h_data skipn Nat.add]. rewrite Ef.
  remember (firstn block_size (i_data f)) as next eqn:Hnext.
  assert (Hlen : List.length next = Nat.min block_size (List.length (i_data f))).
  { rewrite Hnext, length_firstn. reflexivity. }
  destruct ((0 <=? k)%nat && (k <? List.length next)%nat) eqn:Et.
  - apply bind_raise. reflexivity.
  - rewrite bind_ret. cbn [fst snd].
    apply andb_false_iff in Et. destruct Et as [Et|Et]; [discriminate|].
    apply Nat.ltb_ge in Et.
    apply (read_blocks_fault block_size Hpos k); cbn [h_fault h_pos h_data]; try lia.
    + reflexivity.
    + destruct next; [simpl in Hlen; lia|discriminate].
Qed.

(** All the runs of [calculate_hash] with one of the three algorithms. *)
Lemma calculate_hash_supported (file_path : string) (a : algo) (w : world) :
  calculate_hash file_path (JStr (algorithm_tag a)) w =
  match stat w file_path with
  | inr e => Run (inr e) w [hash_failure_report file_path e]
  | inl (File f) =>
      if i_perm f then
        if readable f then Run (inl (hex (digest a (i_data f)))) w []
        else Run (inr OSError) w [MsgHashReadError file_path OSError]
      else Run (inr PermissionError) w [MsgHashReadError file_path PermissionError]
  | inl _ => Run (inr IsADirectoryError) w [MsgHashReadError file_path IsADirectoryError]
  end.
Proof.
  assert (Hbs : 0 < N.to_nat 65536) by lia.
  unfold calculate_hash.
  assert (Hnew : (match JStr (algorithm_tag a) with
                  | JStr a0 =>
                      if (a0 =? "md5")%string then ret (hashlib_new MD5)
                      else if (a0 =? "sha1")%string then ret (hashlib_new SHA1)
                      else if (a0 =? "sha256")%string then ret (hashlib_new SHA256)
                      else raise ValueError
                  | _ => raise ValueError
                  end) w = Run (inl (hashlib_new a)) w []).
  { destruct a; reflexivity. }
  rewrite (bind_ok_silent _ _ _ _ Hnew).
  match goal with |- try_except ?c ?h w = _ => set (body := c); set (hs := h) end.
  assert (Hraise : forall e, body w = Run (inr e) w [] -> isinstance e C_IOError = true ->
            try_except body hs w = Run (inr e) w [hash_failure_report file_path e]).
  { intros e Hb He. unfold hash_failure_report.
    destruct (isinstance e C_FileNotFoundError) eqn:Ef.
    - rewrite (try_caught body hs w e w [] (print (MsgHashNotFound file_path) ;;; raise e) Hb).
      + reflexivity.
      + subst hs. cbv beta. rewrite Ef. reflexivity.
    - rewrite (try_caught body hs w e w []
                 (print (MsgHashReadError file_path e) ;;; raise e) Hb).
      + reflexivity.
      + subst hs. cbv beta. rewrite Ef, He. reflexivity. }
  assert (Hopen : forall e, open_rb file_path w = Run (inr e) w [] ->
            body w = Run (inr e) w []).
  { intros e E. subst body. apply bind_raise. exact E. }
  destruct (stat w file_path) as [[f| |es]|e] eqn:Es.
  - destruct (i_perm f) eqn:Ep.
    + destruct (readable f) eqn:Er.
      * apply try_ok. subst body.
        rewrite (bind_ok_silent _ _ _ _ (open_rb_ok w file_path f Es Ep)).
        rewrite (bind_ok_silent _ _ _ _
                   (update_from_file_all _ f (hashlib_new a) w Hbs Er)).
        reflexivity.
      * apply (Hraise OSError); [|reflexivity]. subst body.
        rewrite (bind_ok_silent _ _ _ _ (open_rb_ok w file_path f Es Ep)).
        apply bind_raise. apply update_from_file_fault; assumption.
    + apply (Hraise PermissionError); [|reflexivity]. apply Hopen.
      unfold open_rb, ask. rewrite Es, Ep. reflexivity.
  - exfalso. apply (stat_not_broken _ _ Es).
  - apply (Hraise IsADirectoryError); [|reflexivity]. apply Hopen.
    unfold open_rb, ask. rewrite Es. reflexivity.
  - apply (Hraise e).
    + apply Hopen. unfold open_rb, ask. rewrite Es. reflexivity.
    + destruct (stat_error _ _ _ Es) as [-> | ->]; reflexivity.
Qed.

End HashFailure.

Section HashOutcomes.

Context `{HL : Hashlib}.

(** X2: when [calculate_hash] raises for one of the three algorithms, it has
    changed nothing and has printed one line: that the file was not found,
    for [FileNotFoundError], or the read error with its exception, for the
    other errors of the file system. *)
Theorem calculate_hash_failure_reported (file_path : string) (a : algo) (w : world)
  (e : exn) :
  result (calculate_hash file_path (JStr (algorithm_tag a)) w) = inr e ->
  final (calculate_hash file_path (JStr (algorithm_tag a)) w) = w
  /\ ((e = FileNotFoundError
       /\ output (calculate_hash file_path (JStr (algorithm_tag a)) w)
          = [MsgHashNotFound file_path])
      \/ ((e = NotADirectoryError \/ e = IsADirectoryError
           \/ e = PermissionError \/ e = OSError)
          /\ output (calculate_hash file_path (JStr (algorithm_tag a)) w)
             = [MsgHashReadError file_path e])).
Proof.
  rewrite calculate_hash_supported.
  destruct (stat w file_path) as [[f| |es]|e'] eqn:Es.
  - destruct (i_perm f); [destruct (readable f)|]; cbn [result final output];
      intros E; try discriminate; injection E as <-; (split; [reflexivity|]);
      right; split; auto.
  - cbn [result final output]. intros E. injection E as <-.
    split; [reflexivity|]. right. split; auto.
  - cbn [result final output]. intros E. injection E as <-.
    split; [reflexivity|]. right. split; auto.
  - cbn [result final output]. intros E. injection E as <-.
    split; [reflexivity|].
    destruct (stat_error _ _ _ Es) as [-> | ->]; [right|left]; split; auto.
Qed.

(** X1: [calculate_hash] returns a digest exactly when the path is a regular
    file that can be opened and read to its end and the algorithm is one of
    the three tags; in every other case it raises. *)
Theorem calculate_hash_succeeds_iff (file_path : string) (algorithm : json) (w : world) :
  (exists h, result (calculate_hash file_path algorithm w) = inl h)
  <-> exists f a, stat w file_path = inl (File f) /\ readable f = true
                  /\ algorithm = JStr (algorithm_tag a).
Proof.
  split.
  - intros [h Hh].
    destruct (calculate_hash_returns _ _ _ _ Hh) as (f & a & Hs & Hp & -> & _).
    exists f, a. split; [exact Hs|]. split; [|reflexivity].
    rewrite calculate_hash_supported, Hs, Hp in Hh.
    destruct (readable f); [reflexivity|discriminate].
  - intros (f & a & Hs & Hr & ->).
    exists (hex (digest a (i_data f))).
    rewrite calculate_hash_supported, Hs, Hr.
    unfold readable in Hr. apply andb_true_iff in Hr. destruct Hr as [-> _].
    reflexivity.
Qed.

End HashOutcomes.

Section Classify.

Context `{HL : Hashlib} `{JL : JsonLib}.

Lemma verify_entry_classify (d : string) (algorithm : json) (entry : string * json)
  (vr : results) (w : world) :
  verify_entry (JStr d) algorithm entry vr w
  = Run (inl (count (fst (classify w d algorithm entry)) vr)) w
      (snd (classify w d algorithm entry)).
Proof.
  unfold verify_entry, classify. cbn [os_path_join].
  rewrite bind_ret.
  set (file_path := posixpath.join d (fst entry)).
  assert (Hex : os_path_exists file_path w
                = Run (inl (match stat w file_path with
                            | inl _ => true
                            | inr _ => false
                            end)) w []).
  { unfold os_path_exists, ask. destruct (stat w file_path); reflexivity. }
  rewrite (bind_ok_silent _ _ _ _ Hex). clear Hex.
  destruct (stat w file_path) as [n|e] eqn:Es; [|reflexivity].
  match goal with |- context [try_except ?c ?h] => set (body := c); set (hs := h) end.
  assert (Hcatch : forall e o, body w = Run (inr e) w o ->
            try_except body hs w
            = Run (inl (count Mismatched vr)) w (o ++ [MsgVerifyError (fst entry) e])).
  { intros e o Hb. rewrite (try_caught _ _ _ _ _ _ _ Hb eq_refl). reflexivity. }
  destruct (calculate_hash_run file_path algorithm w)
    as [[h E]|(e & o & E & Ho1 & Ho2)].
  - rewrite E. cbn [result output].
    destruct (py_getitem (snd entry) "hash") as [v|e] eqn:Ev.
    + assert (Hb : body w = (if py_str_eq h v
                             then print (MsgConfirmed (fst entry)) ;;; ret (incr_passed vr)
                             else print (MsgViolated (fst entry)) ;;;
                                  print (MsgExpected v) ;;;
                                  print (MsgActual h) ;;; ret (incr_failed vr)) w).
      { subst body. rewrite (bind_ok_silent _ _ _ _ E). try rewrite Ev.
        rewrite (bind_ok_silent _ _ w v eq_refl). reflexivity. }
      destruct (py_str_eq h v).
      * apply try_ok; rewrite Hb; reflexivity.
      * apply try_ok; rewrite Hb; reflexivity.
    + assert (Hb : body w = Run (inr e) w []).
      { subst body. rewrite (bind_ok_silent _ _ _ _ E). try rewrite Ev. reflexivity. }
      apply (Hcatch _ _ Hb).
  - rewrite E. cbn [result output].
    assert (Hb : body w = Run (inr e) w o).
    { subst body. apply bind_raise. exact E. }
    apply (Hcatch _ _ Hb).
Qed.

Lemma verify_loop_classify (d : string) (algorithm : json) (w : world) :
  forall items vr,
  for_each items (verify_entry (JStr d) algorithm) vr w
  = Run (inl (tally w d algorithm items vr)) w (report w d algorithm items).
Proof.
  induction items as [|entry items IH]; intros vr; [reflexivity|].
  cbn [for_each]. rewrite (bind_ok _ _ _ _ _ _ (verify_entry_classify d algorithm entry vr w)).
  rewrite IH. reflexivity.
Qed.






(** The runs of [verify_integrity], by the manifest it reads. *)
Lemma verify_integrity_report (checksum_file : string) (target : option string)
  (w : world) :
  match manifest_at w checksum_file target with
  | Some (JStr d, algorithm, items) =>
      let vr := tally w d algorithm items (start (List.length items)) in
      verify_integrity checksum_file target w
      = Run (inl (intact vr)) w
          (heading (JStr d) algorithm ++ report w d algorithm items ++ summary_lines vr)
  | Some (dir, algorithm, []) =>
      verify_integrity checksum_file target w
      = Run (inl true) w (heading dir algorithm ++ summary_lines (start 0))
  | Some (dir, algorithm, _ :: _) =>
      verify_integrity checksum_file target w
      = Run (inl false) w (heading dir algorithm ++ [MsgVerifyUnexpected TypeError])
  | None =>
      exists o, verify_integrity checksum_file target w = Run (inl false) w o
  end.
Proof.
  rewrite verify_integrity_run. unfold manifest_at.
  destruct (result (read_text checksum_file w)) as [text|e]; [|eexists; reflexivity].
  destruct (json_loads text) as [checksums|]; [|eexists; reflexivity].
  destruct (manifest_header checksums target) as [[dir algorithm]|e];
    [|eexists; reflexivity].
  destruct (manifest_entries checksums) as [items|e].
  2:{ eexists; reflexivity. }
  destruct dir as [| | | |s| |]; cbv zeta;
    try (rewrite verify_loop_not_str by (intros; discriminate);
         destruct items; cbn [result output]; try rewrite summary_run; reflexivity).
  rewrite verify_loop_classify. cbn [result output]. rewrite summary_run. reflexivity.
Qed.

End Classify.

Section VerifyOutcomes.

Context `{HL : Hashlib} `{JL : JsonLib}.

(** X4: [verify_integrity] never raises and never changes the file system:
    every run returns a boolean in the world it started from. *)
Theorem verify_integrity_never_raises (checksum_file : string) (target : option string)
  (w : world) :
  exists b,
    verify_integrity checksum_file target w
    = Run (inl b) w (output (verify_integrity checksum_file target w)).
Proof.
  pose proof (verify_integrity_report checksum_file target w) as H.
  destruct (manifest_at w checksum_file target) as [[[dir algorithm] items]|].
  - destruct dir as [| | | |d| |];
      try (destruct items; rewrite H; eexists; reflexivity);
      cbv zeta in H; rewrite H; eexists; reflexivity.
  - destruct H as [o H]. rewrite H. eexists. reflexivity.
Qed.







End VerifyOutcomes.

Section CreateOutcomes.

Context `{HL : Hashlib} `{JL : JsonLib}.

(** X8: [create_checksum_file] never raises; it returns [True] exactly when
    it has printed where the manifest was saved; and the only file it can
    create or change is [output_file]: every other file is as it was. *)
Theorem create_checksum_file_effect (directory_path output_file algorithm : string)
  (w : world) :
  let r := create_checksum_file directory_path output_file algorithm w in
  (exists b, result r = inl b
             /\ (b = true <-> In (MsgSavedTo output_file) (output r)))
  /\ (final r = w
      \/ exists p data, resolve w output_file = inl p /\ final r = written w p data)
  /\ forall q f,
       resolve w output_file <> inl q ->
       lookup (w_root w) q = Some (File f) ->
       lookup (w_root (final r)) q = Some (File f).
Proof.
  intros r. subst r.
  pose proof (create_checksum_file_run directory_path output_file algorithm w) as Hrun.
  destruct (stat w directory_path) as [n|e] eqn:Hs.
  2:{ rewrite Hrun. cbn [result final output]. split; [|split].
      - exists false. split; [reflexivity|]. split; [discriminate|].
        intros [H|[]]. discriminate H.
      - left. reflexivity.
      - intros q f _ Hl. exact Hl. }
  destruct Hrun as (st & o & Esc & Hrun). cbv zeta in Hrun.
  assert (Hscan : ~ In (MsgSavedTo output_file) o).
  { clear Hrun. revert Esc. generalize (walk directory_path n). generalize (@nil (string * json), 0).
    unfold scan. intros st0 triples. revert st0 st o.
    assert (Hone : forall root file_name st0 st1 o1,
              process_file directory_path output_file algorithm root file_name st0 w
              = Run (inl st1) w o1 -> ~ In (MsgSavedTo output_file) o1).
    { intros root file_name st0 st1 o1 E.
      destruct (process_file_run directory_path output_file algorithm root file_name st0 w)
        as [(_ & E')|[(_ & e & o' & Eh & E')|[(_ & f & a & rp & _ & _ & _ & _ & E')|(_ & _ & E')]]];
        rewrite E' in E; injection E as _ <-.
      - intros [H|[]]; discriminate H.
      - destruct (calculate_hash_run (posixpath.join root file_name) (JStr algorithm) w)
          as [[h Eh']|(e' & o'' & Eh' & Ho & _)]; rewrite Eh' in Eh; [discriminate|].
        injection Eh as _ <-. intros Hin. apply in_app_or in Hin.
        destruct Hin as [Hin|[H|[]]]; [|discriminate H].
        rewrite Forall_forall in Ho. specialize (Ho _ Hin). discriminate Ho.
      - intros [H|[]]; discriminate H.
      - intros [H|[]]; discriminate H. }
    assert (Hin : forall root files st0 st1 o1,
              for_each files (process_file directory_path output_file algorithm root) st0 w
              = Run (inl st1) w o1 -> ~ In (MsgSavedTo output_file) o1).
    { intros root. induction files as [|x files IH]; intros st0 st1 o1 E.
      - injection E as _ <-. intros [].
      - cbn [for_each] in E.
        destruct (process_file_total directory_path output_file algorithm root x st0 w)
          as (sa & oa & Ea).
        rewrite (bind_ok _ _ _ _ _ _ Ea) in E.
        destruct (scan_files_total directory_path output_file algorithm root files sa w)
          as (sb & ob & Eb).
        rewrite Eb in E. cbn [result final output] in E. injection E as _ <-.
        intros H. apply in_app_or in H. destruct H as [H|H].
        + apply (Hone _ _ _ _ _ Ea H).
        + apply (IH _ _ _ Eb H). }
    induction triples as [|t triples IH]; intros st0 st1 o1 E.
    - injection E as _ <-. intros [].
    - cbn [for_each] in E.
      destruct (scan_files_total directory_path output_file algorithm (fst (fst t)) (snd t)
                  st0 w) as (sa & oa & Ea).
      rewrite (bind_ok _ _ _ _ _ _ Ea) in E.
      destruct (scan_total directory_path output_file algorithm triples sa w)
        as (sb & ob & Eb).
      unfold scan in Eb. rewrite Eb in E. cbn [result final output] in E.
      injection E as _ <-.
      intros H. apply in_app_or in H. destruct H as [H|H].
      + apply (Hin _ _ _ _ _ Ea H).
      + apply (IH _ _ _ Eb H). }
  assert (Hkeep : forall p data q f,
            resolve w output_file = inl p -> writable w output_file = true ->
            resolve w output_file <> inl q ->
            lookup (w_root w) q = Some (File f) ->
            lookup (w_root (written w p data)) q = Some (File f)).
  { intros p data q f Hr Hw Hq Hl. unfold written. cbn [w_root].
    apply lookup_update_other; try assumption.
    - apply (writable_no_dir w output_file p Hw Hr).
    - intros ->. apply Hq. exact Hr. }
  assert (Hno : forall e (o' : list message),
            ~ In (MsgSavedTo output_file)
                ([MsgScanning directory_path; MsgRule] ++ o ++ [MsgUnexpected e])).
  { intros e o' H. apply in_app_or in H. destruct H as [[H|[H|[]]]|H]; try discriminate H.
    apply in_app_or in H. destruct H as [H|[H|[]]]; [|discriminate H].
    apply (Hscan H). }
  destruct Hrun as [(p & Hr & Hw & _ & E)|[(p & Hr & Hw & _ & E)|(e & _ & E)]];
    rewrite E; cbn [result final output].
  - split; [|split].
    + exists true. split; [reflexivity|]. split; [|reflexivity]. intros _.
      apply in_or_app. right. apply in_or_app. right. right. right. left. reflexivity.
    + right. eexists p, _. split; [exact Hr|reflexivity].
    + intros q f Hq Hl. apply (Hkeep p _ q f Hr Hw Hq Hl).
  - split; [|split].
    + exists false. split; [reflexivity|]. split; [discriminate|].
      intros H. destruct (Hno _ [] H).
    + right. eexists p, _. split; [exact Hr|reflexivity].
    + intros q f Hq Hl. apply (Hkeep p _ q f Hr Hw Hq Hl).
  - split; [|split].
    + exists false. split; [reflexivity|]. split; [discriminate|].
      intros H. destruct (Hno _ [] H).
    + left. reflexivity.
    + intros q f _ Hl. exact Hl.
Qed.

Lemma basename_join_sep (names : list string) (x : string) :
  Forall (fun z => valid_name z = true) names -> valid_name x = true ->
  basename (join_sep (names ++ [x])) = x.
Proof.
  intros Hn Hx. unfold basename. rewrite split_join_sep.
  - apply last_last.
  - destruct names; discriminate.
  - apply Forall_app. split.
    + eapply Forall_impl; [|exact Hn]. intros z Hz. apply (valid_name_inv z Hz).
    + constructor; [|constructor]. apply (valid_name_inv x Hx).
Qed.

(** X10: after a build that returns [True], every entry of the manifest is a
    readable file of the directory, recorded with its digest, its size and
    its time stamp, under a path whose last component is not [output_file]. *)
Theorem manifest_describes_files (w : world)
  (directory_path output_file algorithm : string) :
  wf_names (w_root w) = true ->
  result (create_checksum_file directory_path output_file algorithm w) = inl true ->
  exists p files,
    resolve w output_file = inl p
    /\ final (create_checksum_file directory_path output_file algorithm w)
       = written w p
           (list_byte_of_string
              (json_dumps (checksums_of (w_now w) algorithm directory_path files)))
    /\ forall rel_path info, In (rel_path, info) files ->
         exists f a,
           stat w (posixpath.join directory_path rel_path) = inl (File f)
           /\ readable f = true
           /\ algorithm = algorithm_tag a
           /\ info = file_record (hex (digest a (i_data f)))
                       (Z.of_nat (List.length (i_data f))) (i_mtime f)
           /\ basename rel_path <> output_file.
Proof.
  intros Hwf Hres.
  pose proof (create_checksum_file_run directory_path output_file algorithm w) as Hrun.
  destruct (stat w directory_path) as [n|e] eqn:Hs.
  2:{ rewrite Hrun in Hres. discriminate. }
  destruct Hrun as ([files file_count] & o & Esc & Hrun). cbv zeta in Hrun.
  cbn [fst snd] in Hrun.
  destruct Hrun as [(p & Hr & Hw & _ & E)|[(p & _ & _ & _ & E)|(e & _ & E)]];
    [|rewrite E in Hres; discriminate|rewrite E in Hres; discriminate].
  exists p, files. split; [exact Hr|]. split; [rewrite E; reflexivity|].
  pose proof (scan_of_directory w directory_path output_file algorithm n _ _ Hwf Hs Esc)
    as Hrec. cbn [fst] in Hrec. rewrite Forall_forall in Hrec.
  intros rel_path info Hin.
  destruct (Hrec _ Hin) as (names & file_name & f & a & Hnames & Hname & Hne & Hroot & Hst
                            & Hperm & Hu & Ha & Ek & Ejoin & Ev).
  cbn [fst snd] in *. exists f, a.
  split; [rewrite Ejoin; exact Hst|]. split; [|split; [exact Ha|split; [exact Ev|]]].
  - destruct (readable f) eqn:Er; [reflexivity|].
    rewrite (update_from_file_fault _ f _ w) in Hu; [discriminate|lia|exact Er|exact Hperm].
  - rewrite Ek, basename_join_sep; assumption.
Qed.

End CreateOutcomes.

(* ===================================================================== *)
(** * The decoder reads what the encoder writes *)
(* ===================================================================== *)

Module pyjson_facts.

Import pyjson pyjson_text.

Lemma concat_with_cons (sep x y : string) (l : list string) :
  concat_with sep (x :: y :: l) = x +++ sep +++ concat_with sep (y :: l).
Proof. reflexivity. Qed.

(** The chunks of an element, joined, are the text that opens or
    separates followed by the text of the element. *)
Lemma element_text (level : nat) (buf : string) (x : json) :
  dumps level x = text level x ->
  concat_chunks match x with
                | JArr _ | JObj _ => buf :: iterencode level x
                | _ => [buf +++ scalar x]
                end
  = buf +++ text level x.
Proof.
  intros Hx. destruct x as [|b|n|repr|s|a|o];
    try (cbn [concat_chunks text]; rewrite append_nil_r; reflexivity).
  - cbn [concat_chunks]. f_equal. exact Hx.
  - cbn [concat_chunks]. f_equal. exact Hx.
Qed.

Lemma elements_text (level : nat) (separator : string) :
  forall l x buf,
  Forall (fun y => dumps level y = text level y) (x :: l) ->
  concat_chunks (elements (iterencode level) separator buf (x :: l))
  = buf +++ concat_with separator (map (text level) (x :: l)).
Proof.
  induction l as [|y l IH]; intros x buf Hall; inversion Hall as [|? ? Hx Hl]; subst.
  - rewrite elements_cons, concat_chunks_app, (element_text level buf x Hx).
    cbn [elements concat_chunks map concat_with]. apply append_nil_r.
  - rewrite elements_cons, concat_chunks_app, (element_text level buf x Hx).
    rewrite (IH y separator Hl). cbn [map]. rewrite concat_with_cons.
    rewrite !append_assoc. reflexivity.
Qed.

Lemma members_text (level : nat) (item_separator : string) :
  forall l kv first,
  Forall (fun kv => dumps level (snd kv) = text level (snd kv)) (kv :: l) ->
  concat_chunks (members (iterencode level) item_separator first (kv :: l))
  = (if first then "" else item_separator)
    +++ concat_with item_separator (map (member level) (kv :: l)).
Proof.
  induction l as [|kv' l IH]; intros [k x] first Hall;
    inversion Hall as [|? ? Hx Hl]; subst; cbn [snd] in Hx.
  - rewrite members_cons, !concat_chunks_app.
    cbn [members concat_chunks map concat_with]. unfold member. cbn [fst snd].
    unfold dumps in Hx. rewrite Hx, !append_nil_r.
    destruct first; cbn [concat_chunks]; rewrite ?append_nil_r, ?append_assoc; reflexivity.
  - rewrite members_cons, !concat_chunks_app. rewrite (IH kv' false Hl).
    cbn [map]. rewrite concat_with_cons.
    change (member level (k, x)) with (quote k +++ ": " +++ text level x).
    unfold dumps in Hx. rewrite Hx. cbn [concat_chunks]. rewrite !append_nil_r.
    destruct first; cbn [concat_chunks]; rewrite ?append_nil_r, ?append_assoc; reflexivity.
Qed.

(** The chunks of the encoder, joined, are the text of the value. *)
Lemma dumps_text (v : json) : forall level, dumps level v = text level v.
Proof.
  induction v as [|b|n|repr|s|l IH|l IH] using json_ind'; intros level;
    try (unfold dumps; cbn [iterencode concat_chunks text]; apply append_nil_r).
  - destruct l as [|x l]; [reflexivity|]. unfold dumps.
    change (iterencode level (JArr (x :: l)))
      with (elements (iterencode (S level)) ("," +++ newline_indent (S level))
              ("[" +++ newline_indent (S level)) (x :: l)
            ++ [newline_indent level; "]"]).
    rewrite concat_chunks_app, elements_text.
    + cbn [concat_chunks]. rewrite append_nil_r, !append_assoc. reflexivity.
    + eapply Forall_impl; [|exact IH]. intros y Hy. apply Hy.
  - destruct l as [|[k x] l]; [reflexivity|]. unfold dumps.
    change (iterencode level (JObj ((k, x) :: l)))
      with (["{"; newline_indent (S level)]
            ++ members (iterencode (S level)) ("," +++ newline_indent (S level)) true
                 ((k, x) :: l)
            ++ [newline_indent level; "}"]).
    rewrite !concat_chunks_app, members_text.
    + cbn [concat_chunks]. rewrite !append_nil_r, !append_assoc. reflexivity.
    + eapply Forall_impl; [|exact IH]. intros y Hy. apply Hy.
Qed.

Lemma parse_chars_escape_char (c : ascii) (t : string) :
  parse_chars (escape_char c +++ t)
  = match parse_chars t with
    | Some (str, r) => Some (String c str, r)
    | None => None
    end.
Proof.
  destruct c as [[] [] [] [] [] [] [] []]; reflexivity.
Qed.

Lemma parse_chars_escape (s rest : string) :
  parse_chars (escape s +++ String dquote rest) = Some (s, rest).
Proof.
  induction s as [|c s IH].
  - reflexivity.
  - cbn [escape]. rewrite append_assoc, parse_chars_escape_char, IH. reflexivity.
Qed.

Lemma span_digits (a b : string) :
  all_digits a = true ->
  match b with String c _ => is_digit c = false | EmptyString => True end ->
  span is_digit (a +++ b) = (a, b).
Proof.
  intros Ha Hb. induction a as [|c a IH].
  - cbn [append]. destruct b as [|c b]; [reflexivity|]. cbn [span]. rewrite Hb. reflexivity.
  - cbn [all_digits] in Ha. apply andb_true_iff in Ha. destruct Ha as [Hc Ha].
    cbn [append span]. rewrite Hc, (IH Ha). reflexivity.
Qed.

Lemma stops_not_digit (rest : string) :
  stops rest = true ->
  match rest with String c _ => is_digit c = false | EmptyString => True end.
Proof.
  destruct rest as [|c r]; [trivial|]. cbn [stops]. intros H.
  apply negb_true_iff in H. repeat (apply orb_false_iff in H; destruct H as [H _]).
  exact H.
Qed.

(** The parts of a number that is followed by [rest]. *)
Lemma parse_number_parts (sign digs rest : string) :
  sign = "" \/ sign = "-" ->
  all_digits digs = true -> digs <> "" ->
  ((1 <? String.length digs)%nat && startswith_zero digs) = false ->
  stops rest = true ->
  parse_number (sign +++ digs +++ rest)
  = match NilZero.int_of_string (sign +++ digs) with
    | Some i => Some (JInt (Z.of_int i), rest)
    | None => None
    end.
Proof.
  intros Hsign Hd Hne Hz Hrest.
  pose proof (stops_not_digit rest Hrest) as Hnd.
  assert (H1 : match sign +++ digs +++ rest with
               | String "-"%char r => ("-", r)
               | _ => ("", sign +++ digs +++ rest)
               end = (sign, digs +++ rest)).
  { destruct Hsign as [-> | ->]; [|reflexivity].
    destruct digs as [|c d]; [contradiction|]. cbn [append all_digits] in *.
    apply andb_true_iff in Hd. destruct Hd as [Hc _].
    destruct c as [[] [] [] [] [] [] [] []]; try reflexivity; discriminate Hc. }
  unfold parse_number. rewrite H1. rewrite (span_digits digs rest Hd Hnd).
  destruct (digs =? "")%string eqn:E0; [apply String.eqb_eq in E0; contradiction|].
  rewrite Hz.
  assert (H2 : match rest with
               | String "."%char r => let (d, r') := span is_digit r in ("." +++ d, r')
               | _ => ("", rest)
               end = ("", rest)).
  { destruct rest as [|c r]; [reflexivity|]. cbn [stops] in Hrest.
    apply negb_true_iff in Hrest.
    destruct c as [[] [] [] [] [] [] [] []]; try reflexivity; discriminate Hrest. }
  rewrite H2. cbn [String.eqb].
  assert (H3 : match rest with
               | String e r =>
                   if Ascii.eqb e "e" || Ascii.eqb e "E" then
                     let (sg, r1) := match r with
                                     | String "+"%char r' => ("+", r')
                                     | String "-"%char r' => ("-", r')
                                     | _ => ("", r)
                                     end in
                     let (d, r2) := span is_digit r1 in
                     if (d =? "")%string then ("", rest) else (String e (sg +++ d), r2)
                   else ("", rest)
               | EmptyString => ("", rest)
               end = ("", rest)).
  { destruct rest as [|c r]; [reflexivity|]. cbn [stops] in Hrest.
    apply negb_true_iff in Hrest. apply orb_false_iff in Hrest. destruct Hrest as [Hrest HE].
    apply orb_false_iff in Hrest. destruct Hrest as [_ He].
    rewrite He, HE. reflexivity. }
  rewrite H3. cbn [String.eqb andb]. reflexivity.
Qed.

Lemma all_digits_of_uint (d : Decimal.uint) :
  all_digits (NilEmpty.string_of_uint d) = true.
Proof. induction d; cbn; auto. Qed.

Lemma to_uint_head (p : positive) :
  startswith_zero (NilEmpty.string_of_uint (Pos.to_uint p)) = false
  /\ NilEmpty.string_of_uint (Pos.to_uint p) <> ""
  /\ NilZero.string_of_uint (Pos.to_uint p) = NilEmpty.string_of_uint (Pos.to_uint p).
Proof.
  pose proof (DecimalPos.Unsigned.to_uint_nonnil p) as Hnil.
  pose proof (DecimalPos.Unsigned.to_uint_nonzero p) as Hzero.
  assert (Hnorm : Decimal.unorm (Pos.to_uint p) = Pos.to_uint p).
  { pose proof (DecimalZ.to_of (Z.to_int (Z.pos p))) as H.
    rewrite DecimalZ.of_to in H. cbn [Z.to_int Decimal.norm] in H.
    injection H as H. symmetry. exact H. }
  destruct (Pos.to_uint p) as [|u|u|u|u|u|u|u|u|u|u] eqn:E;
    try (repeat split; try reflexivity; discriminate).
  exfalso. unfold Decimal.unorm in Hnorm.
    pose proof (DecimalFacts.nzhead_nonzero (Decimal.D0 u)) as Hnz.
    destruct (Decimal.nzhead (Decimal.D0 u)) eqn:En; try discriminate.
    + injection Hnorm as <-. apply Hzero. reflexivity.
    + apply (Hnz u0). reflexivity.
Qed.

Lemma parse_number_int (z : Z) (rest : string) :
  stops rest = true ->
  parse_number (string_of_Z z +++ rest) = Some (JInt z, rest).
Proof.
  intros Hrest. unfold string_of_Z.
  assert (Hparts : exists sign digs,
            NilZero.string_of_int (Z.to_int z) = sign +++ digs
            /\ (sign = "" \/ sign = "-")
            /\ all_digits digs = true /\ digs <> ""
            /\ ((1 <? String.length digs)%nat && startswith_zero digs) = false).
  { destruct z as [|p|p]; cbn [Z.to_int NilZero.string_of_int].
    - exists "", "0". repeat split; auto. discriminate.
    - destruct (to_uint_head p) as (Hz & Hne & ->).
      exists "", (NilEmpty.string_of_uint (Pos.to_uint p)).
      repeat split; auto using all_digits_of_uint. rewrite Hz. apply andb_false_r.
    - destruct (to_uint_head p) as (Hz & Hne & ->).
      exists "-", (NilEmpty.string_of_uint (Pos.to_uint p)).
      repeat split; auto using all_digits_of_uint. rewrite Hz. apply andb_false_r. }
  destruct Hparts as (sign & digs & E & Hsign & Hd & Hne & Hz).
  rewrite E, append_assoc.
  rewrite (parse_number_parts sign digs rest Hsign Hd Hne Hz Hrest).
  rewrite <- E. rewrite NilZero.isi.
  - rewrite DecimalZ.of_to. reflexivity.
  - destruct z as [|p|p]; cbn [Z.to_int]; try discriminate.
    intros H. injection H as H. apply (DecimalPos.Unsigned.to_uint_nonnil p H).
  - destruct z as [|p|p]; cbn [Z.to_int]; try discriminate.
    intros H. injection H as H. apply (DecimalPos.Unsigned.to_uint_nonnil p H).
Qed.

Lemma span_is_digit (s : string) :
  s = fst (span is_digit s) +++ snd (span is_digit s)
  /\ all_digits (fst (span is_digit s)) = true.
Proof.
  induction s as [|c s [IH1 IH2]]; [split; reflexivity|].
  cbn [span]. destruct (is_digit c) eqn:Ec; cbn [fst snd append all_digits].
  - split; [f_equal; exact IH1|]. rewrite Ec. exact IH2.
  - split; reflexivity.
Qed.

Lemma parse_number_float (s rest : string) :
  plain_float s = true -> stops rest = true ->
  parse_number (s +++ rest) = Some (JFloat s, rest).
Proof.
  intros Hs Hrest. unfold plain_float in Hs.
  destruct (span_is_digit s) as [Es Hdi].
  destruct (span is_digit s) as [i r]. cbn [fst snd] in *.
  apply andb_true_iff in Hs. destruct Hs as [Hs Hr].
  apply andb_true_iff in Hs. destruct Hs as [Hi Hz].
  apply negb_true_iff in Hi, Hz.
  destruct r as [|c f]; [discriminate|].
  apply andb_true_iff in Hr. destruct Hr as [Hr Hf].
  apply andb_true_iff in Hr. destruct Hr as [Hc Hfne].
  apply Ascii.eqb_eq in Hc. subst c. apply negb_true_iff in Hfne.
  pose proof (stops_not_digit rest Hrest) as Hnd.
  subst s.
  assert (H1 : match (i +++ String "." f) +++ rest with
               | String "-"%char r => ("-", r)
               | _ => ("", (i +++ String "." f) +++ rest)
               end = ("", i +++ String "." (f +++ rest))).
  { rewrite append_assoc. cbn [append].
    destruct i as [|c d]; [discriminate|]. cbn [append all_digits] in *.
    apply andb_true_iff in Hdi. destruct Hdi as [Hc _].
    destruct c as [[] [] [] [] [] [] [] []]; try reflexivity; discriminate Hc. }
  unfold parse_number. rewrite H1.
  rewrite (span_digits i (String "." (f +++ rest)) Hdi eq_refl).
  rewrite Hi, Hz. cbv iota.
  rewrite (span_digits f rest Hf Hnd).
  assert (Hfrac : ("." +++ f =? ".")%string = false).
  { cbn. destruct f; [discriminate|reflexivity]. }
  rewrite Hfrac.
  assert (H3 : match rest with
               | String e r =>
                   if Ascii.eqb e "e" || Ascii.eqb e "E" then
                     let (sg, r1) := match r with
                                     | String "+"%char r' => ("+", r')
                                     | String "-"%char r' => ("-", r')
                                     | _ => ("", r)
                                     end in
                     let (d, r2) := span is_digit r1 in
                     if (d =? "")%string then ("", rest) else (String e (sg +++ d), r2)
                   else ("", rest)
               | EmptyString => ("", rest)
               end = ("", rest)).
  { destruct rest as [|c r]; [reflexivity|]. cbn [stops] in Hrest.
    apply negb_true_iff in Hrest. apply orb_false_iff in Hrest. destruct Hrest as [Hrest HE].
    apply orb_false_iff in Hrest. destruct Hrest as [_ He].
    rewrite He, HE. reflexivity. }
  rewrite H3. cbn [String.eqb andb append]. rewrite append_nil_r. reflexivity.
Qed.

Lemma skip_ws_app (pre t : string) : all_ws pre = true -> skip_ws (pre +++ t) = skip_ws t.
Proof.
  induction pre as [|c pre IH]; [reflexivity|]. cbn [all_ws append skip_ws].
  intros H. apply andb_true_iff in H. destruct H as [Hc H]. rewrite Hc. apply IH, H.
Qed.

Lemma all_ws_spaces (n : nat) : all_ws (spaces n) = true.
Proof. induction n; [reflexivity|exact IHn]. Qed.

Lemma all_ws_newline_indent (level : nat) : all_ws (newline_indent level) = true.
Proof. apply all_ws_spaces. Qed.

Lemma parse_value_skip (fuel : nat) (pre t : string) :
  all_ws pre = true -> parse_value fuel (pre +++ t) = parse_value fuel t.
Proof.
  intros H. destruct fuel; [reflexivity|]. cbn [parse_value].
  rewrite (skip_ws_app pre t H). reflexivity.
Qed.

Lemma parse_value_number (fuel : nat) (s : string) (x : json * string) :
  number_start s = true -> parse_number s = Some x -> parse_value (S fuel) s = Some x.
Proof.
  destruct s as [|c s]; [discriminate|]. cbn [number_start].
  destruct c as [[] [] [] [] [] [] [] []]; intros H E; try discriminate H;
    match goal with |- parse_value _ (String ?c s) = _ =>
      first [ change (parse_value (S fuel) (String c s))
                with (match parse_number (String c s) with
                      | Some number => Some number
                      | None => None
                      end)
            | change (parse_value (S fuel) (String c s))
                with (match parse_number (String c s) with
                      | Some number => Some number
                      | None => option_map (pair (JFloat "-Infinity"))
                                  (strip_prefix "Infinity" s)
                      end) ]
    end; rewrite E; reflexivity.
Qed.

Lemma number_start_app (a b : string) : number_start a = true -> number_start (a +++ b) = true.
Proof. destruct a; [discriminate|]. intros H. exact H. Qed.

Lemma number_start_Z (z : Z) : number_start (string_of_Z z) = true.
Proof.
  unfold string_of_Z. destruct z as [|p|p]; cbn [Z.to_int NilZero.string_of_int];
    try reflexivity.
  destruct (to_uint_head p) as (_ & Hne & ->).
  pose proof (all_digits_of_uint (Pos.to_uint p)) as Hd.
  destruct (NilEmpty.string_of_uint (Pos.to_uint p)) as [|c s]; [contradiction|].
  cbn [all_digits] in Hd. apply andb_true_iff in Hd. destruct Hd as [Hc _].
  cbn [number_start]. rewrite Hc. reflexivity.
Qed.

Lemma number_start_float (s : string) : plain_float s = true -> number_start s = true.
Proof.
  unfold plain_float. destruct s as [|c s]; [discriminate|].
  cbn [span number_start]. destruct (is_digit c); [reflexivity|]. discriminate.
Qed.

Lemma number_start_opens (s : string) : number_start s = true -> opens s = true.
Proof.
  destruct s as [|c s]; [discriminate|]. cbn [number_start opens].
  destruct c as [[] [] [] [] [] [] [] []]; intros H; try discriminate H; reflexivity.
Qed.

Lemma opens_dumps (level : nat) (v : json) :
  plain v = true -> forall t, opens (text level v +++ t) = true.
Proof.
  intros Hp t. destruct v as [|[]|n|repr|s|[|x l]|[|kv l]]; try reflexivity.
  - apply number_start_opens, number_start_app, number_start_Z.
  - apply number_start_opens, number_start_app, number_start_float, Hp.
Qed.

Lemma skip_ws_opens (s : string) : opens s = true -> skip_ws s = s.
Proof.
  destruct s as [|c s]; [reflexivity|]. cbn [opens skip_ws]. intros H.
  apply negb_true_iff in H. apply orb_false_iff in H. destruct H as [H _].
  apply orb_false_iff in H. destruct H as [H _]. rewrite H. reflexivity.
Qed.

Lemma stops_comma (t : string) : stops (String "," t) = true.
Proof. reflexivity. Qed.

Lemma stops_newline_indent (level : nat) (t : string) :
  stops (newline_indent level +++ t) = true.
Proof. reflexivity. Qed.

Lemma skip_ws_comma (t : string) : skip_ws (String "," t) = String "," t.
Proof. reflexivity. Qed.

Lemma skip_ws_bracket (t : string) : skip_ws (String "]" t) = String "]" t.
Proof. reflexivity. Qed.

Lemma skip_ws_brace (t : string) : skip_ws (String "}" t) = String "}" t.
Proof. reflexivity. Qed.

Lemma skip_ws_colon (t : string) : skip_ws (String ":" t) = String ":" t.
Proof. reflexivity. Qed.

Lemma parse_elements_dumps (level : nat) (rest : string) :
  forall l x acc fuel,
  Forall parses (x :: l) ->
  forallb plain (x :: l) = true ->
  list_sum (map (fun y => S (size y)) (x :: l)) <= fuel ->
  parse_elements fuel
    (newline_indent (S level)
     +++ concat_with ("," +++ newline_indent (S level)) (map (text (S level)) (x :: l))
     +++ newline_indent level +++ "]" +++ rest) acc
  = Some (JArr (rev acc ++ x :: l), rest).
Proof.
  induction l as [|y l IH]; intros x acc fuel Hall Hp Hfuel.
  - inversion Hall as [|? ? Hx _]; subst.
    cbn [forallb] in Hp. apply andb_true_iff in Hp. destruct Hp as [Hpx _].
    cbn [map list_sum fold_right] in Hfuel.
    destruct fuel as [|fuel]; [lia|]. cbn [parse_elements map concat_with].
    rewrite parse_value_skip by apply all_ws_newline_indent.
    rewrite (Hx (S level) fuel _ Hpx (stops_newline_indent level _)) by lia.
    rewrite skip_ws_app by apply all_ws_newline_indent.
    change ("]" +++ rest) with (String "]" rest). rewrite skip_ws_bracket.
    cbv beta match. reflexivity.
  - inversion Hall as [|? ? Hx Hall']; subst.
    cbn [forallb] in Hp. apply andb_true_iff in Hp. destruct Hp as [Hpx Hp].
    cbn [map list_sum fold_right] in Hfuel.
    destruct fuel as [|fuel]; [lia|]. cbn [parse_elements]. cbn [map].
    rewrite concat_with_cons. rewrite !append_assoc.
    rewrite parse_value_skip by apply all_ws_newline_indent.
    change ("," +++ newline_indent (S level)
            +++ concat_with ("," +++ newline_indent (S level))
                  (text (S level) y :: map (text (S level)) l)
            +++ newline_indent level +++ "]" +++ rest)
      with (String ","
              (newline_indent (S level)
               +++ concat_with ("," +++ newline_indent (S level))
                     (map (text (S level)) (y :: l))
               +++ newline_indent level +++ "]" +++ rest)).
    rewrite (Hx (S level) fuel _ Hpx (stops_comma _)) by lia.
    rewrite skip_ws_comma. cbv beta match.
    rewrite (IH y (x :: acc) fuel Hall' Hp).
    + cbn [rev]. rewrite <- app_assoc. reflexivity.
    + cbn [list_sum map fold_right]. lia.
Qed.

Lemma quote_app (k t : string) :
  quote k +++ t = String dquote (escape k +++ String dquote t).
Proof. unfold quote. cbn [append]. rewrite append_assoc. reflexivity. Qed.

Lemma skip_ws_quote (t : string) : skip_ws (String dquote t) = String dquote t.
Proof. reflexivity. Qed.

Lemma parse_members_dumps (level : nat) (rest : string) :
  forall l kv acc fuel,
  Forall (fun kv => parses (snd kv)) (kv :: l) ->
  forallb (fun kv => plain (snd kv)) (kv :: l) = true ->
  list_sum (map (fun kv => S (size (snd kv))) (kv :: l)) <= fuel ->
  parse_members fuel
    (newline_indent (S level)
     +++ concat_with ("," +++ newline_indent (S level)) (map (member (S level)) (kv :: l))
     +++ newline_indent level +++ "}" +++ rest) acc
  = Some (JObj (rev acc ++ kv :: l), rest).
Proof.
  induction l as [|kv' l IH]; intros [k v] acc fuel Hall Hp Hfuel.
  - inversion Hall as [|? ? Hx _]; subst. cbn [snd] in Hx.
    cbn [forallb snd] in Hp. apply andb_true_iff in Hp. destruct Hp as [Hpx _].
    cbn [map list_sum fold_right snd] in Hfuel.
    destruct fuel as [|fuel]; [lia|]. cbn [parse_members map concat_with].
    rewrite skip_ws_app by apply all_ws_newline_indent.
    unfold member. cbn [fst snd]. rewrite !append_assoc, quote_app, skip_ws_quote.
    cbv beta match. change (Ascii.eqb dquote dquote) with true. cbv beta match.
    rewrite parse_chars_escape. cbv beta match.
    change (": " +++ text (S level) v +++ newline_indent level +++ "}" +++ rest)
      with (String ":" (" " +++ text (S level) v +++ newline_indent level
                        +++ String "}" rest)).
    rewrite skip_ws_colon. cbv beta match.
    rewrite parse_value_skip by reflexivity.
    rewrite (Hx (S level) fuel _ Hpx (stops_newline_indent level _)) by lia.
    rewrite skip_ws_app by apply all_ws_newline_indent.
    rewrite skip_ws_brace. cbv beta match. reflexivity.
  - inversion Hall as [|? ? Hx Hall']; subst. cbn [snd] in Hx.
    cbn [forallb snd] in Hp. apply andb_true_iff in Hp. destruct Hp as [Hpx Hp].
    cbn [map list_sum fold_right snd] in Hfuel.
    destruct fuel as [|fuel]; [lia|]. cbn [parse_members]. cbn [map].
    rewrite concat_with_cons.
    rewrite skip_ws_app by apply all_ws_newline_indent.
    unfold member at 1. cbn [fst snd]. rewrite !append_assoc, quote_app, skip_ws_quote.
    cbv beta match. change (Ascii.eqb dquote dquote) with true. cbv beta match.
    rewrite parse_chars_escape. cbv beta match.
    match goal with |- context [skip_ws (": " +++ text (S level) v +++ ?R)] =>
      change (": " +++ text (S level) v +++ R)
        with (String ":" (" " +++ text (S level) v +++ R));
      change R with (String "," (newline_indent (S level)
                        +++ concat_with ("," +++ newline_indent (S level))
                              (map (member (S level)) (kv' :: l))
                        +++ newline_indent level +++ "}" +++ rest))
    end.
    rewrite skip_ws_colon. cbv beta match.
    rewrite parse_value_skip by reflexivity.
    rewrite (Hx (S level) fuel _ Hpx (stops_comma _)) by lia.
    rewrite skip_ws_comma. cbv beta match.
    rewrite (IH kv' ((k, v) :: acc) fuel Hall' Hp).
    + cbn [rev]. rewrite <- app_assoc. reflexivity.
    + cbn [list_sum map fold_right]. lia.
Qed.

Lemma not_closing {T} (s : string) (A B : string -> T) (C : T) :
  opens s = true ->
  match s with
  | String "]"%char r => A r
  | _ => C
  end = C
  /\ match s with
     | String "}"%char r => B r
     | _ => C
     end = C.
Proof.
  destruct s as [|c s]; [discriminate|]. cbn [opens].
  destruct c as [[] [] [] [] [] [] [] []]; intros H; try discriminate H; split; reflexivity.
Qed.

Lemma concat_with_head (sep a u : string) (l : list string) :
  exists t, concat_with sep (a :: l) +++ u = a +++ t.
Proof.
  destruct l as [|b l].
  - exists u. reflexivity.
  - rewrite concat_with_cons. rewrite !append_assoc. eexists. reflexivity.
Qed.

Theorem parse_value_dumps (v : json) : parses v.
Proof.
  induction v as [|b|n|repr|s|l IH|l IH] using json_ind';
    intros level fuel rest Hp Hs Hfuel;
    (destruct fuel as [|fuel]; [cbn [size] in Hfuel; lia|]).
  - reflexivity.
  - destruct b; reflexivity.
  - apply parse_value_number; [apply number_start_app, number_start_Z|].
    apply parse_number_int, Hs.
  - apply parse_value_number; [apply number_start_app, number_start_float, Hp|].
    apply parse_number_float; assumption.
  - cbn [text scalar]. rewrite quote_app. cbn [parse_value]. rewrite skip_ws_quote.
    cbv beta match. change (Ascii.eqb dquote dquote) with true. cbv beta match.
    rewrite parse_chars_escape. reflexivity.
  - destruct l as [|x l]; [reflexivity|].
    cbn [size] in Hfuel. cbn [plain] in Hp.
    change (text level (JArr (x :: l)))
      with ("[" +++ newline_indent (S level)
            +++ concat_with ("," +++ newline_indent (S level))
                  (map (text (S level)) (x :: l))
            +++ newline_indent level +++ "]").
    rewrite !append_assoc.
    match goal with |- parse_value _ ("[" +++ ?R) = _ =>
      change (parse_value (S fuel) ("[" +++ R))
        with (match skip_ws R with
              | String "]"%char r' => Some (JArr [], r')
              | _ => parse_elements fuel R []
              end)
    end.
    rewrite skip_ws_app by apply all_ws_newline_indent.
    cbn [map].
    destruct (concat_with_head ("," +++ newline_indent (S level)) (text (S level) x)
                (newline_indent level +++ "]" +++ rest) (map (text (S level)) l))
      as [t Et].
    assert (Hx : plain x = true).
    { cbn [forallb] in Hp. apply andb_true_iff in Hp. apply Hp. }
    pose proof (opens_dumps (S level) x Hx t) as Ho. rewrite <- Et in Ho.
    rewrite (skip_ws_opens _ Ho).
    destruct (not_closing _ (fun r' => Some (JArr [], r')) (fun r' => Some (JArr [], r'))
                (parse_elements fuel
                   (newline_indent (S level)
                    +++ concat_with ("," +++ newline_indent (S level))
                          (text (S level) x :: map (text (S level)) l)
                    +++ newline_indent level +++ "]" +++ rest) []) Ho) as [Hn _].
    rewrite Hn.
    apply (parse_elements_dumps level rest l x [] fuel IH Hp). lia.
  - destruct l as [|[k x] l]; [reflexivity|].
    cbn [size] in Hfuel. cbn [plain] in Hp.
    change (text level (JObj ((k, x) :: l)))
      with ("{" +++ newline_indent (S level)
            +++ concat_with ("," +++ newline_indent (S level))
                  (map (member (S level)) ((k, x) :: l))
            +++ newline_indent level +++ "}").
    rewrite !append_assoc.
    match goal with |- parse_value _ ("{" +++ ?R) = _ =>
      change (parse_value (S fuel) ("{" +++ R))
        with (match skip_ws R with
              | String "}"%char r' => Some (JObj [], r')
              | _ => parse_members fuel R []
              end)
    end.
    rewrite skip_ws_app by apply all_ws_newline_indent.
    cbn [map].
    destruct (concat_with_head ("," +++ newline_indent (S level)) (member (S level) (k, x))
                (newline_indent level +++ "}" +++ rest) (map (member (S level)) l))
      as [t Et].
    assert (Ho : opens (member (S level) (k, x) +++ t) = true).
    { unfold member. cbn [fst]. rewrite append_assoc, quote_app. reflexivity. }
    rewrite <- Et in Ho.
    rewrite (skip_ws_opens _ Ho).
    destruct (not_closing _ (fun r' => Some (JObj [], r')) (fun r' => Some (JObj [], r'))
                (parse_members fuel
                   (newline_indent (S level)
                    +++ concat_with ("," +++ newline_indent (S level))
                          (member (S level) (k, x) :: map (member (S level)) l)
                    +++ newline_indent level +++ "}" +++ rest) []) Ho) as [_ Hn].
    rewrite Hn.
    apply (parse_members_dumps level rest l (k, x) [] fuel IH Hp). lia.
Qed.

Lemma length_append (a b : string) :
  String.length (a +++ b) = String.length a + String.length b.
Proof. induction a as [|c a IH]; [reflexivity|]. cbn [append String.length]. rewrite IH. reflexivity. Qed.

Lemma size_concat_with {A} (f : A -> string) (g : A -> nat) (sep : string) :
  sep <> "" ->
  forall l,
  Forall (fun x => g x <= 2 * String.length (f x)) l ->
  list_sum (map (fun x => S (g x)) l)
  <= 2 * String.length (concat_with sep (map f l)) + 2.
Proof.
  intros Hsep. induction l as [|a l IH]; intros Hall; [cbn; lia|].
  inversion Hall as [|? ? Ha Hl]; subst. specialize (IH Hl).
  destruct l as [|b l].
  - cbn [map list_sum fold_right concat_with]. lia.
  - cbn [map] in *. rewrite concat_with_cons, !length_append.
    cbn [list_sum fold_right] in *.
    destruct sep as [|c sep]; [contradiction|]. cbn [String.length]. lia.
Qed.

Lemma size_dumps (v : json) :
  forall level, plain v = true -> size v <= 2 * String.length (text level v).
Proof.
  induction v as [|b|n|repr|s|l IH|l IH] using json_ind'; intros level Hp;
    try (cbn; lia).
  - destruct b; cbn; lia.
  - pose proof (number_start_Z n) as H. cbn [text scalar size].
    destruct (string_of_Z n); [discriminate|cbn [String.length]; lia].
  - pose proof (number_start_float repr Hp) as H. cbn [text scalar size].
    destruct repr; [discriminate|cbn [String.length]; lia].
  - destruct l as [|x l]; [cbn; lia|].
    change (text level (JArr (x :: l)))
      with ("[" +++ newline_indent (S level)
            +++ concat_with ("," +++ newline_indent (S level))
                  (map (text (S level)) (x :: l))
            +++ newline_indent level +++ "]").
    cbn [size]. rewrite !length_append.
    pose proof (size_concat_with (text (S level)) size ("," +++ newline_indent (S level))
                  ltac:(discriminate) (x :: l)) as H.
    cbn [String.length]. 
    assert (Hall : Forall (fun x0 => size x0 <= 2 * String.length (text (S level) x0))
                     (x :: l)).
    { cbn [plain] in Hp. rewrite forallb_forall in Hp. rewrite Forall_forall in *.
      intros y Hy. apply (IH y Hy). apply Hp, Hy. }
    specialize (H Hall). lia.
  - destruct l as [|[k x] l]; [cbn; lia|].
    change (text level (JObj ((k, x) :: l)))
      with ("{" +++ newline_indent (S level)
            +++ concat_with ("," +++ newline_indent (S level))
                  (map (member (S level)) ((k, x) :: l))
            +++ newline_indent level +++ "}").
    cbn [size]. rewrite !length_append.
    pose proof (size_concat_with (member (S level)) (fun kv => size (snd kv))
                  ("," +++ newline_indent (S level))
                  ltac:(discriminate) ((k, x) :: l)) as H.
    cbn [String.length].
    assert (Hall : Forall (fun kv => size (snd kv)
                                     <= 2 * String.length (member (S level) kv))
                     ((k, x) :: l)).
    { cbn [plain] in Hp. rewrite forallb_forall in Hp. rewrite Forall_forall in *.
      intros y Hy. specialize (IH y Hy (S level) (Hp y Hy)).
      unfold member. rewrite !length_append. lia. }
    specialize (H Hall). lia.
Qed.

Theorem loads_dumps (v : json) : plain v = true -> loads (dumps 0 v) = Some v.
Proof.
  intros Hp. unfold loads. rewrite dumps_text.
  pose proof (parse_value_dumps v 0 (2 * String.length (text 0 v) + 2) "" Hp eq_refl) as H.
  rewrite append_nil_r in H. rewrite H; [reflexivity|].
  pose proof (size_dumps v 0 Hp). lia.
Qed.

Lemma universal_newlines_no_cr (s : string) :
  no_cr s = true -> universal_newlines s = s.
Proof.
  induction s as [|c s IH]; [reflexivity|]. cbn [no_cr universal_newlines].
  intros H. apply andb_true_iff in H. destruct H as [Hc Hs].
  apply negb_true_iff in Hc. rewrite Hc, (IH Hs). reflexivity.
Qed.

Lemma no_cr_app (a b : string) : no_cr (a +++ b) = no_cr a && no_cr b.
Proof.
  induction a as [|c a IH]; [reflexivity|]. cbn [append no_cr]. rewrite IH.
  apply andb_assoc.
Qed.

Lemma no_cr_escape (s : string) : no_cr (escape s) = true.
Proof.
  induction s as [|c s IH]; [reflexivity|]. cbn [escape]. rewrite no_cr_app, IH.
  rewrite andb_true_r. destruct c as [[] [] [] [] [] [] [] []]; reflexivity.
Qed.

Lemma no_cr_quote (s : string) : no_cr (quote s) = true.
Proof. unfold quote. cbn [no_cr]. rewrite no_cr_app, no_cr_escape. reflexivity. Qed.

Lemma no_cr_digits (s : string) : all_digits s = true -> no_cr s = true.
Proof.
  induction s as [|c s IH]; [reflexivity|]. cbn [all_digits no_cr]. intros H.
  apply andb_true_iff in H. destruct H as [Hc Hs]. rewrite (IH Hs), andb_true_r.
  destruct c as [[] [] [] [] [] [] [] []]; try reflexivity; discriminate Hc.
Qed.

Lemma no_cr_string_of_Z (z : Z) : no_cr (string_of_Z z) = true.
Proof.
  assert (Hu : forall d, no_cr (NilZero.string_of_uint d) = true).
  { intros d. unfold NilZero.string_of_uint.
    destruct d; try reflexivity; apply no_cr_digits, all_digits_of_uint. }
  unfold string_of_Z, NilZero.string_of_int.
  destruct (Z.to_int z) as [d|d]; [apply Hu|]. cbn [no_cr]. rewrite Hu. reflexivity.
Qed.

Lemma no_cr_plain_float (s : string) : plain_float s = true -> no_cr s = true.
Proof.
  intros Hs. unfold plain_float in Hs.
  destruct (span_is_digit s) as [Es Hdi].
  destruct (span is_digit s) as [i r]. cbn [fst snd] in *.
  apply andb_true_iff in Hs. destruct Hs as [_ Hr].
  destruct r as [|c f]; [discriminate|].
  apply andb_true_iff in Hr. destruct Hr as [Hr Hf].
  apply andb_true_iff in Hr. destruct Hr as [Hc _].
  apply Ascii.eqb_eq in Hc. subst c. rewrite Es, no_cr_app. cbn [no_cr].
  rewrite (no_cr_digits i Hdi), (no_cr_digits f Hf). reflexivity.
Qed.

Lemma no_cr_spaces (n : nat) : no_cr (spaces n) = true.
Proof. induction n as [|n IH]; [reflexivity|exact IH]. Qed.

Lemma no_cr_newline_indent (level : nat) : no_cr (newline_indent level) = true.
Proof. apply no_cr_spaces. Qed.

Lemma no_cr_concat_with {A} (f : A -> string) (sep : string) (l : list A) :
  no_cr sep = true -> Forall (fun x => no_cr (f x) = true) l ->
  no_cr (concat_with sep (map f l)) = true.
Proof.
  intros Hsep Hl. induction Hl as [|x l Hx Hl IH]; [reflexivity|].
  destruct l as [|y l]; [exact Hx|].
  cbn [map] in *. rewrite concat_with_cons, !no_cr_app, Hx, Hsep, IH. reflexivity.
Qed.

Lemma no_cr_text (v : json) : forall level, plain v = true -> no_cr (text level v) = true.
Proof.
  induction v as [|b|n|repr|s|l IH|l IH] using json_ind'; intros level Hp.
  - reflexivity.
  - destruct b; reflexivity.
  - apply no_cr_string_of_Z.
  - apply no_cr_plain_float, Hp.
  - apply no_cr_quote.
  - destruct l as [|x l]; [reflexivity|].
    change (text level (JArr (x :: l)))
      with ("[" +++ newline_indent (S level)
            +++ concat_with ("," +++ newline_indent (S level))
                  (map (text (S level)) (x :: l))
            +++ newline_indent level +++ "]").
    rewrite !no_cr_app, !no_cr_newline_indent. cbn [no_cr andb].
    rewrite no_cr_concat_with; [reflexivity|exact (no_cr_newline_indent (S level))|].
    cbn [plain] in Hp. rewrite forallb_forall in Hp. rewrite Forall_forall in *.
    intros y Hy. apply (IH y Hy), Hp, Hy.
  - destruct l as [|kv l]; [reflexivity|].
    change (text level (JObj (kv :: l)))
      with ("{" +++ newline_indent (S level)
            +++ concat_with ("," +++ newline_indent (S level))
                  (map (member (S level)) (kv :: l))
            +++ newline_indent level +++ "}").
    rewrite !no_cr_app, !no_cr_newline_indent. cbn [no_cr andb].
    rewrite no_cr_concat_with; [reflexivity|exact (no_cr_newline_indent (S level))|].
    cbn [plain] in Hp. rewrite forallb_forall in Hp. rewrite Forall_forall in *.
    intros y Hy. unfold member. rewrite !no_cr_app, no_cr_quote.
    rewrite (IH y Hy (S level) (Hp y Hy)). reflexivity.
Qed.

(** The decoder reads back what the encoder has written to a text file. *)
Theorem loads_written (v : json) :
  plain v = true -> loads (universal_newlines (dumps 0 v)) = Some v.
Proof.
  intros Hp. rewrite universal_newlines_no_cr; [apply loads_dumps, Hp|].
  rewrite dumps_text. apply no_cr_text, Hp.
Qed.

End pyjson_facts.

(* ===================================================================== *)
(** * The length of a digest *)
(* ===================================================================== *)

(** ** The lengths of the digests *)

Lemma length_flat_map_const {A B} (f : A -> list B) (k : nat) (l : list A) :
  (forall x, List.length (f x) = k) -> List.length (flat_map f l) = k * List.length l.
Proof.
  intros Hf. induction l as [|x l IH]; [cbn; lia|].
  cbn [flat_map]. rewrite length_app, Hf, IH. cbn [List.length]. lia.
Qed.

Lemma length_le_bytes (k : nat) (x : N) : List.length (hashlib.le_bytes k x) = k.
Proof. revert x. induction k as [|k IH]; intros x; [reflexivity|]. cbn. rewrite IH. reflexivity. Qed.

Lemma length_be_bytes (k : nat) (x : N) : List.length (hashlib.be_bytes k x) = k.
Proof. unfold hashlib.be_bytes. rewrite length_rev. apply length_le_bytes. Qed.

Lemma length_add_words (x y : list N) :
  List.length x = List.length y -> List.length (hashlib.add_words x y) = List.length x.
Proof.
  intros H. unfold hashlib.add_words. rewrite length_map, length_combine. lia.
Qed.

Lemma length_fold_left {A B} (f : list A -> B -> list A) (n : nat) :
  (forall st b, List.length st = n -> List.length (f st b) = n) ->
  forall l st, List.length st = n -> List.length (fold_left f l st) = n.
Proof.
  intros Hf. induction l as [|b l IH]; intros st Hst; [exact Hst|].
  cbn [fold_left]. apply IH, Hf, Hst.
Qed.

Lemma length_md5_round (w st : list N) (i : nat) :
  List.length st = 4 -> List.length (hashlib.md5_round w st i) = 4.
Proof.
  destruct st as [|a [|b [|c [|d [|e st]]]]]; try discriminate. reflexivity.
Qed.

Lemma length_sha1_round (st : list N) (tw : nat * N) :
  List.length st = 5 -> List.length (hashlib.sha1_round st tw) = 5.
Proof.
  destruct st as [|a [|b [|c [|d [|e [|f st]]]]]]; try discriminate. reflexivity.
Qed.

Lemma length_sha256_round (st : list N) (kw : N * N) :
  List.length st = 8 -> List.length (hashlib.sha256_round st kw) = 8.
Proof.
  destruct st as [|a [|b [|c [|d [|e [|f [|g [|h [|i st]]]]]]]]]; try discriminate.
  reflexivity.
Qed.

Lemma length_md5 (data : list byte) : List.length (hashlib.md5 data) = 16.
Proof.
  unfold hashlib.md5. rewrite (length_flat_map_const _ 4) by apply length_le_bytes.
  rewrite (length_fold_left hashlib.md5_block 4); [reflexivity| |reflexivity].
  intros st b Hst. unfold hashlib.md5_block. rewrite length_add_words; [exact Hst|].
  symmetry. rewrite Hst. apply (length_fold_left (hashlib.md5_round _) 4); [|exact Hst].
  intros. apply length_md5_round. assumption.
Qed.

Lemma length_sha1 (data : list byte) : List.length (hashlib.sha1 data) = 20.
Proof.
  unfold hashlib.sha1. rewrite (length_flat_map_const _ 4) by apply length_be_bytes.
  rewrite (length_fold_left hashlib.sha1_block 5); [reflexivity| |reflexivity].
  intros st b Hst. unfold hashlib.sha1_block. rewrite length_add_words; [exact Hst|].
  symmetry. rewrite Hst. apply (length_fold_left hashlib.sha1_round 5); [|exact Hst].
  intros. apply length_sha1_round. assumption.
Qed.

Lemma length_sha256 (data : list byte) : List.length (hashlib.sha256 data) = 32.
Proof.
  unfold hashlib.sha256. rewrite (length_flat_map_const _ 4) by apply length_be_bytes.
  rewrite (length_fold_left hashlib.sha256_block 8); [reflexivity| |reflexivity].
  intros st b Hst. unfold hashlib.sha256_block. rewrite length_add_words; [exact Hst|].
  symmetry. rewrite Hst. apply (length_fold_left hashlib.sha256_round 8); [|exact Hst].
  intros. apply length_sha256_round. assumption.
Qed.

(** X3: the text [calculate_hash] returns has 32 characters for MD5, 40 for
    SHA-1 and 64 for SHA-256. *)
Theorem digest_text_length (file_path : string) (algorithm : json) (w : world)
  (h : string) :
  result (@calculate_hash py_hashlib file_path algorithm w) = inl h ->
  exists a, algorithm = JStr (algorithm_tag a) /\ String.length h = hex_digits a.
Proof.
  intros Hh.
  destruct (@calculate_hash_returns py_hashlib _ _ _ _ Hh) as (f & a & _ & _ & -> & -> & _).
  exists a. split; [reflexivity|]. rewrite hex_length.
  destruct a; cbn [digest py_hashlib hex_digits];
    [rewrite length_md5|rewrite length_sha1|rewrite length_sha256]; reflexivity.
Qed.

(* ===================================================================== *)
(** * Every readable file is listed *)
(* ===================================================================== *)

Lemma lookup_app (p q : list string) :
  forall n,
  lookup n (p ++ q) = match lookup n p with
                      | Some c => lookup c q
                      | None => None
                      end.
Proof.
  induction p as [|a p IH]; intros n; [reflexivity|].
  cbn [app lookup]. destruct n as [f| |es]; try reflexivity.
  destruct (find_entry es a); [apply IH|reflexivity].
Qed.

(** A name resolves inside the directory its parent path resolves to. *)
Lemma resolve_child (w : world) (r x : string) (q : list string)
  (es : list (string * node)) :
  r <> "" -> valid_name x = true ->
  resolve w r = inl q -> lookup (w_root w) q = Some (Dir es) ->
  resolve w (posixpath.join r x) = inl (q ++ [x]).
Proof.
  intros Hr Hx Hres Hl. destruct (valid_name_inv x Hx) as (H1 & _ & H2 & H3).
  unfold resolve in *.
  destruct (String.eqb_spec r "") as [E|_]; [contradiction|].
  destruct (String.eqb_spec (posixpath.join r x) "") as [E|_].
  { exfalso. apply (join_name_not_empty r x Hr Hx E). }
  rewrite (join_name_startswith r x Hr Hx).
  set (base := if startswith_sep r then [] else w_cwd w) in *.
  assert (Hstep : forall c es', lookup (w_root w) c = Some (Dir es') ->
            namei (w_root w) c [x] = inl (c ++ [x])).
  { intros c es' Hc. cbn [namei]. rewrite Hc.
    destruct (String.eqb_spec x ""); [contradiction|].
    destruct (String.eqb_spec x "."); [contradiction|].
    destruct (String.eqb_spec x ".."); [contradiction|].
    reflexivity. }
  destruct (split_join_name r x Hr Hx) as [[_ E]|(l & El & E)]; rewrite E, namei_app.
  - rewrite Hres. apply (Hstep q es Hl).
  - rewrite El, namei_app in Hres.
    destruct (namei (w_root w) base l) as [c|e]; [|discriminate].
    cbn [namei] in Hres. destruct (lookup (w_root w) c) as [[f| |es']|] eqn:Hc;
      try discriminate.
    cbn [String.eqb orb] in Hres. injection Hres as <-.
    apply (Hstep c es' Hc).
Qed.

Lemma stat_dir (w : world) (r : string) (es : list (string * node)) :
  stat w r = inl (Dir es) ->
  exists q, resolve w r = inl q /\ lookup (w_root w) q = Some (Dir es).
Proof.
  unfold stat. destruct (resolve w r) as [q|e]; [|discriminate].
  destruct (lookup (w_root w) q) as [[f| |es']|] eqn:Hl; try discriminate.
  intros [= <-]. exists q. split; [reflexivity|exact Hl].
Qed.

Lemma stat_child (w : world) (r x : string) (es : list (string * node)) :
  r <> "" -> valid_name x = true -> stat w r = inl (Dir es) ->
  stat w (posixpath.join r x)
  = match find_entry es x with
    | Some Broken | None => inr FileNotFoundError
    | Some c => inl c
    end.
Proof.
  intros Hr Hx Hs. destruct (stat_dir w r es Hs) as (q & Hres & Hl).
  unfold stat. rewrite (resolve_child w r x q es Hr Hx Hres Hl).
  rewrite lookup_app, Hl. cbn [lookup].
  destruct (find_entry es x) as [[f| |es']|]; reflexivity.
Qed.

(** The paths [os.walk] builds below an existing directory name the
    nodes found below it. *)
Lemma stat_below (w : world) (d : string) (n : node) :
  stat w d = inl n -> d <> "" ->
  forall names c,
  Forall (fun x => valid_name x = true) names ->
  lookup n names = Some c -> c <> Broken ->
  stat w (fold_left posixpath.join names d) = inl c
  /\ fold_left posixpath.join names d <> "".
Proof.
  intros Hs Hd names. induction names as [|x names IH] using rev_ind;
    intros c Hv Hl Hc.
  - cbn in *. injection Hl as <-. split; assumption.
  - apply Forall_app in Hv. destruct Hv as [Hv Hx]. inversion Hx as [|? ? Hx' _]; subst.
    rewrite lookup_app in Hl.
    destruct (lookup n names) as [[f| |es]|] eqn:Hp; try discriminate.
    destruct (IH (Dir es) Hv eq_refl ltac:(discriminate)) as [Hsp Hne].
    rewrite fold_left_app. cbn [fold_left]. split.
    + rewrite (stat_child w _ x es Hne Hx' Hsp).
      cbn [lookup] in Hl. destruct (find_entry es x) as [child|]; [|discriminate].
      cbn [lookup] in Hl. injection Hl as ->.
      destruct c; [reflexivity|contradiction|reflexivity].
    + apply join_name_not_empty; assumption.
Qed.

Lemma walk_lists (names : list string) :
  forall n top es,
  lookup n names = Some (Dir es) ->
  In (fold_left posixpath.join names top, dir_names es, file_names es) (walk top n).
Proof.
  induction names as [|c names IH]; intros n top es Hl.
  - cbn in Hl. injection Hl as ->. cbn [walk fold_left]. left. reflexivity.
  - cbn [lookup] in Hl. destruct n as [f| |es0]; try discriminate.
    destruct (find_entry es0 c) as [child|] eqn:Hf; [|discriminate].
    pose proof (IH child (posixpath.join top c) es Hl) as Hin.
    cbn [fold_left walk]. right. clear IH Hl.
    induction es0 as [|[k ch] es0 IHes]; [discriminate|].
    cbn [find_entry] in Hf. destruct (String.eqb_spec k c) as [->|Hk].
    + injection Hf as ->. destruct child as [f| |es1]; [destruct Hin|destruct Hin|].
      apply in_or_app. left. exact Hin.
    + specialize (IHes Hf). destruct ch as [f| |es1]; try exact IHes.
      apply in_or_app. right. exact IHes.
Qed.

Lemma find_file_listed (es : list (string * node)) (x : string) (f : inode) :
  find_entry es x = Some (File f) -> In x (file_names es).
Proof.
  unfold file_names. induction es as [|[k c] es IH]; [discriminate|].
  cbn [find_entry]. destruct (String.eqb_spec k x) as [->|Hk].
  - intros [= ->]. cbn [filter snd map fst]. left. reflexivity.
  - intros Hf. cbn [filter snd]. destruct c; cbn [map fst]; try right; apply IH, Hf.
Qed.

Lemma lookup_valid (names : list string) :
  forall n c, wf_names n = true -> lookup n names = Some c ->
  Forall (fun x => valid_name x = true) names.
Proof.
  induction names as [|x names IH]; intros n c Hwf Hl; [constructor|].
  cbn [lookup] in Hl. destruct n as [f| |es]; try discriminate.
  destruct (find_entry es x) as [child|] eqn:Hf; [|discriminate].
  pose proof (wf_names_dir es Hwf) as Hes.
  assert (Hx : valid_name x = true /\ wf_names child = true).
  { clear Hl Hwf. induction Hes as [|[k ch] es [Hk Hc] _ IHes]; [discriminate|].
    cbn [find_entry] in Hf. destruct (String.eqb_spec k x) as [->|Hne].
    - injection Hf as ->. split; assumption.
    - apply IHes, Hf. }
  destruct Hx as [Hx Hc]. constructor; [exact Hx|]. apply (IH child c Hc Hl).
Qed.

Lemma algorithm_tag_inj (a b : algo) : algorithm_tag a = algorithm_tag b -> a = b.
Proof. destruct a, b; try reflexivity; discriminate. Qed.

Section Completeness.

Context `{HL : Hashlib} `{JL : JsonLib}.

(** A file that can be read to its end, under a name other than
    [output_file], is recorded. *)
Lemma process_file_records (directory_path output_file algorithm root file_name : string)
  (w : world) (f : inode) (a : algo) (rel_path : string) (st : dict * nat) :
  file_name <> output_file ->
  stat w (posixpath.join root file_name) = inl (File f) ->
  readable f = true ->
  algorithm = algorithm_tag a ->
  posixpath.relpath (getcwd w) (posixpath.join root file_name) directory_path
  = Some rel_path ->
  process_file directory_path output_file algorithm root file_name st w
  = Run (inl (dict_set (fst st) rel_path
                (file_record (hex (digest a (i_data f)))
                   (Z.of_nat (List.length (i_data f))) (i_mtime f)),
              S (snd st)))
      w [MsgProcessed rel_path].
Proof.
  intros Hne Hs Hr -> Hrel.
  assert (Hh : calculate_hash (posixpath.join root file_name) (JStr (algorithm_tag a)) w
               = Run (inl (hex (digest a (i_data f)))) w []).
  { rewrite calculate_hash_supported, Hs, Hr.
    unfold readable in Hr. apply andb_true_iff in Hr. destruct Hr as [-> _]. reflexivity. }
  destruct (process_file_run directory_path output_file (algorithm_tag a) root file_name st w)
    as [(E & _)|[(_ & e & o & Eh & _)|[(_ & f' & a' & r' & Hs' & Ea & _ & Hrel' & E)
                                      |(_ & Hrel' & _)]]].
  - contradiction.
  - rewrite Hh in Eh. discriminate.
  - rewrite Hs in Hs'. injection Hs' as <-. apply algorithm_tag_inj in Ea. subst a'.
    rewrite Hrel in Hrel'. injection Hrel' as <-. exact E.
  - rewrite Hrel in Hrel'. discriminate.
Qed.

Lemma scan_processed (directory_path output_file algorithm : string) (w : world)
  (rel_path : string) (root file_name : string) :
  (forall st, exists st',
     process_file directory_path output_file algorithm root file_name st w
     = Run (inl st') w [MsgProcessed rel_path]) ->
  forall triples dirs files,
  In (root, dirs, files) triples -> In file_name files ->
  forall st st' o,
  scan directory_path output_file algorithm triples st w = Run (inl st') w o ->
  In rel_path (processed_paths o).
Proof.
  intros Hone.
  assert (Hin : forall files, In file_name files ->
            forall st st' o,
            for_each files (process_file directory_path output_file algorithm root) st w
            = Run (inl st') w o ->
            In rel_path (processed_paths o)).
  { induction files as [|y files IH]; intros Hy st st' o E; [destruct Hy|].
    cbn [for_each] in E.
    destruct (process_file_total directory_path output_file algorithm root y st w)
      as (st1 & o1 & E1).
    rewrite (bind_ok _ _ _ _ _ _ E1) in E.
    destruct (scan_files_total directory_path output_file algorithm root files st1 w)
      as (st2 & o2 & E2).
    rewrite E2 in E. cbn [result final output] in E. injection E as _ <-.
    rewrite processed_paths_app. apply in_or_app.
    destruct Hy as [->|Hy].
    - left. destruct (Hone st) as [st1' E1']. rewrite E1' in E1. injection E1 as _ <-.
      left. reflexivity.
    - right. apply (IH Hy _ _ _ E2). }
  induction triples as [|t triples IH]; intros dirs files Ht Hf st st' o E; [destruct Ht|].
  unfold scan in E. cbn [for_each] in E.
  destruct (scan_files_total directory_path output_file algorithm (fst (fst t)) (snd t) st w)
    as (st1 & o1 & E1).
  rewrite (bind_ok _ _ _ _ _ _ E1) in E.
  destruct (scan_total directory_path output_file algorithm triples st1 w)
    as (st2 & o2 & E2).
  unfold scan in E2. rewrite E2 in E. cbn [result final output] in E. injection E as _ <-.
  rewrite processed_paths_app. apply in_or_app.
  destruct Ht as [->|Ht].
  - left. cbn [fst snd] in E1. apply (Hin files Hf _ _ _ E1).
  - right. apply (IH dirs files Ht Hf st1 st2 o2). exact E2.
Qed.

Lemma dict_get_in (d : dict) (k : string) :
  In k (dict_keys d) -> exists v, dict_get d k = Some v /\ In (k, v) d.
Proof.
  induction d as [|[k' v'] d IH]; [intros []|].
  cbn [dict_keys map fst In dict_get]. destruct (String.eqb_spec k' k) as [->|Hne].
  - intros _. exists v'. split; [reflexivity|left; reflexivity].
  - intros [E|Hin]; [contradiction|].
    destruct (IH Hin) as (v & Hv & Hi). exists v. split; [exact Hv|right; exact Hi].
Qed.

(** X11: after a build that returns [True] with one of the three algorithms,
    every readable file below the directory whose name is not [output_file]
    has its entry in the manifest, under its relative path. *)
Theorem readable_files_are_listed (w : world)
  (directory_path output_file : string) (a : algo) (n : node)
  (names : list string) (file_name : string) (f : inode) :
  wf_names (w_root w) = true ->
  stat w directory_path = inl n ->
  lookup n (names ++ [file_name]) = Some (File f) ->
  readable f = true ->
  file_name <> output_file ->
  result (create_checksum_file directory_path output_file (algorithm_tag a) w) = inl true ->
  exists p files,
    resolve w output_file = inl p
    /\ final (create_checksum_file directory_path output_file (algorithm_tag a) w)
       = written w p
           (list_byte_of_string
              (json_dumps (checksums_of (w_now w) (algorithm_tag a) directory_path files)))
    /\ dict_get files (join_sep (names ++ [file_name]))
       = Some (file_record (hex (digest a (i_data f)))
                 (Z.of_nat (List.length (i_data f))) (i_mtime f)).
Proof.
  intros Hwf Hs Hl Hr Hne Hres.
  destruct (stat_wf w directory_path n Hwf Hs) as [Hn Hd].
  pose proof (lookup_valid _ _ _ Hn Hl) as Hv.
  pose proof (create_checksum_file_run directory_path output_file (algorithm_tag a) w) as Hrun.
  rewrite Hs in Hrun.
  destruct Hrun as ([files file_count] & o & Esc & Hrun). cbv zeta in Hrun.
  cbn [fst snd] in Hrun.
  destruct Hrun as [(p & Hp & Hw & _ & E)|[(p & _ & _ & _ & E)|(e & _ & E)]];
    [|rewrite E in Hres; discriminate|rewrite E in Hres; discriminate].
  exists p, files. split; [exact Hp|]. split; [rewrite E; reflexivity|].
  (* the file is reached by the walk *)
  pose proof Hl as Hl'. rewrite lookup_app in Hl'.
  destruct (lookup n names) as [[g| |es]|] eqn:Hdir; try discriminate.
  cbn [lookup] in Hl'. destruct (find_entry es file_name) as [child|] eqn:Hf; [|discriminate].
  cbn [lookup] in Hl'. injection Hl' as ->.
  pose proof (walk_lists names n directory_path es Hdir) as Hwalk.
  pose proof (find_file_listed es file_name f Hf) as Hfile.
  (* its path names it *)
  destruct (stat_below w directory_path n Hs Hd (names ++ [file_name]) (File f) Hv Hl
              ltac:(discriminate)) as [Hstat _].
  rewrite fold_left_app in Hstat. cbn [fold_left] in Hstat.
  assert (Hcwd : startswith_sep (getcwd w) = true) by reflexivity.
  destruct (relpath_below (getcwd w) directory_path (names ++ [file_name]) Hcwd Hd
              ltac:(destruct names; discriminate) Hv) as [Hrel Hjoin].
  rewrite fold_left_app in Hrel, Hjoin. cbn [fold_left] in Hrel, Hjoin.
  (* so it is announced, and its key is in the mapping *)
  assert (Hin : In (join_sep (names ++ [file_name])) (processed_paths o)).
  { apply (scan_processed directory_path output_file (algorithm_tag a) w _
             (fold_left posixpath.join names directory_path) file_name)
      with (triples := walk directory_path n) (dirs := dir_names es)
           (files := file_names es) (st := ([], 0)) (st' := (files, file_count));
      try assumption.
    intros st. eexists.
    apply (process_file_records directory_path output_file (algorithm_tag a) _ _ w f a
             _ st Hne Hstat Hr eq_refl Hrel). }
  destruct (scan_counts directory_path output_file (algorithm_tag a) _ _ _ _ _ Esc)
    as [_ Hkeys]. cbn [fst] in Hkeys.
  assert (Hk : In (join_sep (names ++ [file_name])) (dict_keys files)).
  { apply Hkeys. right. exact Hin. }
  destruct (dict_get_in files _ Hk) as (v & Hget & Hmem).
  rewrite Hget. f_equal.
  (* and the record under that key is the record of this file *)
  pose proof (scan_of_directory w directory_path output_file (algorithm_tag a) n _ _
                Hwf Hs Esc) as Hrec.
  cbn [fst] in Hrec. rewrite Forall_forall in Hrec.
  destruct (Hrec _ Hmem) as (names' & file_name' & f' & a' & _ & _ & _ & _ & Hst' & _ & _
                             & Ha & _ & Ejoin & Ev).
  cbn [fst snd] in *. rewrite Hjoin in Ejoin. rewrite <- Ejoin in Hst'.
  rewrite Hstat in Hst'. injection Hst' as <-.
  apply algorithm_tag_inj in Ha. subst a'. exact Ev.
Qed.

End Completeness.

(* ===================================================================== *)
(** * The whole round trip *)
(* ===================================================================== *)

Lemma plain_mtimes_lookup :
  forall p root n,
  plain_mtimes root = true -> lookup root p = Some n -> plain_mtimes n = true.
Proof.
  induction p as [|c p IH]; intros root n Hwf Hl.
  - cbn in Hl. injection Hl as <-. exact Hwf.
  - cbn [lookup] in Hl. destruct root as [f| |es]; try discriminate.
    destruct (find_entry es c) as [child|] eqn:Hf; [|discriminate].
    apply (IH child n); [|exact Hl].
    clear Hl IH. cbn [plain_mtimes] in Hwf.
    induction es as [|[k ch] es IHes]; [discriminate|].
    apply andb_true_iff in Hwf. destruct Hwf as [H1 H2].
    cbn [find_entry] in Hf. destruct (k =? c)%string.
    + injection Hf as <-. exact H1.
    + apply IHes; assumption.
Qed.

Lemma stat_plain_mtime (w : world) (path : string) (f : inode) :
  plain_mtimes (w_root w) = true -> stat w path = inl (File f) ->
  pyjson_text.plain_float (i_mtime f) = true.
Proof.
  intros Hwf. unfold stat. destruct (resolve w path) as [q|e]; [|discriminate].
  destruct (lookup (w_root w) q) as [[g| |es]|] eqn:Hl; try discriminate.
  intros [= <-]. apply (plain_mtimes_lookup q (w_root w) (File g) Hwf Hl).
Qed.

Section WholeRoundTrip.

Context `{HL : Hashlib}.

(** X15: with [json] as the Python library, a manifest built under a bare
    name in a tree of well formed names and plain time stamps verifies at
    once: every entry is confirmed and [verify_integrity] returns [True]. *)
Theorem build_then_verify_passes (w : world)
  (directory_path output_file algorithm : string) (target : option string) :
  wf_names (w_root w) = true ->
  plain_mtimes (w_root w) = true ->
  valid_name output_file = true ->
  target = None \/ target = Some directory_path ->
  let built := @create_checksum_file HL py_json directory_path output_file algorithm w in
  result built = inl true ->
  exists items : dict,
    @verify_integrity HL py_json output_file target (final built)
    = Run (inl true) (final built)
        (heading (JStr directory_path) (JStr algorithm)
         ++ map (fun e => MsgConfirmed (fst e)) items
         ++ summary_lines {| passed := List.length items; failed := 0; missing := 0;
                             total := List.length items |}).
Proof.
  intros Hwf Hm Hout Htarget built Hres.
  apply (@round_trip_bare_name HL py_json w directory_path output_file algorithm target
           Hwf Hout Htarget Hres).
  intros n files file_count o Hs Esc.
  apply pyjson_facts.loads_written. cbn [checksums_of pyjson_text.plain forallb snd andb].
  rewrite andb_true_r. apply forallb_forall. intros entry Hin.
  pose proof (scan_of_directory w directory_path output_file algorithm n _ _
                Hwf Hs Esc) as Hrec.
  cbn [fst] in Hrec. rewrite Forall_forall in Hrec.
  destruct (Hrec _ Hin) as (names & file_name & f & a & _ & _ & _ & _ & Hst & _ & _
                            & _ & _ & _ & Ev).
  rewrite Ev. cbn [file_record pyjson_text.plain forallb snd andb]. rewrite andb_true_r.
  apply (stat_plain_mtime w _ f Hm Hst).
Qed.

End WholeRoundTrip.

Section MoreCreate.

Context `{HL : Hashlib} `{JL : JsonLib}.

(** X9: [create_checksum_file] returns [True] exactly when the directory
    exists, the output file can be opened for writing and every chunk of
    the text of the manifest can be encoded. *)
Theorem build_succeeds_iff (directory_path output_file algorithm : string) (w : world) :
  result (create_checksum_file directory_path output_file algorithm w) = inl true
  <-> exists n files file_count o,
        stat w directory_path = inl n
        /\ scan directory_path output_file algorithm (walk directory_path n) ([], 0) w
           = Run (inl (files, file_count)) w o
        /\ writable w output_file = true
        /\ encodable (json_iterencode
                        (checksums_of (w_now w) algorithm directory_path files)) = true.
Proof.
  pose proof (create_checksum_file_run directory_path output_file algorithm w) as Hrun.
  destruct (stat w directory_path) as [n|e] eqn:Hs.
  - destruct Hrun as ([files file_count] & o & Esc & Hrun). cbv zeta in Hrun.
    cbn [fst snd] in Hrun.
    destruct Hrun as [(p & _ & Hw & He & E)|[(p & _ & Hw & He & E)|(e & Hw & E)]];
      rewrite E; cbn [result].
    + split; [intros _|reflexivity]. exists n, files, file_count, o.
      repeat split; assumption.
    + split; [discriminate|]. intros (n' & files' & c' & o' & Hn & Esc' & _ & He').
      injection Hn as <-. rewrite Esc in Esc'. injection Esc' as <- _ _.
      rewrite He in He'. discriminate.
    + split; [discriminate|]. intros (n' & files' & c' & o' & _ & _ & Hw' & _).
      rewrite Hw in Hw'. discriminate.
  - rewrite Hrun. cbn [result]. split; [discriminate|].
    intros (n & files & c & o & Hn & _). discriminate.
Qed.

(** X13: with an algorithm that is none of the three tags, the build of an
    existing directory still returns [True]: every file but [output_file] is
    reported with [ValueError], and the manifest written has no entry. *)
Theorem unknown_algorithm_builds_nothing (directory_path output_file algorithm : string)
  (w : world) (n : node) :
  algorithm <> "md5" -> algorithm <> "sha1" -> algorithm <> "sha256" ->
  stat w directory_path = inl n ->
  writable w output_file = true ->
  encodable (json_iterencode (checksums_of (w_now w) algorithm directory_path [])) = true ->
  exists p o,
    resolve w output_file = inl p
    /\ create_checksum_file directory_path output_file algorithm w
       = Run (inl true)
           (written w p
              (list_byte_of_string
                 (json_dumps (checksums_of (w_now w) algorithm directory_path []))))
           ([MsgScanning directory_path; MsgRule] ++ o
            ++ [MsgRule; MsgDone 0; MsgSavedTo output_file])
    /\ processed_paths o = []
    /\ forall root dirs files file_name,
         In (root, dirs, files) (walk directory_path n) -> In file_name files ->
         file_name <> output_file ->
         In (MsgProcessError (posixpath.join root file_name) ValueError) o.
Proof.
  intros H1 H2 H3 Hs Hw He.
  assert (Href : forall file_path,
            calculate_hash file_path (JStr algorithm) w = Run (inr ValueError) w []).
  { intros file_path. apply calculate_hash_refuses; congruence. }
  assert (Hone : forall root file_name st,
            process_file directory_path output_file algorithm root file_name st w
            = Run (inl st) w
                (if (file_name =? output_file)%string then [MsgSkipChecksums file_name]
                 else [MsgProcessError (posixpath.join root file_name) ValueError])).
  { intros root file_name st. unfold process_file.
    destruct (file_name =? output_file)%string; [reflexivity|].
    match goal with |- try_except ?c _ _ = _ =>
      assert (Hb : c w = Run (inr ValueError) w [])
        by (apply bind_raise; apply Href)
    end.
    rewrite (try_caught _ _ _ _ _ _ _ Hb eq_refl). reflexivity. }
  assert (Hin : forall root files st,
            exists o1,
              for_each files (process_file directory_path output_file algorithm root) st w
              = Run (inl st) w o1
              /\ processed_paths o1 = []
              /\ forall file_name, In file_name files -> file_name <> output_file ->
                   In (MsgProcessError (posixpath.join root file_name) ValueError) o1).
  { intros root. induction files as [|x files IH]; intros st.
    - exists []. repeat split. intros file_name [].
    - destruct (IH st) as (o2 & E2 & Hp2 & Hall2).
      eexists. cbn [for_each]. rewrite (bind_ok _ _ _ _ _ _ (Hone root x st)), E2.
      cbn [result final output]. split; [reflexivity|]. split.
      + rewrite processed_paths_app, Hp2, app_nil_r.
        destruct (x =? output_file)%string; reflexivity.
      + intros file_name [->|Hf] Hne; apply in_or_app.
        * left. destruct (String.eqb_spec file_name output_file); [contradiction|].
          left. reflexivity.
        * right. apply (Hall2 _ Hf Hne). }
  assert (Hscan : forall triples st,
            exists o1,
              scan directory_path output_file algorithm triples st w = Run (inl st) w o1
              /\ processed_paths o1 = []
              /\ forall root dirs files file_name,
                   In (root, dirs, files) triples -> In file_name files ->
                   file_name <> output_file ->
                   In (MsgProcessError (posixpath.join root file_name) ValueError) o1).
  { unfold scan. induction triples as [|[[root dirs] files] triples IH]; intros st.
    - exists []. repeat split. intros root dirs files file_name [].
    - destruct (Hin root files st) as (o1 & E1 & Hp1 & Hall1).
      destruct (IH st) as (o2 & E2 & Hp2 & Hall2).
      exists (o1 ++ o2). cbn [for_each fst snd]. rewrite (bind_ok _ _ _ _ _ _ E1), E2.
      cbn [result final output]. split; [reflexivity|]. split.
      + rewrite processed_paths_app, Hp1, Hp2. reflexivity.
      + intros r d f x [Ht|Ht] Hx Hne; apply in_or_app.
        * injection Ht as <- _ <-. left. apply (Hall1 _ Hx Hne).
        * right. apply (Hall2 r d f x Ht Hx Hne). }
  destruct (Hscan (walk directory_path n) ([], 0)) as (o & Esc & Hp & Hall).
  destruct (create_checksum_file_writes directory_path output_file algorithm w n Hs)
    as (files & file_count & o' & Esc' & Hc & _ & Hwr & _).
  rewrite Esc in Esc'. injection Esc' as <- <- <-.
  destruct (Hwr Hw He) as (p & Hr & E).
  exists p, o. split; [exact Hr|]. split; [exact E|]. split; [exact Hp|exact Hall].
Qed.

(** X14: the path [os.path.relpath] records for a file below the directory
    is the names joined, and [os.path.join] with the directory gives back
    the path of the file: the path the build hashed is the path the
    verification hashes. *)
Theorem relative_path_round_trip (w : world) (directory_path : string)
  (names : list string) :
  directory_path <> "" -> names <> [] ->
  Forall (fun x => valid_name x = true) names ->
  let file_path := fold_left posixpath.join names directory_path in
  os_path_relpath file_path directory_path w = Run (inl (join_sep names)) w []
  /\ os_path_join (JStr directory_path) (join_sep names) w = Run (inl file_path) w [].
Proof.
  intros Hd Hn Hv file_path.
  assert (Hcwd : startswith_sep (getcwd w) = true) by reflexivity.
  destruct (relpath_below (getcwd w) directory_path names Hcwd Hd Hn Hv) as [Hrel Hjoin].
  split.
  - unfold os_path_relpath, ask. subst file_path. rewrite Hrel. reflexivity.
  - cbn [os_path_join]. rewrite Hjoin. reflexivity.
Qed.

End MoreCreate.

Section BareOutput.

Context `{HL : Hashlib} `{JL : JsonLib}.

(** X12: after a build under a bare name that returns [True], no entry of
    the manifest written is the manifest itself: every entry is a file of
    the tree other than the one written. *)
Theorem bare_output_never_listed (w : world)
  (directory_path output_file algorithm : string) :
  wf_names (w_root w) = true ->
  valid_name output_file = true ->
  result (create_checksum_file directory_path output_file algorithm w) = inl true ->
  exists files,
    final (create_checksum_file directory_path output_file algorithm w)
    = written w (w_cwd w ++ [output_file])
        (list_byte_of_string
           (json_dumps (checksums_of (w_now w) algorithm directory_path files)))
    /\ forall rel_path, In rel_path (dict_keys files) ->
         exists q f,
           resolve w (posixpath.join directory_path rel_path) = inl q
           /\ lookup (w_root w) q = Some (File f)
           /\ q <> w_cwd w ++ [output_file].
Proof.
  intros Hwf Hout Hres.
  pose proof (create_checksum_file_run directory_path output_file algorithm w) as Hrun.
  destruct (stat w directory_path) as [n|e] eqn:Hs.
  2:{ rewrite Hrun in Hres. discriminate. }
  destruct Hrun as ([files file_count] & o & Esc & Hrun). cbv zeta in Hrun.
  cbn [fst snd] in Hrun.
  destruct Hrun as [(p & Hp & Hw & _ & E)|[(p & _ & _ & _ & E)|(e & _ & E)]];
    [|rewrite E in Hres; discriminate|rewrite E in Hres; discriminate].
  pose proof (resolve_name w output_file p Hout Hp) as Ep. subst p.
  exists files. split; [rewrite E; reflexivity|].
  intros rel_path Hin.
  pose proof (scan_of_directory w directory_path output_file algorithm n _ _ Hwf Hs Esc)
    as Hrec. cbn [fst] in Hrec. rewrite Forall_forall in Hrec.
  unfold dict_keys in Hin. apply in_map_iff in Hin. destruct Hin as ([k v] & <- & Hin).
  apply (recorded_elsewhere w directory_path output_file algorithm _ (k, v) Hout Hp
           (Hrec _ Hin)).
Qed.

End BareOutput.

(* ===================================================================== *)

(** * Properties of the shell *)

(* ===================================================================== *)

Lemma sbind_ok {A B} (c : Sh A) (k : A -> Sh B) s a s' o :
  c s = ShellRun (inl a) s' o ->
  sbind c k s = ShellRun (s_result (k a s')) (s_final (k a s')) (o ++ s_output (k a s')).
Proof. intros E. unfold sbind. rewrite E. reflexivity. Qed.

Lemma sbind_raise {A B} (c : Sh A) (k : A -> Sh B) s e s' o :
  c s = ShellRun (inr e) s' o -> sbind c k s = ShellRun (inr e) s' o.
Proof. intros E. unfold sbind. rewrite E. reflexivity. Qed.

Lemma tame_sret {A} (a : A) : tame (sret a).
Proof. intros s. split; [apply le_n|discriminate]. Qed.

Lemma tame_say (m : shell_message) : tame (say m).
Proof. intros s. split; [apply le_n|discriminate]. Qed.

Lemma tame_input (p : prompt) : tame (input p).
Proof.
  intros s. unfold input. destruct (c_stdin s) as [|line rest] eqn:E; cbn [s_final s_result].
  - rewrite E. split; [apply le_n|]. intros e [= <-]. reflexivity.
  - cbn [c_stdin List.length]. split; [lia|discriminate].
Qed.

Lemma tame_core {A} (c : M A) : tame (core c).
Proof.
  intros s. unfold core. cbn [s_final s_result c_stdin]. split; [apply le_n|].
  intros e. destruct (result (c (c_world s))); [discriminate|]. intros [= <-]. reflexivity.
Qed.

Lemma tame_sbind {A B} (c : Sh A) (k : A -> Sh B) :
  tame c -> (forall a, tame (k a)) -> tame (sbind c k).
Proof.
  intros Hc Hk s. unfold sbind. destruct (Hc s) as [Hl He].
  destruct (s_result (c s)) as [a|e] eqn:E; cbn [s_final s_result].
  - destruct (Hk a (s_final (c s))) as [Hl' He']. split; [lia|exact He'].
  - split; [exact Hl|]. intros e' [= <-]. apply He. reflexivity.
Qed.

Lemma tame_stry {A} (c : Sh A) handlers :
  tame c -> (forall e h, handlers e = Some h -> tame h) -> tame (stry c handlers).
Proof.
  intros Hc Hh s. unfold stry. destruct (Hc s) as [Hl He].
  destruct (s_result (c s)) as [a|e] eqn:E.
  - split; [exact Hl|]. rewrite E. discriminate.
  - destruct (handlers e) as [h|] eqn:Eh.
    + cbn [s_final s_result]. destruct (Hh e h Eh (s_final (c s))) as [Hl' He'].
      split; [lia|exact He'].
    + split; [exact Hl|]. rewrite E. intros e' [= <-]. apply He. reflexivity.
Qed.

Lemma steady_sret {A} (a : A) : steady (sret a).
Proof. intros s. reflexivity. Qed.

Lemma steady_say (m : shell_message) : steady (say m).
Proof. intros s. reflexivity. Qed.

Lemma steady_input (p : prompt) : steady (input p).
Proof. intros s. unfold input. destruct (c_stdin s); reflexivity. Qed.

Lemma steady_core {A} (c : M A) : reader c -> steady (core c).
Proof. intros Hc s. unfold core. cbn [s_final c_world]. apply Hc. Qed.

Lemma steady_sbind {A B} (c : Sh A) (k : A -> Sh B) :
  steady c -> (forall a, steady (k a)) -> steady (sbind c k).
Proof.
  intros Hc Hk s. unfold sbind. destruct (s_result (c s)) as [a|e]; cbn [s_final].
  - rewrite Hk. apply Hc.
  - apply Hc.
Qed.

Lemma steady_stry {A} (c : Sh A) handlers :
  steady c -> (forall e h, handlers e = Some h -> steady h) -> steady (stry c handlers).
Proof.
  intros Hc Hh s. unfold stry. destruct (s_result (c s)) as [a|e]; [apply Hc|].
  destruct (handlers e) as [h|] eqn:Eh; [|apply Hc].
  cbn [s_final]. rewrite (Hh e h Eh). apply Hc.
Qed.

Lemma eof_only_sret {A} (a : A) : eof_only (sret a).
Proof. intros s e. discriminate. Qed.

Lemma eof_only_say (m : shell_message) : eof_only (say m).
Proof. intros s e. discriminate. Qed.

Lemma eof_only_input (p : prompt) : eof_only (input p).
Proof.
  intros s e. unfold input. destruct (c_stdin s) eqn:E; [|discriminate].
  cbn [s_result s_final]. intros [= <-]. split; [reflexivity|exact E].
Qed.

Lemma eof_only_sbind {A B} (c : Sh A) (k : A -> Sh B) :
  eof_only c -> (forall a, eof_only (k a)) -> eof_only (sbind c k).
Proof.
  intros Hc Hk s e. unfold sbind. destruct (s_result (c s)) as [a|e'] eqn:E;
    cbn [s_final s_result].
  - apply Hk.
  - intros [= <-]. apply Hc, E.
Qed.

(** A call of the core that never raises. *)
Lemma eof_only_core {A} (c : M A) :
  (forall w, exists a, result (c w) = inl a) -> eof_only (core c).
Proof.
  intros Hc s e. unfold core. cbn [s_result]. destruct (Hc (c_world s)) as [a ->].
  discriminate.
Qed.

(** A [try] whose clause takes every exception proper, around a body
    that raises nothing else, never raises. *)
Lemma stry_returns {A} (c : Sh A) (report : shell_exn -> shell_message) (a : A) s :
  tame c ->
  exists x,
    s_result (stry c (fun e => if is_exception e
                               then Some (say (report e) ;~ sret a) else None) s)
    = inl x.
Proof.
  intros Hc. unfold stry. destruct (Hc s) as [_ He].
  destruct (s_result (c s)) as [x|e] eqn:E; [exists x; exact E|].
  rewrite (He e eq_refl). cbn [s_result]. exists a. reflexivity.
Qed.

Section ShellRuns.

Context `{HL : Hashlib} `{JL : JsonLib}.

Lemma show_menu_run (s : console) :
  show_menu s
  = match c_stdin s with
    | line :: rest =>
        ShellRun (inl (strip line)) {| c_world := c_world s; c_stdin := rest |}
          (menu_lines ++ [Asked AskChoice])
    | [] => ShellRun (inr EOFError) s (menu_lines ++ [Asked AskChoice])
    end.
Proof. destruct s as [w [|line rest]]; reflexivity. Qed.

Lemma create_checksum_file_returns (directory_path output_file algorithm : string)
  (w : world) :
  exists b, result (create_checksum_file directory_path output_file algorithm w) = inl b.
Proof.
  pose proof (create_checksum_file_run directory_path output_file algorithm w) as Hrun.
  destruct (stat w directory_path) as [n|e].
  - destruct Hrun as (st & o & _ & Hrun). cbv zeta in Hrun.
    destruct Hrun as [(p & _ & _ & _ & E)|[(p & _ & _ & _ & E)|(e & _ & E)]];
      rewrite E; eexists; reflexivity.
  - rewrite Hrun. eexists. reflexivity.
Qed.

Lemma verify_integrity_returns (checksum_file : string) (target : option string)
  (w : world) :
  exists b, result (verify_integrity checksum_file target w) = inl b.
Proof.
  destruct (verify_integrity_cases checksum_file target w)
    as [(text & checksums & dir & algorithm & items & vr & out & _ & _ & _ & _ & _ & E & _)
       |[E _]]; rewrite E; eexists; reflexivity.
Qed.

Lemma reader_verify_integrity (checksum_file : string) (target : option string) :
  reader (verify_integrity checksum_file target).
Proof.
  intros w.
  destruct (verify_integrity_cases checksum_file target w)
    as [(text & checksums & dir & algorithm & items & vr & out & _ & _ & _ & _ & _ & E & _)
       |[E _]]; rewrite E; reflexivity.
Qed.

Lemma reader_os_path_exists (path : string) : reader (os_path_exists path).
Proof. apply silent_reader, silent_os_path_exists. Qed.

Lemma reader_os_path_getsize (path : string) : reader (os_path_getsize path).
Proof. apply reader_ask. Qed.

Ltac shell_step :=
  first
    [ apply tame_sbind; [|intros ?] | apply tame_sret | apply tame_say
    | apply tame_input | apply tame_core
    | apply steady_sbind; [|intros ?] | apply steady_sret | apply steady_say
    | apply steady_input
    | apply eof_only_sbind; [|intros ?] | apply eof_only_sret | apply eof_only_say
    | apply eof_only_input ].

Lemma tame_show_menu : tame show_menu.
Proof. unfold show_menu. repeat shell_step. Qed.

Lemma steady_show_menu : steady show_menu.
Proof. unfold show_menu. repeat shell_step. Qed.

Lemma eof_only_show_menu : eof_only show_menu.
Proof. unfold show_menu. repeat shell_step. Qed.

Lemma tame_report_file (file_path algorithm : string) :
  tame (report_file file_path algorithm).
Proof.
  unfold report_file. repeat shell_step.
  match goal with |- context [if ?b then _ else _] => destruct b end;
    repeat shell_step.
  match goal with |- context [if ?b then _ else _] => destruct b end;
    repeat shell_step.
Qed.

Lemma steady_report_file (file_path algorithm : string) :
  steady (report_file file_path algorithm).
Proof.
  unfold report_file.
  apply steady_sbind; [apply steady_core, reader_calculate_hash|intros ?].
  apply steady_sbind; [apply steady_core, reader_os_path_getsize|intros ?].
  repeat shell_step.
  match goal with |- context [if ?b then _ else _] => destruct b end;
    repeat shell_step.
  match goal with |- context [if ?b then _ else _] => destruct b end;
    repeat shell_step.
Qed.

Lemma check_single_file_unfold :
  check_single_file
  = (line <~ input AskFilePath ;;
     let file_path := strip line in
     found <~ core (os_path_exists file_path) ;;
     if negb found then
       say (ShFileNotFound file_path)
     else
       say ShAlgorithmsHeader ;~
       say ShOptionMD5 ;~
       say ShOptionSHA1 ;~
       say ShOptionSHA256 ;~
       line <~ input AskAlgorithm ;;
       stry (report_file file_path (algorithm_of (strip line)))
         (fun e => if is_exception e then Some (say (ShError e)) else None)).
Proof. reflexivity. Qed.

Lemma tame_check_single_file : tame check_single_file.
Proof.
  rewrite check_single_file_unfold. repeat shell_step.
  match goal with |- context [if ?b then _ else _] => destruct b end;
    repeat shell_step.
  apply tame_stry; [apply tame_report_file|].
  intros e h. destruct (is_exception e); [|discriminate]. intros [= <-]. apply tame_say.
Qed.

Lemma steady_check_single_file : steady check_single_file.
Proof.
  rewrite check_single_file_unfold. repeat shell_step.
  1: apply steady_core, reader_os_path_exists.
  match goal with |- context [if ?b then _ else _] => destruct b end;
    repeat shell_step.
  apply steady_stry; [apply steady_report_file|].
  intros e h. destruct (is_exception e); [|discriminate]. intros [= <-]. apply steady_say.
Qed.

Lemma eof_only_check_single_file : eof_only check_single_file.
Proof.
  rewrite check_single_file_unfold. repeat shell_step.
  1:{ apply eof_only_core. intros w. unfold os_path_exists, ask.
      destruct (stat w _); eexists; reflexivity. }
  match goal with |- context [if ?b then _ else _] => destruct b end;
    repeat shell_step.
  intros s e. unfold stry.
  match goal with |- context [report_file ?p ?al s] =>
    destruct (tame_report_file p al s) as [_ He];
    destruct (s_result (report_file p al s)) as [x|e'] eqn:E
  end; [rewrite E; discriminate|].
  rewrite (He e' eq_refl). discriminate.
Qed.

Lemma tame_create_command : tame create_command.
Proof. unfold create_command. repeat shell_step. Qed.

Lemma eof_only_create_command : eof_only create_command.
Proof.
  unfold create_command. repeat shell_step.
  apply eof_only_core. intros w. apply create_checksum_file_returns.
Qed.

Lemma tame_verify_command : tame verify_command.
Proof.
  unfold verify_command. repeat shell_step.
  match goal with |- context [if ?b then _ else _] => destruct b end; apply tame_core.
Qed.

Lemma steady_verify_command : steady verify_command.
Proof.
  unfold verify_command. repeat shell_step.
  match goal with |- context [if ?b then _ else _] => destruct b end;
    apply steady_core, reader_verify_integrity.
Qed.

Lemma eof_only_verify_command : eof_only verify_command.
Proof.
  unfold verify_command. repeat shell_step.
  match goal with |- context [if ?b then _ else _] => destruct b end;
    apply eof_only_core; intros w; apply verify_integrity_returns.
Qed.

Lemma turn_unfold : turn = (choice <~ show_menu ;; dispatch choice).
Proof. reflexivity. Qed.

Lemma tame_dispatch (choice : string) : tame (dispatch choice).
Proof.
  unfold dispatch.
  repeat (match goal with |- context [if ?b then _ else _] => destruct b end);
    (apply tame_sbind; [|intros ?; apply tame_sret]);
    first [apply tame_create_command|apply tame_verify_command
          |apply tame_check_single_file|apply tame_say].
Qed.

Lemma eof_only_dispatch (choice : string) : eof_only (dispatch choice).
Proof.
  unfold dispatch.
  repeat (match goal with |- context [if ?b then _ else _] => destruct b end);
    (apply eof_only_sbind; [|intros ?; apply eof_only_sret]);
    first [apply eof_only_create_command|apply eof_only_verify_command
          |apply eof_only_check_single_file|apply eof_only_say].
Qed.

End ShellRuns.

Section MainLoop.

Context `{HL : Hashlib} `{JL : JsonLib}.

Lemma turn_run (s : console) :
  turn s
  = match c_stdin s with
    | line :: rest =>
        let r := dispatch (strip line) {| c_world := c_world s; c_stdin := rest |} in
        ShellRun (s_result r) (s_final r)
          ((menu_lines ++ [Asked AskChoice]) ++ s_output r)
    | [] => ShellRun (inr EOFError) s (menu_lines ++ [Asked AskChoice])
    end.
Proof.
  rewrite turn_unfold. unfold sbind. rewrite show_menu_run.
  destruct (c_stdin s) as [|line rest]; reflexivity.
Qed.

Lemma turn_shrinks (s : console) (b : bool) :
  s_result (turn s) = inl b ->
  List.length (c_stdin (s_final (turn s))) < List.length (c_stdin s).
Proof.
  rewrite turn_run. destruct (c_stdin s) as [|line rest]; [discriminate|].
  cbv zeta. cbn [s_result s_final]. intros _.
  destruct (tame_dispatch (strip line) {| c_world := c_world s; c_stdin := rest |})
    as [Hl _].
  cbn [c_stdin List.length] in *. lia.
Qed.

Lemma eof_only_turn : eof_only turn.
Proof.
  rewrite turn_unfold. apply eof_only_sbind; [apply eof_only_show_menu|].
  apply eof_only_dispatch.
Qed.

(** One turn of the loop and the [input] that follows it. *)
Lemma main_loop_step (fuel : nat) (s : console) :
  main_loop (S fuel) s
  = match s_result (turn s) with
    | inl true =>
        match c_stdin (s_final (turn s)) with
        | line :: rest =>
            let r := main_loop fuel {| c_world := c_world (s_final (turn s));
                                       c_stdin := rest |} in
            ShellRun (s_result r) (s_final r)
              (s_output (turn s) ++ [Asked AskEnter] ++ s_output r)
        | [] => ShellRun (inr EOFError) (s_final (turn s))
                  (s_output (turn s) ++ [Asked AskEnter])
        end
    | inl false => ShellRun (inl tt) (s_final (turn s)) (s_output (turn s) ++ [])
    | inr e => ShellRun (inr e) (s_final (turn s)) (s_output (turn s))
    end.
Proof.
  cbn [main_loop]. unfold sbind at 1.
  destruct (s_result (turn s)) as [[|]|e]; try reflexivity.
  unfold sbind, input. destruct (c_stdin (s_final (turn s))) as [|line rest]; reflexivity.
Qed.

(** The loop does not depend on its fuel, once there is more of it than
    lines to read. *)
Lemma main_loop_fuel :
  forall fuel1 fuel2 s,
  List.length (c_stdin s) < fuel1 -> List.length (c_stdin s) < fuel2 ->
  main_loop fuel1 s = main_loop fuel2 s.
Proof.
  induction fuel1 as [|fuel1 IH]; intros fuel2 s H1 H2; [lia|].
  destruct fuel2 as [|fuel2]; [lia|].
  rewrite !main_loop_step.
  destruct (s_result (turn s)) as [[|]|e] eqn:E; try reflexivity.
  pose proof (turn_shrinks s true E) as Hs.
  destruct (c_stdin (s_final (turn s))) as [|line rest]; [reflexivity|].
  cbn [List.length] in Hs. cbv zeta.
  rewrite (IH fuel2); [reflexivity| |]; cbn [c_stdin]; lia.
Qed.

(** How the loop ends, on any input: by the choice 4, after the farewell,
    or by [EOFError] when the input runs out. *)
Lemma main_loop_ends :
  forall fuel s,
  List.length (c_stdin s) < fuel ->
  (s_result (main_loop fuel s) = inl tt
   /\ exists o, s_output (main_loop fuel s) = o ++ [ShGoodbye])
  \/ (s_result (main_loop fuel s) = inr EOFError
      /\ c_stdin (s_final (main_loop fuel s)) = []).
Proof.
  induction fuel as [|fuel IH]; intros s Hf; [lia|].
  rewrite main_loop_step.
  destruct (s_result (turn s)) as [[|]|e] eqn:E.
  - pose proof (turn_shrinks s true E) as Hs.
    destruct (c_stdin (s_final (turn s))) as [|line rest] eqn:Ein.
    + right. split; [reflexivity|exact Ein].
    + cbn [List.length] in Hs. cbv zeta. cbn [s_result s_final s_output].
      destruct (IH {| c_world := c_world (s_final (turn s)); c_stdin := rest |})
        as [[Hr [o Ho]]|[Hr Hin]]; [cbn [c_stdin]; lia| |].
      * left. split; [exact Hr|]. rewrite Ho.
        exists (s_output (turn s) ++ [Asked AskEnter] ++ o).
        rewrite <- !app_assoc. reflexivity.
      * right. split; assumption.
  - left. split; [reflexivity|]. cbn [s_output]. rewrite app_nil_r.
    rewrite turn_run in E |- *. destruct (c_stdin s) as [|line rest]; [discriminate|].
    cbv zeta in *. cbn [s_result s_final s_output] in *.
    set (s1 := {| c_world := c_world s; c_stdin := rest |}) in *.
    unfold dispatch in *.
    assert (Hcmd : forall (c : Sh unit), s_result ((c ;~ sret true) s1) <> inl false).
    { intros c. unfold sbind. destruct (s_result (c s1)); discriminate. }
    destruct (strip line =? "1")%string; [exfalso; apply (Hcmd _ E)|].
    destruct (strip line =? "2")%string; [exfalso; apply (Hcmd _ E)|].
    destruct (strip line =? "3")%string; [exfalso; apply (Hcmd _ E)|].
    destruct (strip line =? "4")%string; [|exfalso; apply (Hcmd _ E)].
    exists (menu_lines ++ [Asked AskChoice]). reflexivity.
  - right. destruct (eof_only_turn s e E) as [-> Hin]. split; [reflexivity|exact Hin].
Qed.

(** X16: [main] ends on every input, and the fuel of the loop is enough:
    it returns after the farewell of choice 4, or it raises [EOFError] when
    the input is exhausted. *)
Theorem main_ends (s : console) :
  (forall fuel, List.length (c_stdin s) < fuel ->
     (say ShWelcome ;~ main_loop fuel) s = main s)
  /\ ((s_result (main s) = inl tt
       /\ exists o, s_output (main s) = o ++ [ShGoodbye])
      \/ (s_result (main s) = inr EOFError
          /\ c_stdin (s_final (main s)) = [])).
Proof.
  split.
  - intros fuel Hf. unfold main, sbind. cbn [say s_result s_final s_output].
    rewrite (main_loop_fuel fuel (S (List.length (c_stdin s))) s Hf (Nat.lt_succ_diag_r _)).
    reflexivity.
  - unfold main, sbind. cbn [say s_result s_final s_output].
    destruct (main_loop_ends (S (List.length (c_stdin s))) s (Nat.lt_succ_diag_r _))
      as [[Hr [o Ho]]|[Hr Hin]].
    + left. split; [exact Hr|]. exists (ShWelcome :: o). rewrite Ho. reflexivity.
    + right. split; assumption.
Qed.

(** X17: the script ends normally after the farewell, or it reports a
    critical error and exits with status 1 when the input runs out. *)
Theorem script_status (s : console) :
  (s_result (script s) = inl tt
   /\ s_output (script s) = s_output (main s)
   /\ exists o, s_output (main s) = o ++ [ShGoodbye])
  \/ (s_result (script s) = inr (SystemExit 1)
      /\ s_output (script s) = s_output (main s) ++ [ShCritical EOFError]
      /\ c_stdin (s_final (script s)) = []).
Proof.
  destruct (main_loop_ends (S (List.length (c_stdin s))) s (Nat.lt_succ_diag_r _))
    as [[Hr Ho]|[Hr Hin]].
  - assert (Hm : s_result (main s) = inl tt).
    { unfold main, sbind. cbn [say s_result s_final s_output]. exact Hr. }
    left. unfold script, stry. rewrite Hm. split; [exact Hm|]. split; [reflexivity|].
    destruct Ho as [o Ho]. exists (ShWelcome :: o).
    unfold main, sbind. cbn [say s_result s_final s_output]. rewrite Ho. reflexivity.
  - assert (Hm : s_result (main s) = inr EOFError
                 /\ c_stdin (s_final (main s)) = []).
    { unfold main, sbind. cbn [say s_result s_final s_output]. split; assumption. }
    destruct Hm as [Hm Hin']. right. unfold script, stry. rewrite Hm.
    cbn [is_exception]. unfold sbind, say, sraise. cbn [s_result s_final s_output].
    split; [reflexivity|]. split; [reflexivity|exact Hin'].
Qed.

End MainLoop.

Section ShellOutcomes.

Context `{HL : Hashlib} `{JL : JsonLib}.

Lemma algorithm_tag_algo_of (algo_choice : string) :
  algorithm_tag (algo_of algo_choice) = algorithm_of algo_choice.
Proof.
  unfold algo_of, algorithm_of.
  destruct (_ =? "1")%string; [reflexivity|]. destruct (_ =? "2")%string; reflexivity.
Qed.

Lemma input_asks (p : prompt) (s : console) : In (Asked p) (s_output (input p s)).
Proof. unfold input. destruct (c_stdin s); left; reflexivity. Qed.

Lemma create_command_asks (s : console) :
  In (Asked AskDirectory) (s_output (create_command s)).
Proof.
  unfold create_command. unfold sbind at 1.
  destruct (s_result (input AskDirectory s)); cbn [s_output];
    [apply in_or_app; left|]; apply input_asks.
Qed.

Lemma steady_dispatch (choice : string) (s : console) :
  ~ In (Asked AskDirectory) (s_output (dispatch choice s)) ->
  c_world (s_final (dispatch choice s)) = c_world s.
Proof.
  unfold dispatch.
  destruct (choice =? "1")%string.
  { intros Hn. exfalso. apply Hn. unfold sbind.
    pose proof (create_command_asks s) as Ha.
    destruct (s_result (create_command s)); cbn [s_output]; [|exact Ha].
    apply in_or_app. left. exact Ha. }
  intros _.
  destruct (choice =? "2")%string.
  { apply steady_sbind; [apply steady_verify_command|intros; apply steady_sret]. }
  destruct (choice =? "3")%string.
  { apply steady_sbind; [apply steady_check_single_file|intros; apply steady_sret]. }
  destruct (choice =? "4")%string; reflexivity.
Qed.

Lemma steady_turn (s : console) :
  ~ In (Asked AskDirectory) (s_output (turn s)) ->
  c_world (s_final (turn s)) = c_world s.
Proof.
  rewrite turn_run. destruct (c_stdin s) as [|line rest]; [reflexivity|].
  cbv zeta. cbn [s_final s_output]. intros Hn.
  rewrite steady_dispatch; [reflexivity|].
  intros Hin. apply Hn. apply in_or_app. right. exact Hin.
Qed.

Lemma steady_main_loop :
  forall fuel s,
  ~ In (Asked AskDirectory) (s_output (main_loop fuel s)) ->
  c_world (s_final (main_loop fuel s)) = c_world s.
Proof.
  induction fuel as [|fuel IH]; intros s; [reflexivity|].
  rewrite main_loop_step.
  destruct (s_result (turn s)) as [[|]|e].
  - destruct (c_stdin (s_final (turn s))) as [|line rest].
    + cbn [s_final s_output]. intros Hn. apply steady_turn.
      intros Hin. apply Hn. apply in_or_app. left. exact Hin.
    + cbv zeta. cbn [s_final s_output]. intros Hn.
      rewrite IH.
      * cbn [c_world]. apply steady_turn.
        intros Hin. apply Hn. apply in_or_app. left. exact Hin.
      * intros Hin. apply Hn. apply in_or_app. right. right. exact Hin.
  - cbn [s_final s_output]. intros Hn. apply steady_turn.
    intros Hin. apply Hn. apply in_or_app. left. exact Hin.
  - cbn [s_final s_output]. apply steady_turn.
Qed.

(** X18: a session in which the directory of choice 1 is never asked for
    leaves the file system as it was: only choice 1 writes. *)
Theorem main_changes_nothing_unasked (s : console) :
  ~ In (Asked AskDirectory) (s_output (main s)) ->
  c_world (s_final (main s)) = c_world s.
Proof.
  unfold main, sbind. cbn [say s_result s_final s_output]. intros Hn.
  apply steady_main_loop. intros Hin. apply Hn. right. exact Hin.
Qed.

Lemma input_line (p : prompt) (s : console) (line : string) (rest : list string) :
  c_stdin s = line :: rest ->
  input p s = ShellRun (inl line) {| c_world := c_world s; c_stdin := rest |} [Asked p].
Proof. intros E. unfold input. rewrite E. reflexivity. Qed.

Lemma core_run {A} (c : M A) (w : world) (stdin : list string) (a : A) (w' : world)
  (o : list message) :
  c w = Run (inl a) w' o ->
  core c {| c_world := w; c_stdin := stdin |}
  = ShellRun (inl a) {| c_world := w'; c_stdin := stdin |} (map Said o).
Proof. intros E. unfold core. cbn [c_world c_stdin]. rewrite E. reflexivity. Qed.

Lemma sbind_say {A} (m : shell_message) (k : Sh A) (s : console) :
  (say m ;~ k) s = ShellRun (s_result (k s)) (s_final (k s)) (m :: s_output (k s)).
Proof. reflexivity. Qed.

Lemma os_path_exists_run (path : string) (w : world) :
  os_path_exists path w
  = Run (inl (match stat w path with inl _ => true | inr _ => false end)) w [].
Proof. unfold os_path_exists, ask. destruct (stat w path); reflexivity. Qed.

(** X19: [check_single_file] on a path that does not exist prints that the
    file was not found and returns, without asking for an algorithm. *)
Theorem check_single_file_missing (s : console) (line : string) (rest : list string)
  (e : exn) :
  c_stdin s = line :: rest ->
  stat (c_world s) (strip line) = inr e ->
  check_single_file s
  = ShellRun (inl tt) {| c_world := c_world s; c_stdin := rest |}
      [Asked AskFilePath; ShFileNotFound (strip line)].
Proof.
  intros Hin Hs. rewrite check_single_file_unfold.
  rewrite (sbind_ok _ _ _ _ _ _ (input_line AskFilePath s line rest Hin)). cbv beta zeta.
  rewrite (sbind_ok _ _ _ _ _ _
             (core_run _ _ rest _ _ _ (os_path_exists_run (strip line) (c_world s)))).
  rewrite Hs. reflexivity.
Qed.

(** A [try] whose clause reports every exception proper, around a body
    that raises nothing else, never raises. *)
Lemma stry_say_returns (c : Sh unit) (report : shell_exn -> shell_message) (s : console) :
  tame c ->
  s_result (stry c (fun e => if is_exception e then Some (say (report e)) else None) s)
  = inl tt.
Proof.
  intros Hc. unfold stry. destruct (Hc s) as [_ He].
  destruct (s_result (c s)) as [[]|e] eqn:E; [exact E|].
  rewrite (He e eq_refl). reflexivity.
Qed.

(** X20: [check_single_file] changes nothing; with two lines of input at
    least it returns, whatever the file is; and the only exception it lets
    through is the [EOFError] of its first two calls of [input]. *)
Theorem check_single_file_never_fails (s : console) :
  c_world (s_final (check_single_file s)) = c_world s
  /\ (2 <= List.length (c_stdin s) -> s_result (check_single_file s) = inl tt)
  /\ (forall e, s_result (check_single_file s) = inr e ->
        e = EOFError /\ c_stdin (s_final (check_single_file s)) = []).
Proof.
  split; [apply steady_check_single_file|]. split; [|apply eof_only_check_single_file].
  intros Hl. destruct (c_stdin s) as [|l1 [|l2 rest]] eqn:Hin;
    try (cbn [List.length] in Hl; lia).
  rewrite check_single_file_unfold.
  rewrite (sbind_ok _ _ _ _ _ _ (input_line AskFilePath s l1 _ Hin)). cbv beta zeta.
  rewrite (sbind_ok _ _ _ _ _ _
             (core_run _ _ (l2 :: rest) _ _ _ (os_path_exists_run (strip l1) (c_world s)))).
  cbn [s_result].
  destruct (stat (c_world s) (strip l1)); cbn [negb]; [|reflexivity].
  rewrite !sbind_say. cbn [s_result].
  rewrite (sbind_ok _ _ _ _ _ _
             (input_line AskAlgorithm {| c_world := c_world s; c_stdin := l2 :: rest |}
                l2 rest eq_refl)).
  cbn [s_result]. apply stry_say_returns, tame_report_file.
Qed.

(** X21: on a readable file, [check_single_file] prints the size and the
    digest of the chosen algorithm, and after the answer y it compares the
    digest with the text typed, as it is: a text with a character that is
    not a lower case hexadecimal digit is reported as different. *)
Theorem check_single_file_compares (s : console)
  (path choice answer known : string) (rest : list string) (f : inode) :
  c_stdin s = path :: choice :: answer :: known :: rest ->
  stat (c_world s) (strip path) = inl (File f) ->
  readable f = true ->
  lower (strip answer) = "y" ->
  let file_hash := hex (digest (algo_of (strip choice)) (i_data f)) in
  check_single_file s
  = ShellRun (inl tt) {| c_world := c_world s; c_stdin := rest |}
      [Asked AskFilePath; ShAlgorithmsHeader; ShOptionMD5; ShOptionSHA1;
       ShOptionSHA256; Asked AskAlgorithm; ShBlankDoubleRule; ShFile (strip path);
       ShSize (Z.of_nat (List.length (i_data f)));
       ShAlgorithm (upper (algorithm_of (strip choice))); ShHash file_hash;
       ShDoubleRule; Asked AskCompare; Asked AskKnownHash;
       if (file_hash =? strip known)%string then ShHashesMatch else ShHashesDiffer]
  /\ ((exists c, In c (list_ascii_of_string (strip known)) /\ lowercase_hex c = false) ->
      (file_hash =? strip known)%string = false).
Proof.
  intros Hin Hs Hr Hy file_hash. split.
  - assert (Hh : calculate_hash (strip path) (JStr (algorithm_of (strip choice))) (c_world s)
                 = Run (inl file_hash) (c_world s) []).
    { rewrite <- algorithm_tag_algo_of, calculate_hash_supported, Hs, Hr.
      unfold readable in Hr. apply andb_true_iff in Hr. destruct Hr as [-> _].
      reflexivity. }
    assert (Hsize : os_path_getsize (strip path) (c_world s)
                    = Run (inl (Z.of_nat (List.length (i_data f)))) (c_world s) []).
    { unfold os_path_getsize, ask. rewrite Hs. reflexivity. }
    assert (Hbody : report_file (strip path) (algorithm_of (strip choice))
                      {| c_world := c_world s; c_stdin := answer :: known :: rest |}
                    = ShellRun (inl tt) {| c_world := c_world s; c_stdin := rest |}
                        [ShBlankDoubleRule; ShFile (strip path);
                         ShSize (Z.of_nat (List.length (i_data f)));
                         ShAlgorithm (upper (algorithm_of (strip choice)));
                         ShHash file_hash; ShDoubleRule; Asked AskCompare;
                         Asked AskKnownHash;
                         if (file_hash =? strip known)%string
                         then ShHashesMatch else ShHashesDiffer]).
    { unfold report_file.
      rewrite (sbind_ok _ _ _ _ _ _ (core_run _ _ _ _ _ _ Hh)).
      rewrite (sbind_ok _ _ _ _ _ _ (core_run _ _ _ _ _ _ Hsize)).
      rewrite !sbind_say.
      rewrite (sbind_ok _ _ _ _ _ _
                 (input_line AskCompare
                    {| c_world := c_world s; c_stdin := answer :: known :: rest |}
                    answer (known :: rest) eq_refl)).
      cbv beta zeta. rewrite Hy. cbn [String.eqb Ascii.eqb Bool.eqb].
      rewrite (sbind_ok _ _ _ _ _ _
                 (input_line AskKnownHash
                    {| c_world := c_world s; c_stdin := known :: rest |}
                    known rest eq_refl)).
      cbv beta zeta. cbn [c_world c_stdin].
      destruct (file_hash =? strip known)%string; reflexivity. }
    rewrite check_single_file_unfold.
    rewrite (sbind_ok _ _ _ _ _ _ (input_line AskFilePath s path _ Hin)). cbv beta zeta.
    rewrite (sbind_ok _ _ _ _ _ _
               (core_run _ _ _ _ _ _ (os_path_exists_run (strip path) (c_world s)))).
    rewrite Hs. cbn [negb]. rewrite !sbind_say.
    rewrite (sbind_ok _ _ _ _ _ _
               (input_line AskAlgorithm
                  {| c_world := c_world s; c_stdin := choice :: answer :: known :: rest |}
                  choice _ eq_refl)).
    cbn [c_world c_stdin]. unfold stry. rewrite Hbody. reflexivity.
  - intros (c & Hc & Hlow). apply String.eqb_neq. intros E.
    pose proof (hex_lowercase (digest (algo_of (strip choice)) (i_data f))) as Hall.
    fold file_hash in Hall. rewrite E in Hall. rewrite Forall_forall in Hall.
    rewrite (Hall c Hc) in Hlow. discriminate.
Qed.

End ShellOutcomes.

Section Turns.

Context `{HL : Hashlib} `{JL : JsonLib}.

Lemma core_returns {A} (c : M A) (s : console) (a : A) :
  result (c (c_world s)) = inl a ->
  core c s = ShellRun (inl a) {| c_world := final (c (c_world s)); c_stdin := c_stdin s |}
               (map Said (output (c (c_world s)))).
Proof. intros E. unfold core. rewrite E. reflexivity. Qed.

Lemma create_command_run (w : world) (directory name algo_choice : string)
  (rest : list string) :
  let output_file := if (strip name =? "")%string then "checksums.json"
                     else strip name in
  let r := create_checksum_file (strip directory) output_file
             (algorithm_of (strip algo_choice)) w in
  create_command {| c_world := w; c_stdin := directory :: name :: algo_choice :: rest |}
  = ShellRun (inl tt) {| c_world := final r; c_stdin := rest |}
      ([Asked AskDirectory; Asked AskOutput; ShAlgorithmsHeader;
        ShOptionMD5Long; ShOptionSHA1Long; ShOptionSHA256; Asked AskAlgorithm]
       ++ map Said (output r)).
Proof.
  intros output_file r.
  destruct (create_checksum_file_returns (strip directory) output_file
              (algorithm_of (strip algo_choice)) w) as [b Hb].
  fold r in Hb.
  unfold create_command.
  rewrite (sbind_ok _ _ _ _ _ _
             (input_line AskDirectory
                {| c_world := w; c_stdin := directory :: name :: algo_choice :: rest |}
                directory (name :: algo_choice :: rest) eq_refl)).
  cbv beta zeta. cbn [c_world].
  rewrite (sbind_ok _ _ _ _ _ _
             (input_line AskOutput
                {| c_world := w; c_stdin := name :: algo_choice :: rest |}
                name (algo_choice :: rest) eq_refl)).
  cbv beta zeta. cbn [c_world]. rewrite !sbind_say.
  rewrite (sbind_ok _ _ _ _ _ _
             (input_line AskAlgorithm {| c_world := w; c_stdin := algo_choice :: rest |}
                algo_choice rest eq_refl)).
  cbv beta zeta. cbn [c_world].
  fold output_file.
  rewrite (sbind_ok _ _ _ _ _ _
             (core_returns (create_checksum_file (strip directory) output_file
                              (algorithm_of (strip algo_choice)))
                {| c_world := w; c_stdin := rest |} b Hb)).
  cbn [sret s_result s_final s_output c_world c_stdin app]. fold r.
  rewrite app_nil_r. reflexivity.
Qed.

Lemma verify_command_run (w : world) (checksum_file directory : string)
  (rest : list string) :
  let target := if (strip directory =? "")%string then None
                else Some (strip directory) in
  let r := verify_integrity (strip checksum_file) target w in
  verify_command {| c_world := w; c_stdin := checksum_file :: directory :: rest |}
  = ShellRun (inl tt) {| c_world := w; c_stdin := rest |}
      ([Asked AskChecksumFile; Asked AskTargetDirectory] ++ map Said (output r)).
Proof.
  intros target r.
  destruct (verify_integrity_returns (strip checksum_file) target w) as [b Hb].
  pose proof (reader_verify_integrity (strip checksum_file) target w) as Hw.
  fold r in Hb, Hw.
  unfold verify_command.
  rewrite (sbind_ok _ _ _ _ _ _
             (input_line AskChecksumFile
                {| c_world := w; c_stdin := checksum_file :: directory :: rest |}
                checksum_file (directory :: rest) eq_refl)).
  cbv beta zeta. cbn [c_world].
  rewrite (sbind_ok _ _ _ _ _ _
             (input_line AskTargetDirectory
                {| c_world := w; c_stdin := directory :: rest |} directory rest eq_refl)).
  cbv beta zeta. cbn [c_world].
  assert (Hcore : (if (strip directory =? "")%string
                   then core (verify_integrity (strip checksum_file) None)
                   else core (verify_integrity (strip checksum_file)
                                (Some (strip directory))))
                    {| c_world := w; c_stdin := rest |}
                  = ShellRun (inl b) {| c_world := w; c_stdin := rest |}
                      (map Said (output r))).
  { subst r target. destruct (strip directory =? "")%string;
      unfold core; cbn [c_world c_stdin]; rewrite Hb, Hw; reflexivity. }
  rewrite (sbind_ok _ _ _ _ _ _ Hcore).
  cbn [sret s_result s_final s_output app]. rewrite app_nil_r. reflexivity.
Qed.

Lemma dispatch_create : dispatch "1" = (create_command ;~ sret true).
Proof. reflexivity. Qed.

Lemma dispatch_verify : dispatch "2" = (verify_command ;~ sret true).
Proof. reflexivity. Qed.

(** X22: choice 1 of the menu runs [create_checksum_file] on the directory,
    the output name and the algorithm typed, stripped of white space, with
    [checksums.json] for an empty name, and the loop goes on whatever the
    build returned. *)
Theorem create_turn (s : console) (choice directory name algo_choice : string)
  (rest : list string) :
  c_stdin s = choice :: directory :: name :: algo_choice :: rest ->
  strip choice = "1" ->
  let output_file := if (strip name =? "")%string then "checksums.json"
                     else strip name in
  let r := create_checksum_file (strip directory) output_file
             (algorithm_of (strip algo_choice)) (c_world s) in
  turn s
  = ShellRun (inl true) {| c_world := final r; c_stdin := rest |}
      (menu_lines
       ++ [Asked AskChoice; Asked AskDirectory; Asked AskOutput; ShAlgorithmsHeader;
           ShOptionMD5Long; ShOptionSHA1Long; ShOptionSHA256; Asked AskAlgorithm]
       ++ map Said (output r)).
Proof.
  intros Hin Hc output_file r.
  rewrite turn_run, Hin. cbv zeta. rewrite Hc, dispatch_create.
  rewrite (sbind_ok _ _ _ _ _ _
             (create_command_run (c_world s) directory name algo_choice rest)).
  cbn [sret s_result s_final s_output]. fold output_file. fold r.
  rewrite app_nil_r, <- !app_assoc. reflexivity.
Qed.

(** X23: choice 2 of the menu runs [verify_integrity] on the manifest typed,
    against the directory typed or, when that line is blank, the directory
    of the manifest; the loop goes on and the file system is unchanged. *)
Theorem verify_turn (s : console) (choice checksum_file directory : string)
  (rest : list string) :
  c_stdin s = choice :: checksum_file :: directory :: rest ->
  strip choice = "2" ->
  let target := if (strip directory =? "")%string then None
                else Some (strip directory) in
  let r := verify_integrity (strip checksum_file) target (c_world s) in
  turn s
  = ShellRun (inl true) {| c_world := c_world s; c_stdin := rest |}
      (menu_lines
       ++ [Asked AskChoice; Asked AskChecksumFile; Asked AskTargetDirectory]
       ++ map Said (output r)).
Proof.
  intros Hin Hc target r.
  rewrite turn_run, Hin. cbv zeta. rewrite Hc, dispatch_verify.
  rewrite (sbind_ok _ _ _ _ _ _
             (verify_command_run (c_world s) checksum_file directory rest)).
  cbn [sret s_result s_final s_output]. fold target. fold r.
  rewrite app_nil_r, <- !app_assoc. reflexivity.
Qed.

End Turns.

(* ===================================================================== *)
(** * The program run with [hashlib] and [json] *)
(* ===================================================================== *)

#[local] Existing Instance py_hashlib.
#[local] Existing Instance py_json.

(** Membership in the output of a run that can be computed. *)
Ltac in_output := vm_compute; repeat (first [left; reflexivity | right]).

(** The example of the specification: [a.txt] holds [hello], [b.txt]
    holds [world]; the build records their SHA-256 digests and the
    verification that follows passes both. *)
Example build_then_verify :
  create_checksum_file "/data" "checksums.json" "sha256" sample_world
  = Run (inl true) built_world
      [MsgScanning "/data"; MsgRule; MsgProcessed "a.txt"; MsgProcessed "sub/b.txt";
       MsgRule; MsgDone 2; MsgSavedTo "checksums.json"]
  /\ option_map manifest_entries
       (json_loads
          (string_of_list_byte
             match lookup (w_root built_world) ["home"; "u"; "checksums.json"] with
             | Some (File f) => i_data f
             | _ => []
             end))
     = Some (inl [("a.txt",
                   file_record
                     "2cf24dba5fb0a30e26e83b2ac5b9e29e1b161e5c1fa7425e73043362938b9824"
                     5 "1700000000.5");
                  ("sub/b.txt",
                   file_record
                     "486ea46224d1bb4fb680f34f7c9ad96a8f24ec88be73ea8e5a6c65260e9cb8a7"
                     5 "1700000000.5")])
  /\ verify_integrity "checksums.json" None built_world
     = Run (inl true) built_world
         [MsgVerifying (JStr "/data"); MsgAlgorithm (JStr "sha256"); MsgRule;
          MsgConfirmed "a.txt"; MsgConfirmed "sub/b.txt"; MsgRule; MsgResults;
          MsgTotal 2; MsgPassed 2; MsgFailed 0; MsgMissingCount 0; MsgAllIntact].
Proof. vm_compute. repeat split. Qed.

Example digests_of_hello :
  result (calculate_hash "/data/a.txt" (JStr "md5") sample_world)
    = inl "5d41402abc4b2a76b9719d911017c592"
  /\ result (calculate_hash "/data/a.txt" (JStr "sha1") sample_world)
     = inl "aaf4c61ddcc5e8a2dabede0f3b482cd9aea9434d"
  /\ result (calculate_hash "/data/a.txt" (JStr "sha256") sample_world)
     = inl "2cf24dba5fb0a30e26e83b2ac5b9e29e1b161e5c1fa7425e73043362938b9824".
Proof. vm_compute. repeat split. Qed.

(** The chunks of the encoder, on an object that holds an array and an
    empty object. *)
Example iterencode_chunks :
  json_iterencode
    (JObj [("k", JArr [JStr "x"; JInt 1; JArr []; JObj [("a", JNull)]]); ("e", JObj [])])
  = ["{"; pyjson.newline_indent 1; pyjson.quote "k"; ": ";
     "[" +++ pyjson.newline_indent 2 +++ pyjson.quote "x";
     "," +++ pyjson.newline_indent 2 +++ "1";
     "," +++ pyjson.newline_indent 2; "[]";
     "," +++ pyjson.newline_indent 2; "{"; pyjson.newline_indent 3;
     pyjson.quote "a"; ": "; "null"; pyjson.newline_indent 2; "}";
     pyjson.newline_indent 1; "]";
     "," +++ pyjson.newline_indent 1; pyjson.quote "e"; ": "; "{}";
     pyjson.newline_indent 0; "}"].
Proof. reflexivity. Qed.

(** The decoder on the constants that are not numbers and on the escapes
    of surrogates, and the codec on what they give: a pair of surrogates is
    one character of four bytes, which can be encoded, and a lone surrogate
    cannot. *)
Example json_loads_constants :
  map json_loads ["NaN"; "-Infinity"; "[1, Infinity]"; "-"; "01"; "nul"; "Nan"]
  = [Some (JFloat "NaN"); Some (JFloat "-Infinity");
     Some (JArr [JInt 1; JFloat "Infinity"]); None; None; None; None]
  /\ json_loads (String pyjson.dquote ("\ud83d\ude00" +++ String pyjson.dquote ""))
     = Some (JStr (String "240" (String "159" (String "152" (String "128" "")))))
  /\ json_loads (String pyjson.dquote ("\ud83d\u0041" +++ String pyjson.dquote ""))
     = Some (JStr (String "237" (String "160" (String "189" "A"))))
  /\ valid_utf8 (String "240" (String "159" (String "152" (String "128" "")))) = true
  /\ valid_utf8 (String "237" (String "160" (String "189" "A"))) = false
  /\ valid_utf8 stray_byte = false.
Proof. vm_compute. repeat split. Qed.

(** C8 at [/data/a.txt] of the sample world. *)
Lemma calculate_hash_digest_witness :
  stat sample_world "/data/a.txt"
    = inl (File {| i_data := bytes "hello"; i_mtime := "1700000000.5";
                   i_perm := true; i_fault := None |})
  /\ calculate_hash "/data/a.txt" (JStr "sha256") sample_world
     = Run (inl (hex (digest SHA256 (bytes "hello")))) sample_world [].
Proof.
  split; [reflexivity|].
  apply (calculate_hash_digest sample_world "/data/a.txt"
           {| i_data := bytes "hello"; i_mtime := "1700000000.5";
              i_perm := true; i_fault := None |} SHA256);
    reflexivity.
Defined.

(** C9 at a path that does not exist, with the tag [sha512]. *)
Lemma calculate_hash_unsupported_witness :
  stat sample_world "/data/nothing.bin" = inr FileNotFoundError
  /\ calculate_hash "/data/nothing.bin" (JStr "sha512") sample_world
     = Run (inr ValueError) sample_world [].
Proof.
  split; [reflexivity|].
  apply (calculate_hash_unsupported sample_world "/data/nothing.bin" (JStr "sha512"));
    discriminate.
Defined.

(** C2 at the run over the faulty world, which reports three failed and
    two missing entries. *)
Lemma verdict_intact_iff_witness :
  let r := verify_integrity "checksums.json" None faulty_world in
  In (MsgFailed 3) (output r) /\ In (MsgMissingCount 2) (output r)
  /\ result r = inl false /\ In MsgProblems (output r).
Proof.
  intros r.
  assert (Hf : In (MsgFailed 3) (output r)) by in_output.
  assert (Hm : In (MsgMissingCount 2) (output r)) by in_output.
  split; [exact Hf|]. split; [exact Hm|].
  destruct (verdict_intact_iff "checksums.json" None faulty_world 3 2 Hf Hm)
    as (Hiff & _ & Hno).
  apply Hno. intros Ht. apply Hiff in Ht. destruct Ht. discriminate.
Defined.


(** C4 at the entry of [locked.bin], which exists and may not be opened,
    followed by the entry of [worn.bin]: [failed] goes from 0 to 1 at the
    first entry, the three other counters stay, and the loop ends with the
    failure counted. *)
Lemma hash_failure_is_counted_witness :
  result (os_path_exists "/data/locked.bin" faulty_world) = inl true
  /\ result (calculate_hash "/data/locked.bin" (JStr "sha256") faulty_world)
     = inr PermissionError
  /\ verify_entry (JStr "/data") (JStr "sha256") ("locked.bin", record_of hello_sha256)
       {| passed := 1; failed := 0; missing := 0; total := 6 |} faulty_world
     = Run (inl {| passed := 1; failed := 1; missing := 0; total := 6 |}) faulty_world
         [MsgHashReadError "/data/locked.bin" PermissionError;
          MsgVerifyError "locked.bin" PermissionError]
  /\ exists vr' out,
       for_each [("locked.bin", record_of hello_sha256); ("worn.bin", record_of hello_sha256)]
         (verify_entry (JStr "/data") (JStr "sha256"))
         {| passed := 1; failed := 0; missing := 0; total := 6 |} faulty_world
       = Run (inl vr') faulty_world
           ([MsgHashReadError "/data/locked.bin" PermissionError;
             MsgVerifyError "locked.bin" PermissionError] ++ out)
       /\ 1 <= failed vr' /\ 1 <= passed vr' /\ total vr' = 6.
Proof.
  split; [reflexivity|]. split; [reflexivity|].
  destruct (hash_failure_is_counted "/data" (JStr "sha256")
              ("locked.bin", record_of hello_sha256)
              [("worn.bin", record_of hello_sha256)]
              {| passed := 1; failed := 0; missing := 0; total := 6 |}
              faulty_world PermissionError eq_refl eq_refl)
    as (E & _ & (vr' & out & El & Hf & Hp & _ & _ & Ht) & _).
  split; [exact E|]. exists vr', out. repeat split; assumption.
Defined.



(** C6 fails on the program: the value returned carries no count. The
    builds of [/data] and of [/home] both return [True], the first with two
    files processed and the second with none, so no function of the value
    returned gives the number of files processed. *)
Lemma returned_value_is_a_flag :
  ~ exists count_of : bool -> nat,
      forall directory_path n b,
        stat sample_world directory_path = inl n ->
        result (create_checksum_file directory_path "checksums.json" "sha256"
                  sample_world) = inl b ->
        In (MsgDone (count_of b))
          (output (create_checksum_file directory_path "checksums.json" "sha256"
                     sample_world)).
Proof.
  intros [count_of Hc].
  assert (H1 : In (MsgDone (count_of true))
                 (output (create_checksum_file "/data" "checksums.json" "sha256"
                            sample_world))).
  { eapply Hc; [|vm_compute]; reflexivity. }
  assert (H2 : In (MsgDone (count_of true))
                 (output (create_checksum_file "/home" "checksums.json" "sha256"
                            sample_world))).
  { eapply Hc; [|vm_compute]; reflexivity. }
  vm_compute in H1, H2.
  repeat (destruct H1 as [H1|H1]; [try discriminate H1|]); [|destruct H1].
  repeat (destruct H2 as [H2|H2]; [try discriminate H2|]); [|destruct H2].
  congruence.
Qed.

(** The amended C6 at the build of [/data] of the sample world, which is
    written whole, and at the build of [/data] of the legacy world, where
    the name of the second file cannot be encoded: both files are
    processed, the text written stops before that name, and the value is
    [False]. *)
Lemma manifest_written_not_returned_witness :
  (exists n, stat sample_world "/data" = inl n
   /\ exists files o p,
        scan "/data" "checksums.json" "sha256" (walk "/data" n) ([], 0) sample_world
        = Run (inl (files, 2)) sample_world o
        /\ dict_keys files = ["a.txt"; "sub/b.txt"]
        /\ create_checksum_file "/data" "checksums.json" "sha256" sample_world
           = Run (inl true)
               (written sample_world p
                  (list_byte_of_string
                     (json_dumps (checksums_of (w_now sample_world) "sha256" "/data" files))))
               ([MsgScanning "/data"; MsgRule] ++ o
                ++ [MsgRule; MsgDone 2; MsgSavedTo "checksums.json"]))
  /\ (exists n, stat legacy_world "/data" = inl n
      /\ exists files o p written_text tail,
           scan "/data" "checksums.json" "sha256" (walk "/data" n) ([], 0) legacy_world
           = Run (inl (files, 2)) legacy_world o
           /\ dict_keys files = ["a.txt"; "b" +++ stray_byte +++ ".txt"]
           /\ create_checksum_file "/data" "checksums.json" "sha256" legacy_world
              = Run (inl false)
                  (written legacy_world p (list_byte_of_string written_text))
                  ([MsgScanning "/data"; MsgRule] ++ o
                   ++ [MsgUnexpected UnicodeEncodeError])
           /\ written_text <> ""
           /\ json_iterencode (checksums_of (w_now legacy_world) "sha256" "/data" files)
              = encodable_prefix
                  (json_iterencode (checksums_of (w_now legacy_world) "sha256" "/data" files))
                ++ pyjson.quote ("b" +++ stray_byte +++ ".txt") :: tail
           /\ written_text
              = concat_chunks
                  (encodable_prefix
                     (json_iterencode
                        (checksums_of (w_now legacy_world) "sha256" "/data" files)))).
Proof.
  split.
  - eexists. split; [reflexivity|].
    match goal with |- context [walk "/data" ?n] =>
      destruct (manifest_written_not_returned "/data" "checksums.json" "sha256"
                  sample_world n eq_refl)
        as (files & file_count & o & Esc & _ & _ & _ & Hok & _)
    end.
    pose proof Esc as Esc'. vm_compute in Esc'. injection Esc' as Ef Ec Eo.
    subst files file_count o.
    match type of Hok with _ -> ?v = true -> _ =>
      assert (Hv : v = true) by (vm_compute; reflexivity)
    end.
    destruct (Hok eq_refl Hv) as (p & _ & E).
    eexists. eexists. exists p. split; [exact Esc|]. split; [reflexivity|exact E].
  - eexists. split; [reflexivity|].
    match goal with |- context [walk "/data" ?n] =>
      destruct (manifest_written_not_returned "/data" "checksums.json" "sha256"
                  legacy_world n eq_refl)
        as (files & file_count & o & Esc & _ & _ & _ & _ & Hbad & _)
    end.
    pose proof Esc as Esc'. vm_compute in Esc'. injection Esc' as Ef Ec Eo.
    subst files file_count o.
    match type of Hbad with _ -> ?v = false -> _ =>
      assert (Hv : v = false) by (vm_compute; reflexivity)
    end.
    destruct (Hbad eq_refl Hv) as (p & written_text & left_out & _ & E & Et & _).
    eexists. eexists. exists p, written_text.
    match type of Et with _ = concat_chunks (encodable_prefix ?chunks) =>
      exists (skipn (S (List.length (encodable_prefix chunks))) chunks)
    end.
    split; [exact Esc|]. split; [reflexivity|]. split; [exact E|].
    split; [rewrite Et; vm_compute; discriminate|].
    split; [vm_compute; reflexivity|exact Et].
Defined.

(** C10 fails on the program: [/home/u] is an empty directory, and its
    build into a directory that does not exist returns [False] and writes
    nothing. So does the build of the empty directory [/old?] of the
    legacy world, whose name cannot be encoded, although the output file
    can be opened: the text written stops before the name. *)
Lemma empty_directory_may_fail :
  stat sample_world "/home/u" = inl (Dir [])
  /\ nothing_hashable "/home/u" "/missing/checksums.json" "sha256" sample_world (Dir [])
  /\ create_checksum_file "/home/u" "/missing/checksums.json" "sha256" sample_world
     = Run (inl false) sample_world
         [MsgScanning "/home/u"; MsgRule; MsgUnexpected FileNotFoundError]
  /\ stat legacy_world ("/old" +++ stray_byte) = inl (Dir [])
  /\ writable legacy_world "checksums.json" = true
  /\ create_checksum_file ("/old" +++ stray_byte) "checksums.json" "sha256" legacy_world
     = Run (inl false)
         (written legacy_world ["home"; "u"; "checksums.json"]
            (list_byte_of_string
               (concat_chunks
                  (encodable_prefix
                     (json_iterencode
                        (checksums_of (w_now legacy_world) "sha256"
                           ("/old" +++ stray_byte) []))))))
         [MsgScanning ("/old" +++ stray_byte); MsgRule; MsgUnexpected UnicodeEncodeError].
Proof.
  split; [reflexivity|]. split; [|split; [vm_compute; reflexivity|]].
  - intros root dirs files file_name Ht Hf. simpl in Ht.
    destruct Ht as [Ht|[]]. injection Ht as <- <- <-. destruct Hf.
  - split; [reflexivity|]. split; [reflexivity|]. vm_compute. reflexivity.
Qed.

(** The amended C10 at the build of [/vault] of the barren world, whose
    four files are excluded by name or cannot be hashed, at the build of
    the empty [/home/u] of the sample world, and at the two builds that
    fail. *)
Lemma empty_directory_succeeds_witness :
  (exists n, stat barren_world "/vault" = inl n
   /\ nothing_hashable "/vault" "checksums.json" "sha256" barren_world n
   /\ writable barren_world "checksums.json" = true
   /\ output (create_checksum_file "/vault" "checksums.json" "sha256" barren_world)
      = [MsgScanning "/vault"; MsgRule;
         MsgSkipChecksums "checksums.json";
         MsgHashReadError "/vault/locked.bin" PermissionError;
         MsgProcessError "/vault/locked.bin" PermissionError;
         MsgHashNotFound "/vault/gone";
         MsgProcessError "/vault/gone" FileNotFoundError;
         MsgHashReadError "/vault/sub/worn.bin" OSError;
         MsgProcessError "/vault/sub/worn.bin" OSError;
         MsgRule; MsgDone 0; MsgSavedTo "checksums.json"]
   /\ exists p o,
        create_checksum_file "/vault" "checksums.json" "sha256" barren_world
        = Run (inl true)
            (written barren_world p
               (list_byte_of_string
                  (json_dumps
                     (JObj [("metadata", JObj [("created_at", JStr (w_now barren_world));
                                              ("algorithm", JStr "sha256");
                                              ("directory", JStr "/vault")]);
                            ("files", JObj [])]))))
            ([MsgScanning "/vault"; MsgRule] ++ o
             ++ [MsgRule; MsgDone 0; MsgSavedTo "checksums.json"]))
  /\ (exists p o,
        create_checksum_file "/home/u" "checksums.json" "sha256" sample_world
        = Run (inl true)
            (written sample_world p
               (list_byte_of_string
                  (json_dumps
                     (JObj [("metadata", JObj [("created_at", JStr (w_now sample_world));
                                              ("algorithm", JStr "sha256");
                                              ("directory", JStr "/home/u")]);
                            ("files", JObj [])]))))
            ([MsgScanning "/home/u"; MsgRule] ++ o
             ++ [MsgRule; MsgDone 0; MsgSavedTo "checksums.json"]))
  /\ (exists e o,
        create_checksum_file "/home/u" "/missing/checksums.json" "sha256" sample_world
        = Run (inl false) sample_world
            ([MsgScanning "/home/u"; MsgRule] ++ o ++ [MsgUnexpected e]))
  /\ (exists p o,
        create_checksum_file ("/old" +++ stray_byte) "checksums.json" "sha256" legacy_world
        = Run (inl false)
            (written legacy_world p
               (list_byte_of_string
                  (concat_chunks
                     (encodable_prefix
                        (json_iterencode
                           (JObj [("metadata",
                                   JObj [("created_at", JStr (w_now legacy_world));
                                         ("algorithm", JStr "sha256");
                                         ("directory", JStr ("/old" +++ stray_byte))]);
                                  ("files", JObj [])]))))))
            ([MsgScanning ("/old" +++ stray_byte); MsgRule] ++ o
             ++ [MsgUnexpected UnicodeEncodeError])).
Proof.
  assert (Hempty : forall top w, nothing_hashable top "checksums.json" "sha256" w (Dir [])
                   /\ nothing_hashable top "/missing/checksums.json" "sha256" w (Dir [])).
  { intros top w. split; intros root dirs files file_name Ht Hf; simpl in Ht;
      destruct Ht as [Ht|[]]; injection Ht as <- <- <-; destruct Hf. }
  split; [|split; [|split]].
  - eexists. split; [reflexivity|].
    match goal with |- nothing_hashable _ _ _ _ ?n /\ _ =>
      assert (Hnone : nothing_hashable "/vault" "checksums.json" "sha256" barren_world n)
    end.
    { intros root dirs files file_name Ht Hf. vm_compute in Ht.
      destruct Ht as [Ht|[Ht|[]]]; injection Ht as <- <- <-; cbn [In] in Hf.
      - destruct Hf as [<-|[<-|[<-|[]]]].
        + left. reflexivity.
        + right. exists PermissionError. vm_compute. reflexivity.
        + right. exists FileNotFoundError. vm_compute. reflexivity.
      - destruct Hf as [<-|[]]. right. exists OSError. vm_compute. reflexivity. }
    split; [exact Hnone|]. split; [reflexivity|]. split; [vm_compute; reflexivity|].
    match type of Hnone with nothing_hashable _ _ _ _ ?n =>
      destruct (empty_directory_succeeds "/vault" "checksums.json" "sha256" barren_world
                  n eq_refl Hnone) as (o & _ & Hok & _)
    end.
    destruct (Hok eq_refl eq_refl) as (p & _ & E). exists p, o. exact E.
  - destruct (empty_directory_succeeds "/home/u" "checksums.json" "sha256" sample_world
                (Dir []) eq_refl (proj1 (Hempty _ _))) as (o & _ & Hok & _).
    destruct (Hok eq_refl eq_refl) as (p & _ & E). exists p, o. exact E.
  - destruct (empty_directory_succeeds "/home/u" "/missing/checksums.json" "sha256"
                sample_world (Dir []) eq_refl (proj2 (Hempty _ _)))
      as (o & _ & _ & _ & Hclosed).
    destruct (Hclosed eq_refl) as (e & E). exists e, o. exact E.
  - destruct (empty_directory_succeeds ("/old" +++ stray_byte) "checksums.json" "sha256"
                legacy_world (Dir []) eq_refl (proj1 (Hempty _ _)))
      as (o & _ & _ & Hbad & _).
    destruct (Hbad eq_refl eq_refl) as (p & _ & E). exists p, o. exact E.
Defined.

(** C7 fails on the program when the output file is given by a path: the
    name of a file of the directory is compared with the whole of
    [output_file], so the manifest of an earlier build, which lies in the
    directory, is processed and gets an entry of its own. *)
Theorem manifest_lists_itself :
  let r := create_checksum_file "/data" "/data/checksums.json" "sha256" built_inside in
  result r = inl true
  /\ output r = [MsgScanning "/data"; MsgRule; MsgProcessed "a.txt";
                 MsgProcessed "checksums.json"; MsgProcessed "sub/b.txt";
                 MsgRule; MsgDone 3; MsgSavedTo "/data/checksums.json"]
  /\ resolve built_inside "/data/checksums.json" = inl ["data"; "checksums.json"]
  /\ exists text checksums items,
       result (read_text "/data/checksums.json" (final r)) = inl text
       /\ json_loads text = Some checksums
       /\ manifest_entries checksums = inl items
       /\ dict_keys items = ["a.txt"; "checksums.json"; "sub/b.txt"].
Proof.
  intros r. split; [vm_compute; reflexivity|]. split; [vm_compute; reflexivity|].
  split; [vm_compute; reflexivity|].
  eexists. eexists. eexists.
  split; [vm_compute; reflexivity|]. split; [vm_compute; reflexivity|].
  split; vm_compute; reflexivity.
Qed.

(** C1 fails on the program for the same reason: the second build hashes
    the manifest of the first and then replaces it, so the verification
    that follows at once, on a tree nobody touched, finds the entry of the
    manifest changed and reports the tree as compromised. A first build,
    which finds no manifest, verifies. *)
Theorem rebuild_does_not_verify :
  result (create_checksum_file "/data" "/data/checksums.json" "sha256" sample_world)
    = inl true
  /\ verify_integrity "/data/checksums.json" None built_inside
     = Run (inl true) built_inside
         [MsgVerifying (JStr "/data"); MsgAlgorithm (JStr "sha256"); MsgRule;
          MsgConfirmed "a.txt"; MsgConfirmed "sub/b.txt"; MsgRule; MsgResults;
          MsgTotal 2; MsgPassed 2; MsgFailed 0; MsgMissingCount 0; MsgAllIntact]
  /\ result (create_checksum_file "/data" "/data/checksums.json" "sha256" built_inside)
     = inl true
  /\ let r := verify_integrity "/data/checksums.json" None rebuilt_inside in
     result r = inl false
     /\ In (MsgViolated "checksums.json") (output r)
     /\ In (MsgTotal 3) (output r) /\ In (MsgPassed 2) (output r)
     /\ In (MsgFailed 1) (output r) /\ In (MsgMissingCount 0) (output r)
     /\ In MsgProblems (output r).
Proof.
  split; [vm_compute; reflexivity|]. split; [vm_compute; reflexivity|].
  split; [vm_compute; reflexivity|].
  intros r. split; [vm_compute; reflexivity|].
  split; [in_output|]. split; [in_output|].
  split; [in_output|]. split; [in_output|].
  split; in_output.
Qed.

(** The round trip at the second build of [/data] from inside it, under
    the bare name [checksums.json]: the manifest of the first build lies
    in the directory and is skipped, and the verification passes. *)
Lemma round_trip_bare_name_witness :
  wf_names (w_root built_by_name) = true
  /\ lookup (w_root built_by_name) ["data"; "checksums.json"] <> None
  /\ exists items : dict,
       verify_integrity "checksums.json" None
         (final (create_checksum_file "." "checksums.json" "sha256" built_by_name))
       = Run (inl true)
           (final (create_checksum_file "." "checksums.json" "sha256" built_by_name))
           (heading (JStr ".") (JStr "sha256")
            ++ map (fun e => MsgConfirmed (fst e)) items
            ++ summary_lines {| passed := List.length items; failed := 0; missing := 0;
                                total := List.length items |}).
Proof.
  split; [vm_compute; reflexivity|]. split; [vm_compute; discriminate|].
  apply (round_trip_bare_name built_by_name "." "checksums.json" "sha256" None).
  - vm_compute. reflexivity.
  - reflexivity.
  - left. reflexivity.
  - vm_compute. reflexivity.
  - intros n files file_count o Hs Esc.
    vm_compute in Hs. injection Hs as <-.
    vm_compute in Esc. injection Esc as <- _ _.
    vm_compute. reflexivity.
Defined.

Lemma calculate_hash_failure_reported_witness :
  result (calculate_hash "/data/locked.bin" (JStr (algorithm_tag SHA256)) faulty_world)
  = inr PermissionError
  /\ output (calculate_hash "/data/locked.bin" (JStr (algorithm_tag SHA256)) faulty_world)
     = [MsgHashReadError "/data/locked.bin" PermissionError].
Proof.
  assert (H : result (calculate_hash "/data/locked.bin" (JStr (algorithm_tag SHA256))
                        faulty_world) = inr PermissionError) by (vm_compute; reflexivity).
  split; [exact H|].
  destruct (calculate_hash_failure_reported "/data/locked.bin" SHA256 faulty_world
              PermissionError H) as [_ [[E _]|[_ E]]]; [discriminate E|exact E].
Defined.

Lemma digest_text_length_witness :
  exists a, JStr "md5" = JStr (algorithm_tag a)
            /\ String.length "5d41402abc4b2a76b9719d911017c592" = hex_digits a.
Proof.
  apply (digest_text_length "/data/a.txt" (JStr "md5") sample_world).
  vm_compute. reflexivity.
Defined.



Lemma manifest_describes_files_witness :
  exists p files,
    resolve sample_world "checksums.json" = inl p
    /\ final (create_checksum_file "/data" "checksums.json" "sha256" sample_world)
       = written sample_world p
           (list_byte_of_string
              (json_dumps (checksums_of (w_now sample_world) "sha256" "/data" files)))
    /\ forall rel_path info, In (rel_path, info) files ->
         exists f a,
           stat sample_world (posixpath.join "/data" rel_path) = inl (File f)
           /\ readable f = true
           /\ "sha256" = algorithm_tag a
           /\ info = file_record (hex (digest a (i_data f)))
                       (Z.of_nat (List.length (i_data f))) (i_mtime f)
           /\ basename rel_path <> "checksums.json".
Proof.
  apply (manifest_describes_files sample_world "/data" "checksums.json" "sha256").
  - vm_compute. reflexivity.
  - vm_compute. reflexivity.
Defined.

Lemma readable_files_are_listed_witness :
  exists p files,
    resolve sample_world "checksums.json" = inl p
    /\ final (create_checksum_file "/data" "checksums.json" (algorithm_tag SHA256)
                sample_world)
       = written sample_world p
           (list_byte_of_string
              (json_dumps (checksums_of (w_now sample_world) (algorithm_tag SHA256)
                             "/data" files)))
    /\ dict_get files (join_sep (["sub"] ++ ["b.txt"]))
       = Some (file_record (hex (digest SHA256 (bytes "world")))
                 (Z.of_nat (List.length (bytes "world"))) "1700000000.5").
Proof.
  apply (readable_files_are_listed sample_world "/data" "checksums.json" SHA256
           (Dir [("a.txt", regular "hello"); ("sub", Dir [("b.txt", regular "world")])])
           ["sub"] "b.txt"
           {| i_data := bytes "world"; i_mtime := "1700000000.5";
              i_perm := true; i_fault := None |}).
  - vm_compute. reflexivity.
  - vm_compute. reflexivity.
  - reflexivity.
  - reflexivity.
  - discriminate.
  - vm_compute. reflexivity.
Defined.

Lemma bare_output_never_listed_witness :
  lookup (w_root built_by_name) ["data"; "checksums.json"] <> None
  /\ exists files,
       final (create_checksum_file "." "checksums.json" "sha256" built_by_name)
       = written built_by_name (w_cwd built_by_name ++ ["checksums.json"])
           (list_byte_of_string
              (json_dumps (checksums_of (w_now built_by_name) "sha256" "." files)))
       /\ forall rel_path, In rel_path (dict_keys files) ->
            exists q f,
              resolve built_by_name (posixpath.join "." rel_path) = inl q
              /\ lookup (w_root built_by_name) q = Some (File f)
              /\ q <> w_cwd built_by_name ++ ["checksums.json"].
Proof.
  split; [vm_compute; discriminate|].
  apply (bare_output_never_listed built_by_name "." "checksums.json" "sha256").
  - vm_compute. reflexivity.
  - reflexivity.
  - vm_compute. reflexivity.
Defined.

Lemma unknown_algorithm_builds_nothing_witness :
  exists p o,
    resolve sample_world "checksums.json" = inl p
    /\ create_checksum_file "/data" "checksums.json" "sha512" sample_world
       = Run (inl true)
           (written sample_world p
              (list_byte_of_string
                 (json_dumps (checksums_of (w_now sample_world) "sha512" "/data" []))))
           ([MsgScanning "/data"; MsgRule] ++ o
            ++ [MsgRule; MsgDone 0; MsgSavedTo "checksums.json"])
    /\ processed_paths o = []
    /\ forall root dirs files file_name,
         In (root, dirs, files)
           (walk "/data"
              (Dir [("a.txt", regular "hello"); ("sub", Dir [("b.txt", regular "world")])])) ->
         In file_name files ->
         file_name <> "checksums.json" ->
         In (MsgProcessError (posixpath.join root file_name) ValueError) o.
Proof.
  apply (unknown_algorithm_builds_nothing "/data" "checksums.json" "sha512" sample_world
           (Dir [("a.txt", regular "hello"); ("sub", Dir [("b.txt", regular "world")])])).
  - discriminate.
  - discriminate.
  - discriminate.
  - vm_compute. reflexivity.
  - vm_compute. reflexivity.
  - vm_compute. reflexivity.
Defined.

Lemma relative_path_round_trip_witness :
  os_path_relpath "/data/sub/b.txt" "/data" sample_world
  = Run (inl "sub/b.txt") sample_world []
  /\ os_path_join (JStr "/data") "sub/b.txt" sample_world
     = Run (inl "/data/sub/b.txt") sample_world [].
Proof.
  apply (relative_path_round_trip sample_world "/data" ["sub"; "b.txt"]).
  - discriminate.
  - discriminate.
  - repeat constructor.
Defined.

Lemma build_then_verify_passes_witness :
  lookup (w_root built_by_name) ["data"; "checksums.json"] <> None
  /\ exists items : dict,
       verify_integrity "checksums.json" None
         (final (create_checksum_file "." "checksums.json" "sha256" built_by_name))
       = Run (inl true)
           (final (create_checksum_file "." "checksums.json" "sha256" built_by_name))
           (heading (JStr ".") (JStr "sha256")
            ++ map (fun e => MsgConfirmed (fst e)) items
            ++ summary_lines {| passed := List.length items; failed := 0; missing := 0;
                                total := List.length items |}).
Proof.
  split; [vm_compute; discriminate|].
  apply (build_then_verify_passes built_by_name "." "checksums.json" "sha256" None).
  - vm_compute. reflexivity.
  - vm_compute. reflexivity.
  - reflexivity.
  - left. reflexivity.
  - vm_compute. reflexivity.
Defined.

Lemma main_changes_nothing_unasked_witness :
  c_world (s_final (main reading_session)) = built_world
  /\ s_result (main reading_session) = inl tt.
Proof.
  split; [|vm_compute; reflexivity].
  apply (main_changes_nothing_unasked reading_session).
  vm_compute. intros H. repeat (destruct H as [H|H]; [discriminate H|]). exact H.
Defined.

Lemma check_single_file_missing_witness :
  check_single_file missing_console
  = ShellRun (inl tt) {| c_world := sample_world; c_stdin := ["4"] |}
      [Asked AskFilePath; ShFileNotFound "/data/none.txt"].
Proof.
  apply (check_single_file_missing missing_console "  /data/none.txt " ["4"]
           FileNotFoundError).
  - reflexivity.
  - vm_compute. reflexivity.
Defined.

Lemma check_single_file_compares_witness :
  check_single_file compare_console
  = ShellRun (inl tt) {| c_world := sample_world; c_stdin := [] |}
      [Asked AskFilePath; ShAlgorithmsHeader; ShOptionMD5; ShOptionSHA1;
       ShOptionSHA256; Asked AskAlgorithm; ShBlankDoubleRule; ShFile "/data/a.txt";
       ShSize 5; ShAlgorithm "SHA256"; ShHash hello_sha256; ShDoubleRule;
       Asked AskCompare; Asked AskKnownHash; ShHashesDiffer].
Proof.
  destruct (check_single_file_compares compare_console " /data/a.txt" "3" " Y "
              "2CF24DBA5FB0A30E26E83B2AC5B9E29E1B161E5C1FA7425E73043362938B9824" []
              {| i_data := bytes "hello"; i_mtime := "1700000000.5";
                 i_perm := true; i_fault := None |})
    as [E Hdiffer].
  - reflexivity.
  - vm_compute. reflexivity.
  - reflexivity.
  - vm_compute. reflexivity.
  - rewrite E, Hdiffer.
    + vm_compute. reflexivity.
    + exists "C"%char. split; [vm_compute; tauto|reflexivity].
Defined.

Lemma create_turn_witness :
  let r := create_checksum_file "/data" "checksums.json" "sha1" sample_world in
  turn create_console
  = ShellRun (inl true) {| c_world := final r; c_stdin := [""; "4"] |}
      (menu_lines
       ++ [Asked AskChoice; Asked AskDirectory; Asked AskOutput; ShAlgorithmsHeader;
           ShOptionMD5Long; ShOptionSHA1Long; ShOptionSHA256; Asked AskAlgorithm]
       ++ map Said (output r))
  /\ result r = inl true.
Proof.
  split; [|vm_compute; reflexivity].
  apply (create_turn create_console "1" " /data " "" "2" [""; "4"]); reflexivity.
Defined.

Lemma verify_turn_witness :
  let r := verify_integrity "checksums.json" None built_world in
  turn verify_console
  = ShellRun (inl true) {| c_world := built_world; c_stdin := [""; "4"] |}
      (menu_lines
       ++ [Asked AskChoice; Asked AskChecksumFile; Asked AskTargetDirectory]
       ++ map Said (output r))
  /\ result r = inl true.
Proof.
  split; [|vm_compute; reflexivity].
  apply (verify_turn verify_console " 2" "checksums.json" "  " [""; "4"]); reflexivity.
Defined.
